(** * ECS: sparse-set component storage, registry and query engine

    A shallow embedding of [ECS.h] (the [SparseSet] template, the [World]
    registry and its [Query] overloads) together with the part of
    [Array.h] the storage relies on, and the properties proved about it.

    Conventions of the embedding.
    - [Entity] and every other [uint32_t] is an [N]; [int] is a [Z].  The
      implicit conversions the C++ performs between the two are written
      out ([u32_of_int], [int_of_u32]).
    - An [Array<T>] built by [Array(int)] is the list of its elements; its
      [m_size] is the length of the list.  [operator[]] does no bounds
      check in a release build and asserts in a debug build, so an access
      outside [0, m_size) has no defined result: it is the outcome
      [Fault] of the [run] monad.  Signed overflow is a [Fault] as well.
    - A [T*] or [T&] handed out by the storage is the position it refers
      to in the [data] array. *)

From Stdlib Require Import ZArith NArith List Lia Bool.
From stdpp Require Import base tactics option list numbers.

Open Scope Z_scope.

(** ** Outcomes of a computation *)

Inductive run (A : Type) : Type :=
  | Ok (a : A)
  | Fault.
Arguments Ok {A} a.
Arguments Fault {A}.

#[global] Instance run_ret : MRet run := fun _ a => Ok a.
#[global] Instance run_bind : MBind run := fun _ _ f m =>
  match m with Ok a => f a | Fault => Fault end.

(** [for (int i = lo; i < hi; i++) body] for a body that leaves [hi]
    alone. *)
Fixpoint for_loop {S : Type} (n : nat) (i : Z) (body : Z -> S -> run S) (s : S)
  : run S :=
  match n with
  | O => Ok s
  | Datatypes.S n' => s' ← body i s; for_loop n' (i + 1) body s'
  end.

Definition for_range {S : Type} (lo hi : Z) (body : Z -> S -> run S) (s : S)
  : run S :=
  for_loop (Z.to_nat (hi - lo)) lo body s.

(** ** Machine integers *)

Definition INT_MAX : Z := 2 ^ 31 - 1.
Definition INT_MIN : Z := - 2 ^ 31.

(** The value of an [int] expression; overflow is undefined. *)
Definition as_int (z : Z) : run Z :=
  if decide (INT_MIN <= z <= INT_MAX) then Ok z else Fault.

(** [int] to [uint32_t]. *)
Definition u32_of_int (z : Z) : N := Z.to_N (z mod 2 ^ 32).

(** [uint32_t] to [int] (the index parameter of [operator[]]). *)
Definition int_of_u32 (n : N) : Z :=
  if decide (Z.of_N n < 2 ^ 31) then Z.of_N n else Z.of_N n - 2 ^ 32.

(** [x++] on a [uint32_t]. *)
Definition u32_succ (n : N) : N := ((n + 1) mod 2 ^ 32)%N.

(** ** Array.h *)

(** [Array(int p_size)]: [p_size] value-initialised elements, none when
    [p_size <= 0]. *)
Definition Array_new {A : Type} `{Inhabited A} (p_size : Z) : list A :=
  replicate (Z.to_nat p_size) inhabitant.

(** [a[p_index]] read. *)
Definition aget {A : Type} (a : list A) (p_index : Z) : run A :=
  if decide (0 <= p_index) then
    match a !! Z.to_nat p_index with
    | Some x => Ok x
    | None => Fault
    end
  else Fault.

(** [a[p_index] = x]. *)
Definition aset {A : Type} (a : list A) (p_index : Z) (x : A) : run (list A) :=
  if decide (0 <= p_index < Z.of_nat (length a)) then
    Ok (<[Z.to_nat p_index := x]> a)
  else Fault.

(** ** ECS.h: entities *)

Abbreviation Entity := N (only parsing).
Definition NULL_ENTITY : Entity := 0%N.
Definition MAX_ENTITIES : Z := 10000.

#[global] Instance N_inhabited_zero : Inhabited N := populate 0%N.

(** ** ECS.h: SparseSet<T> *)

Record SparseSet (T : Type) : Type := mkSparseSet {
  sparse : list N;        (* entity -> dense index *)
  dense : list Entity;
  data : list T;
  count : Z;
  capacity : Z
}.
Arguments mkSparseSet {T}.
Arguments sparse {T}.
Arguments dense {T}.
Arguments data {T}.
Arguments count {T}.
Arguments capacity {T}.

Definition INVALID_INDEX : N := u32_of_int (MAX_ENTITIES + 1).

Section SparseSet.
Context {T : Type} `{Inhabited T}.

Definition with_data (s : SparseSet T) (d : list T) : SparseSet T :=
  mkSparseSet (sparse s) (dense s) d (count s) (capacity s).

Definition Grow (s : SparseSet T) : run (SparseSet T) :=
  newCapacity ← (if decide (capacity s = 0) then Ok 64
                 else as_int (capacity s * 2));
  let newDense : list Entity := Array_new newCapacity in
  let newData : list T := Array_new newCapacity in
  '(newDense, newData) ←
    for_range 0 (count s)
      (fun i '(nd, ndata) =>
         d ← aget (dense s) i;
         nd' ← aset nd i d;
         x ← aget (data s) i;
         ndata' ← aset ndata i x;
         Ok (nd', ndata'))
      (newDense, newData);
  Ok (mkSparseSet (sparse s) newDense newData (count s) newCapacity).

Definition SparseSet_new : run (SparseSet T) :=
  sp ← for_range 0 MAX_ENTITIES
         (fun i sp => aset sp i INVALID_INDEX)
         (Array_new MAX_ENTITIES);
  Ok (mkSparseSet sp (Array_new 0) (Array_new 0) 0 0).

Definition Has (s : SparseSet T) (entity : Entity) : run bool :=
  if decide (u32_of_int MAX_ENTITIES <= entity)%N then Ok false
  else
    index ← aget (sparse s) (int_of_u32 entity);
    if decide (index < u32_of_int (count s))%N then
      d ← aget (dense s) (int_of_u32 index);
      Ok (bool_decide (d = entity))
    else Ok false.

Definition Add (s : SparseSet T) (entity : Entity) (component : T)
  : run (SparseSet T) :=
  if decide (u32_of_int MAX_ENTITIES <= entity)%N then Ok s
  else
    h ← Has s entity;
    if h : bool then
      index ← aget (sparse s) (int_of_u32 entity);
      data' ← aset (data s) (int_of_u32 index) component;
      Ok (with_data s data')
    else
      s ← (if decide (count s >= capacity s) then Grow s else Ok s);
      sparse' ← aset (sparse s) (int_of_u32 entity) (u32_of_int (count s));
      dense' ← aset (dense s) (count s) entity;
      data' ← aset (data s) (count s) component;
      count' ← as_int (count s + 1);
      Ok (mkSparseSet sparse' dense' data' count' (capacity s)).

Definition Remove (s : SparseSet T) (entity : Entity) : run (SparseSet T) :=
  h ← Has s entity;
  if negb h then Ok s
  else
    index ← aget (sparse s) (int_of_u32 entity);
    last ← as_int (count s - 1);
    let lastIndex := u32_of_int last in
    s ← (if decide (index <> lastIndex) then
           lastEntity ← aget (dense s) (int_of_u32 lastIndex);
           dense' ← aset (dense s) (int_of_u32 index) lastEntity;
           x ← aget (data s) (int_of_u32 lastIndex);
           data' ← aset (data s) (int_of_u32 index) x;
           sparse' ← aset (sparse s) (int_of_u32 lastEntity) index;
           Ok (mkSparseSet sparse' dense' data' (count s) (capacity s))
         else Ok s);
    sparse' ← aset (sparse s) (int_of_u32 entity) INVALID_INDEX;
    count' ← as_int (count s - 1);
    Ok (mkSparseSet sparse' (dense s) (data s) count' (capacity s)).

(** [Get] returns [&data[sparse[entity]]]: the position in [data], or
    [None] for [nullptr]. *)
Definition Get (s : SparseSet T) (entity : Entity) : run (option Z) :=
  h ← Has s entity;
  if negb h then Ok None
  else
    index ← aget (sparse s) (int_of_u32 entity);
    _ ← aget (data s) (int_of_u32 index);
    Ok (Some (int_of_u32 index)).

(** Reading and writing through a [T*] / [T&] into [data]. *)
Definition load (s : SparseSet T) (p : Z) : run T := aget (data s) p.

Definition store (s : SparseSet T) (p : Z) (x : T) : run (SparseSet T) :=
  data' ← aset (data s) p x;
  Ok (with_data s data').

(** [*Get(entity)]: the component the returned pointer refers to. *)
Definition GetValue (s : SparseSet T) (entity : Entity) : run (option T) :=
  p ← Get s entity;
  match p with
  | None => Ok None
  | Some p => x ← load s p; Ok (Some x)
  end.

Definition Count (s : SparseSet T) : Z := count s.

(** [GetData(index)] returns [data[index]] by reference. *)
Definition GetData (s : SparseSet T) (index : Z) : run Z :=
  _ ← aget (data s) index;
  Ok index.

Definition GetEntity (s : SparseSet T) (index : Z) : run Entity :=
  aget (dense s) index.

Definition Clear (s : SparseSet T) : run (SparseSet T) :=
  sparse' ← for_range 0 (count s)
              (fun i sp =>
                 d ← aget (dense s) i;
                 aset sp (int_of_u32 d) INVALID_INDEX)
              (sparse s);
  Ok (mkSparseSet sparse' (dense s) (data s) 0 (capacity s)).

End SparseSet.

(** ** Well-formed and reachable storages *)

Section SparseSetInvariant.
Context {T : Type} `{Inhabited T}.

(** The representation invariant of a storage: the index array and the
    dense array point at each other below [count], and the buffers have
    the sizes the fields announce. *)
Record Inv (s : SparseSet T) : Prop := mkInv {
  inv_sparse_len : Z.of_nat (length (sparse s)) = MAX_ENTITIES;
  inv_dense_len : Z.of_nat (length (dense s)) = capacity s;
  inv_data_len : Z.of_nat (length (data s)) = capacity s;
  inv_count : 0 <= count s <= capacity s;
  inv_capacity : capacity s <= 2 * MAX_ENTITIES;
  inv_sparse : forall (e : Entity) (idx : N),
      aget (sparse s) (Z.of_N e) = Ok idx -> idx <> INVALID_INDEX ->
      Z.of_N idx < count s /\ aget (dense s) (Z.of_N idx) = Ok e;
  inv_dense : forall (i : Z) (e : Entity),
      0 <= i < count s -> aget (dense s) i = Ok e ->
      aget (sparse s) (Z.of_N e) = Ok (Z.to_N i)
}.

(** The storages a program can hold: built by the constructor and
    changed by [Add], [Remove], [Clear] and by writes through the
    references [Get] and [GetData] hand out. *)
Inductive reachable : SparseSet T -> Prop :=
  | reach_new s :
      SparseSet_new = Ok s -> reachable s
  | reach_Add s entity component s' :
      reachable s -> Add s entity component = Ok s' -> reachable s'
  | reach_Remove s entity s' :
      reachable s -> Remove s entity = Ok s' -> reachable s'
  | reach_Clear s s' :
      reachable s -> Clear s = Ok s' -> reachable s'
  | reach_store s p x s' :
      reachable s -> store s p x = Ok s' -> reachable s'.

(** The storage right after construction, in closed form. *)
Definition empty_set : SparseSet T :=
  mkSparseSet (replicate (Z.to_nat MAX_ENTITIES) INVALID_INDEX) [] [] 0 0.

(** The entities in dense order: [dense[0 .. count)]. *)
Definition entities (s : SparseSet T) : list Entity :=
  take (Z.to_nat (count s)) (dense s).

(** [e] is present and its component lives at dense position [idx]. *)
Definition slot_of (s : SparseSet T) (e : Entity) (idx : N) : Prop :=
  aget (sparse s) (Z.of_N e) = Ok idx /\ idx <> INVALID_INDEX.

(** [Has] as a plain boolean (a faulting probe counts as absent). *)
Definition member (s : SparseSet T) (e : Entity) : bool :=
  match Has s e with Ok b => b | Fault => false end.

(** Two storages that differ in component values only. *)
Definition same_shape (s s' : SparseSet T) : Prop :=
  sparse s' = sparse s /\ dense s' = dense s /\ count s' = count s /\
  capacity s' = capacity s /\ length (data s') = length (data s).

End SparseSetInvariant.

(** ** ECS.h: the Query overloads *)

(** The steps of a query, recorded in the order they are made: the
    [Get] calls that probe a non-driving storage ([slot] is the position
    of its kind among the template arguments) and the calls of the
    visitor. *)
Inductive event : Type :=
  | Probe (slot : nat) (entity : Entity)
  | Visit (entity : Entity).

Definition visits (tr : list event) : list Entity :=
  flat_map (fun ev => match ev with Visit e => [e] | Probe _ _ => [] end) tr.

(** The events of a join that walks [es], probes the slots [slots] for
    every entity and visits the entities that satisfy [ok]. *)
Definition join_trace (slots : list nat) (ok : Entity -> bool)
    (es : list Entity) : list event :=
  flat_map (fun e => map (fun k => Probe k e) slots
                     ++ (if ok e then [Visit e] else [])) es.

(** The loops over the storages [GetSparseSet<Ti>()] returned.  The
    visitor receives the entity and a reference to each component; it is
    modelled by the new component values it leaves behind and by the
    state [St] it captures.  It cannot add or remove components, so
    [Count()] of the driving storage is the same at every test of the
    loop condition. *)
Section Query.
Context {St T1 T2 T3 T4 T5 T6 : Type}.

Definition Query1 (set1 : SparseSet T1)
    (func : Entity -> T1 -> St -> T1 * St) (st : St)
  : run (SparseSet T1 * St * list event) :=
  for_range 0 (Count set1)
    (fun i '(set1, st, tr) =>
       entity ← GetEntity set1 i;
       p1 ← GetData set1 i;
       x1 ← load set1 p1;
       let '(y1, st) := func entity x1 st in
       set1 ← store set1 p1 y1;
       Ok (set1, st, tr ++ [Visit entity]))
    (set1, st, []).

Definition Query2 (set1 : SparseSet T1) (set2 : SparseSet T2)
    (func : Entity -> T1 -> T2 -> St -> T1 * T2 * St) (st : St)
  : run (SparseSet T1 * SparseSet T2 * St * list event) :=
  if decide (Count set1 <= Count set2) then
    for_range 0 (Count set1)
      (fun i '(set1, set2, st, tr) =>
         entity ← GetEntity set1 i;
         comp2 ← Get set2 entity;
         let tr := tr ++ [Probe 2 entity] in
         match comp2 with
         | Some p2 =>
             p1 ← GetData set1 i;
             x1 ← load set1 p1;
             x2 ← load set2 p2;
             let '(y1, y2, st) := func entity x1 x2 st in
             set1 ← store set1 p1 y1;
             set2 ← store set2 p2 y2;
             Ok (set1, set2, st, tr ++ [Visit entity])
         | None => Ok (set1, set2, st, tr)
         end)
      (set1, set2, st, [])
  else
    for_range 0 (Count set2)
      (fun i '(set1, set2, st, tr) =>
         entity ← GetEntity set2 i;
         comp1 ← Get set1 entity;
         let tr := tr ++ [Probe 1 entity] in
         match comp1 with
         | Some p1 =>
             p2 ← GetData set2 i;
             x1 ← load set1 p1;
             x2 ← load set2 p2;
             let '(y1, y2, st) := func entity x1 x2 st in
             set1 ← store set1 p1 y1;
             set2 ← store set2 p2 y2;
             Ok (set1, set2, st, tr ++ [Visit entity])
         | None => Ok (set1, set2, st, tr)
         end)
      (set1, set2, st, []).

Definition Query3 (set1 : SparseSet T1) (set2 : SparseSet T2)
    (set3 : SparseSet T3)
    (func : Entity -> T1 -> T2 -> T3 -> St -> T1 * T2 * T3 * St) (st : St)
  : run (SparseSet T1 * SparseSet T2 * SparseSet T3 * St * list event) :=
  for_range 0 (Count set1)
    (fun i '(set1, set2, set3, st, tr) =>
       entity ← GetEntity set1 i;
       comp2 ← Get set2 entity;
       comp3 ← Get set3 entity;
       let tr := tr ++ [Probe 2 entity; Probe 3 entity] in
       match comp2, comp3 with
       | Some p2, Some p3 =>
           p1 ← GetData set1 i;
           x1 ← load set1 p1;
           x2 ← load set2 p2;
           x3 ← load set3 p3;
           let '(y1, y2, y3, st) := func entity x1 x2 x3 st in
           set1 ← store set1 p1 y1;
           set2 ← store set2 p2 y2;
           set3 ← store set3 p3 y3;
           Ok (set1, set2, set3, st, tr ++ [Visit entity])
       | _, _ => Ok (set1, set2, set3, st, tr)
       end)
    (set1, set2, set3, st, []).

Definition Query4 (set1 : SparseSet T1) (set2 : SparseSet T2)
    (set3 : SparseSet T3) (set4 : SparseSet T4)
    (func : Entity -> T1 -> T2 -> T3 -> T4 -> St -> T1 * T2 * T3 * T4 * St)
    (st : St)
  : run (SparseSet T1 * SparseSet T2 * SparseSet T3 * SparseSet T4 * St
         * list event) :=
  for_range 0 (Count set1)
    (fun i '(set1, set2, set3, set4, st, tr) =>
       entity ← GetEntity set1 i;
       comp2 ← Get set2 entity;
       comp3 ← Get set3 entity;
       comp4 ← Get set4 entity;
       let tr := tr ++ [Probe 2 entity; Probe 3 entity; Probe 4 entity] in
       match comp2, comp3, comp4 with
       | Some p2, Some p3, Some p4 =>
           p1 ← GetData set1 i;
           x1 ← load set1 p1;
           x2 ← load set2 p2;
           x3 ← load set3 p3;
           x4 ← load set4 p4;
           let '(y1, y2, y3, y4, st) := func entity x1 x2 x3 x4 st in
           set1 ← store set1 p1 y1;
           set2 ← store set2 p2 y2;
           set3 ← store set3 p3 y3;
           set4 ← store set4 p4 y4;
           Ok (set1, set2, set3, set4, st, tr ++ [Visit entity])
       | _, _, _ => Ok (set1, set2, set3, set4, st, tr)
       end)
    (set1, set2, set3, set4, st, []).

Definition Query5 (set1 : SparseSet T1) (set2 : SparseSet T2)
    (set3 : SparseSet T3) (set4 : SparseSet T4) (set5 : SparseSet T5)
    (func : Entity -> T1 -> T2 -> T3 -> T4 -> T5 -> St ->
            T1 * T2 * T3 * T4 * T5 * St)
    (st : St)
  : run (SparseSet T1 * SparseSet T2 * SparseSet T3 * SparseSet T4
         * SparseSet T5 * St * list event) :=
  for_range 0 (Count set1)
    (fun i '(set1, set2, set3, set4, set5, st, tr) =>
       entity ← GetEntity set1 i;
       comp2 ← Get set2 entity;
       comp3 ← Get set3 entity;
       comp4 ← Get set4 entity;
       comp5 ← Get set5 entity;
       let tr := tr ++ [Probe 2 entity; Probe 3 entity; Probe 4 entity;
                        Probe 5 entity] in
       match comp2, comp3, comp4, comp5 with
       | Some p2, Some p3, Some p4, Some p5 =>
           p1 ← GetData set1 i;
           x1 ← load set1 p1;
           x2 ← load set2 p2;
           x3 ← load set3 p3;
           x4 ← load set4 p4;
           x5 ← load set5 p5;
           let '(y1, y2, y3, y4, y5, st) := func entity x1 x2 x3 x4 x5 st in
           set1 ← store set1 p1 y1;
           set2 ← store set2 p2 y2;
           set3 ← store set3 p3 y3;
           set4 ← store set4 p4 y4;
           set5 ← store set5 p5 y5;
           Ok (set1, set2, set3, set4, set5, st, tr ++ [Visit entity])
       | _, _, _, _ => Ok (set1, set2, set3, set4, set5, st, tr)
       end)
    (set1, set2, set3, set4, set5, st, []).

Definition Query6 (set1 : SparseSet T1) (set2 : SparseSet T2)
    (set3 : SparseSet T3) (set4 : SparseSet T4) (set5 : SparseSet T5)
    (set6 : SparseSet T6)
    (func : Entity -> T1 -> T2 -> T3 -> T4 -> T5 -> T6 -> St ->
            T1 * T2 * T3 * T4 * T5 * T6 * St)
    (st : St)
  : run (SparseSet T1 * SparseSet T2 * SparseSet T3 * SparseSet T4
         * SparseSet T5 * SparseSet T6 * St * list event) :=
  for_range 0 (Count set1)
    (fun i '(set1, set2, set3, set4, set5, set6, st, tr) =>
       entity ← GetEntity set1 i;
       comp2 ← Get set2 entity;
       comp3 ← Get set3 entity;
       comp4 ← Get set4 entity;
       comp5 ← Get set5 entity;
       comp6 ← Get set6 entity;
       let tr := tr ++ [Probe 2 entity; Probe 3 entity; Probe 4 entity;
                        Probe 5 entity; Probe 6 entity] in
       match comp2, comp3, comp4, comp5, comp6 with
       | Some p2, Some p3, Some p4, Some p5, Some p6 =>
           p1 ← GetData set1 i;
           x1 ← load set1 p1;
           x2 ← load set2 p2;
           x3 ← load set3 p3;
           x4 ← load set4 p4;
           x5 ← load set5 p5;
           x6 ← load set6 p6;
           let '(y1, y2, y3, y4, y5, y6, st) :=
             func entity x1 x2 x3 x4 x5 x6 st in
           set1 ← store set1 p1 y1;
           set2 ← store set2 p2 y2;
           set3 ← store set3 p3 y3;
           set4 ← store set4 p4 y4;
           set5 ← store set5 p5 y5;
           set6 ← store set6 p6 y6;
           Ok (set1, set2, set3, set4, set5, set6, st, tr ++ [Visit entity])
       | _, _, _, _, _ => Ok (set1, set2, set3, set4, set5, set6, st, tr)
       end)
    (set1, set2, set3, set4, set5, set6, st, []).

End Query.

(** ** ECS.h: World *)

Inductive Kind : Type :=
  | KTransform | KSprite | KAnimation | KPhysics | KCollider
  | KCollisionState | KPlayer.

#[global] Instance Kind_eq_dec : EqDecision Kind.
Proof. solve_decision. Defined.

Section World.
(** The component records are plain values; the registry only needs
    them default-constructible. *)
Context {Transform Sprite Animation Physics Collider CollisionState Player : Type}.
Context `{Inhabited Transform} `{Inhabited Sprite} `{Inhabited Animation}
        `{Inhabited Physics} `{Inhabited Collider} `{Inhabited CollisionState}
        `{Inhabited Player}.

Record World : Type := mkWorld {
  nextEntity : Entity;
  transforms : SparseSet Transform;
  sprites : SparseSet Sprite;
  animations : SparseSet Animation;
  physics : SparseSet Physics;
  colliders : SparseSet Collider;
  collisionStates : SparseSet CollisionState;
  players : SparseSet Player
}.

Definition World_new : run World :=
  t ← SparseSet_new; s ← SparseSet_new; a ← SparseSet_new;
  p ← SparseSet_new; c ← SparseSet_new; cs ← SparseSet_new;
  pl ← SparseSet_new;
  Ok (mkWorld 1%N t s a p c cs pl).

Definition set_nextEntity (w : World) (n : Entity) : World :=
  mkWorld n (transforms w) (sprites w) (animations w) (physics w)
          (colliders w) (collisionStates w) (players w).
Definition set_transforms (w : World) (s : SparseSet Transform) : World :=
  mkWorld (nextEntity w) s (sprites w) (animations w) (physics w)
          (colliders w) (collisionStates w) (players w).
Definition set_sprites (w : World) (s : SparseSet Sprite) : World :=
  mkWorld (nextEntity w) (transforms w) s (animations w) (physics w)
          (colliders w) (collisionStates w) (players w).
Definition set_animations (w : World) (s : SparseSet Animation) : World :=
  mkWorld (nextEntity w) (transforms w) (sprites w) s (physics w)
          (colliders w) (collisionStates w) (players w).
Definition set_physics (w : World) (s : SparseSet Physics) : World :=
  mkWorld (nextEntity w) (transforms w) (sprites w) (animations w) s
          (colliders w) (collisionStates w) (players w).
Definition set_colliders (w : World) (s : SparseSet Collider) : World :=
  mkWorld (nextEntity w) (transforms w) (sprites w) (animations w) (physics w)
          s (collisionStates w) (players w).
Definition set_collisionStates (w : World) (s : SparseSet CollisionState) : World :=
  mkWorld (nextEntity w) (transforms w) (sprites w) (animations w) (physics w)
          (colliders w) s (players w).
Definition set_players (w : World) (s : SparseSet Player) : World :=
  mkWorld (nextEntity w) (transforms w) (sprites w) (animations w) (physics w)
          (colliders w) (collisionStates w) s.

(** [CreateEntity] returns the entity and the world with the counter
    advanced. *)
Definition CreateEntity (w : World) : Entity * World :=
  if decide (u32_of_int MAX_ENTITIES <= nextEntity w)%N then (NULL_ENTITY, w)
  else (nextEntity w, set_nextEntity w (u32_succ (nextEntity w))).

Definition AddTransform w entity (x : Transform) : run World :=
  s ← Add (transforms w) entity x; Ok (set_transforms w s).
Definition AddPhysics w entity (x : Physics) : run World :=
  s ← Add (physics w) entity x; Ok (set_physics w s).

Definition GetTransform (w : World) entity := GetValue (transforms w) entity.
Definition GetSprite (w : World) entity := GetValue (sprites w) entity.
Definition GetAnimation (w : World) entity := GetValue (animations w) entity.
Definition GetPhysics (w : World) entity := GetValue (physics w) entity.
Definition GetCollider (w : World) entity := GetValue (colliders w) entity.
Definition GetCollisionState (w : World) entity := GetValue (collisionStates w) entity.
Definition GetPlayer (w : World) entity := GetValue (players w) entity.


Definition HasTransform (w : World) entity := Has (transforms w) entity.
Definition HasSprite (w : World) entity := Has (sprites w) entity.
Definition HasAnimation (w : World) entity := Has (animations w) entity.
Definition HasPhysics (w : World) entity := Has (physics w) entity.
Definition HasCollider (w : World) entity := Has (colliders w) entity.
Definition HasCollisionState (w : World) entity := Has (collisionStates w) entity.
Definition HasPlayer (w : World) entity := Has (players w) entity.

Definition DestroyEntity (w : World) (entity : Entity) : run World :=
  t ← Remove (transforms w) entity;
  s ← Remove (sprites w) entity;
  a ← Remove (animations w) entity;
  p ← Remove (physics w) entity;
  c ← Remove (colliders w) entity;
  cs ← Remove (collisionStates w) entity;
  pl ← Remove (players w) entity;
  Ok (mkWorld (nextEntity w) t s a p c cs pl).

(** The component type of a kind, and the [GetSparseSet<T>]
    specialisations. *)
Definition Comp (k : Kind) : Type :=
  match k with
  | KTransform => Transform
  | KSprite => Sprite
  | KAnimation => Animation
  | KPhysics => Physics
  | KCollider => Collider
  | KCollisionState => CollisionState
  | KPlayer => Player
  end.

#[global] Instance Comp_inhabited (k : Kind) : Inhabited (Comp k) :=
  match k with
  | KTransform => _
  | KSprite => _
  | KAnimation => _
  | KPhysics => _
  | KCollider => _
  | KCollisionState => _
  | KPlayer => _
  end.

Definition GetSparseSet (k : Kind) (w : World) : SparseSet (Comp k) :=
  match k with
  | KTransform => transforms w
  | KSprite => sprites w
  | KAnimation => animations w
  | KPhysics => physics w
  | KCollider => colliders w
  | KCollisionState => collisionStates w
  | KPlayer => players w
  end.

(** The world after the storage of kind [k] was changed in place. *)
Definition PutSparseSet (k : Kind) (w : World) : SparseSet (Comp k) -> World :=
  match k with
  | KTransform => set_transforms w
  | KSprite => set_sprites w
  | KAnimation => set_animations w
  | KPhysics => set_physics w
  | KCollider => set_colliders w
  | KCollisionState => set_collisionStates w
  | KPlayer => set_players w
  end.


Definition GetX (k : Kind) (w : World) (entity : Entity) : run (option (Comp k)) :=
  match k with
  | KTransform => GetTransform w entity
  | KSprite => GetSprite w entity
  | KAnimation => GetAnimation w entity
  | KPhysics => GetPhysics w entity
  | KCollider => GetCollider w entity
  | KCollisionState => GetCollisionState w entity
  | KPlayer => GetPlayer w entity
  end.


Definition HasX (k : Kind) (w : World) (entity : Entity) : run bool :=
  match k with
  | KTransform => HasTransform w entity
  | KSprite => HasSprite w entity
  | KAnimation => HasAnimation w entity
  | KPhysics => HasPhysics w entity
  | KCollider => HasCollider w entity
  | KCollisionState => HasCollisionState w entity
  | KPlayer => HasPlayer w entity
  end.

(** A world all of whose storages are reachable. *)
Definition World_reachable (w : World) : Prop :=
  forall k, reachable (GetSparseSet k w).

(** The world right after construction, in closed form. *)
Definition fresh_world : World :=
  mkWorld 1%N empty_set empty_set empty_set empty_set empty_set empty_set
          empty_set.

(** [n] calls of [CreateEntity] in a row: the entities returned, in
    call order, and the world afterwards. *)
Fixpoint create_many (n : nat) (w : World) : list Entity * World :=
  match n with
  | O => ([], w)
  | Datatypes.S n' =>
      let '(e, w') := CreateEntity w in
      let '(es, w'') := create_many n' w' in
      (e :: es, w'')
  end.

(** [Query<K1, ..., Kn>(func)] on the world: the loop runs on the
    storages of the kinds, which are changed in place.  The kinds of a
    query are pairwise distinct. *)
Section WorldQuery.
Context {St : Type}.

Definition World_Query1 (k1 : Kind)
    (func : Entity -> Comp k1 -> St -> Comp k1 * St)
    (w : World) (st : St) : run (World * St * list event) :=
  '(s1, st, tr) ← Query1 (GetSparseSet k1 w) func st;
  Ok (PutSparseSet k1 w s1, st, tr).

Definition World_Query2 (k1 k2 : Kind)
    (func : Entity -> Comp k1 -> Comp k2 -> St -> Comp k1 * Comp k2 * St)
    (w : World) (st : St) : run (World * St * list event) :=
  '(s1, s2, st, tr) ←
    Query2 (GetSparseSet k1 w) (GetSparseSet k2 w) func st;
  Ok (PutSparseSet k2 (PutSparseSet k1 w s1) s2, st, tr).

Definition World_Query3 (k1 k2 k3 : Kind)
    (func : Entity -> Comp k1 -> Comp k2 -> Comp k3 -> St ->
            Comp k1 * Comp k2 * Comp k3 * St)
    (w : World) (st : St) : run (World * St * list event) :=
  '(s1, s2, s3, st, tr) ←
    Query3 (GetSparseSet k1 w) (GetSparseSet k2 w) (GetSparseSet k3 w)
           func st;
  Ok (PutSparseSet k3 (PutSparseSet k2 (PutSparseSet k1 w s1) s2) s3,
      st, tr).

Definition World_Query4 (k1 k2 k3 k4 : Kind)
    (func : Entity -> Comp k1 -> Comp k2 -> Comp k3 -> Comp k4 -> St ->
            Comp k1 * Comp k2 * Comp k3 * Comp k4 * St)
    (w : World) (st : St) : run (World * St * list event) :=
  '(s1, s2, s3, s4, st, tr) ←
    Query4 (GetSparseSet k1 w) (GetSparseSet k2 w) (GetSparseSet k3 w)
           (GetSparseSet k4 w) func st;
  Ok (PutSparseSet k4
        (PutSparseSet k3 (PutSparseSet k2 (PutSparseSet k1 w s1) s2) s3)
        s4,
      st, tr).

Definition World_Query5 (k1 k2 k3 k4 k5 : Kind)
    (func : Entity -> Comp k1 -> Comp k2 -> Comp k3 -> Comp k4 ->
            Comp k5 -> St ->
            Comp k1 * Comp k2 * Comp k3 * Comp k4 * Comp k5 * St)
    (w : World) (st : St) : run (World * St * list event) :=
  '(s1, s2, s3, s4, s5, st, tr) ←
    Query5 (GetSparseSet k1 w) (GetSparseSet k2 w) (GetSparseSet k3 w)
           (GetSparseSet k4 w) (GetSparseSet k5 w) func st;
  Ok (PutSparseSet k5
        (PutSparseSet k4
           (PutSparseSet k3 (PutSparseSet k2 (PutSparseSet k1 w s1) s2) s3)
           s4)
        s5,
      st, tr).

Definition World_Query6 (k1 k2 k3 k4 k5 k6 : Kind)
    (func : Entity -> Comp k1 -> Comp k2 -> Comp k3 -> Comp k4 ->
            Comp k5 -> Comp k6 -> St ->
            Comp k1 * Comp k2 * Comp k3 * Comp k4 * Comp k5 * Comp k6 * St)
    (w : World) (st : St) : run (World * St * list event) :=
  '(s1, s2, s3, s4, s5, s6, st, tr) ←
    Query6 (GetSparseSet k1 w) (GetSparseSet k2 w) (GetSparseSet k3 w)
           (GetSparseSet k4 w) (GetSparseSet k5 w) (GetSparseSet k6 w)
           func st;
  Ok (PutSparseSet k6
        (PutSparseSet k5
           (PutSparseSet k4
              (PutSparseSet k3
                 (PutSparseSet k2 (PutSparseSet k1 w s1) s2) s3)
              s4)
           s5)
        s6,
      st, tr).
End WorldQuery.

(** ** What the queries are specified against *)

(** [e] has a component of every kind in [ks]. *)
Definition has_all (ks : list Kind) (w : World) (e : Entity) : bool :=
  forallb (fun k => member (GetSparseSet k w) e) ks.

(** The outcome [r] of a query on [w] is that of a join driven by the
    storage of [k1]: it returns normally; its events are those of
    walking the dense array of [k1] in order, probing for every entity
    all the kinds [rest] (reported under the slot numbers [slots]) and
    visiting the entity when all the probes succeed; the visitor was
    called exactly once for each entity that has all the kinds, and for
    no other; and the world afterwards differs from [w] in component
    values only. *)
Definition driven_by {St : Type} (k1 : Kind) (slots : list nat)
    (rest : list Kind) (w : World) (r : run (World * St * list event))
  : Prop :=
  exists w' st' tr,
    r = Ok (w', st', tr) /\
    tr = join_trace slots (has_all rest w) (entities (GetSparseSet k1 w)) /\
    NoDup (visits tr) /\
    (forall e, e ∈ visits tr <-> has_all (k1 :: rest) w e = true) /\
    (forall k, same_shape (GetSparseSet k w) (GetSparseSet k w')) /\
    nextEntity w' = nextEntity w.

End World.

(** ** Sample storages the statements are exercised on *)

(** The storage a computation leaves behind (the empty one if it
    faulted). *)
Definition after {T : Type} (r : run (SparseSet T)) : SparseSet T :=
  match r with
  | Ok s => s
  | Fault => empty_set
  end.

(** Entities 5, 3, 9 added in this order with the values 50, 30, 90. *)
Definition sample_set : SparseSet Z :=
  after (Add (after (Add (after (Add empty_set 5%N 50)) 3%N 30)) 9%N 90).

(** A freshly constructed world whose components are integers, and the
    same world with a [Transform] for entity 1 and nothing else. *)
Definition world0 : @World Z Z Z Z Z Z Z := fresh_world.

Definition world1 : @World Z Z Z Z Z Z Z :=
  set_transforms world0 (after (Add empty_set 1%N 10)).

(** Entities 1, 2, 3 have a [Transform] and entities 2, 3, 4 have a
    [Physics]. *)
Definition world2 : @World Z Z Z Z Z Z Z :=
  set_physics
    (set_transforms world0
       (after (Add (after (Add (after (Add empty_set 1%N 10)) 2%N 20)) 3%N 30)))
    (after (Add (after (Add (after (Add empty_set 2%N 200)) 3%N 300)) 4%N 400)).

(** Visitors that leave the components alone and count their calls. *)
Definition count2 (_ : Entity) (a b : Z) (n : nat) : Z * Z * nat :=
  (a, b, Datatypes.S n).
Definition count3 (_ : Entity) (a b c : Z) (n : nat) : Z * Z * Z * nat :=
  (a, b, c, Datatypes.S n).
Definition count4 (_ : Entity) (a b c d : Z) (n : nat)
  : Z * Z * Z * Z * nat :=
  (a, b, c, d, Datatypes.S n).
Definition count5 (_ : Entity) (a b c d e : Z) (n : nat)
  : Z * Z * Z * Z * Z * nat :=
  (a, b, c, d, e, Datatypes.S n).
Definition count6 (_ : Entity) (a b c d e f : Z) (n : nat)
  : Z * Z * Z * Z * Z * Z * nat :=
  (a, b, c, d, e, f, Datatypes.S n).

(** ** Components, visitors and the spawn loop of [main] *)

Section Components.
Context {T : Type}.

(** The component [Get(e)] points at, [None] when [Get(e)] is the null
    pointer. *)
Definition value (s : SparseSet T) (e : Entity) : option T :=
  match GetValue s e with
  | Ok o => o
  | Fault => None
  end.

(** The live components in dense order: [data[0 .. count)]. *)
Definition components (s : SparseSet T) : list T :=
  take (Z.to_nat (count s)) (data s).

End Components.

Section Visitors.
Context {St T1 T2 : Type}.

(** The calls of a 1-arity visitor on the entities [xs] with their
    components, in order: the components it leaves and its final
    state. *)
Fixpoint run_visitor1 (func : Entity -> T1 -> St -> T1 * St)
    (xs : list (Entity * T1)) (st : St) : list T1 * St :=
  match xs with
  | [] => ([], st)
  | (e, x) :: xs' =>
      let '(y, st1) := func e x st in
      let '(ys, st2) := run_visitor1 func xs' st1 in
      (y :: ys, st2)
  end.

Fixpoint run_visitor2 (func : Entity -> T1 -> T2 -> St -> T1 * T2 * St)
    (xs : list (Entity * T1 * T2)) (st : St) : list (T1 * T2) * St :=
  match xs with
  | [] => ([], st)
  | (e, x1, x2) :: xs' =>
      let '(y1, y2, st1) := func e x1 x2 st in
      let '(ys, st2) := run_visitor2 func xs' st1 in
      ((y1, y2) :: ys, st2)
  end.

(** The entities of [drive] that have a component in both storages, with
    the two components. *)
Definition matches2 (s1 : SparseSet T1) (s2 : SparseSet T2)
    (drive : list Entity) : list (Entity * T1 * T2) :=
  flat_map (fun e => match value s1 e, value s2 e with
                     | Some x1, Some x2 => [(e, x1, x2)]
                     | _, _ => []
                     end) drive.

End Visitors.

Section Spawn.
Context {Transform Sprite Animation Physics Collider CollisionState Player : Type}.
Context `{Inhabited Transform} `{Inhabited Sprite} `{Inhabited Animation}
        `{Inhabited Physics} `{Inhabited Collider} `{Inhabited CollisionState}
        `{Inhabited Player}.

(** The loop of [main] that creates the boxes: [n] is its bound (10000 in
    [main]); the components come from random generators, so box [i]
    gets arbitrary values [t i] and [p i].  The entity [CreateEntity]
    returns is used unchecked. *)
Definition spawn_boxes (n : Z) (t : Z -> Transform) (p : Z -> Physics)
    (world : @World Transform Sprite Animation Physics Collider
                    CollisionState Player)
  : run World :=
  for_range 0 n
    (fun i world =>
       let '(box, world) := CreateEntity world in
       world ← AddTransform world box (t i);
       AddPhysics world box (p i))
    world.

(** The entity the call number [i] (from 0) of [CreateEntity] returns on
    a new world: 1 .. [MAX_ENTITIES - 1], then the null entity for
    ever. *)
Definition nth_issued (i : Z) : Entity :=
  if decide (i < MAX_ENTITIES - 1) then Z.to_N (i + 1) else NULL_ENTITY.

(** The distinct entities a caller that never checks for exhaustion gets,
    in the order it gets them. *)
Definition issue_order : list Entity :=
  nth_issued <$> seqZ 0 MAX_ENTITIES.

End Spawn.

(** ** What a query does with its visitor *)

Section Calls.
Context {St C X : Type}.

(** The entities of [drive] all of whose components are there, each
    with its components: [comps e] is what the storages hold for [e],
    [full] is [Some] when none of them is missing. *)
Definition joined (full : C -> option X) (comps : Entity -> C)
    (drive : list Entity) : list (Entity * X) :=
  flat_map (fun e => match full (comps e) with
                     | Some x => [(e, x)]
                     | None => []
                     end) drive.

(** The visitor [func] was called on the entities [visited], once each
    and in this order, and on nothing else: every call received the
    components its entity had before the query and the state the call
    before it left ([st] for the first call); [st'] is the state the
    last call left; after the query every visited entity holds the
    components its call returned, and every other entity holds what it
    held before. *)
Definition visited_with (func : Entity -> X -> St -> X * St)
    (full : C -> option X) (comps comps' : Entity -> C)
    (visited : list Entity) (st st' : St) : Prop :=
  exists (calls : list (Entity * X)) (ys : list X),
    calls.*1 = visited /\
    Forall (fun m => full (comps m.1) = Some m.2) calls /\
    run_visitor1 func calls st = (ys, st') /\
    Forall2 (fun m y => full (comps' m.1) = Some y) calls ys /\
    forall e, e ∉ visited -> comps' e = comps e.

End Calls.

(** The components of the kinds of a query taken together, and a
    visitor of the query as a function of them. *)
Section Tuples.
Context {St T1 T2 T3 T4 T5 T6 : Type}.

Definition all2 (c : option T1 * option T2) : option (T1 * T2) :=
  match c with
  | (Some x1, Some x2) => Some (x1, x2)
  | _ => None
  end.

Definition all3 (c : option T1 * option T2 * option T3)
  : option (T1 * T2 * T3) :=
  match c with
  | (Some x1, Some x2, Some x3) => Some (x1, x2, x3)
  | _ => None
  end.

Definition all4 (c : option T1 * option T2 * option T3 * option T4)
  : option (T1 * T2 * T3 * T4) :=
  match c with
  | (Some x1, Some x2, Some x3, Some x4) => Some (x1, x2, x3, x4)
  | _ => None
  end.

Definition all5
    (c : option T1 * option T2 * option T3 * option T4 * option T5)
  : option (T1 * T2 * T3 * T4 * T5) :=
  match c with
  | (Some x1, Some x2, Some x3, Some x4, Some x5) =>
      Some (x1, x2, x3, x4, x5)
  | _ => None
  end.

Definition all6
    (c : option T1 * option T2 * option T3 * option T4 * option T5 * option T6)
  : option (T1 * T2 * T3 * T4 * T5 * T6) :=
  match c with
  | (Some x1, Some x2, Some x3, Some x4, Some x5, Some x6) =>
      Some (x1, x2, x3, x4, x5, x6)
  | _ => None
  end.

Definition visitor2 (func : Entity -> T1 -> T2 -> St -> T1 * T2 * St)
    (e : Entity) (x : T1 * T2) (st : St) : T1 * T2 * St :=
  let '(x1, x2) := x in func e x1 x2 st.

Definition visitor3
    (func : Entity -> T1 -> T2 -> T3 -> St -> T1 * T2 * T3 * St)
    (e : Entity) (x : T1 * T2 * T3) (st : St) : T1 * T2 * T3 * St :=
  let '(x1, x2, x3) := x in func e x1 x2 x3 st.

Definition visitor4
    (func : Entity -> T1 -> T2 -> T3 -> T4 -> St -> T1 * T2 * T3 * T4 * St)
    (e : Entity) (x : T1 * T2 * T3 * T4) (st : St)
  : T1 * T2 * T3 * T4 * St :=
  let '(x1, x2, x3, x4) := x in func e x1 x2 x3 x4 st.

Definition visitor5
    (func : Entity -> T1 -> T2 -> T3 -> T4 -> T5 -> St ->
            T1 * T2 * T3 * T4 * T5 * St)
    (e : Entity) (x : T1 * T2 * T3 * T4 * T5) (st : St)
  : T1 * T2 * T3 * T4 * T5 * St :=
  let '(x1, x2, x3, x4, x5) := x in func e x1 x2 x3 x4 x5 st.

Definition visitor6
    (func : Entity -> T1 -> T2 -> T3 -> T4 -> T5 -> T6 -> St ->
            T1 * T2 * T3 * T4 * T5 * T6 * St)
    (e : Entity) (x : T1 * T2 * T3 * T4 * T5 * T6) (st : St)
  : T1 * T2 * T3 * T4 * T5 * T6 * St :=
  let '(x1, x2, x3, x4, x5, x6) := x in func e x1 x2 x3 x4 x5 x6 st.

End Tuples.

(** What the world holds for an entity in the kinds of a query: for each
    kind the component [Get] points at, or [None]. *)
Section WorldValues.
Context {Transform Sprite Animation Physics Collider CollisionState Player : Type}.
Context `{Inhabited Transform} `{Inhabited Sprite} `{Inhabited Animation}
        `{Inhabited Physics} `{Inhabited Collider} `{Inhabited CollisionState}
        `{Inhabited Player}.
Implicit Types (w : @World Transform Sprite Animation Physics Collider
                           CollisionState Player).

Definition values2 (k1 k2 : Kind) w (e : Entity)
  : option (Comp k1) * option (Comp k2) :=
  (value (GetSparseSet k1 w) e, value (GetSparseSet k2 w) e).

Definition values3 (k1 k2 k3 : Kind) w (e : Entity)
  : option (Comp k1) * option (Comp k2) * option (Comp k3) :=
  (value (GetSparseSet k1 w) e, value (GetSparseSet k2 w) e,
   value (GetSparseSet k3 w) e).

Definition values4 (k1 k2 k3 k4 : Kind) w (e : Entity)
  : option (Comp k1) * option (Comp k2) * option (Comp k3)
    * option (Comp k4) :=
  (value (GetSparseSet k1 w) e, value (GetSparseSet k2 w) e,
   value (GetSparseSet k3 w) e, value (GetSparseSet k4 w) e).

Definition values5 (k1 k2 k3 k4 k5 : Kind) w (e : Entity)
  : option (Comp k1) * option (Comp k2) * option (Comp k3)
    * option (Comp k4) * option (Comp k5) :=
  (value (GetSparseSet k1 w) e, value (GetSparseSet k2 w) e,
   value (GetSparseSet k3 w) e, value (GetSparseSet k4 w) e,
   value (GetSparseSet k5 w) e).

Definition values6 (k1 k2 k3 k4 k5 k6 : Kind) w (e : Entity)
  : option (Comp k1) * option (Comp k2) * option (Comp k3)
    * option (Comp k4) * option (Comp k5) * option (Comp k6) :=
  (value (GetSparseSet k1 w) e, value (GetSparseSet k2 w) e,
   value (GetSparseSet k3 w) e, value (GetSparseSet k4 w) e,
   value (GetSparseSet k5 w) e, value (GetSparseSet k6 w) e).

End WorldValues.

(** Entities 1, 2, 3 have a [Transform]; entities 2 and 3 have a
    [Physics], a [Sprite], an [Animation], a [Collider] and a [Player]
    as well. *)
Definition world3 : @World Z Z Z Z Z Z Z :=
  set_players
    (set_colliders
       (set_animations
          (set_sprites
             (set_physics
                (set_transforms world0
                   (after (Add (after (Add (after (Add empty_set 1%N 10))
                                  2%N 20)) 3%N 30)))
                (after (Add (after (Add empty_set 2%N 200)) 3%N 300)))
             (after (Add (after (Add empty_set 2%N 2000)) 3%N 3000)))
          (after (Add (after (Add empty_set 2%N 20000)) 3%N 30000)))
       (after (Add (after (Add empty_set 2%N 200000)) 3%N 300000)))
    (after (Add (after (Add empty_set 2%N 2000000)) 3%N 3000000)).

(** A visitor that adds 1 to every component and counts its calls. *)
Definition bump2 (_ : Entity) (a b : Z) (n : nat) : Z * Z * nat :=
  (a + 1, b + 1, Datatypes.S n).
Definition bump3 (_ : Entity) (a b c : Z) (n : nat) : Z * Z * Z * nat :=
  (a + 1, b + 1, c + 1, Datatypes.S n).

(** ** Array.h: the resizable array

    The storage above only constructs arrays and indexes them, which is
    why a list was enough there.  The rest of [Array<Datatype>] needs the
    object as the class has it: the heap block [m_array] (all
    [m_capacity] cells of it, the empty list for [nullptr]) and the two
    counters.  [Datatype{}] is [inhabitant], as in [Array_new].

    [new (std::nothrow) Datatype[n]] is a parameter of the operations that
    allocate: a [heap] answers a request for [n] cells with [None] (the
    null pointer) or with a block.  The cells of the block hold whatever
    default-initialisation leaves in them, so the block is arbitrary but
    for its length (see [heap_sound]).

    The loops index the block through the raw pointer, so an access is a
    [Fault] exactly when it falls outside the block. *)

Record Array (Datatype : Type) : Type := mkArray {
  m_array : list Datatype;
  m_size : Z;
  m_capacity : Z
}.
Arguments mkArray {Datatype}.
Arguments m_array {Datatype}.
Arguments m_size {Datatype}.
Arguments m_capacity {Datatype}.

(** [for (int i = hi; i > lo; i--) body]. *)
Fixpoint for_down_loop {S : Type} (n : nat) (i : Z) (body : Z -> S -> run S)
    (s : S) : run S :=
  match n with
  | O => Ok s
  | Datatypes.S n' => s' ← body i s; for_down_loop n' (i - 1) body s'
  end.

Definition for_down {S : Type} (hi lo : Z) (body : Z -> S -> run S) (s : S)
  : run S :=
  for_down_loop (Z.to_nat (hi - lo)) hi body s.

(** [while (newCapacity < p_size) newCapacity = newCapacity +
    newCapacity / 2 + 1;] of [Resize].  From a capacity that is not
    negative every round adds at least 1, so [p_size] rounds are never
    used up ([grow_capacity_fuel]); the [Fault] at the end of the fuel
    stands for the loop that a negative capacity would send round for
    ever. *)
Fixpoint grow_capacity (fuel : nat) (newCapacity p_size : Z) : run Z :=
  if decide (newCapacity < p_size) then
    match fuel with
    | O => Fault
    | Datatypes.S fuel' =>
        c ← as_int (newCapacity + newCapacity `quot` 2);
        c ← as_int (c + 1);
        grow_capacity fuel' c p_size
    end
  else Ok newCapacity.

Section Array.
Context {Datatype : Type} `{Inhabited Datatype}.

(** [new (std::nothrow) Datatype[n]]. *)
Definition heap : Type := Z -> option (list Datatype).

Definition heap_sound (new : heap) : Prop :=
  forall n block, new n = Some block -> Z.of_nat (length block) = n.

(** [Array(int p_size)]; [Array()] is [Array_ctor 0]. *)
Definition Array_ctor (p_size : Z) : Array Datatype :=
  if decide (p_size > 0) then mkArray (Array_new p_size) p_size p_size
  else mkArray [] 0 0.

Definition Array_Size (a : Array Datatype) : Z := m_size a.
Definition Array_Capacity (a : Array Datatype) : Z := m_capacity a.
Definition Array_Empty (a : Array Datatype) : bool :=
  bool_decide (m_size a = 0).

(** The elements of the array: the cells below [m_size]. *)
Definition Array_elements (a : Array Datatype) : list Datatype :=
  take (Z.to_nat (m_size a)) (m_array a).

(** [Resize(p_size)]. *)
Definition Array_Resize (new : heap) (a : Array Datatype) (p_size : Z)
  : run (Array Datatype) :=
  if decide (p_size < 0) then Ok a
  else if decide (p_size <= m_capacity a) then
    Ok (mkArray (m_array a) p_size (m_capacity a))
  else
    newCapacity ← grow_capacity (Z.to_nat p_size) (m_capacity a) p_size;
    match new newCapacity with
    | None => Ok a
    | Some newarray =>
        let copyCount := if decide (p_size < m_size a) then p_size
                         else m_size a in
        newarray ← for_range 0 copyCount (fun i newarray =>
            x ← aget (m_array a) i; aset newarray i x) newarray;
        newarray ← for_range copyCount p_size (fun i newarray =>
            aset newarray i inhabitant) newarray;
        Ok (mkArray newarray p_size newCapacity)
    end.

(** [a[p_index] = x] through [operator[]]: outside [0, m_size) the debug
    build asserts and the release build writes to a cell that is not an
    element. *)
Definition Array_store (a : Array Datatype) (p_index : Z) (x : Datatype)
  : run (Array Datatype) :=
  if decide (0 <= p_index < m_size a) then
    arr ← aset (m_array a) p_index x;
    Ok (mkArray arr (m_size a) (m_capacity a))
  else Fault.

(** [Insert(p_item, p_index)]. *)
Definition Array_Insert (new : heap) (a : Array Datatype) (p_item : Datatype)
    (p_index : Z) : run (Array Datatype) :=
  if decide (p_index < 0 \/ p_index > m_size a) then Ok a
  else
    a ← (if decide (m_size a >= m_capacity a) then
           n ← as_int (m_size a + 1); Array_Resize new a n
         else
           n ← as_int (m_size a + 1);
           Ok (mkArray (m_array a) n (m_capacity a)));
    arr ← for_down (m_size a - 1) p_index (fun i arr =>
        x ← aget arr (i - 1); aset arr i x) (m_array a);
    arr ← aset arr p_index p_item;
    Ok (mkArray arr (m_size a) (m_capacity a)).

(** [Remove(p_index)]. *)
Definition Array_Remove (a : Array Datatype) (p_index : Z)
  : run (Array Datatype) :=
  if decide (p_index < 0 \/ p_index >= m_size a) then Ok a
  else
    arr ← for_range (p_index + 1) (m_size a) (fun i arr =>
        x ← aget arr i; aset arr (i - 1) x) (m_array a);
    Ok (mkArray arr (m_size a - 1) (m_capacity a)).

(** [Clear()]. *)
Definition Array_Clear (a : Array Datatype) : Array Datatype :=
  mkArray (m_array a) 0 (m_capacity a).

(** The arrays a program can build: constructed with an [int] size, then
    resized, written through [operator[]], inserted into, removed from
    and cleared. *)
Inductive Array_reachable (new : heap) : Array Datatype -> Prop :=
  | areach_ctor p_size :
      INT_MIN <= p_size <= INT_MAX -> Array_reachable new (Array_ctor p_size)
  | areach_Resize a p_size a' :
      Array_reachable new a -> INT_MIN <= p_size <= INT_MAX ->
      Array_Resize new a p_size = Ok a' -> Array_reachable new a'
  | areach_store a p_index x a' :
      Array_reachable new a -> Array_store a p_index x = Ok a' ->
      Array_reachable new a'
  | areach_Insert a p_item p_index a' :
      Array_reachable new a -> INT_MIN <= p_index <= INT_MAX ->
      Array_Insert new a p_item p_index = Ok a' -> Array_reachable new a'
  | areach_Remove a p_index a' :
      Array_reachable new a -> Array_Remove a p_index = Ok a' ->
      Array_reachable new a'
  | areach_Clear a :
      Array_reachable new a -> Array_reachable new (Array_Clear a).

(** The shape every reachable array has. *)
Record Array_wf (a : Array Datatype) : Prop := mkArray_wf {
  awf_size : 0 <= m_size a <= m_capacity a;
  awf_block : Z.of_nat (length (m_array a)) = m_capacity a;
  awf_int : m_capacity a <= INT_MAX
}.

End Array.

(** A heap that never runs out, handing out blocks filled with [junk]. *)
Definition plentiful {Datatype : Type} (junk : Datatype) : heap :=
  fun n => if decide (0 <= n) then Some (replicate (Z.to_nat n) junk)
           else None.

(** A heap that is exhausted. *)
Definition exhausted {Datatype : Type} : heap (Datatype:=Datatype) :=
  fun _ => None.

(** A sample array: three elements in a block of four cells. *)
Definition sample_array : Array Z := mkArray [10; 20; 30; inhabitant] 3 4.

(** ** Array.h: the two-dimensional array

    [Array2D<Datatype>] keeps its cells row by row in one block.  Here
    the class tests the pointer, so the block is an [option]: [None] is
    [nullptr], and dereferencing it finds no cell.  The checks under
    [#ifdef _DEBUG] only log and assert; the embedding is that of the
    release build, where [Get] clamps. *)

Record Array2D (Datatype : Type) : Type := mkArray2D {
  m_array2D : option (list Datatype);
  m_width : Z;
  m_height : Z
}.
Arguments mkArray2D {Datatype}.
Arguments m_array2D {Datatype}.
Arguments m_width {Datatype}.
Arguments m_height {Datatype}.

(** The cells a pointer gives access to. *)
Definition cells {A : Type} (p : option (list A)) : list A :=
  match p with Some arr => arr | None => [] end.

(** [SDL_clamp(x, a, b)]:
    [(((x) < (a)) ? (a) : (((x) > (b)) ? (b) : (x)))]. *)
Definition SDL_clamp (x a b : Z) : Z :=
  if decide (x < a) then a else if decide (x > b) then b else x.

Section Array2D.
Context {Datatype : Type} `{Inhabited Datatype}.

(** [Array2D(int p_width, int p_height)]; [Array2D()] is the [else]
    branch. *)
Definition Array2D_ctor (p_width p_height : Z) : run (Array2D Datatype) :=
  if decide (p_width > 0 /\ p_height > 0) then
    n ← as_int (p_width * p_height);
    Ok (mkArray2D (Some (Array_new n)) p_width p_height)
  else Ok (mkArray2D None 0 0).

Definition Array2D_Width (a : Array2D Datatype) : Z := m_width a.
Definition Array2D_Height (a : Array2D Datatype) : Z := m_height a.
Definition Array2D_Size (a : Array2D Datatype) : run Z :=
  as_int (m_width a * m_height a).

(** [IsValidCoord(x, y)]. *)
Definition Array2D_IsValidCoord (a : Array2D Datatype) (x y : Z) : bool :=
  bool_decide (x >= 0) && bool_decide (x < m_width a)
  && bool_decide (y >= 0) && bool_decide (y < m_height a).

(** [Get(p_x, p_y)]: the reference it returns is the position of the
    cell in the block. *)
Definition Array2D_Get (a : Array2D Datatype) (p_x p_y : Z) : run Z :=
  w1 ← as_int (m_width a - 1);
  let p_x := SDL_clamp p_x 0 w1 in
  h1 ← as_int (m_height a - 1);
  let p_y := SDL_clamp p_y 0 h1 in
  row ← as_int (p_y * m_width a);
  pos ← as_int (row + p_x);
  _ ← aget (cells (m_array2D a)) pos;
  Ok pos.

(** Reading and writing through a reference. *)
Definition Array2D_load (a : Array2D Datatype) (pos : Z) : run Datatype :=
  aget (cells (m_array2D a)) pos.

Definition Array2D_store (a : Array2D Datatype) (pos : Z) (v : Datatype)
  : run (Array2D Datatype) :=
  arr ← aset (cells (m_array2D a)) pos v;
  Ok (mkArray2D (Some arr) (m_width a) (m_height a)).

(** The value [Get(x, y)] refers to. *)
Definition Array2D_at (a : Array2D Datatype) (x y : Z) : run Datatype :=
  pos ← Array2D_Get a x y; Array2D_load a pos.

(** [Clear(value)]. *)
Definition Array2D_Clear (a : Array2D Datatype) (value : Datatype)
  : run (Array2D Datatype) :=
  n ← as_int (m_width a * m_height a);
  arr ← for_range 0 n (fun i arr => aset arr i value) (cells (m_array2D a));
  Ok (mkArray2D (match m_array2D a with Some _ => Some arr | None => None end)
        (m_width a) (m_height a)).

(** [Resize(p_width, p_height)]. *)
Definition Array2D_Resize (new : heap) (a : Array2D Datatype)
    (p_width p_height : Z) : run (Array2D Datatype) :=
  if decide (p_width < 0 \/ p_height < 0) then Ok a
  else if decide (p_width = 0 \/ p_height = 0) then Ok (mkArray2D None 0 0)
  else
    n ← as_int (p_width * p_height);
    match new n with
    | None => Ok a
    | Some newarray =>
        newarray ← for_range 0 n (fun i newarray =>
            aset newarray i inhabitant) newarray;
        newarray ←
          match m_array2D a with
          | None => Ok newarray
          | Some old =>
              let minx := if decide (p_width < m_width a) then p_width
                          else m_width a in
              let miny := if decide (p_height < m_height a) then p_height
                          else m_height a in
              for_range 0 miny (fun y newarray =>
                for_range 0 minx (fun x newarray =>
                  dst ← as_int (y * p_width);
                  dst ← as_int (dst + x);
                  src ← as_int (y * m_width a);
                  src ← as_int (src + x);
                  v ← aget old src;
                  aset newarray dst v) newarray) newarray
          end;
        Ok (mkArray2D (Some newarray) p_width p_height)
    end.

(** The arrays a program can build. *)
Inductive Array2D_reachable (new : heap) : Array2D Datatype -> Prop :=
  | areach2_ctor p_width p_height a :
      INT_MIN <= p_width <= INT_MAX -> INT_MIN <= p_height <= INT_MAX ->
      Array2D_ctor p_width p_height = Ok a -> Array2D_reachable new a
  | areach2_Resize a p_width p_height a' :
      Array2D_reachable new a ->
      INT_MIN <= p_width <= INT_MAX -> INT_MIN <= p_height <= INT_MAX ->
      Array2D_Resize new a p_width p_height = Ok a' ->
      Array2D_reachable new a'
  | areach2_store a p_x p_y pos v a' :
      Array2D_reachable new a -> Array2D_Get a p_x p_y = Ok pos ->
      Array2D_store a pos v = Ok a' -> Array2D_reachable new a'
  | areach2_Clear a value a' :
      Array2D_reachable new a -> Array2D_Clear a value = Ok a' ->
      Array2D_reachable new a'.

(** The shape every reachable array has: no block and no extent, or a
    block of [m_width * m_height] cells. *)
Definition Array2D_wf (a : Array2D Datatype) : Prop :=
  match m_array2D a with
  | None => m_width a = 0 /\ m_height a = 0
  | Some arr =>
      0 < m_width a /\ 0 < m_height a /\
      m_width a * m_height a <= INT_MAX /\
      Z.of_nat (length arr) = m_width a * m_height a
  end.

End Array2D.

(** A sample array of three columns and two rows. *)
Definition sample_grid : Array2D Z := mkArray2D (Some [1; 2; 3; 4; 5; 6]) 3 2.

(** ** Array.h: copies

    The copy constructor and, for [this != &other], the copy assignment
    build the same object: the counters of [other], and a block only
    when [other.m_size > 0].  [fresh] is the block that
    [new Datatype[other.m_capacity]] returns (a plain [new]: a failed
    allocation throws and builds nothing).  The move constructor and the
    move assignment hand the fields of [other] over unchanged and leave
    [other] as [Array()] builds it, so they build no array that was not
    there. *)
Section ArrayCopy.
Context {Datatype : Type} `{Inhabited Datatype}.

Definition Array_copy (fresh : list Datatype) (other : Array Datatype)
  : run (Array Datatype) :=
  if decide (m_size other > 0) then
    arr ← for_range 0 (m_size other) (fun i arr =>
        x ← aget (m_array other) i; aset arr i x) fresh;
    Ok (mkArray arr (m_size other) (m_capacity other))
  else Ok (mkArray [] (m_size other) (m_capacity other)).

(** The arrays a program can build when it copies as well. *)
Inductive Array_built (new : heap) : Array Datatype -> Prop :=
  | abuilt_ctor p_size :
      INT_MIN <= p_size <= INT_MAX -> Array_built new (Array_ctor p_size)
  | abuilt_copy other fresh a :
      Array_built new other ->
      Z.of_nat (length fresh) = m_capacity other ->
      Array_copy fresh other = Ok a -> Array_built new a
  | abuilt_Resize a p_size a' :
      Array_built new a -> INT_MIN <= p_size <= INT_MAX ->
      Array_Resize new a p_size = Ok a' -> Array_built new a'
  | abuilt_store a p_index x a' :
      Array_built new a -> Array_store a p_index x = Ok a' ->
      Array_built new a'
  | abuilt_Insert a p_item p_index a' :
      Array_built new a -> INT_MIN <= p_index <= INT_MAX ->
      Array_Insert new a p_item p_index = Ok a' -> Array_built new a'
  | abuilt_Remove a p_index a' :
      Array_built new a -> Array_Remove a p_index = Ok a' ->
      Array_built new a'
  | abuilt_Clear a :
      Array_built new a -> Array_built new (Array_Clear a).

(** The shape every array built has: the block has [m_capacity] cells,
    or there is none. *)
Record Array_shape (a : Array Datatype) : Prop := mkArray_shape {
  ash_size : 0 <= m_size a <= m_capacity a;
  ash_int : m_capacity a <= INT_MAX;
  ash_block : Z.of_nat (length (m_array a)) = m_capacity a \/ m_array a = []
}.

End ArrayCopy.

(** A copy of a cleared four-cell array, resized to three: it counts
    three elements and four cells and has no block. *)
Definition sample_copy : Array Z := mkArray [] 3 4.
(** ** Basic facts: the monad, loops, conversions, arrays *)

Lemma bind_Ok {A B : Type} (m : run A) (f : A -> run B) (b : B) :
  (x ← m; f x) = Ok b <-> exists a, m = Ok a /\ f a = Ok b.
Proof.
  destruct m as [a|]; simpl; split.
  - intros Hf. exists a. split; [reflexivity | exact Hf].
  - intros (a' & Ha & Hf). injection Ha as ->. exact Hf.
  - discriminate.
  - intros (a' & Ha & _). discriminate.
Qed.

(** Inverts hypotheses of the shape [(x ← m; k) = Ok r]. *)
Ltac run_inv :=
  repeat match goal with
  | Hb : (mbind _ _) = Ok _ |- _ =>
      apply bind_Ok in Hb; destruct Hb as (? & ? & Hb)
  | Hb : Ok _ = Ok _ |- _ => injection Hb as Hb
  | Hb : Fault = Ok _ |- _ => discriminate Hb
  | Hb : Ok _ = Fault |- _ => discriminate Hb
  end.

Lemma for_loop_inv {S : Type} (P : Z -> S -> Prop) (body : Z -> S -> run S) :
  forall (n : nat) (i : Z) (s : S),
    P i s ->
    (forall j t, i <= j < i + Z.of_nat n -> P j t ->
                 exists t', body j t = Ok t' /\ P (j + 1) t') ->
    exists s', for_loop n i body s = Ok s' /\ P (i + Z.of_nat n) s'.
Proof.
  induction n as [|n IH]; intros i s Hs Hstep.
  - exists s. split; [reflexivity|]. replace (i + Z.of_nat 0) with i by lia. exact Hs.
  - destruct (Hstep i s) as (t & Ht & HPt); [lia | exact Hs |].
    destruct (IH (i + 1) t HPt) as (s' & Hs' & HP').
    { intros j u Hj Hu. apply Hstep; [lia | exact Hu]. }
    exists s'. split.
    + simpl. rewrite Ht. exact Hs'.
    + replace (i + Z.of_nat (Datatypes.S n)) with (i + 1 + Z.of_nat n) by lia.
      exact HP'.
Qed.

Lemma for_range_inv {S : Type} (P : Z -> S -> Prop) (body : Z -> S -> run S)
    (lo hi : Z) (s : S) :
  lo <= hi ->
  P lo s ->
  (forall j t, lo <= j < hi -> P j t ->
               exists t', body j t = Ok t' /\ P (j + 1) t') ->
  exists s', for_range lo hi body s = Ok s' /\ P hi s'.
Proof.
  intros Hle Hs Hstep. unfold for_range.
  destruct (for_loop_inv P body (Z.to_nat (hi - lo)) lo s Hs) as (s' & E & HP).
  - intros j t Hj. apply Hstep. lia.
  - exists s'. split; [exact E|].
    replace hi with (lo + Z.of_nat (Z.to_nat (hi - lo))) by lia. exact HP.
Qed.

Lemma u32_of_int_to_N (z : Z) :
  0 <= z < 2 ^ 32 -> u32_of_int z = Z.to_N z.
Proof.
  intros Hz. unfold u32_of_int. rewrite Z.mod_small by exact Hz. reflexivity.
Qed.

Lemma int_of_u32_small (n : N) :
  Z.of_N n < 2 ^ 31 -> int_of_u32 n = Z.of_N n.
Proof. intros Hn. unfold int_of_u32. destruct (decide _); [reflexivity | lia]. Qed.

Lemma as_int_small (z : Z) : INT_MIN <= z <= INT_MAX -> as_int z = Ok z.
Proof. intros Hz. unfold as_int. destruct (decide _); [reflexivity | lia]. Qed.

Lemma u32_MAX_ENTITIES : u32_of_int MAX_ENTITIES = 10000%N.
Proof. reflexivity. Qed.

Lemma INVALID_INDEX_val : INVALID_INDEX = 10001%N.
Proof. reflexivity. Qed.

Lemma aget_Ok {A : Type} (a : list A) (i : Z) (x : A) :
  aget a i = Ok x <-> 0 <= i /\ a !! Z.to_nat i = Some x.
Proof.
  unfold aget. destruct (decide (0 <= i)) as [Hi|Hi].
  - destruct (a !! Z.to_nat i) as [y|]; split.
    + intros [= ->]. auto.
    + intros [_ [= ->]]. reflexivity.
    + discriminate.
    + intros [_ [=]].
  - split; [discriminate | intros [Hi' _]; contradiction].
Qed.

Lemma aget_bounds {A : Type} (a : list A) (i : Z) (x : A) :
  aget a i = Ok x -> 0 <= i < Z.of_nat (length a).
Proof.
  intros [Hi Hl]%aget_Ok. apply lookup_lt_Some in Hl. lia.
Qed.

Lemma aget_in_range {A : Type} (a : list A) (i : Z) :
  0 <= i < Z.of_nat (length a) -> exists x, aget a i = Ok x.
Proof.
  intros Hi. destruct (lookup_lt_is_Some_2 a (Z.to_nat i)) as [x Hx]; [lia|].
  exists x. apply aget_Ok. split; [lia | exact Hx].
Qed.

Lemma aset_Ok {A : Type} (a a' : list A) (i : Z) (x : A) :
  aset a i x = Ok a' <->
  0 <= i < Z.of_nat (length a) /\ a' = <[Z.to_nat i := x]> a.
Proof.
  unfold aset. destruct (decide _) as [Hi|Hi]; split.
  - intros [= <-]. auto.
  - intros [_ ->]. reflexivity.
  - discriminate.
  - intros [Hi' _]. contradiction.
Qed.

Lemma aset_in_range {A : Type} (a : list A) (i : Z) (x : A) :
  0 <= i < Z.of_nat (length a) -> aset a i x = Ok (<[Z.to_nat i := x]> a).
Proof. intros Hi. apply aset_Ok. auto. Qed.

Lemma aset_length {A : Type} (a a' : list A) (i : Z) (x : A) :
  aset a i x = Ok a' -> length a' = length a.
Proof. intros [_ ->]%aset_Ok. apply length_insert. Qed.

Lemma aget_aset_eq {A : Type} (a a' : list A) (i : Z) (x : A) :
  aset a i x = Ok a' -> aget a' i = Ok x.
Proof.
  intros [Hi ->]%aset_Ok. apply aget_Ok. split; [lia|].
  apply list_lookup_insert_eq. lia.
Qed.

Lemma aget_aset_ne {A : Type} (a a' : list A) (i j : Z) (x : A) :
  aset a i x = Ok a' -> i <> j -> aget a' j = aget a j.
Proof.
  intros [Hi ->]%aset_Ok Hne. unfold aget.
  destruct (decide (0 <= j)) as [Hj|]; [|reflexivity].
  rewrite list_lookup_insert_ne by lia. reflexivity.
Qed.

Lemma Array_new_length {A : Type} `{Inhabited A} (n : Z) :
  0 <= n -> Z.of_nat (length (Array_new (A:=A) n)) = n.
Proof. intros Hn. unfold Array_new. rewrite length_replicate. lia. Qed.

(** ** The storage: construction and the representation invariant *)

Section SparseSetFacts.
Context {T : Type} `{Inhabited T}.
Implicit Types (s : SparseSet T) (e : Entity) (idx : N).

Lemma SparseSet_new_Ok : SparseSet_new (T:=T) = Ok empty_set.
Proof.
  unfold SparseSet_new.
  destruct (for_range_inv
    (fun j (sp : list N) =>
       length sp = Z.to_nat MAX_ENTITIES /\
       forall k, (k < Z.to_nat j)%nat -> sp !! k = Some INVALID_INDEX)
    (fun i sp => aset sp i INVALID_INDEX)
    0 MAX_ENTITIES (Array_new MAX_ENTITIES)) as (sp & E & Hlen & Hall).
  - unfold MAX_ENTITIES. lia.
  - split; [apply length_replicate | intros k Hk; simpl in Hk; lia].
  - intros j sp Hj [Hlen Hall].
    exists (<[Z.to_nat j := INVALID_INDEX]> sp). split.
    + apply aset_in_range. lia.
    + split; [rewrite length_insert; exact Hlen|].
      intros k Hk. destruct (decide (k = Z.to_nat j)) as [->|Hne].
      * apply list_lookup_insert_eq. lia.
      * rewrite list_lookup_insert_ne by lia. apply Hall. lia.
  - rewrite E. simpl. unfold empty_set. f_equal. f_equal.
    symmetry. apply replicate_as_Forall. split; [exact Hlen|].
    apply Forall_lookup. intros i x Hx.
    assert (i < length sp)%nat by (eapply lookup_lt_Some; exact Hx).
    rewrite Hall in Hx by lia. congruence.
Qed.

Lemma Inv_empty : Inv (empty_set (T:=T)).
Proof.
  unfold empty_set. split; cbn [sparse dense data count capacity length].
  - rewrite length_replicate. unfold MAX_ENTITIES. lia.
  - reflexivity.
  - reflexivity.
  - lia.
  - unfold MAX_ENTITIES. lia.
  - intros e idx Hget Hidx. apply aget_Ok in Hget as [_ Hl].
    apply lookup_replicate_1 in Hl as [-> _]. contradiction.
  - intros i e Hi. lia.
Qed.

(** An entity that owns an index is below [MAX_ENTITIES]. *)
Lemma sparse_entity_bound s e idx :
  Inv s -> aget (sparse s) (Z.of_N e) = Ok idx -> Z.of_N e < MAX_ENTITIES.
Proof.
  intros HI Hget. apply aget_bounds in Hget.
  rewrite (inv_sparse_len s HI) in Hget. lia.
Qed.

Lemma entities_length s : Inv s -> Z.of_nat (length (entities s)) = count s.
Proof.
  intros HI. unfold entities. rewrite length_take_le.
  - pose proof (inv_count s HI). lia.
  - pose proof (inv_count s HI). pose proof (inv_dense_len s HI). lia.
Qed.

Lemma entities_lookup s (i : nat) e :
  entities s !! i = Some e <->
  0 <= Z.of_nat i < count s /\ aget (dense s) (Z.of_nat i) = Ok e.
Proof.
  unfold entities. rewrite lookup_take_Some, aget_Ok.
  rewrite Nat2Z.id. split.
  - intros [Hl Hi]. repeat split; [lia | lia | lia | exact Hl].
  - intros [Hi [_ Hl]]. split; [exact Hl | lia].
Qed.

Lemma entities_elem s e :
  e ∈ entities s <-> exists i, 0 <= i < count s /\ aget (dense s) i = Ok e.
Proof.
  rewrite list_elem_of_lookup. split.
  - intros [i Hi]. exists (Z.of_nat i). apply entities_lookup. exact Hi.
  - intros (i & Hi & Hget). exists (Z.to_nat i). apply entities_lookup.
    rewrite Z2Nat.id by lia. auto.
Qed.

(** The dense array holds no entity twice below [count]. *)
Lemma entities_NoDup s : Inv s -> NoDup (entities s).
Proof.
  intros HI. apply NoDup_alt. intros i j e Hi Hj.
  apply entities_lookup in Hi as [Hi Hgi], Hj as [Hj Hgj].
  pose proof (inv_dense s HI _ _ Hi Hgi) as Hsi.
  pose proof (inv_dense s HI _ _ Hj Hgj) as Hsj.
  rewrite Hsi in Hsj. injection Hsj as Hij. lia.
Qed.

(** So a storage never holds more than [MAX_ENTITIES] entities. *)
Lemma Inv_count_le_MAX s : Inv s -> count s <= MAX_ENTITIES.
Proof.
  intros HI.
  assert (Hsub : N.to_nat <$> entities s ⊆+ seq 0 (Z.to_nat MAX_ENTITIES)).
  { apply NoDup_submseteq.
    - apply NoDup_fmap_2_strong; [|apply entities_NoDup; exact HI].
      intros x y _ _ Hxy. lia.
    - intros x [e [-> He]]%list_elem_of_fmap.
      apply entities_elem in He as (i & Hi & Hget).
      pose proof (inv_dense s HI _ _ Hi Hget) as Hsp.
      apply (sparse_entity_bound s e _ HI) in Hsp.
      apply elem_of_seq. lia. }
  apply submseteq_length in Hsub.
  rewrite length_fmap, length_seq in Hsub.
  pose proof (entities_length s HI). unfold MAX_ENTITIES in *. lia.
Qed.

(** ** Membership *)

Lemma slot_of_inv s e idx :
  Inv s -> slot_of s e idx ->
  0 <= Z.of_N idx < count s /\ aget (dense s) (Z.of_N idx) = Ok e /\
  Z.of_N e < MAX_ENTITIES.
Proof.
  intros HI [Hsp Hne]. destruct (inv_sparse s HI e idx Hsp Hne) as [Hlt Hd].
  repeat split; [lia | exact Hlt | exact Hd |].
  eapply sparse_entity_bound; eassumption.
Qed.

Lemma slot_of_dense s e (i : Z) :
  Inv s -> 0 <= i < count s -> aget (dense s) i = Ok e ->
  slot_of s e (Z.to_N i).
Proof.
  intros HI Hi Hd. split; [apply (inv_dense s HI); assumption|].
  pose proof (Inv_count_le_MAX s HI). rewrite INVALID_INDEX_val.
  unfold MAX_ENTITIES in *. lia.
Qed.

Lemma slot_of_fun s e idx idx' :
  slot_of s e idx -> slot_of s e idx' -> idx = idx'.
Proof. intros [H1 _] [H2 _]. congruence. Qed.

Lemma slot_of_dec s e :
  Inv s -> (exists idx, slot_of s e idx) \/ (forall idx, ~ slot_of s e idx).
Proof.
  intros HI. destruct (aget (sparse s) (Z.of_N e)) as [idx|] eqn:E.
  - destruct (decide (idx = INVALID_INDEX)) as [->|Hne].
    + right. intros idx [Hsp Hne]. congruence.
    + left. exists idx. split; assumption.
  - right. intros idx [Hsp _]. congruence.
Qed.

(** What [Has] computes on a well-formed storage. *)
Lemma Has_beyond s e :
  (MAX_ENTITIES <= Z.of_N e) -> Has s e = Ok false.
Proof.
  intros He. unfold Has. rewrite u32_MAX_ENTITIES.
  destruct (decide _) as [_|Hn]; [reflexivity|]. unfold MAX_ENTITIES in He. lia.
Qed.

Lemma Has_unfold s e idx :
  Inv s -> aget (sparse s) (Z.of_N e) = Ok idx ->
  Has s e = Ok (bool_decide (idx <> INVALID_INDEX)).
Proof.
  intros HI Hsp. pose proof (sparse_entity_bound s e idx HI Hsp) as He.
  pose proof (Inv_count_le_MAX s HI) as Hc. pose proof (inv_count s HI) as Hc0.
  unfold Has. rewrite u32_MAX_ENTITIES.
  destruct (decide _) as [Hge|_]; [unfold MAX_ENTITIES in He; lia|].
  rewrite int_of_u32_small by (unfold MAX_ENTITIES in He; lia).
  rewrite Hsp. simpl.
  rewrite u32_of_int_to_N by (unfold MAX_ENTITIES in Hc; lia).
  destruct (decide (idx = INVALID_INDEX)) as [->|Hne].
  - rewrite INVALID_INDEX_val.
    destruct (decide _) as [Hlt|_]; [unfold MAX_ENTITIES in Hc; lia|].
    rewrite bool_decide_eq_false_2 by tauto. reflexivity.
  - destruct (inv_sparse s HI e idx Hsp Hne) as [Hlt Hd].
    destruct (decide _) as [_|Hn]; [|lia].
    rewrite int_of_u32_small by (unfold MAX_ENTITIES in Hc; lia).
    rewrite Hd. simpl. rewrite bool_decide_eq_true_2 by reflexivity.
    rewrite bool_decide_eq_true_2 by assumption. reflexivity.
Qed.

Lemma Has_present s e idx : Inv s -> slot_of s e idx -> Has s e = Ok true.
Proof.
  intros HI [Hsp Hne]. rewrite (Has_unfold s e idx HI Hsp).
  rewrite bool_decide_eq_true_2 by assumption. reflexivity.
Qed.

Lemma Has_absent s e :
  Inv s -> (forall idx, ~ slot_of s e idx) -> Has s e = Ok false.
Proof.
  intros HI Hno. destruct (decide (MAX_ENTITIES <= Z.of_N e)) as [Hge|Hlt].
  - apply Has_beyond. exact Hge.
  - destruct (aget_in_range (sparse s) (Z.of_N e)) as [idx Hsp].
    { rewrite (inv_sparse_len s HI). lia. }
    rewrite (Has_unfold s e idx HI Hsp).
    destruct (decide (idx = INVALID_INDEX)) as [->|Hne].
    + rewrite bool_decide_eq_false_2 by tauto. reflexivity.
    + exfalso. apply (Hno idx). split; assumption.
Qed.

Lemma Has_true_slot s e :
  Inv s -> Has s e = Ok true -> exists idx, slot_of s e idx.
Proof.
  intros HI Hh. destruct (slot_of_dec s e HI) as [Hex|Hno]; [exact Hex|].
  rewrite (Has_absent s e HI Hno) in Hh. discriminate.
Qed.

Lemma Has_total s e : Inv s -> exists b, Has s e = Ok b.
Proof.
  intros HI. destruct (slot_of_dec s e HI) as [[idx Hsl]|Hno].
  - exists true. eapply Has_present; eassumption.
  - exists false. apply Has_absent; assumption.
Qed.

Lemma member_true s e : Inv s -> member s e = true <-> Has s e = Ok true.
Proof.
  intros HI. unfold member. destruct (Has_total s e HI) as [b ->].
  split; [intros ->; reflexivity | intros [= ->]; reflexivity].
Qed.

Lemma member_entities s e : Inv s -> member s e = true <-> e ∈ entities s.
Proof.
  intros HI. rewrite (member_true s e HI), entities_elem. split.
  - intros [idx Hsl]%(Has_true_slot s e HI).
    destruct (slot_of_inv s e idx HI Hsl) as (Hi & Hd & _).
    exists (Z.of_N idx). auto.
  - intros (i & Hi & Hd). eapply Has_present; [exact HI|].
    eapply slot_of_dense; eassumption.
Qed.

(** ** Storages that agree on their live part *)

(** [s'] has the index array and the count of [s] and the same dense
    entries below [count]: it is well formed when [s] is. *)
Lemma Inv_transfer s s' :
  Inv s ->
  sparse s' = sparse s -> count s' = count s ->
  Z.of_nat (length (dense s')) = capacity s' ->
  Z.of_nat (length (data s')) = capacity s' ->
  count s <= capacity s' <= 2 * MAX_ENTITIES ->
  (forall i, 0 <= i < count s -> aget (dense s') i = aget (dense s) i) ->
  Inv s'.
Proof.
  intros HI Hsp Hc Hld Hldt Hcap Hd.
  pose proof (inv_count s HI) as Hc0.
  split; rewrite ?Hsp, ?Hc.
  - apply (inv_sparse_len s HI).
  - exact Hld.
  - exact Hldt.
  - lia.
  - lia.
  - intros e idx Hget Hne.
    destruct (inv_sparse s HI e idx Hget Hne) as [Hlt Hde].
    split; [exact Hlt|]. rewrite Hd by lia. exact Hde.
  - intros i e Hi Hget. rewrite Hd in Hget by exact Hi.
    apply (inv_dense s HI); assumption.
Qed.

Lemma same_shape_refl s : same_shape s s.
Proof. repeat split. Qed.

Lemma same_shape_trans s1 s2 s3 :
  same_shape s1 s2 -> same_shape s2 s3 -> same_shape s1 s3.
Proof.
  intros (A1 & A2 & A3 & A4 & A5) (B1 & B2 & B3 & B4 & B5).
  repeat split; congruence.
Qed.

Lemma same_shape_Inv s s' : same_shape s s' -> Inv s -> Inv s'.
Proof.
  intros (Hsp & Hd & Hc & Hcap & Hl) HI.
  apply (Inv_transfer s s' HI Hsp Hc).
  - rewrite Hd, Hcap. apply (inv_dense_len s HI).
  - rewrite Hl, Hcap. apply (inv_data_len s HI).
  - rewrite Hcap. pose proof (inv_count s HI). pose proof (inv_capacity s HI). lia.
  - intros i _. rewrite Hd. reflexivity.
Qed.

Lemma same_shape_Has s s' e : same_shape s s' -> Has s' e = Has s e.
Proof.
  intros (Hsp & Hd & Hc & _). unfold Has. rewrite Hsp, Hd, Hc. reflexivity.
Qed.

Lemma same_shape_member s s' e : same_shape s s' -> member s' e = member s e.
Proof. intros Hs. unfold member. rewrite (same_shape_Has s s' e Hs). reflexivity. Qed.

Lemma store_Ok s p x :
  0 <= p < Z.of_nat (length (data s)) ->
  exists s', store s p x = Ok s' /\ same_shape s s' /\
             aget (data s') p = Ok x /\
             (forall q, q <> p -> aget (data s') q = aget (data s) q).
Proof.
  intros Hp. unfold store. rewrite (aset_in_range _ _ x Hp). simpl.
  eexists. split; [reflexivity|]. split; [|split].
  - repeat split. simpl. apply length_insert.
  - simpl. eapply aget_aset_eq. apply aset_in_range. exact Hp.
  - intros q Hq. simpl. eapply aget_aset_ne; [apply aset_in_range; exact Hp | congruence].
Qed.

Lemma store_same_shape s p x s' : store s p x = Ok s' -> same_shape s s'.
Proof.
  unfold store. intros Hst. run_inv. subst s'.
  repeat split. simpl. eapply aset_length. eassumption.
Qed.

(** ** Growth *)

Lemma Grow_Ok s :
  Inv s -> count s = capacity s ->
  exists s', Grow s = Ok s' /\ Inv s' /\
    sparse s' = sparse s /\ count s' = count s /\ count s' < capacity s' /\
    capacity s' = (if decide (capacity s = 0) then 64 else capacity s * 2) /\
    (forall i, 0 <= i < count s ->
       aget (dense s') i = aget (dense s) i /\
       aget (data s') i = aget (data s) i).
Proof.
  intros HI Hfull.
  pose proof (inv_count s HI) as Hc0. pose proof (Inv_count_le_MAX s HI) as HcM.
  pose proof (inv_dense_len s HI) as Hld. pose proof (inv_data_len s HI) as Hldt.
  set (cap' := if decide (capacity s = 0) then 64 else capacity s * 2).
  assert (Hcap' : count s < cap' /\ cap' <= 2 * MAX_ENTITIES).
  { unfold cap', MAX_ENTITIES in *. destruct (decide _); lia. }
  assert (Hnew : (if decide (capacity s = 0) then Ok 64
                  else as_int (capacity s * 2)) = Ok cap').
  { unfold cap'. destruct (decide _); [reflexivity|].
    apply as_int_small. unfold INT_MIN, INT_MAX, MAX_ENTITIES in *. lia. }
  unfold Grow. rewrite Hnew. simpl.
  match goal with |- context [for_range 0 (count s) ?body ?init] =>
    destruct (for_range_inv
      (fun j '(nd, ndata) =>
         Z.of_nat (length nd) = cap' /\ Z.of_nat (length ndata) = cap' /\
         forall i, 0 <= i < j ->
           aget nd i = aget (dense s) i /\ aget ndata i = aget (data s) i)
      body 0 (count s) init) as ([nd ndata] & E & Hlnd & Hlndata & Hcopy)
  end.
  - lia.
  - split; [|split].
    + apply Array_new_length. lia.
    + apply Array_new_length. lia.
    + intros i Hi. lia.
  - intros j [nd ndata] Hj (Hlnd & Hlndata & Hcopy).
    destruct (aget_in_range (dense s) j) as [d Hd]; [lia|].
    destruct (aget_in_range (data s) j) as [x Hx]; [lia|].
    assert (Hsd : aset nd j d = Ok (<[Z.to_nat j := d]> nd))
      by (apply aset_in_range; lia).
    assert (Hsx : aset ndata j x = Ok (<[Z.to_nat j := x]> ndata))
      by (apply aset_in_range; lia).
    eexists. split.
    { rewrite Hd. simpl. rewrite Hsd. simpl. rewrite Hx. simpl.
      rewrite Hsx. simpl. reflexivity. }
    split; [rewrite length_insert; exact Hlnd|].
    split; [rewrite length_insert; exact Hlndata|].
    intros i Hi. destruct (decide (i = j)) as [->|Hne].
    + rewrite (aget_aset_eq _ _ _ _ Hsd), (aget_aset_eq _ _ _ _ Hsx). auto.
    + rewrite (aget_aset_ne _ _ _ _ _ Hsd), (aget_aset_ne _ _ _ _ _ Hsx) by lia.
      apply Hcopy. lia.
  - rewrite E. simpl. eexists. split; [reflexivity|].
    split; [|simpl; repeat split; try lia; apply Hcopy; assumption].
    apply (Inv_transfer s); simpl; try reflexivity; try assumption; try lia.
    intros i Hi. apply Hcopy. exact Hi.
Qed.

(** The storage [Add] appends to: grown when it was full. *)
Lemma Add_room s :
  Inv s ->
  exists s1, (if decide (count s >= capacity s) then Grow s else Ok s) = Ok s1 /\
    Inv s1 /\ sparse s1 = sparse s /\ count s1 = count s /\
    count s1 < capacity s1 /\
    (capacity s1 = capacity s \/ count s = capacity s) /\
    (forall i, 0 <= i < count s ->
       aget (dense s1) i = aget (dense s) i /\
       aget (data s1) i = aget (data s) i).
Proof.
  intros HI. pose proof (inv_count s HI) as Hc0.
  destruct (decide (count s >= capacity s)) as [Hfull|Hroom].
  - destruct (Grow_Ok s HI) as (s1 & E & HI1 & Hsp & Hc & Hlt & _ & Hcopy); [lia|].
    exists s1. split_and!; try assumption; try (apply Hcopy; assumption).
    right. lia.
  - exists s. split_and!; try assumption; try reflexivity; try lia.
    intros i _. auto.
Qed.

(** ** Add *)

Lemma Add_beyond s e (v : T) :
  MAX_ENTITIES <= Z.of_N e -> Add s e v = Ok s.
Proof.
  intros He. unfold Add. rewrite u32_MAX_ENTITIES.
  destruct (decide _) as [_|Hn]; [reflexivity|]. unfold MAX_ENTITIES in He. lia.
Qed.

Lemma Add_present s e idx (v : T) :
  Inv s -> slot_of s e idx ->
  Add s e v = Ok (with_data s (<[Z.to_nat (Z.of_N idx) := v]> (data s))).
Proof.
  intros HI Hsl. destruct (slot_of_inv s e idx HI Hsl) as (Hi & Hd & He).
  pose proof (inv_count s HI) as Hc0. pose proof (Inv_count_le_MAX s HI) as HcM.
  pose proof (inv_data_len s HI) as Hldt.
  unfold Add. rewrite u32_MAX_ENTITIES.
  destruct (decide (10000 <= e)%N) as [Hge|_]; [unfold MAX_ENTITIES in He; lia|].
  rewrite (Has_present s e idx HI Hsl). simpl.
  rewrite int_of_u32_small by (unfold MAX_ENTITIES in He; lia).
  destruct Hsl as [Hsp _]. rewrite Hsp. simpl.
  rewrite int_of_u32_small by (unfold MAX_ENTITIES in HcM; lia).
  rewrite aset_in_range by lia. reflexivity.
Qed.

Lemma Add_absent s e (v : T) :
  Inv s -> Z.of_N e < MAX_ENTITIES -> (forall idx, ~ slot_of s e idx) ->
  exists s', Add s e v = Ok s' /\ Inv s' /\
    count s' = count s + 1 /\
    slot_of s' e (Z.to_N (count s)) /\
    aget (data s') (count s) = Ok v /\
    (forall e', e' <> e ->
       aget (sparse s') (Z.of_N e') = aget (sparse s) (Z.of_N e')) /\
    (forall i, 0 <= i < count s ->
       aget (dense s') i = aget (dense s) i /\
       aget (data s') i = aget (data s) i).
Proof.
  intros HI He Hno.
  destruct (Add_room s HI) as (s1 & Eroom & HI1 & Hsp1 & Hc1 & Hlt1 & _ & Hcopy).
  pose proof (inv_count s HI) as Hc0. pose proof (Inv_count_le_MAX s HI) as HcM.
  pose proof (inv_sparse_len s1 HI1) as Hlsp. pose proof (inv_dense_len s1 HI1) as Hld.
  pose proof (inv_data_len s1 HI1) as Hldt. pose proof (inv_capacity s1 HI1) as Hcap.
  assert (Hidx : u32_of_int (count s1) = Z.to_N (count s)).
  { rewrite Hc1. apply u32_of_int_to_N. unfold MAX_ENTITIES in HcM. lia. }
  assert (Hinv : Z.to_N (count s) <> INVALID_INDEX).
  { rewrite INVALID_INDEX_val. unfold MAX_ENTITIES in HcM. lia. }
  assert (Es : aset (sparse s1) (Z.of_N e) (Z.to_N (count s))
               = Ok (<[Z.to_nat (Z.of_N e) := Z.to_N (count s)]> (sparse s1)))
    by (apply aset_in_range; lia).
  assert (Ed : aset (dense s1) (count s) e
               = Ok (<[Z.to_nat (count s) := e]> (dense s1)))
    by (apply aset_in_range; lia).
  assert (Ex : aset (data s1) (count s) v
               = Ok (<[Z.to_nat (count s) := v]> (data s1)))
    by (apply aset_in_range; lia).
  eexists. split.
  { unfold Add. rewrite u32_MAX_ENTITIES.
    destruct (decide (10000 <= e)%N) as [Hge|_]; [unfold MAX_ENTITIES in He; lia|].
    rewrite (Has_absent s e HI Hno). simpl. rewrite Eroom. simpl.
    rewrite int_of_u32_small by (unfold MAX_ENTITIES in He; lia).
    rewrite Hidx, Hc1, Es. simpl. rewrite Ed. simpl. rewrite Ex. simpl.
    rewrite as_int_small by (unfold INT_MIN, INT_MAX, MAX_ENTITIES in *; lia).
    simpl. reflexivity. }
  assert (Hsp_ne : forall e', e' <> e ->
            aget (<[Z.to_nat (Z.of_N e) := Z.to_N (count s)]> (sparse s1)) (Z.of_N e')
            = aget (sparse s) (Z.of_N e')).
  { intros e' Hne. rewrite (aget_aset_ne _ _ _ _ _ Es) by lia.
    rewrite Hsp1. reflexivity. }
  assert (Hd_lt : forall i, 0 <= i < count s ->
            aget (<[Z.to_nat (count s) := e]> (dense s1)) i = aget (dense s) i).
  { intros i Hi. rewrite (aget_aset_ne _ _ _ _ _ Ed) by lia. apply Hcopy. exact Hi. }
  assert (Hx_lt : forall i, 0 <= i < count s ->
            aget (<[Z.to_nat (count s) := v]> (data s1)) i = aget (data s) i).
  { intros i Hi. rewrite (aget_aset_ne _ _ _ _ _ Ex) by lia. apply Hcopy. exact Hi. }
  split_and!; cbn [sparse dense data count capacity].
  - split; cbn [sparse dense data count capacity].
    + rewrite length_insert. exact Hlsp.
    + rewrite length_insert. exact Hld.
    + rewrite length_insert. exact Hldt.
    + lia.
    + exact Hcap.
    + intros e' idx Hget Hne. destruct (decide (e' = e)) as [->|Hnee].
      * rewrite (aget_aset_eq _ _ _ _ Es) in Hget. injection Hget as <-.
        split; [lia|]. rewrite Z2N.id by lia. apply (aget_aset_eq _ _ _ _ Ed).
      * rewrite Hsp_ne in Hget by exact Hnee.
        destruct (inv_sparse s HI e' idx Hget Hne) as [Hlt Hde].
        split; [lia|]. rewrite Hd_lt by lia. exact Hde.
    + intros i e' Hi Hget. destruct (decide (i = count s)) as [->|Hnei].
      * rewrite (aget_aset_eq _ _ _ _ Ed) in Hget. injection Hget as <-.
        apply (aget_aset_eq _ _ _ _ Es).
      * rewrite Hd_lt in Hget by lia.
        assert (Hsl : slot_of s e' (Z.to_N i)) by (apply slot_of_dense; [assumption|lia|assumption]).
        assert (e' <> e) by (intros ->; exact (Hno _ Hsl)).
        rewrite Hsp_ne by assumption. apply Hsl.
  - lia.
  - split; [apply (aget_aset_eq _ _ _ _ Es) | exact Hinv].
  - apply (aget_aset_eq _ _ _ _ Ex).
  - exact Hsp_ne.
  - intros i Hi. split; [apply Hd_lt | apply Hx_lt]; exact Hi.
Qed.

Lemma Add_Inv s e (v : T) : Inv s -> exists s', Add s e v = Ok s' /\ Inv s'.
Proof.
  intros HI. destruct (decide (MAX_ENTITIES <= Z.of_N e)) as [Hge|Hlt].
  - exists s. split; [apply Add_beyond; exact Hge | exact HI].
  - destruct (slot_of_dec s e HI) as [[idx Hsl]|Hno].
    + eexists. split; [apply (Add_present s e idx v HI Hsl)|].
      apply (same_shape_Inv s); [|exact HI].
      repeat split. simpl. apply length_insert.
    + destruct (Add_absent s e v HI) as (s' & E & HI' & _); [lia | exact Hno |].
      exists s'. auto.
Qed.

(** ** Get *)

Lemma Get_present s e idx :
  Inv s -> slot_of s e idx -> Get s e = Ok (Some (Z.of_N idx)).
Proof.
  intros HI Hsl. destruct (slot_of_inv s e idx HI Hsl) as (Hi & Hd & He).
  pose proof (inv_count s HI) as Hc0. pose proof (Inv_count_le_MAX s HI) as HcM.
  pose proof (inv_data_len s HI) as Hldt.
  unfold Get. rewrite (Has_present s e idx HI Hsl). simpl.
  rewrite int_of_u32_small by (unfold MAX_ENTITIES in He; lia).
  destruct Hsl as [Hsp _]. rewrite Hsp. simpl.
  rewrite int_of_u32_small by (unfold MAX_ENTITIES in HcM; lia).
  destruct (aget_in_range (data s) (Z.of_N idx)) as [x ->]; [lia|]. reflexivity.
Qed.

Lemma Get_absent s e :
  Inv s -> (forall idx, ~ slot_of s e idx) -> Get s e = Ok None.
Proof. intros HI Hno. unfold Get. rewrite (Has_absent s e HI Hno). reflexivity. Qed.

Lemma Get_member s e :
  Inv s ->
  (member s e = true /\
   exists p, Get s e = Ok (Some p) /\ 0 <= p < Z.of_nat (length (data s))) \/
  (member s e = false /\ Get s e = Ok None).
Proof.
  intros HI. destruct (slot_of_dec s e HI) as [[idx Hsl]|Hno].
  - left. split.
    + apply (member_true s e HI). eapply Has_present; eassumption.
    + exists (Z.of_N idx). split; [apply Get_present; assumption|].
      destruct (slot_of_inv s e idx HI Hsl) as (Hi & _).
      pose proof (inv_count s HI). pose proof (inv_data_len s HI). lia.
  - right. split; [|apply Get_absent; assumption].
    unfold member. rewrite (Has_absent s e HI Hno). reflexivity.
Qed.

Lemma GetValue_present s e idx :
  Inv s -> slot_of s e idx ->
  exists x, aget (data s) (Z.of_N idx) = Ok x /\ GetValue s e = Ok (Some x).
Proof.
  intros HI Hsl. destruct (slot_of_inv s e idx HI Hsl) as (Hi & _).
  pose proof (inv_count s HI) as Hc0. pose proof (inv_data_len s HI) as Hldt.
  destruct (aget_in_range (data s) (Z.of_N idx)) as [x Hx]; [lia|].
  exists x. split; [exact Hx|].
  unfold GetValue, load. rewrite (Get_present s e idx HI Hsl). simpl.
  rewrite Hx. reflexivity.
Qed.

Lemma GetValue_absent s e :
  Inv s -> (forall idx, ~ slot_of s e idx) -> GetValue s e = Ok None.
Proof. intros HI Hno. unfold GetValue. rewrite (Get_absent s e HI Hno). reflexivity. Qed.

(** ** Remove *)

Lemma Remove_absent s e :
  Inv s -> (forall idx, ~ slot_of s e idx) -> Remove s e = Ok s.
Proof. intros HI Hno. unfold Remove. rewrite (Has_absent s e HI Hno). reflexivity. Qed.

Lemma Remove_beyond s e : MAX_ENTITIES <= Z.of_N e -> Remove s e = Ok s.
Proof. intros He. unfold Remove. rewrite (Has_beyond s e He). reflexivity. Qed.

Lemma Remove_present s e idx :
  Inv s -> slot_of s e idx ->
  exists s', Remove s e = Ok s' /\ Inv s' /\
    count s' = count s - 1 /\ capacity s' = capacity s /\
    (forall idx', ~ slot_of s' e idx') /\
    (forall e2 idx2, e2 <> e -> slot_of s e2 idx2 ->
       exists idx2', slot_of s' e2 idx2' /\
         aget (data s') (Z.of_N idx2') = aget (data s) (Z.of_N idx2)) /\
    (forall e2 idx2', slot_of s' e2 idx2' -> exists idx2, slot_of s e2 idx2).
Proof.
  intros HI Hsl. destruct (slot_of_inv s e idx HI Hsl) as (Hi & Hd & He).
  pose proof (inv_count s HI) as Hc0. pose proof (Inv_count_le_MAX s HI) as HcM.
  pose proof (inv_sparse_len s HI) as Hlsp. pose proof (inv_dense_len s HI) as Hld.
  pose proof (inv_data_len s HI) as Hldt. pose proof (inv_capacity s HI) as Hcap.
  assert (HM : MAX_ENTITIES = 10000) by reflexivity.
  assert (Hlast : u32_of_int (count s - 1) = Z.to_N (count s - 1))
    by (apply u32_of_int_to_N; lia).
  assert (Hhead :
    Remove s e =
    (s1 ← (if decide (idx <> Z.to_N (count s - 1)) then
             lastEntity ← aget (dense s) (count s - 1);
             dense' ← aset (dense s) (Z.of_N idx) lastEntity;
             x ← aget (data s) (count s - 1);
             data' ← aset (data s) (Z.of_N idx) x;
             sparse' ← aset (sparse s) (int_of_u32 lastEntity) idx;
             Ok (mkSparseSet sparse' dense' data' (count s) (capacity s))
           else Ok s);
     sparse' ← aset (sparse s1) (Z.of_N e) INVALID_INDEX;
     Ok (mkSparseSet sparse' (dense s1) (data s1) (count s1 - 1) (capacity s1)))).
  { unfold Remove. rewrite (Has_present s e idx HI Hsl). simpl.
    rewrite int_of_u32_small by lia.
    destruct Hsl as [Hsp _]. rewrite Hsp. simpl.
    rewrite as_int_small by (unfold INT_MIN, INT_MAX; lia). simpl.
    rewrite Hlast. rewrite !int_of_u32_small by lia. rewrite Z2N.id by lia.
    destruct (decide (idx <> Z.to_N (count s - 1))) as [Hne|Heq]; simpl.
    - destruct (aget (dense s) (count s - 1)) as [le|]; simpl; [|reflexivity].
      destruct (aset (dense s) (Z.of_N idx) le) as [d1|]; simpl; [|reflexivity].
      destruct (aget (data s) (count s - 1)) as [x|]; simpl; [|reflexivity].
      destruct (aset (data s) (Z.of_N idx) x) as [x1|]; simpl; [|reflexivity].
      destruct (aset (sparse s) (int_of_u32 le) idx) as [sp1|]; simpl; [|reflexivity].
      destruct (aset sp1 (Z.of_N e) INVALID_INDEX) as [sp2|]; simpl; [|reflexivity].
      rewrite as_int_small by (unfold INT_MIN, INT_MAX; lia). reflexivity.
    - destruct (aset (sparse s) (Z.of_N e) INVALID_INDEX) as [sp2|]; simpl; [|reflexivity].
      rewrite as_int_small by (unfold INT_MIN, INT_MAX; lia). reflexivity. }
  rewrite Hhead. clear Hhead.
  assert (Hsp_e : aget (sparse s) (Z.of_N e) = Ok idx) by apply Hsl.
  destruct (decide (idx <> Z.to_N (count s - 1))) as [Hne|Heq].
  - (* the last entry moves into the hole *)
    destruct (aget_in_range (dense s) (count s - 1)) as [le Hle]; [lia|].
    destruct (aget_in_range (data s) (count s - 1)) as [x Hx]; [lia|].
    assert (Hsl_le : slot_of s le (Z.to_N (count s - 1)))
      by (apply slot_of_dense; [assumption | lia | assumption]).
    destruct (slot_of_inv s le _ HI Hsl_le) as (_ & _ & Hle_b).
    assert (Hle_e : le <> e).
    { intros ->. apply Hne. eapply slot_of_fun; eassumption. }
    assert (Ed : aset (dense s) (Z.of_N idx) le
                 = Ok (<[Z.to_nat (Z.of_N idx) := le]> (dense s)))
      by (apply aset_in_range; lia).
    assert (Ex : aset (data s) (Z.of_N idx) x
                 = Ok (<[Z.to_nat (Z.of_N idx) := x]> (data s)))
      by (apply aset_in_range; lia).
    assert (Es : aset (sparse s) (Z.of_N le) idx
                 = Ok (<[Z.to_nat (Z.of_N le) := idx]> (sparse s)))
      by (apply aset_in_range; lia).
    assert (Es2 : aset (<[Z.to_nat (Z.of_N le) := idx]> (sparse s)) (Z.of_N e)
                       INVALID_INDEX
                 = Ok (<[Z.to_nat (Z.of_N e) := INVALID_INDEX]>
                         (<[Z.to_nat (Z.of_N le) := idx]> (sparse s))))
      by (apply aset_in_range; rewrite length_insert; lia).
    rewrite Hle. simpl. rewrite Ed. simpl. rewrite Hx. simpl. rewrite Ex. simpl.
    rewrite int_of_u32_small by lia. rewrite Es. simpl. rewrite Es2. simpl.
    set (sp' := <[Z.to_nat (Z.of_N e) := INVALID_INDEX]>
                  (<[Z.to_nat (Z.of_N le) := idx]> (sparse s))).
    set (d' := <[Z.to_nat (Z.of_N idx) := le]> (dense s)).
    set (x' := <[Z.to_nat (Z.of_N idx) := x]> (data s)).
    assert (Hsp'_e : aget sp' (Z.of_N e) = Ok INVALID_INDEX)
      by apply (aget_aset_eq _ _ _ _ Es2).
    assert (Hsp'_le : aget sp' (Z.of_N le) = Ok idx).
    { unfold sp'. rewrite (aget_aset_ne _ _ _ _ _ Es2) by lia.
      apply (aget_aset_eq _ _ _ _ Es). }
    assert (Hsp'_o : forall e2, e2 <> e -> e2 <> le ->
              aget sp' (Z.of_N e2) = aget (sparse s) (Z.of_N e2)).
    { intros e2 H1 H2. unfold sp'. rewrite (aget_aset_ne _ _ _ _ _ Es2) by lia.
      apply (aget_aset_ne _ _ _ _ _ Es). lia. }
    assert (Hd'_idx : aget d' (Z.of_N idx) = Ok le) by apply (aget_aset_eq _ _ _ _ Ed).
    assert (Hd'_o : forall i, i <> Z.of_N idx -> aget d' i = aget (dense s) i).
    { intros i Hi'. apply (aget_aset_ne _ _ _ _ _ Ed). lia. }
    assert (Hx'_idx : aget x' (Z.of_N idx) = Ok x) by apply (aget_aset_eq _ _ _ _ Ex).
    assert (Hx'_o : forall i, i <> Z.of_N idx -> aget x' i = aget (data s) i).
    { intros i Hi'. apply (aget_aset_ne _ _ _ _ _ Ex). lia. }
    eexists. split; [reflexivity|].
    split_and!; cbn [sparse dense data count capacity].
    + split; cbn [sparse dense data count capacity].
      * unfold sp'. rewrite !length_insert. exact Hlsp.
      * unfold d'. rewrite length_insert. exact Hld.
      * unfold x'. rewrite length_insert. exact Hldt.
      * lia.
      * exact Hcap.
      * intros e2 idx2 Hget Hne2.
        destruct (decide (e2 = e)) as [->|Hn1]; [congruence|].
        destruct (decide (e2 = le)) as [->|Hn2].
        -- rewrite Hsp'_le in Hget. injection Hget as <-. split; [lia | exact Hd'_idx].
        -- rewrite Hsp'_o in Hget by assumption.
           destruct (inv_sparse s HI e2 idx2 Hget Hne2) as [Hlt2 Hd2].
           assert (Z.of_N idx2 <> count s - 1) by (intros Heq; rewrite Heq in Hd2; congruence).
           assert (idx2 <> idx) by (intros ->; congruence).
           split; [lia|]. rewrite Hd'_o by lia. exact Hd2.
      * intros i e2 Hi2 Hget. destruct (decide (i = Z.of_N idx)) as [->|Hni].
        -- rewrite Hd'_idx in Hget. injection Hget as <-.
           rewrite N2Z.id. exact Hsp'_le.
        -- rewrite Hd'_o in Hget by exact Hni.
           assert (Hsl2 : slot_of s e2 (Z.to_N i))
             by (apply slot_of_dense; [assumption | lia | assumption]).
           assert (e2 <> e).
           { intros ->. pose proof (slot_of_fun _ _ _ _ Hsl Hsl2). lia. }
           assert (e2 <> le).
           { intros ->. pose proof (slot_of_fun _ _ _ _ Hsl_le Hsl2). lia. }
           rewrite Hsp'_o by assumption. apply Hsl2.
    + reflexivity.
    + reflexivity.
    + intros idx' [Hsp' Hne']. cbn [sparse] in Hsp'. congruence.
    + intros e2 idx2 Hne2 Hsl2. destruct (decide (e2 = le)) as [->|Hn2].
      * exists idx. split.
        -- split; [exact Hsp'_le | apply Hsl].
        -- cbn [data]. rewrite Hx'_idx.
           rewrite (slot_of_fun _ _ _ _ Hsl2 Hsl_le). rewrite Z2N.id by lia.
           symmetry. exact Hx.
      * exists idx2. split.
        -- split; [cbn [sparse]; rewrite Hsp'_o by assumption; apply Hsl2 | apply Hsl2].
        -- cbn [data]. apply Hx'_o.
           destruct (slot_of_inv s e2 idx2 HI Hsl2) as (_ & Hd2 & _).
           intros Heq. apply N2Z.inj in Heq. subst idx2. congruence.
    + intros e2 idx2' [Hsp2 Hne2]. cbn [sparse] in Hsp2.
      destruct (decide (e2 = e)) as [->|Hn1]; [congruence|].
      destruct (decide (e2 = le)) as [->|Hn2]; [eexists; exact Hsl_le|].
      rewrite Hsp'_o in Hsp2 by assumption. exists idx2'. split; assumption.
  - (* the removed entity was the last entry *)
    assert (Hidx : Z.of_N idx = count s - 1) by lia.
    assert (Es : aset (sparse s) (Z.of_N e) INVALID_INDEX
                 = Ok (<[Z.to_nat (Z.of_N e) := INVALID_INDEX]> (sparse s)))
      by (apply aset_in_range; lia).
    simpl. rewrite Es. simpl.
    set (sp' := <[Z.to_nat (Z.of_N e) := INVALID_INDEX]> (sparse s)).
    assert (Hsp'_e : aget sp' (Z.of_N e) = Ok INVALID_INDEX)
      by apply (aget_aset_eq _ _ _ _ Es).
    assert (Hsp'_o : forall e2, e2 <> e ->
              aget sp' (Z.of_N e2) = aget (sparse s) (Z.of_N e2)).
    { intros e2 H1. apply (aget_aset_ne _ _ _ _ _ Es). lia. }
    eexists. split; [reflexivity|].
    split_and!; cbn [sparse dense data count capacity].
    + split; cbn [sparse dense data count capacity].
      * unfold sp'. rewrite length_insert. exact Hlsp.
      * exact Hld.
      * exact Hldt.
      * lia.
      * exact Hcap.
      * intros e2 idx2 Hget Hne2.
        destruct (decide (e2 = e)) as [->|Hn1]; [congruence|].
        rewrite Hsp'_o in Hget by assumption.
        destruct (inv_sparse s HI e2 idx2 Hget Hne2) as [Hlt2 Hd2].
        assert (idx2 <> idx) by (intros ->; congruence).
        split; [lia | exact Hd2].
      * intros i e2 Hi2 Hget.
        assert (Hsl2 : slot_of s e2 (Z.to_N i))
          by (apply slot_of_dense; [assumption | lia | assumption]).
        assert (e2 <> e).
        { intros ->. pose proof (slot_of_fun _ _ _ _ Hsl Hsl2). lia. }
        rewrite Hsp'_o by assumption. apply Hsl2.
    + reflexivity.
    + reflexivity.
    + intros idx' [Hsp' Hne']. cbn [sparse] in Hsp'. congruence.
    + intros e2 idx2 Hne2 Hsl2. exists idx2. split; [|reflexivity].
      split; [cbn [sparse]; rewrite Hsp'_o by assumption; apply Hsl2 | apply Hsl2].
    + intros e2 idx2' [Hsp2 Hne2]. cbn [sparse] in Hsp2.
      destruct (decide (e2 = e)) as [->|Hn1]; [congruence|].
      rewrite Hsp'_o in Hsp2 by assumption. exists idx2'. split; assumption.
Qed.

Lemma Remove_Inv s e : Inv s -> exists s', Remove s e = Ok s' /\ Inv s'.
Proof.
  intros HI. destruct (slot_of_dec s e HI) as [[idx Hsl]|Hno].
  - destruct (Remove_present s e idx HI Hsl) as (s' & E & HI' & _). exists s'. auto.
  - exists s. split; [apply Remove_absent; assumption | exact HI].
Qed.

(** ** Clear *)

Lemma Clear_Ok s :
  Inv s ->
  exists s', Clear s = Ok s' /\ Inv s' /\ count s' = 0 /\
    capacity s' = capacity s /\ (forall e idx, ~ slot_of s' e idx).
Proof.
  intros HI.
  pose proof (inv_count s HI) as Hc0. pose proof (Inv_count_le_MAX s HI) as HcM.
  pose proof (inv_sparse_len s HI) as Hlsp. pose proof (inv_dense_len s HI) as Hld.
  assert (HM : MAX_ENTITIES = 10000) by reflexivity.
  unfold Clear.
  match goal with |- context [for_range 0 (count s) ?body ?init] =>
    destruct (for_range_inv
      (fun j (sp : list N) =>
         Z.of_nat (length sp) = MAX_ENTITIES /\
         forall e idx, aget sp (Z.of_N e) = Ok idx -> idx <> INVALID_INDEX ->
                       aget (sparse s) (Z.of_N e) = Ok idx /\ j <= Z.of_N idx)
      body 0 (count s) init) as (sp & E & Hlen & Hleft)
  end.
  - lia.
  - split; [exact Hlsp|]. intros e idx Hget Hne. split; [exact Hget | lia].
  - intros j sp Hj [Hlen Hleft].
    destruct (aget_in_range (dense s) j) as [d Hd]; [lia|].
    assert (Hsl : slot_of s d (Z.to_N j)) by (apply slot_of_dense; assumption).
    destruct (slot_of_inv s d _ HI Hsl) as (_ & _ & Hdb).
    assert (Es : aset sp (Z.of_N d) INVALID_INDEX
                 = Ok (<[Z.to_nat (Z.of_N d) := INVALID_INDEX]> sp))
      by (apply aset_in_range; lia).
    eexists. split.
    { rewrite Hd. simpl. rewrite int_of_u32_small by lia. exact Es. }
    split; [rewrite length_insert; exact Hlen|].
    intros e idx Hget Hne. destruct (decide (e = d)) as [->|Hned].
    + rewrite (aget_aset_eq _ _ _ _ Es) in Hget. congruence.
    + rewrite (aget_aset_ne _ _ _ _ _ Es) in Hget by lia.
      destruct (Hleft e idx Hget Hne) as [Hsp Hge]. split; [exact Hsp|].
      destruct (inv_sparse s HI e idx Hsp Hne) as [_ Hde].
      assert (Z.of_N idx <> j) by (intros <-; congruence). lia.
  - rewrite E. simpl. eexists. split; [reflexivity|].
    assert (Hnone : forall e idx, aget sp (Z.of_N e) = Ok idx -> idx = INVALID_INDEX).
    { intros e idx Hget. destruct (decide (idx = INVALID_INDEX)) as [|Hne]; [assumption|].
      destruct (Hleft e idx Hget Hne) as [Hsp Hge].
      destruct (inv_sparse s HI e idx Hsp Hne) as [Hlt _]. lia. }
    split_and!; cbn [sparse dense data count capacity]; try reflexivity.
    + split; cbn [sparse dense data count capacity].
      * exact Hlen.
      * exact Hld.
      * apply (inv_data_len s HI).
      * lia.
      * apply (inv_capacity s HI).
      * intros e idx Hget Hne. apply Hnone in Hget. contradiction.
      * intros i e Hi. lia.
    + intros e idx [Hget Hne]. cbn [sparse] in Hget. apply Hnone in Hget. contradiction.
Qed.

(** ** Every reachable storage is well formed *)

Lemma reachable_Inv s : reachable s -> Inv s.
Proof.
  induction 1 as [s E | s e v s' _ IH E | s e s' _ IH E | s s' _ IH E
                  | s p x s' _ IH E].
  - rewrite SparseSet_new_Ok in E. injection E as <-. apply Inv_empty.
  - destruct (Add_Inv s e v IH) as (s'' & E' & HI). congruence.
  - destruct (Remove_Inv s e IH) as (s'' & E' & HI). congruence.
  - destruct (Clear_Ok s IH) as (s'' & E' & HI & _). congruence.
  - apply (same_shape_Inv s); [eapply store_same_shape; eassumption | exact IH].
Qed.

Lemma reachable_empty : reachable (empty_set (T:=T)).
Proof. apply reach_new. apply SparseSet_new_Ok. Qed.

(** ** What Add and Remove leave alone *)

Lemma Add_frame s e (v : T) :
  Inv s -> Z.of_N e < MAX_ENTITIES ->
  exists s', Add s e v = Ok s' /\ Inv s' /\
    Has s' e = Ok true /\ GetValue s' e = Ok (Some v) /\
    forall e2, e2 <> e ->
      Has s' e2 = Has s e2 /\ GetValue s' e2 = GetValue s e2.
Proof.
  intros HI He. pose proof (inv_count s HI) as Hc0.
  pose proof (inv_data_len s HI) as Hldt.
  assert (Hpres : forall s' idx, Inv s' -> slot_of s' e idx ->
            aget (data s') (Z.of_N idx) = Ok v ->
            Has s' e = Ok true /\ GetValue s' e = Ok (Some v)).
  { intros s' idx HI' Hsl Hx. split; [eapply Has_present; eassumption|].
    destruct (GetValue_present s' e idx HI' Hsl) as (x & Hx' & ->). congruence. }
  assert (Hother : forall s' e2, Inv s' ->
            (forall idx2, slot_of s e2 idx2 ->
               slot_of s' e2 idx2 /\
               aget (data s') (Z.of_N idx2) = aget (data s) (Z.of_N idx2)) ->
            (forall idx2, slot_of s' e2 idx2 -> slot_of s e2 idx2) ->
            Has s' e2 = Has s e2 /\ GetValue s' e2 = GetValue s e2).
  { intros s' e2 HI' Hfw Hbw.
    destruct (slot_of_dec s e2 HI) as [[idx2 Hsl2]|Hno2].
    - destruct (Hfw idx2 Hsl2) as [Hsl2' Hx].
      rewrite (Has_present s' e2 idx2 HI' Hsl2'), (Has_present s e2 idx2 HI Hsl2).
      destruct (GetValue_present s e2 idx2 HI Hsl2) as (x & Hx1 & ->).
      destruct (GetValue_present s' e2 idx2 HI' Hsl2') as (x' & Hx2 & ->).
      split; [reflexivity | congruence].
    - assert (Hno2' : forall idx2, ~ slot_of s' e2 idx2)
        by (intros idx2 Hsl2'; exact (Hno2 idx2 (Hbw idx2 Hsl2'))).
      rewrite (Has_absent s' e2 HI' Hno2'), (Has_absent s e2 HI Hno2).
      rewrite (GetValue_absent s' e2 HI' Hno2'), (GetValue_absent s e2 HI Hno2).
      auto. }
  destruct (slot_of_dec s e HI) as [[idx Hsl]|Hno].
  - pose proof (Add_present s e idx v HI Hsl) as E.
    destruct (slot_of_inv s e idx HI Hsl) as (Hi & Hd & _).
    set (s' := with_data s (<[Z.to_nat (Z.of_N idx) := v]> (data s))) in *.
    assert (HI' : Inv s').
    { apply (same_shape_Inv s); [|exact HI]. repeat split. simpl. apply length_insert. }
    assert (Ex : aset (data s) (Z.of_N idx) v = Ok (data s'))
      by (apply aset_in_range; lia).
    exists s'. split_and!; [exact E | exact HI' | | |].
    + apply (Hpres s' idx HI' Hsl). apply (aget_aset_eq _ _ _ _ Ex).
    + apply (Hpres s' idx HI' Hsl). apply (aget_aset_eq _ _ _ _ Ex).
    + intros e2 Hne. apply (Hother s' e2 HI').
      * intros idx2 Hsl2. split; [exact Hsl2|].
        destruct (slot_of_inv s e2 idx2 HI Hsl2) as (_ & Hd2 & _).
        assert (idx2 <> idx) by (intros ->; congruence).
        apply (aget_aset_ne _ _ _ _ _ Ex). lia.
      * intros idx2 Hsl2. exact Hsl2.
  - destruct (Add_absent s e v HI He Hno)
      as (s' & E & HI' & Hc & Hsl & Hx & Hsp & Hcopy).
    exists s'. split_and!; [exact E | exact HI' | | |].
    + apply (Hpres s' _ HI' Hsl). rewrite Z2N.id by lia. exact Hx.
    + apply (Hpres s' _ HI' Hsl). rewrite Z2N.id by lia. exact Hx.
    + intros e2 Hne. apply (Hother s' e2 HI').
      * intros idx2 [Hsp2 Hne2].
        destruct (slot_of_inv s e2 idx2 HI (conj Hsp2 Hne2)) as (Hi2 & _).
        split; [split; [rewrite Hsp by exact Hne; exact Hsp2 | exact Hne2]|].
        apply Hcopy. exact Hi2.
      * intros idx2 [Hsp2 Hne2]. rewrite Hsp in Hsp2 by exact Hne.
        split; assumption.
Qed.

Lemma Remove_gone s e :
  Inv s -> exists s', Remove s e = Ok s' /\ Inv s' /\ Has s' e = Ok false.
Proof.
  intros HI. destruct (slot_of_dec s e HI) as [[idx Hsl]|Hno].
  - destruct (Remove_present s e idx HI Hsl) as (s' & E & HI' & _ & _ & Hgone & _).
    exists s'. split_and!; [exact E | exact HI' | apply Has_absent; assumption].
  - exists s. split_and!; [apply Remove_absent; assumption | exact HI
                          | apply Has_absent; assumption].
Qed.

End SparseSetFacts.

(** ** The registry *)

Section WorldFacts.
Context {Transform Sprite Animation Physics Collider CollisionState Player : Type}.
Context `{Inhabited Transform} `{Inhabited Sprite} `{Inhabited Animation}
        `{Inhabited Physics} `{Inhabited Collider} `{Inhabited CollisionState}
        `{Inhabited Player}.
Abbreviation WorldT :=
  (@World Transform Sprite Animation Physics Collider CollisionState Player).
Implicit Types (w : WorldT) (k : Kind) (e : Entity).

Lemma World_new_Ok : World_new = Ok (fresh_world : WorldT).
Proof.
  unfold World_new.
  do 7 (apply bind_Ok; exists empty_set; split; [apply SparseSet_new_Ok|]).
  reflexivity.
Qed.

Lemma World_reachable_fresh : World_reachable (fresh_world : WorldT).
Proof. intros k. destruct k; apply reachable_empty. Qed.

Lemma HasX_GetSparseSet k w e : HasX k w e = Has (GetSparseSet k w) e.
Proof. destruct k; reflexivity. Qed.

Lemma GetX_GetSparseSet k w e : GetX k w e = GetValue (GetSparseSet k w) e.
Proof. destruct k; reflexivity. Qed.


Lemma Get_Put_same k w (s : SparseSet (Comp k)) :
  GetSparseSet k (PutSparseSet k w s) = s.
Proof. destruct k; reflexivity. Qed.

Lemma Get_Put_other k k' w (s : SparseSet (Comp k)) :
  k' <> k -> GetSparseSet k' (PutSparseSet k w s) = GetSparseSet k' w.
Proof. intros Hne. destruct k, k'; try reflexivity; contradiction. Qed.

Lemma nextEntity_Put k w (s : SparseSet (Comp k)) :
  nextEntity (PutSparseSet k w s) = nextEntity w.
Proof. destruct k; reflexivity. Qed.

Lemma World_reachable_Put k w (s : SparseSet (Comp k)) :
  World_reachable w -> reachable s -> World_reachable (PutSparseSet k w s).
Proof.
  intros Hw Hs k'. destruct (decide (k' = k)) as [->|Hne].
  - rewrite Get_Put_same. exact Hs.
  - rewrite Get_Put_other by exact Hne. apply Hw.
Qed.

(** ** The allocator *)

Lemma CreateEntity_below w :
  Z.of_N (nextEntity w) < MAX_ENTITIES ->
  CreateEntity w = (nextEntity w, set_nextEntity w (nextEntity w + 1)%N).
Proof.
  intros Hlt. unfold CreateEntity. rewrite u32_MAX_ENTITIES.
  destruct (decide _) as [Hge|_]; [unfold MAX_ENTITIES in Hlt; lia|].
  unfold u32_succ. rewrite N.mod_small; [reflexivity|].
  unfold MAX_ENTITIES in Hlt. lia.
Qed.

Lemma CreateEntity_exhausted w :
  MAX_ENTITIES <= Z.of_N (nextEntity w) -> CreateEntity w = (NULL_ENTITY, w).
Proof.
  intros Hge. unfold CreateEntity. rewrite u32_MAX_ENTITIES.
  destruct (decide _) as [_|Hn]; [reflexivity|]. unfold MAX_ENTITIES in Hge. lia.
Qed.

Lemma set_nextEntity_id w : set_nextEntity w (nextEntity w) = w.
Proof. destruct w; reflexivity. Qed.

Lemma create_many_below (n : nat) w :
  Z.of_N (nextEntity w) + Z.of_nat n <= MAX_ENTITIES ->
  create_many n w =
    ((fun i => (nextEntity w + N.of_nat i)%N) <$> seq 0 n,
     set_nextEntity w (nextEntity w + N.of_nat n)%N).
Proof.
  revert w. induction n as [|n IH]; intros w Hle.
  - simpl. rewrite N.add_0_r, set_nextEntity_id. reflexivity.
  - cbn [create_many]. rewrite CreateEntity_below by lia.
    rewrite IH by (cbn [nextEntity set_nextEntity]; lia).
    cbn [nextEntity set_nextEntity seq fmap list_fmap].
    f_equal.
    + rewrite N.add_0_r. f_equal.
      rewrite <- seq_shift, <- list_fmap_compose.
      apply list_fmap_ext. intros _ i _. simpl. lia.
    + unfold set_nextEntity. cbn. f_equal. lia.
Qed.

Lemma create_many_exhausted (n : nat) w :
  MAX_ENTITIES <= Z.of_N (nextEntity w) ->
  create_many n w = (replicate n NULL_ENTITY, w).
Proof.
  intros Hge. induction n as [|n IH]; [reflexivity|].
  cbn [create_many]. rewrite CreateEntity_exhausted by exact Hge.
  rewrite IH. reflexivity.
Qed.

End WorldFacts.

(** ** The query loops *)

Lemma join_trace_snoc (slots : list nat) (ok : Entity -> bool)
    (es : list Entity) (e : Entity) :
  join_trace slots ok (es ++ [e]) =
  join_trace slots ok es ++ map (fun k => Probe k e) slots
    ++ (if ok e then [Visit e] else []).
Proof.
  unfold join_trace. rewrite flat_map_app. simpl. rewrite app_nil_r. reflexivity.
Qed.

Lemma visits_app (tr1 tr2 : list event) :
  visits (tr1 ++ tr2) = visits tr1 ++ visits tr2.
Proof. unfold visits. apply flat_map_app. Qed.

Lemma join_trace_cons (slots : list nat) (ok : Entity -> bool)
    (es : list Entity) (e : Entity) :
  join_trace slots ok (e :: es) =
  (map (fun k => Probe k e) slots ++ (if ok e then [Visit e] else []))
    ++ join_trace slots ok es.
Proof. reflexivity. Qed.

Lemma visits_join_trace (slots : list nat) (ok : Entity -> bool)
    (es : list Entity) :
  visits (join_trace slots ok es) = filter (fun e => ok e = true) es.
Proof.
  assert (Hp : forall e, visits (map (fun k => Probe k e) slots) = []).
  { intros e. induction slots as [|k slots IH]; [reflexivity | exact IH]. }
  induction es as [|e es IH]; [reflexivity|].
  rewrite join_trace_cons, !visits_app, Hp, IH, filter_cons.
  destruct (ok e); destruct (decide _); try reflexivity; congruence.
Qed.

Section QueryFacts.
Context {T : Type}.
Implicit Types (s a : SparseSet T) (e : Entity).

(** One probe of a non-driving storage whose values may have been
    rewritten by earlier visits. *)
Lemma probe_step s a e :
  Inv s -> same_shape s a ->
  (Get a e = Ok None /\ member s e = false) \/
  (exists p x, Get a e = Ok (Some p) /\ member s e = true /\
               load a p = Ok x /\
               forall y, exists a', store a p y = Ok a' /\ same_shape s a').
Proof.
  intros HI Hsh. pose proof (same_shape_Inv s a Hsh HI) as HIa.
  rewrite <- (same_shape_member s a e Hsh).
  destruct (Get_member a e HIa) as [(Hm & p & Hg & Hp)|[Hm Hg]].
  - right. destruct (aget_in_range (data a) p Hp) as [x Hx].
    exists p, x. split_and!; [exact Hg | exact Hm | exact Hx |].
    intros y. destruct (store_Ok a p y Hp) as (a' & E & Hsh' & _).
    exists a'. split; [exact E|]. eapply same_shape_trans; eassumption.
  - left. auto.
Qed.

(** One step along the dense array of the driving storage. *)
Lemma drive_step s a (j : Z) :
  Inv s -> same_shape s a -> 0 <= j < count s ->
  exists e x,
    GetEntity a j = Ok e /\
    take (Z.to_nat (j + 1)) (dense s) = take (Z.to_nat j) (dense s) ++ [e] /\
    GetData a j = Ok j /\ load a j = Ok x /\
    forall y, exists a', store a j y = Ok a' /\ same_shape s a'.
Proof.
  intros HI Hsh Hj. pose proof (same_shape_Inv s a Hsh HI) as HIa.
  destruct Hsh as (Hsp & Hd & Hc & Hcap & Hl).
  pose proof (inv_count s HI) as Hc0. pose proof (inv_dense_len s HI) as Hld.
  pose proof (inv_data_len a HIa) as Hldt.
  destruct (aget_in_range (dense s) j) as [e He]; [lia|].
  assert (Hp : 0 <= j < Z.of_nat (length (data a))) by lia.
  destruct (aget_in_range (data a) j Hp) as [x Hx].
  exists e, x. split_and!.
  - unfold GetEntity. rewrite Hd. exact He.
  - replace (Z.to_nat (j + 1)) with (Datatypes.S (Z.to_nat j)) by lia.
    apply take_S_r. apply aget_Ok in He. apply He.
  - unfold GetData. rewrite Hx. reflexivity.
  - exact Hx.
  - intros y. destruct (store_Ok a j y Hp) as (a' & E & Hsh' & _).
    exists a'. split; [exact E|].
    eapply same_shape_trans; [|exact Hsh']. repeat split; assumption.
Qed.

End QueryFacts.

(** Runs the body of a query loop on what the probes returned. *)
Ltac query_rw E := rewrite E; cbv beta iota zeta.

Ltac query_store Hst y :=
  let a := fresh "a" in
  let E := fresh "E" in
  let Hsh := fresh "Hsh" in
  destruct (Hst y) as (a & E & Hsh); query_rw E.

Section QueryLoops.
Context {St T1 T2 T3 T4 T5 T6 : Type}.

Lemma Query3_spec (s1 : SparseSet T1) (s2 : SparseSet T2) (s3 : SparseSet T3)
    (func : Entity -> T1 -> T2 -> T3 -> St -> T1 * T2 * T3 * St) (st : St) :
  Inv s1 -> Inv s2 -> Inv s3 ->
  exists s1' s2' s3' st' tr,
    Query3 s1 s2 s3 func st = Ok (s1', s2', s3', st', tr) /\
    same_shape s1 s1' /\ same_shape s2 s2' /\ same_shape s3 s3' /\
    tr = join_trace [2; 3]%nat (fun e => member s2 e && member s3 e)
                    (entities s1).
Proof.
  intros HI1 HI2 HI3. unfold Query3, Count.
  match goal with |- context [for_range 0 (count s1) ?body ?init] =>
    destruct (for_range_inv
      (fun j '(a1, a2, a3, st', tr) =>
         same_shape s1 a1 /\ same_shape s2 a2 /\ same_shape s3 a3 /\
         tr = join_trace [2; 3]%nat (fun e => member s2 e && member s3 e)
                         (take (Z.to_nat j) (dense s1)))
      body 0 (count s1) init)
      as ([[[[a1 a2] a3] st'] tr] & E & Hs1 & Hs2 & Hs3 & Htr)
  end.
  - apply (inv_count s1 HI1).
  - split_and!; try apply same_shape_refl. reflexivity.
  - intros j [[[[a1 a2] a3] st0] tr0] Hj (Hs1 & Hs2 & Hs3 & Htr).
    destruct (drive_step s1 a1 j HI1 Hs1 Hj) as (e & x1 & HgE & Htake & HgD & Hl1 & Hst1).
    unfold mbind, run_bind. cbv beta iota zeta.
    query_rw HgE. rewrite Htake, join_trace_snoc. subst tr0.
    destruct (probe_step s2 a2 e HI2 Hs2) as [[Hg2 Hm2]|(p2 & x2 & Hg2 & Hm2 & Hl2 & Hst2)];
    destruct (probe_step s3 a3 e HI3 Hs3) as [[Hg3 Hm3]|(p3 & x3 & Hg3 & Hm3 & Hl3 & Hst3)];
    query_rw Hg2; query_rw Hg3; rewrite Hm2, Hm3; cbn [andb map];
    try (eexists; split; [reflexivity|]; split_and!; try assumption;
         rewrite ?app_nil_r; reflexivity).
    query_rw HgD. query_rw Hl1. query_rw Hl2. query_rw Hl3.
    destruct (func e x1 x2 x3 st0) as [[[y1 y2] y3] st1].
    query_store Hst1 y1. query_store Hst2 y2. query_store Hst3 y3.
    eexists; split; [reflexivity|]. split_and!; try assumption.
    rewrite <- !app_assoc. reflexivity.
  - exists a1, a2, a3, st', tr. split_and!; try assumption.
Qed.

Lemma Query2_spec (s1 : SparseSet T1) (s2 : SparseSet T2)
    (func : Entity -> T1 -> T2 -> St -> T1 * T2 * St) (st : St) :
  Inv s1 -> Inv s2 ->
  exists s1' s2' st' tr,
    Query2 s1 s2 func st = Ok (s1', s2', st', tr) /\
    same_shape s1 s1' /\ same_shape s2 s2' /\
    tr = (if decide (Count s1 <= Count s2)
          then join_trace [2]%nat (member s2) (entities s1)
          else join_trace [1]%nat (member s1) (entities s2)).
Proof.
  intros HI1 HI2. unfold Query2, Count.
  destruct (decide (count s1 <= count s2)) as [Hle|Hgt].
  - (* the first storage drives *)
    match goal with |- context [for_range 0 (count s1) ?body ?init] =>
      destruct (for_range_inv
        (fun j '(a1, a2, st', tr) =>
           same_shape s1 a1 /\ same_shape s2 a2 /\
           tr = join_trace [2]%nat (member s2) (take (Z.to_nat j) (dense s1)))
        body 0 (count s1) init)
        as ([[[a1 a2] st'] tr] & E & Hs1 & Hs2 & Htr)
    end.
    + apply (inv_count s1 HI1).
    + split_and!; try apply same_shape_refl. reflexivity.
    + intros j [[[a1 a2] st0] tr0] Hj (Hs1 & Hs2 & Htr).
      destruct (drive_step s1 a1 j HI1 Hs1 Hj)
        as (e & x1 & HgE & Htake & HgD & Hl1 & Hst1).
      unfold mbind, run_bind. cbv beta iota zeta.
      query_rw HgE. rewrite Htake, join_trace_snoc. subst tr0.
      destruct (probe_step s2 a2 e HI2 Hs2)
        as [[Hg2 Hm2]|(p2 & x2 & Hg2 & Hm2 & Hl2 & Hst2)];
      query_rw Hg2; rewrite Hm2; cbn [map];
      try (eexists; split; [reflexivity|]; split_and!; try assumption;
           rewrite ?app_nil_r; reflexivity).
      query_rw HgD. query_rw Hl1. query_rw Hl2.
      destruct (func e x1 x2 st0) as [[y1 y2] st1].
      query_store Hst1 y1. query_store Hst2 y2.
      eexists; split; [reflexivity|]. split_and!; try assumption.
      rewrite <- !app_assoc. reflexivity.
    + exists a1, a2, st', tr. split_and!; assumption.
  - (* the second storage drives *)
    match goal with |- context [for_range 0 (count s2) ?body ?init] =>
      destruct (for_range_inv
        (fun j '(a1, a2, st', tr) =>
           same_shape s1 a1 /\ same_shape s2 a2 /\
           tr = join_trace [1]%nat (member s1) (take (Z.to_nat j) (dense s2)))
        body 0 (count s2) init)
        as ([[[a1 a2] st'] tr] & E & Hs1 & Hs2 & Htr)
    end.
    + apply (inv_count s2 HI2).
    + split_and!; try apply same_shape_refl. reflexivity.
    + intros j [[[a1 a2] st0] tr0] Hj (Hs1 & Hs2 & Htr).
      destruct (drive_step s2 a2 j HI2 Hs2 Hj)
        as (e & x2 & HgE & Htake & HgD & Hl2 & Hst2).
      unfold mbind, run_bind. cbv beta iota zeta.
      query_rw HgE. rewrite Htake, join_trace_snoc. subst tr0.
      destruct (probe_step s1 a1 e HI1 Hs1)
        as [[Hg1 Hm1]|(p1 & x1 & Hg1 & Hm1 & Hl1 & Hst1)];
      query_rw Hg1; rewrite Hm1; cbn [map];
      try (eexists; split; [reflexivity|]; split_and!; try assumption;
           rewrite ?app_nil_r; reflexivity).
      query_rw HgD. query_rw Hl1. query_rw Hl2.
      destruct (func e x1 x2 st0) as [[y1 y2] st1].
      query_store Hst1 y1. query_store Hst2 y2.
      eexists; split; [reflexivity|]. split_and!; try assumption.
      rewrite <- !app_assoc. reflexivity.
    + exists a1, a2, st', tr. split_and!; assumption.
Qed.

Lemma Query4_spec (s1 : SparseSet T1) (s2 : SparseSet T2) (s3 : SparseSet T3) (s4 : SparseSet T4)
    (func : Entity -> T1 -> T2 -> T3 -> T4 -> St -> T1 * T2 * T3 * T4 * St)
    (st : St) :
  Inv s1 -> Inv s2 -> Inv s3 -> Inv s4 ->
  exists s1' s2' s3' s4' st' tr,
    Query4 s1 s2 s3 s4 func st = Ok (s1', s2', s3', s4', st', tr) /\
    same_shape s1 s1' /\
    same_shape s2 s2' /\
    same_shape s3 s3' /\
    same_shape s4 s4' /\
    tr = join_trace [2; 3; 4]%nat
           (fun e => member s2 e && member s3 e && member s4 e) (entities s1).
Proof.
  intros HI1 HI2 HI3 HI4. unfold Query4, Count.
  match goal with |- context [for_range 0 (count s1) ?body ?init] =>
    destruct (for_range_inv
      (fun j '(a1, a2, a3, a4, st', tr) =>
         same_shape s1 a1 /\ same_shape s2 a2 /\ same_shape s3 a3 /\ same_shape s4 a4 /\
         tr = join_trace [2; 3; 4]%nat
                (fun e => member s2 e && member s3 e && member s4 e)
                (take (Z.to_nat j) (dense s1)))
      body 0 (count s1) init)
      as ([[[[[a1 a2] a3] a4] st'] tr] & E & Hs1 & Hs2 & Hs3 & Hs4 & Htr)
  end.
  - apply (inv_count s1 HI1).
  - split_and!; try apply same_shape_refl. reflexivity.
  - intros j [[[[[a1 a2] a3] a4] st0] tr0] Hj (Hs1 & Hs2 & Hs3 & Hs4 & Htr).
    destruct (drive_step s1 a1 j HI1 Hs1 Hj)
      as (e & x1 & HgE & Htake & HgD & Hl1 & Hst1).
    unfold mbind, run_bind. cbv beta iota zeta.
    query_rw HgE. rewrite Htake, join_trace_snoc. subst tr0.
    destruct (probe_step s2 a2 e HI2 Hs2) as [[Hg2 Hm2]|(p2 & x2 & Hg2 & Hm2 & Hl2 & Hst2)];
    destruct (probe_step s3 a3 e HI3 Hs3) as [[Hg3 Hm3]|(p3 & x3 & Hg3 & Hm3 & Hl3 & Hst3)];
    destruct (probe_step s4 a4 e HI4 Hs4) as [[Hg4 Hm4]|(p4 & x4 & Hg4 & Hm4 & Hl4 & Hst4)];
    query_rw Hg2; query_rw Hg3; query_rw Hg4; rewrite Hm2, Hm3, Hm4; cbn [andb map];
    try (eexists; split; [reflexivity|]; split_and!; try assumption;
         rewrite ?app_nil_r; reflexivity).
    query_rw HgD. query_rw Hl1. query_rw Hl2. query_rw Hl3. query_rw Hl4.
    destruct (func e x1 x2 x3 x4 st0) as [[[[y1 y2] y3] y4] st1].
    query_store Hst1 y1. query_store Hst2 y2. query_store Hst3 y3. query_store Hst4 y4.
    eexists; split; [reflexivity|]. split_and!; try assumption.
    rewrite <- !app_assoc. reflexivity.
  - exists a1, a2, a3, a4, st', tr. split_and!; assumption.
Qed.

Lemma Query5_spec (s1 : SparseSet T1) (s2 : SparseSet T2) (s3 : SparseSet T3) (s4 : SparseSet T4) (s5 : SparseSet T5)
    (func : Entity -> T1 -> T2 -> T3 -> T4 -> T5 -> St -> T1 * T2 * T3 * T4 * T5 * St)
    (st : St) :
  Inv s1 -> Inv s2 -> Inv s3 -> Inv s4 -> Inv s5 ->
  exists s1' s2' s3' s4' s5' st' tr,
    Query5 s1 s2 s3 s4 s5 func st = Ok (s1', s2', s3', s4', s5', st', tr) /\
    same_shape s1 s1' /\
    same_shape s2 s2' /\
    same_shape s3 s3' /\
    same_shape s4 s4' /\
    same_shape s5 s5' /\
    tr = join_trace [2; 3; 4; 5]%nat
           (fun e => member s2 e && member s3 e && member s4 e && member s5 e) (entities s1).
Proof.
  intros HI1 HI2 HI3 HI4 HI5. unfold Query5, Count.
  match goal with |- context [for_range 0 (count s1) ?body ?init] =>
    destruct (for_range_inv
      (fun j '(a1, a2, a3, a4, a5, st', tr) =>
         same_shape s1 a1 /\ same_shape s2 a2 /\ same_shape s3 a3 /\ same_shape s4 a4 /\ same_shape s5 a5 /\
         tr = join_trace [2; 3; 4; 5]%nat
                (fun e => member s2 e && member s3 e && member s4 e && member s5 e)
                (take (Z.to_nat j) (dense s1)))
      body 0 (count s1) init)
      as ([[[[[[a1 a2] a3] a4] a5] st'] tr] & E & Hs1 & Hs2 & Hs3 & Hs4 & Hs5 & Htr)
  end.
  - apply (inv_count s1 HI1).
  - split_and!; try apply same_shape_refl. reflexivity.
  - intros j [[[[[[a1 a2] a3] a4] a5] st0] tr0] Hj (Hs1 & Hs2 & Hs3 & Hs4 & Hs5 & Htr).
    destruct (drive_step s1 a1 j HI1 Hs1 Hj)
      as (e & x1 & HgE & Htake & HgD & Hl1 & Hst1).
    unfold mbind, run_bind. cbv beta iota zeta.
    query_rw HgE. rewrite Htake, join_trace_snoc. subst tr0.
    destruct (probe_step s2 a2 e HI2 Hs2) as [[Hg2 Hm2]|(p2 & x2 & Hg2 & Hm2 & Hl2 & Hst2)];
    destruct (probe_step s3 a3 e HI3 Hs3) as [[Hg3 Hm3]|(p3 & x3 & Hg3 & Hm3 & Hl3 & Hst3)];
    destruct (probe_step s4 a4 e HI4 Hs4) as [[Hg4 Hm4]|(p4 & x4 & Hg4 & Hm4 & Hl4 & Hst4)];
    destruct (probe_step s5 a5 e HI5 Hs5) as [[Hg5 Hm5]|(p5 & x5 & Hg5 & Hm5 & Hl5 & Hst5)];
    query_rw Hg2; query_rw Hg3; query_rw Hg4; query_rw Hg5; rewrite Hm2, Hm3, Hm4, Hm5; cbn [andb map];
    try (eexists; split; [reflexivity|]; split_and!; try assumption;
         rewrite ?app_nil_r; reflexivity).
    query_rw HgD. query_rw Hl1. query_rw Hl2. query_rw Hl3. query_rw Hl4. query_rw Hl5.
    destruct (func e x1 x2 x3 x4 x5 st0) as [[[[[y1 y2] y3] y4] y5] st1].
    query_store Hst1 y1. query_store Hst2 y2. query_store Hst3 y3. query_store Hst4 y4. query_store Hst5 y5.
    eexists; split; [reflexivity|]. split_and!; try assumption.
    rewrite <- !app_assoc. reflexivity.
  - exists a1, a2, a3, a4, a5, st', tr. split_and!; assumption.
Qed.

Lemma Query6_spec (s1 : SparseSet T1) (s2 : SparseSet T2) (s3 : SparseSet T3) (s4 : SparseSet T4) (s5 : SparseSet T5) (s6 : SparseSet T6)
    (func : Entity -> T1 -> T2 -> T3 -> T4 -> T5 -> T6 -> St -> T1 * T2 * T3 * T4 * T5 * T6 * St)
    (st : St) :
  Inv s1 -> Inv s2 -> Inv s3 -> Inv s4 -> Inv s5 -> Inv s6 ->
  exists s1' s2' s3' s4' s5' s6' st' tr,
    Query6 s1 s2 s3 s4 s5 s6 func st = Ok (s1', s2', s3', s4', s5', s6', st', tr) /\
    same_shape s1 s1' /\
    same_shape s2 s2' /\
    same_shape s3 s3' /\
    same_shape s4 s4' /\
    same_shape s5 s5' /\
    same_shape s6 s6' /\
    tr = join_trace [2; 3; 4; 5; 6]%nat
           (fun e => member s2 e && member s3 e && member s4 e && member s5 e && member s6 e) (entities s1).
Proof.
  intros HI1 HI2 HI3 HI4 HI5 HI6. unfold Query6, Count.
  match goal with |- context [for_range 0 (count s1) ?body ?init] =>
    destruct (for_range_inv
      (fun j '(a1, a2, a3, a4, a5, a6, st', tr) =>
         same_shape s1 a1 /\ same_shape s2 a2 /\ same_shape s3 a3 /\ same_shape s4 a4 /\ same_shape s5 a5 /\ same_shape s6 a6 /\
         tr = join_trace [2; 3; 4; 5; 6]%nat
                (fun e => member s2 e && member s3 e && member s4 e && member s5 e && member s6 e)
                (take (Z.to_nat j) (dense s1)))
      body 0 (count s1) init)
      as ([[[[[[[a1 a2] a3] a4] a5] a6] st'] tr] & E & Hs1 & Hs2 & Hs3 & Hs4 & Hs5 & Hs6 & Htr)
  end.
  - apply (inv_count s1 HI1).
  - split_and!; try apply same_shape_refl. reflexivity.
  - intros j [[[[[[[a1 a2] a3] a4] a5] a6] st0] tr0] Hj (Hs1 & Hs2 & Hs3 & Hs4 & Hs5 & Hs6 & Htr).
    destruct (drive_step s1 a1 j HI1 Hs1 Hj)
      as (e & x1 & HgE & Htake & HgD & Hl1 & Hst1).
    unfold mbind, run_bind. cbv beta iota zeta.
    query_rw HgE. rewrite Htake, join_trace_snoc. subst tr0.
    destruct (probe_step s2 a2 e HI2 Hs2) as [[Hg2 Hm2]|(p2 & x2 & Hg2 & Hm2 & Hl2 & Hst2)];
    destruct (probe_step s3 a3 e HI3 Hs3) as [[Hg3 Hm3]|(p3 & x3 & Hg3 & Hm3 & Hl3 & Hst3)];
    destruct (probe_step s4 a4 e HI4 Hs4) as [[Hg4 Hm4]|(p4 & x4 & Hg4 & Hm4 & Hl4 & Hst4)];
    destruct (probe_step s5 a5 e HI5 Hs5) as [[Hg5 Hm5]|(p5 & x5 & Hg5 & Hm5 & Hl5 & Hst5)];
    destruct (probe_step s6 a6 e HI6 Hs6) as [[Hg6 Hm6]|(p6 & x6 & Hg6 & Hm6 & Hl6 & Hst6)];
    query_rw Hg2; query_rw Hg3; query_rw Hg4; query_rw Hg5; query_rw Hg6; rewrite Hm2, Hm3, Hm4, Hm5, Hm6; cbn [andb map];
    try (eexists; split; [reflexivity|]; split_and!; try assumption;
         rewrite ?app_nil_r; reflexivity).
    query_rw HgD. query_rw Hl1. query_rw Hl2. query_rw Hl3. query_rw Hl4. query_rw Hl5. query_rw Hl6.
    destruct (func e x1 x2 x3 x4 x5 x6 st0) as [[[[[[y1 y2] y3] y4] y5] y6] st1].
    query_store Hst1 y1. query_store Hst2 y2. query_store Hst3 y3. query_store Hst4 y4. query_store Hst5 y5. query_store Hst6 y6.
    eexists; split; [reflexivity|]. split_and!; try assumption.
    rewrite <- !app_assoc. reflexivity.
  - exists a1, a2, a3, a4, a5, a6, st', tr. split_and!; assumption.
Qed.

End QueryLoops.

(** ** Queries on the world *)

Lemma join_trace_ext (slots : list nat) (ok ok' : Entity -> bool)
    (es : list Entity) :
  (forall e, ok e = ok' e) -> join_trace slots ok es = join_trace slots ok' es.
Proof.
  intros Hext. unfold join_trace. apply flat_map_ext. intros e.
  rewrite Hext. reflexivity.
Qed.

Section WorldQueryFacts.
Context {Transform Sprite Animation Physics Collider CollisionState Player : Type}.
Context `{Inhabited Transform} `{Inhabited Sprite} `{Inhabited Animation}
        `{Inhabited Physics} `{Inhabited Collider} `{Inhabited CollisionState}
        `{Inhabited Player}.
Context {St : Type}.
Abbreviation WorldQ :=
  (@World Transform Sprite Animation Physics Collider CollisionState Player).
Implicit Types (w : WorldQ) (k : Kind) (e : Entity).

Lemma World_Inv w k : World_reachable w -> Inv (GetSparseSet k w).
Proof. intros Hw. apply reachable_Inv. apply Hw. Qed.

Lemma same_shape_Put w0 w k (s : SparseSet (Comp k)) :
  (forall k', same_shape (GetSparseSet k' w0) (GetSparseSet k' w)) ->
  same_shape (GetSparseSet k w0) s ->
  forall k', same_shape (GetSparseSet k' w0) (GetSparseSet k' (PutSparseSet k w s)).
Proof.
  intros Hall Hs k'. destruct (decide (k' = k)) as [->|Hne].
  - rewrite Get_Put_same. exact Hs.
  - rewrite Get_Put_other by exact Hne. apply Hall.
Qed.

Lemma driven_by_intro k1 (slots : list nat) (rest : list Kind)
    (ok : Entity -> bool) w w' (st' : St) (tr : list event) :
  World_reachable w ->
  (forall e, ok e = has_all rest w e) ->
  tr = join_trace slots ok (entities (GetSparseSet k1 w)) ->
  (forall k, same_shape (GetSparseSet k w) (GetSparseSet k w')) ->
  nextEntity w' = nextEntity w ->
  driven_by k1 slots rest w (Ok (w', st', tr)).
Proof.
  intros Hw Hok Htr Hsh Hnext.
  pose proof (World_Inv w k1 Hw) as HI1.
  rewrite (join_trace_ext slots ok (has_all rest w) _ Hok) in Htr.
  exists w', st', tr. split_and!; try assumption; try reflexivity.
  - subst tr. rewrite visits_join_trace. apply list.NoDup_filter.
    apply entities_NoDup. exact HI1.
  - intros e. subst tr. rewrite visits_join_trace, list_elem_of_filter.
    rewrite <- (member_entities _ e HI1).
    cbn [has_all forallb]. rewrite andb_true_iff. tauto.
Qed.

Lemma World_Query2_driven (k1 k2 : Kind)
    (func : Entity -> Comp k1 -> Comp k2 -> St -> Comp k1 * Comp k2 * St)
    w (st : St) :
  World_reachable w ->
  (Count (GetSparseSet k1 w) <= Count (GetSparseSet k2 w) ->
   driven_by k1 [2]%nat [k2] w (World_Query2 k1 k2 func w st)) /\
  (Count (GetSparseSet k1 w) > Count (GetSparseSet k2 w) ->
   driven_by k2 [1]%nat [k1] w (World_Query2 k1 k2 func w st)).
Proof.
  intros Hw.
  destruct (Query2_spec (GetSparseSet k1 w) (GetSparseSet k2 w) func st
              (World_Inv w k1 Hw) (World_Inv w k2 Hw))
    as (s1' & s2' & st' & tr & E & Hs1 & Hs2 & Htr).
  unfold World_Query2. rewrite E. unfold mbind, run_bind. cbv beta iota zeta.
  assert (Hsh : forall k, same_shape (GetSparseSet k w)
            (GetSparseSet k (PutSparseSet k2 (PutSparseSet k1 w s1') s2'))).
  { apply same_shape_Put; [apply same_shape_Put;
      [intros k; apply same_shape_refl | exact Hs1] | exact Hs2]. }
  split; intros Hcmp; destruct (decide _) as [Hle|Hgt] in Htr; try lia.
  - eapply driven_by_intro; [exact Hw | | exact Htr | exact Hsh | ].
    + intros e. cbn [has_all forallb]. rewrite andb_true_r. reflexivity.
    + rewrite !nextEntity_Put. reflexivity.
  - eapply driven_by_intro; [exact Hw | | exact Htr | exact Hsh | ].
    + intros e. cbn [has_all forallb]. rewrite andb_true_r. reflexivity.
    + rewrite !nextEntity_Put. reflexivity.
Qed.

Lemma has_all_HasX (ks : list Kind) w e :
  World_reachable w ->
  has_all ks w e = true <-> Forall (fun k => HasX k w e = Ok true) ks.
Proof.
  intros Hw. induction ks as [|k ks IH].
  - split; [constructor | reflexivity].
  - pose proof (member_true _ e (World_Inv w k Hw)) as Hm.
    rewrite <- HasX_GetSparseSet in Hm.
    cbn [has_all forallb]. fold (has_all ks w e). split.
    + intros [Hk Hks]%andb_true_iff. constructor; tauto.
    + intros Hall. inversion Hall as [|k' ks' Hk Hks]; subst.
      apply andb_true_iff. tauto.
Qed.

Lemma World_Query3_driven (k1 k2 k3 : Kind)
    (func : Entity -> Comp k1 -> Comp k2 -> Comp k3 -> St ->
            Comp k1 * Comp k2 * Comp k3 * St)
    w (st : St) :
  World_reachable w ->
  driven_by k1 [2; 3]%nat [k2; k3] w (World_Query3 k1 k2 k3 func w st).
Proof.
  intros Hw.
  destruct (Query3_spec (GetSparseSet k1 w) (GetSparseSet k2 w) (GetSparseSet k3 w) func st (World_Inv w k1 Hw) (World_Inv w k2 Hw) (World_Inv w k3 Hw))
    as (s1' & s2' & s3' & st' & tr & E & Hs1 & Hs2 & Hs3 & Htr).
  unfold World_Query3. rewrite E. unfold mbind, run_bind. cbv beta iota zeta.
  eapply driven_by_intro; [exact Hw | | exact Htr | | ].
  - intros e. cbn [has_all forallb]. rewrite andb_true_r, ?andb_assoc. reflexivity.
  - apply same_shape_Put; [apply same_shape_Put; [apply same_shape_Put; [intros k; apply same_shape_refl | exact Hs1] | exact Hs2] | exact Hs3].
  - rewrite !nextEntity_Put. reflexivity.
Qed.

Lemma World_Query4_driven (k1 k2 k3 k4 : Kind)
    (func : Entity -> Comp k1 -> Comp k2 -> Comp k3 -> Comp k4 -> St ->
            Comp k1 * Comp k2 * Comp k3 * Comp k4 * St)
    w (st : St) :
  World_reachable w ->
  driven_by k1 [2; 3; 4]%nat [k2; k3; k4] w (World_Query4 k1 k2 k3 k4 func w st).
Proof.
  intros Hw.
  destruct (Query4_spec (GetSparseSet k1 w) (GetSparseSet k2 w) (GetSparseSet k3 w) (GetSparseSet k4 w) func st (World_Inv w k1 Hw) (World_Inv w k2 Hw) (World_Inv w k3 Hw) (World_Inv w k4 Hw))
    as (s1' & s2' & s3' & s4' & st' & tr & E & Hs1 & Hs2 & Hs3 & Hs4 & Htr).
  unfold World_Query4. rewrite E. unfold mbind, run_bind. cbv beta iota zeta.
  eapply driven_by_intro; [exact Hw | | exact Htr | | ].
  - intros e. cbn [has_all forallb]. rewrite andb_true_r, ?andb_assoc. reflexivity.
  - apply same_shape_Put; [apply same_shape_Put; [apply same_shape_Put; [apply same_shape_Put; [intros k; apply same_shape_refl | exact Hs1] | exact Hs2] | exact Hs3] | exact Hs4].
  - rewrite !nextEntity_Put. reflexivity.
Qed.

Lemma World_Query5_driven (k1 k2 k3 k4 k5 : Kind)
    (func : Entity -> Comp k1 -> Comp k2 -> Comp k3 -> Comp k4 -> Comp k5 -> St ->
            Comp k1 * Comp k2 * Comp k3 * Comp k4 * Comp k5 * St)
    w (st : St) :
  World_reachable w ->
  driven_by k1 [2; 3; 4; 5]%nat [k2; k3; k4; k5] w (World_Query5 k1 k2 k3 k4 k5 func w st).
Proof.
  intros Hw.
  destruct (Query5_spec (GetSparseSet k1 w) (GetSparseSet k2 w) (GetSparseSet k3 w) (GetSparseSet k4 w) (GetSparseSet k5 w) func st (World_Inv w k1 Hw) (World_Inv w k2 Hw) (World_Inv w k3 Hw) (World_Inv w k4 Hw) (World_Inv w k5 Hw))
    as (s1' & s2' & s3' & s4' & s5' & st' & tr & E & Hs1 & Hs2 & Hs3 & Hs4 & Hs5 & Htr).
  unfold World_Query5. rewrite E. unfold mbind, run_bind. cbv beta iota zeta.
  eapply driven_by_intro; [exact Hw | | exact Htr | | ].
  - intros e. cbn [has_all forallb]. rewrite andb_true_r, ?andb_assoc. reflexivity.
  - apply same_shape_Put; [apply same_shape_Put; [apply same_shape_Put; [apply same_shape_Put; [apply same_shape_Put; [intros k; apply same_shape_refl | exact Hs1] | exact Hs2] | exact Hs3] | exact Hs4] | exact Hs5].
  - rewrite !nextEntity_Put. reflexivity.
Qed.

Lemma World_Query6_driven (k1 k2 k3 k4 k5 k6 : Kind)
    (func : Entity -> Comp k1 -> Comp k2 -> Comp k3 -> Comp k4 -> Comp k5 -> Comp k6 -> St ->
            Comp k1 * Comp k2 * Comp k3 * Comp k4 * Comp k5 * Comp k6 * St)
    w (st : St) :
  World_reachable w ->
  driven_by k1 [2; 3; 4; 5; 6]%nat [k2; k3; k4; k5; k6] w (World_Query6 k1 k2 k3 k4 k5 k6 func w st).
Proof.
  intros Hw.
  destruct (Query6_spec (GetSparseSet k1 w) (GetSparseSet k2 w) (GetSparseSet k3 w) (GetSparseSet k4 w) (GetSparseSet k5 w) (GetSparseSet k6 w) func st (World_Inv w k1 Hw) (World_Inv w k2 Hw) (World_Inv w k3 Hw) (World_Inv w k4 Hw) (World_Inv w k5 Hw) (World_Inv w k6 Hw))
    as (s1' & s2' & s3' & s4' & s5' & s6' & st' & tr & E & Hs1 & Hs2 & Hs3 & Hs4 & Hs5 & Hs6 & Htr).
  unfold World_Query6. rewrite E. unfold mbind, run_bind. cbv beta iota zeta.
  eapply driven_by_intro; [exact Hw | | exact Htr | | ].
  - intros e. cbn [has_all forallb]. rewrite andb_true_r, ?andb_assoc. reflexivity.
  - apply same_shape_Put; [apply same_shape_Put; [apply same_shape_Put; [apply same_shape_Put; [apply same_shape_Put; [apply same_shape_Put; [intros k; apply same_shape_refl | exact Hs1] | exact Hs2] | exact Hs3] | exact Hs4] | exact Hs5] | exact Hs6].
  - rewrite !nextEntity_Put. reflexivity.
Qed.

End WorldQueryFacts.

(** * Further properties of the storage *)

Section SparseSetMore.
Context {T : Type} `{Inhabited T}.
Implicit Types (s : SparseSet T) (e : Entity) (idx : N).

Lemma entities_ext s s' :
  Inv s -> count s' = count s ->
  Z.of_nat (length (dense s')) >= count s ->
  (forall i, 0 <= i < count s -> aget (dense s') i = aget (dense s) i) ->
  entities s' = entities s.
Proof.
  intros HI Hc Hlen Hd. pose proof (inv_count s HI) as Hc0.
  pose proof (inv_dense_len s HI) as Hld.
  unfold entities. rewrite Hc. apply list_eq. intros i.
  destruct (decide (i < Z.to_nat (count s))%nat) as [Hi|Hi].
  - rewrite !lookup_take_lt by exact Hi.
    destruct (aget_in_range (dense s) (Z.of_nat i)) as [e He]; [lia|].
    pose proof He as He'. rewrite <- Hd in He' by lia.
    apply aget_Ok in He as [_ He], He' as [_ He'].
    rewrite Nat2Z.id in He, He'. congruence.
  - rewrite !lookup_take_ge by lia. reflexivity.
Qed.

Lemma entities_snoc s s' e :
  Inv s -> count s' = count s + 1 ->
  aget (dense s') (count s) = Ok e ->
  (forall i, 0 <= i < count s -> aget (dense s') i = aget (dense s) i) ->
  entities s' = entities s ++ [e].
Proof.
  intros HI Hc He Hd. pose proof (inv_count s HI) as Hc0.
  pose proof (inv_dense_len s HI) as Hld.
  unfold entities. rewrite Hc.
  replace (Z.to_nat (count s + 1)) with (Datatypes.S (Z.to_nat (count s))) by lia.
  apply aget_Ok in He as [_ He]. rewrite (take_S_r _ _ _ He). f_equal.
  apply list_eq. intros i.
  destruct (decide (i < Z.to_nat (count s))%nat) as [Hi|Hi].
  - rewrite !lookup_take_lt by exact Hi.
    destruct (aget_in_range (dense s) (Z.of_nat i)) as [e' He1]; [lia|].
    pose proof He1 as He2. rewrite <- Hd in He2 by lia.
    apply aget_Ok in He1 as [_ He1], He2 as [_ He2].
    rewrite Nat2Z.id in He1, He2. congruence.
  - rewrite !lookup_take_ge by lia. reflexivity.
Qed.

(** [Add] of an absent entity, run to its result. *)
Lemma Add_absent_run s e (v : T) :
  Inv s -> Z.of_N e < MAX_ENTITIES -> (forall idx, ~ slot_of s e idx) ->
  exists s1,
    (if decide (count s >= capacity s) then Grow s else Ok s) = Ok s1 /\
    Add s e v =
      Ok (mkSparseSet
            (<[Z.to_nat (Z.of_N e) := Z.to_N (count s)]> (sparse s1))
            (<[Z.to_nat (count s) := e]> (dense s1))
            (<[Z.to_nat (count s) := v]> (data s1))
            (count s + 1) (capacity s1)).
Proof.
  intros HI He Hno.
  destruct (Add_room s HI) as (s1 & Eroom & HI1 & Hsp1 & Hc1 & Hlt1 & _ & Hcopy).
  pose proof (inv_count s HI) as Hc0. pose proof (Inv_count_le_MAX s HI) as HcM.
  pose proof (inv_sparse_len s1 HI1) as Hlsp. pose proof (inv_dense_len s1 HI1) as Hld.
  pose proof (inv_data_len s1 HI1) as Hldt.
  assert (HM : MAX_ENTITIES = 10000) by reflexivity.
  exists s1. split; [exact Eroom|].
  unfold Add. rewrite u32_MAX_ENTITIES.
  destruct (decide (10000 <= e)%N) as [Hge|_]; [lia|].
  rewrite (Has_absent s e HI Hno). simpl. rewrite Eroom. simpl.
  rewrite int_of_u32_small by lia.
  rewrite Hc1, (u32_of_int_to_N (count s)) by lia.
  rewrite (aset_in_range (sparse s1)) by lia. simpl.
  rewrite (aset_in_range (dense s1)) by lia. simpl.
  rewrite (aset_in_range (data s1)) by lia. simpl.
  rewrite as_int_small by (unfold INT_MIN, INT_MAX; lia).
  reflexivity.
Qed.

(** [Remove] of a present entity, run to its result: the last entry is
    written over the removed one (a write that changes nothing when the
    removed entry is the last one). *)
Lemma Remove_run s e idx :
  Inv s -> slot_of s e idx ->
  exists le x,
    aget (dense s) (count s - 1) = Ok le /\
    aget (data s) (count s - 1) = Ok x /\
    Remove s e =
      Ok (mkSparseSet
            (<[Z.to_nat (Z.of_N e) := INVALID_INDEX]>
               (<[Z.to_nat (Z.of_N le) := idx]> (sparse s)))
            (<[Z.to_nat (Z.of_N idx) := le]> (dense s))
            (<[Z.to_nat (Z.of_N idx) := x]> (data s))
            (count s - 1) (capacity s)).
Proof.
  intros HI Hsl. destruct (slot_of_inv s e idx HI Hsl) as (Hi & Hd & He).
  pose proof (inv_count s HI) as Hc0. pose proof (Inv_count_le_MAX s HI) as HcM.
  pose proof (inv_sparse_len s HI) as Hlsp. pose proof (inv_dense_len s HI) as Hld.
  pose proof (inv_data_len s HI) as Hldt.
  assert (HM : MAX_ENTITIES = 10000) by reflexivity.
  destruct (aget_in_range (dense s) (count s - 1)) as [le Hle]; [lia|].
  destruct (aget_in_range (data s) (count s - 1)) as [x Hx]; [lia|].
  assert (Hsl_le : slot_of s le (Z.to_N (count s - 1)))
    by (apply slot_of_dense; [assumption | lia | assumption]).
  destruct (slot_of_inv s le _ HI Hsl_le) as (_ & _ & Hle_b).
  exists le, x. split; [exact Hle|]. split; [exact Hx|].
  unfold Remove. rewrite (Has_present s e idx HI Hsl). simpl.
  rewrite int_of_u32_small by lia.
  destruct Hsl as [Hsp Hne]. rewrite Hsp. simpl.
  rewrite as_int_small by (unfold INT_MIN, INT_MAX; lia). simpl.
  rewrite (u32_of_int_to_N (count s - 1)) by lia.
  rewrite !int_of_u32_small by lia. rewrite Z2N.id by lia.
  destruct (decide (idx <> Z.to_N (count s - 1))) as [Hnl|Hl]; simpl.
  - rewrite Hle. simpl. rewrite (aset_in_range (dense s)) by lia. simpl.
    rewrite Hx. simpl. rewrite (aset_in_range (data s)) by lia. simpl.
    rewrite int_of_u32_small by lia.
    rewrite (aset_in_range (sparse s)) by lia. simpl.
    rewrite aset_in_range by (rewrite length_insert; lia). simpl.
    rewrite as_int_small by (unfold INT_MIN, INT_MAX; lia). reflexivity.
  - assert (Hidx : Z.of_N idx = count s - 1) by lia.
    rewrite Hidx in Hd. assert (le = e) by congruence. subst le.
    rewrite (aset_in_range (sparse s)) by lia. simpl.
    rewrite as_int_small by (unfold INT_MIN, INT_MAX; lia). simpl.
    f_equal. f_equal.
    + f_equal. symmetry. apply list_insert_id.
      apply aget_Ok in Hsp. apply Hsp.
    + symmetry. apply list_insert_id. rewrite Hidx.
      apply aget_Ok in Hle. apply Hle.
    + symmetry. apply list_insert_id. rewrite Hidx.
      apply aget_Ok in Hx. apply Hx.
Qed.

Lemma Remove_frame s e :
  Inv s ->
  exists s', Remove s e = Ok s' /\ Inv s' /\ Has s' e = Ok false /\
    forall e2, e2 <> e ->
      Has s' e2 = Has s e2 /\ GetValue s' e2 = GetValue s e2.
Proof.
  intros HI. destruct (slot_of_dec s e HI) as [[idx Hsl]|Hno].
  - destruct (Remove_present s e idx HI Hsl)
      as (s' & E & HI' & _ & _ & Hgone & Hkeep & Hback).
    exists s'. split_and!; [exact E | exact HI' | apply Has_absent; assumption |].
    intros e2 Hne. destruct (slot_of_dec s e2 HI) as [[idx2 Hsl2]|Hno2].
    + destruct (Hkeep e2 idx2 Hne Hsl2) as (idx2' & Hsl2' & Hx).
      rewrite (Has_present s' e2 idx2' HI' Hsl2'), (Has_present s e2 idx2 HI Hsl2).
      destruct (GetValue_present s e2 idx2 HI Hsl2) as (x & Hx1 & ->).
      destruct (GetValue_present s' e2 idx2' HI' Hsl2') as (x' & Hx2 & ->).
      split; [reflexivity | congruence].
    + assert (Hno2' : forall idx2, ~ slot_of s' e2 idx2).
      { intros idx2 Hsl2'. destruct (Hback e2 idx2 Hsl2') as [i Hi]. exact (Hno2 i Hi). }
      rewrite (Has_absent s' e2 HI' Hno2'), (Has_absent s e2 HI Hno2).
      rewrite (GetValue_absent s' e2 HI' Hno2'), (GetValue_absent s e2 HI Hno2).
      auto.
  - exists s. split_and!; [apply Remove_absent; assumption | exact HI
                          | apply Has_absent; assumption | auto].
Qed.

End SparseSetMore.

Section SparseSetMore2.
Context {T : Type} `{Inhabited T}.
Implicit Types (s : SparseSet T) (e : Entity) (idx : N).

(** Two arrays that agree below [n] have the same first [n] elements. *)
Lemma take_agree {A : Type} (l l' : list A) (n : Z) :
  0 <= n <= Z.of_nat (length l) ->
  (forall i, 0 <= i < n -> aget l' i = aget l i) ->
  take (Z.to_nat n) l' = take (Z.to_nat n) l.
Proof.
  intros Hn Hag. apply list_eq. intros i.
  destruct (decide (i < Z.to_nat n)%nat) as [Hi|Hi].
  - rewrite !lookup_take_lt by exact Hi.
    destruct (aget_in_range l (Z.of_nat i)) as [x Hx]; [lia|].
    pose proof Hx as Hx'. rewrite <- Hag in Hx' by lia.
    apply aget_Ok in Hx as [_ Hx], Hx' as [_ Hx'].
    rewrite Nat2Z.id in Hx, Hx'. congruence.
  - rewrite !lookup_take_ge by lia. reflexivity.
Qed.

Lemma take_snoc_agree {A : Type} (l l' : list A) (n : Z) (x : A) :
  0 <= n <= Z.of_nat (length l) ->
  aget l' n = Ok x ->
  (forall i, 0 <= i < n -> aget l' i = aget l i) ->
  take (Z.to_nat (n + 1)) l' = take (Z.to_nat n) l ++ [x].
Proof.
  intros Hn Hx Hag.
  replace (Z.to_nat (n + 1)) with (Datatypes.S (Z.to_nat n)) by lia.
  apply aget_Ok in Hx as [_ Hx]. rewrite (take_S_r _ _ _ Hx).
  rewrite (take_agree l l' n Hn Hag). reflexivity.
Qed.

Lemma components_length s : Inv s -> Z.of_nat (length (components s)) = count s.
Proof.
  intros HI. pose proof (inv_count s HI). pose proof (inv_data_len s HI).
  unfold components. rewrite length_take_le; lia.
Qed.

(** What [Add] does to the capacity. *)
Lemma Add_capacity s e (v : T) s' :
  Inv s -> Add s e v = Ok s' ->
  (capacity s' = capacity s /\
   ~ (Z.of_N e < MAX_ENTITIES /\ Has s e = Ok false /\ count s = capacity s)) \/
  (Z.of_N e < MAX_ENTITIES /\ Has s e = Ok false /\ count s = capacity s /\
   capacity s' = (if decide (capacity s = 0) then 64 else capacity s * 2)).
Proof.
  intros HI E. pose proof (inv_count s HI) as Hc0.
  destruct (decide (MAX_ENTITIES <= Z.of_N e)) as [Hge|Hlt].
  - rewrite (Add_beyond s e v Hge) in E. injection E as <-.
    left. split; [reflexivity | lia].
  - destruct (slot_of_dec s e HI) as [[idx Hsl]|Hno].
    + rewrite (Add_present s e idx v HI Hsl) in E. injection E as <-.
      left. split; [reflexivity|]. intros (_ & Hh & _).
      rewrite (Has_present s e idx HI Hsl) in Hh. discriminate.
    + destruct (Add_absent_run s e v HI ltac:(lia) Hno) as (s1 & Eroom & Erun).
      rewrite Erun in E. injection E as <-. cbn [capacity].
      destruct (decide (count s >= capacity s)) as [Hfull|Hroom].
      * destruct (Grow_Ok s HI ltac:(lia)) as (s1' & Eg & _ & _ & _ & _ & Hcap & _).
        rewrite Eg in Eroom. injection Eroom as <-.
        right. split_and!; [lia | apply Has_absent; assumption | lia | exact Hcap].
      * injection Eroom as <-. left. split; [reflexivity | lia].
Qed.

Lemma Clear_buffers s s' :
  Clear s = Ok s' -> dense s' = dense s /\ data s' = data s.
Proof.
  unfold Clear. intros E. apply bind_Ok in E as (sp & _ & E).
  injection E as <-. auto.
Qed.

End SparseSetMore2.

(** * Component values under the queries *)

Section Values.
Context {T : Type}.
Implicit Types (s a : SparseSet T) (e : Entity) (idx : N).

Lemma value_present s e idx :
  Inv s -> slot_of s e idx ->
  exists x, aget (data s) (Z.of_N idx) = Ok x /\ value s e = Some x.
Proof.
  intros HI Hsl. destruct (GetValue_present s e idx HI Hsl) as (x & Hx & Hg).
  exists x. split; [exact Hx|]. unfold value. rewrite Hg. reflexivity.
Qed.

Lemma value_absent s e :
  Inv s -> (forall idx, ~ slot_of s e idx) -> value s e = None.
Proof.
  intros HI Hno. unfold value. rewrite (GetValue_absent s e HI Hno). reflexivity.
Qed.

Lemma value_member s e : Inv s -> is_Some (value s e) <-> member s e = true.
Proof.
  intros HI. rewrite (member_true s e HI).
  destruct (slot_of_dec s e HI) as [[idx Hsl]|Hno].
  - destruct (value_present s e idx HI Hsl) as (x & _ & ->).
    rewrite (Has_present s e idx HI Hsl). split; eauto.
  - rewrite (value_absent s e HI Hno), (Has_absent s e HI Hno).
    split; [intros [x Hx]; discriminate | discriminate].
Qed.

(** A write at the position of [e] changes the component of [e] and of
    no other entity. *)
Lemma store_at_slot a e idx (y : T) :
  Inv a -> slot_of a e idx ->
  exists a', store a (Z.of_N idx) y = Ok a' /\ same_shape a a' /\
    value a' e = Some y /\ (forall e2, e2 <> e -> value a' e2 = value a e2) /\
    data a' = <[Z.to_nat (Z.of_N idx) := y]> (data a).
Proof.
  intros HI Hsl. destruct (slot_of_inv a e idx HI Hsl) as (Hi & Hd & _).
  pose proof (inv_count a HI) as Hc0. pose proof (inv_data_len a HI) as Hldt.
  assert (Hp : 0 <= Z.of_N idx < Z.of_nat (length (data a))) by lia.
  destruct (store_Ok a (Z.of_N idx) y Hp) as (a' & E & Hsh & Hy & Hoth).
  pose proof (same_shape_Inv a a' Hsh HI) as HI'.
  assert (Hsp : sparse a' = sparse a) by apply Hsh.
  exists a'. split_and!; [exact E | exact Hsh | | |].
  - assert (Hsl' : slot_of a' e idx) by (unfold slot_of; rewrite Hsp; exact Hsl).
    destruct (value_present a' e idx HI' Hsl') as (x & Hx & ->). congruence.
  - intros e2 Hne. destruct (slot_of_dec a e2 HI) as [[idx2 Hsl2]|Hno2].
    + assert (Hsl2' : slot_of a' e2 idx2) by (unfold slot_of; rewrite Hsp; exact Hsl2).
      destruct (value_present a e2 idx2 HI Hsl2) as (x & Hx & ->).
      destruct (value_present a' e2 idx2 HI' Hsl2') as (x' & Hx' & ->).
      destruct (slot_of_inv a e2 idx2 HI Hsl2) as (_ & Hd2 & _).
      assert (idx2 <> idx) by (intros ->; congruence).
      rewrite Hoth in Hx' by lia. congruence.
    + assert (Hno2' : forall idx2, ~ slot_of a' e2 idx2).
      { intros idx2 Hsl2. apply (Hno2 idx2). unfold slot_of in *.
        rewrite Hsp in Hsl2. exact Hsl2. }
      rewrite (value_absent a e2 HI Hno2), (value_absent a' e2 HI' Hno2').
      reflexivity.
  - unfold store in E. rewrite (aset_in_range _ _ y Hp) in E.
    injection E as <-. reflexivity.
Qed.

Lemma drive_step_v s a (j : Z) :
  Inv s -> same_shape s a -> 0 <= j < count s ->
  exists e x,
    GetEntity a j = Ok e /\ aget (dense s) j = Ok e /\
    GetData a j = Ok j /\ load a j = Ok x /\ value a e = Some x /\
    forall y, exists a', store a j y = Ok a' /\ same_shape s a' /\
      value a' e = Some y /\ (forall e2, e2 <> e -> value a' e2 = value a e2) /\
      data a' = <[Z.to_nat j := y]> (data a).
Proof.
  intros HI Hsh Hj. pose proof (same_shape_Inv s a Hsh HI) as HIa.
  assert (Hd : dense a = dense s) by apply Hsh.
  assert (Hc : count a = count s) by apply Hsh.
  pose proof (inv_count a HIa) as Hc0. pose proof (inv_dense_len a HIa) as Hld.
  destruct (aget_in_range (dense a) j) as [e He]; [lia|].
  assert (Hsl : slot_of a e (Z.to_N j)) by (apply slot_of_dense; [assumption | lia | assumption]).
  destruct (value_present a e _ HIa Hsl) as (x & Hx & Hv).
  rewrite Z2N.id in Hx by lia.
  exists e, x. split_and!; [exact He | rewrite <- Hd; exact He | | exact Hx | exact Hv |].
  - unfold GetData. rewrite Hx. reflexivity.
  - intros y. destruct (store_at_slot a e _ y HIa Hsl) as (a' & E & Hsh' & Hy & Hoth & Hdt).
    rewrite Z2N.id in E, Hdt by lia.
    exists a'. split_and!; try assumption.
    eapply same_shape_trans; eassumption.
Qed.

Lemma probe_step_v s a e :
  Inv s -> same_shape s a ->
  (Get a e = Ok None /\ value a e = None) \/
  (exists p x, Get a e = Ok (Some p) /\ load a p = Ok x /\ value a e = Some x /\
     forall y, exists a', store a p y = Ok a' /\ same_shape s a' /\
       value a' e = Some y /\ (forall e2, e2 <> e -> value a' e2 = value a e2) /\
       data a' = <[Z.to_nat p := y]> (data a)).
Proof.
  intros HI Hsh. pose proof (same_shape_Inv s a Hsh HI) as HIa.
  destruct (slot_of_dec a e HIa) as [[idx Hsl]|Hno].
  - right. destruct (value_present a e idx HIa Hsl) as (x & Hx & Hv).
    exists (Z.of_N idx), x.
    split_and!; [apply Get_present; assumption | exact Hx | exact Hv |].
    intros y. destruct (store_at_slot a e idx y HIa Hsl) as (a' & E & Hsh' & Hy & Hoth & Hdt).
    exists a'. split_and!; try assumption.
    eapply same_shape_trans; eassumption.
  - left. split; [apply Get_absent | apply value_absent]; assumption.
Qed.

Lemma not_in_take_dense s (j : Z) (e : Entity) :
  Inv s -> 0 <= j < count s -> aget (dense s) j = Ok e ->
  e ∉ take (Z.to_nat j) (dense s).
Proof.
  intros HI Hj He [i [Hi Hlt]]%elem_of_take.
  assert (Hgi : aget (dense s) (Z.of_nat i) = Ok e).
  { apply aget_Ok. rewrite Nat2Z.id. split; [lia | exact Hi]. }
  assert (Hir : 0 <= Z.of_nat i < count s) by lia.
  pose proof (inv_dense s HI _ _ Hir Hgi) as H1.
  pose proof (inv_dense s HI _ _ Hj He) as H2.
  rewrite H1 in H2. injection H2 as H2. lia.
Qed.

End Values.

Section VisitorFacts.
Context {St T1 T2 : Type}.

Lemma run_visitor1_snoc (func : Entity -> T1 -> St -> T1 * St)
    (xs : list (Entity * T1)) (e : Entity) (x : T1) (st : St)
    (ys : list T1) (st1 : St) (y : T1) (st2 : St) :
  run_visitor1 func xs st = (ys, st1) -> func e x st1 = (y, st2) ->
  run_visitor1 func (xs ++ [(e, x)]) st = (ys ++ [y], st2).
Proof.
  revert st ys. induction xs as [|[e0 x0] xs IH]; intros st ys Hrun Hf.
  - simpl in Hrun. injection Hrun as <- <-. simpl. rewrite Hf. reflexivity.
  - simpl in Hrun |- *. destruct (func e0 x0 st) as [y0 st0].
    destruct (run_visitor1 func xs st0) as [ys0 st3] eqn:E0.
    injection Hrun as <- <-. rewrite (IH st0 ys0 E0 Hf). reflexivity.
Qed.

Lemma run_visitor2_snoc (func : Entity -> T1 -> T2 -> St -> T1 * T2 * St)
    (xs : list (Entity * T1 * T2)) (e : Entity) (x1 : T1) (x2 : T2) (st : St)
    (ys : list (T1 * T2)) (st1 : St) (y1 : T1) (y2 : T2) (st2 : St) :
  run_visitor2 func xs st = (ys, st1) -> func e x1 x2 st1 = (y1, y2, st2) ->
  run_visitor2 func (xs ++ [(e, x1, x2)]) st = (ys ++ [(y1, y2)], st2).
Proof.
  revert st ys. induction xs as [|[[e0 a0] b0] xs IH]; intros st ys Hrun Hf.
  - simpl in Hrun. injection Hrun as <- <-. simpl. rewrite Hf. reflexivity.
  - simpl in Hrun |- *. destruct (func e0 a0 b0 st) as [[c0 d0] st0].
    destruct (run_visitor2 func xs st0) as [ys0 st3] eqn:E0.
    injection Hrun as <- <-. rewrite (IH st0 ys0 E0 Hf). reflexivity.
Qed.

Lemma matches2_snoc (s1 : SparseSet T1) (s2 : SparseSet T2)
    (l : list Entity) (e : Entity) :
  matches2 s1 s2 (l ++ [e]) =
  matches2 s1 s2 l ++ match value s1 e, value s2 e with
                      | Some x1, Some x2 => [(e, x1, x2)]
                      | _, _ => []
                      end.
Proof.
  unfold matches2. rewrite flat_map_app. simpl. rewrite app_nil_r. reflexivity.
Qed.

Lemma matches2_entity (s1 : SparseSet T1) (s2 : SparseSet T2)
    (l : list Entity) (m : Entity * T1 * T2) :
  m ∈ matches2 s1 s2 l ->
  m.1.1 ∈ l /\ value s1 m.1.1 = Some m.1.2 /\ value s2 m.1.1 = Some m.2.
Proof.
  unfold matches2. rewrite list_elem_of_In, in_flat_map.
  intros (e & He & Hm). apply list_elem_of_In in He.
  destruct (value s1 e) as [x1|] eqn:E1; [|destruct Hm].
  destruct (value s2 e) as [x2|] eqn:E2; [|destruct Hm].
  destruct Hm as [<-|[]]. simpl. auto.
Qed.

Lemma Forall2_impl_elem {A B : Type} (P Q : A -> B -> Prop)
    (l : list A) (k : list B) :
  Forall2 P l k -> (forall a b, a ∈ l -> P a b -> Q a b) -> Forall2 Q l k.
Proof.
  induction 1 as [|a b l k Hab _ IH]; intros Himp; constructor.
  - apply Himp; [left | exact Hab].
  - apply IH. intros a' b' Ha'. apply Himp. right. exact Ha'.
Qed.

End VisitorFacts.

Lemma aget_insert_ne {A : Type} (l : list A) (i j : Z) (y : A) :
  0 <= j -> i <> j -> aget (<[Z.to_nat j := y]> l) i = aget l i.
Proof.
  intros Hj Hne. unfold aget. destruct (decide (0 <= i)); [|reflexivity].
  rewrite list_lookup_insert_ne by lia. reflexivity.
Qed.

Section QueryValues.
Context {St T1 T2 : Type}.

Lemma Query1_run (s : SparseSet T1) (func : Entity -> T1 -> St -> T1 * St)
    (st : St) :
  Inv s ->
  exists s' st',
    Query1 s func st = Ok (s', st', Visit <$> entities s) /\
    same_shape s s' /\
    run_visitor1 func (zip (entities s) (components s)) st
    = (components s', st') /\
    (forall i, count s <= i -> aget (data s') i = aget (data s) i).
Proof.
  intros HI. pose proof (inv_count s HI) as Hc0.
  pose proof (inv_dense_len s HI) as Hld. pose proof (inv_data_len s HI) as Hldt.
  unfold Query1, Count.
  match goal with |- context [for_range 0 (count s) ?body ?init] =>
    destruct (for_range_inv
      (fun j '(a, stj, tr) =>
         same_shape s a /\
         tr = Visit <$> take (Z.to_nat j) (dense s) /\
         run_visitor1 func (zip (take (Z.to_nat j) (dense s))
                                (take (Z.to_nat j) (data s))) st
         = (take (Z.to_nat j) (data a), stj) /\
         forall i, j <= i -> aget (data a) i = aget (data s) i)
      body 0 (count s) init)
      as ([[a st'] tr] & E & Hsh & Htr & Hrun & Hrest)
  end.
  - lia.
  - split_and!; [apply same_shape_refl | reflexivity | reflexivity | reflexivity].
  - intros j [[a stj] tr] Hj (Hsh & Htr & Hrun & Hrest).
    destruct (drive_step_v s a j HI Hsh Hj)
      as (e & x & HgE & He & HgD & Hl & _ & Hst).
    assert (Hx : aget (data s) j = Ok x) by (rewrite <- Hrest by lia; exact Hl).
    unfold mbind, run_bind. cbv beta iota zeta.
    query_rw HgE. query_rw HgD. query_rw Hl.
    destruct (func e x stj) as [y st1] eqn:Ef.
    destruct (Hst y) as (a' & Es & Hsh' & _ & _ & Hdt). query_rw Es.
    eexists. split; [reflexivity|].
    assert (Hlen : Z.of_nat (length (data a)) = capacity s).
    { destruct Hsh as (_ & _ & _ & _ & Hl'). rewrite Hl'. exact Hldt. }
    replace (Z.to_nat (j + 1)) with (Datatypes.S (Z.to_nat j)) by lia.
    apply aget_Ok in He as [_ He], Hx as [_ Hx].
    rewrite (take_S_r _ _ _ He), (take_S_r _ _ _ Hx).
    split_and!.
    + exact Hsh'.
    + rewrite fmap_app, Htr. reflexivity.
    + rewrite zip_with_app by (rewrite !length_take; lia).
      rewrite (take_S_r (data a') (Z.to_nat j) y)
        by (rewrite Hdt; apply list_lookup_insert_eq; lia).
      rewrite Hdt, take_insert_ge by lia.
      apply (run_visitor1_snoc func _ e x st _ stj y st1 Hrun Ef).
    + intros i Hi. rewrite Hdt, aget_insert_ne by lia. apply Hrest. lia.
  - exists a, st'. unfold entities, components.
    assert (Hc : count a = count s) by apply Hsh.
    rewrite Hc. rewrite <- Htr. split_and!; assumption.
Qed.

Lemma Query2_values (s1 : SparseSet T1) (s2 : SparseSet T2)
    (func : Entity -> T1 -> T2 -> St -> T1 * T2 * St) (st : St) :
  Inv s1 -> Inv s2 ->
  exists s1' s2' st' tr ys,
    Query2 s1 s2 func st = Ok (s1', s2', st', tr) /\
    same_shape s1 s1' /\ same_shape s2 s2' /\
    run_visitor2 func
      (matches2 s1 s2 (if decide (Count s1 <= Count s2)
                       then entities s1 else entities s2)) st = (ys, st') /\
    Forall2 (fun m y => value s1' m.1.1 = Some y.1 /\ value s2' m.1.1 = Some y.2)
      (matches2 s1 s2 (if decide (Count s1 <= Count s2)
                       then entities s1 else entities s2)) ys /\
    forall e,
      e ∉ (fun m => m.1.1) <$>
            matches2 s1 s2 (if decide (Count s1 <= Count s2)
                            then entities s1 else entities s2) ->
      value s1' e = value s1 e /\ value s2' e = value s2 e.
Proof.
  intros HI1 HI2. unfold Query2, Count.
  destruct (decide (count s1 <= count s2)) as [Hle|Hgt].
  - (* the first storage drives *)
    match goal with |- context [for_range 0 (count s1) ?body ?init] =>
      destruct (for_range_inv
        (fun j '(a1, a2, stj, tr) =>
           same_shape s1 a1 /\ same_shape s2 a2 /\
           exists ys,
             run_visitor2 func
               (matches2 s1 s2 (take (Z.to_nat j) (dense s1))) st = (ys, stj) /\
             Forall2 (fun m y => value a1 m.1.1 = Some y.1 /\
                                 value a2 m.1.1 = Some y.2)
               (matches2 s1 s2 (take (Z.to_nat j) (dense s1))) ys /\
             forall e,
               e ∉ (fun m => m.1.1) <$>
                     matches2 s1 s2 (take (Z.to_nat j) (dense s1)) ->
               value a1 e = value s1 e /\ value a2 e = value s2 e)
        body 0 (count s1) init)
        as ([[[a1 a2] st'] tr] & E & Hs1 & Hs2 & ys & Hrun & Hall & Hfr)
    end.
    + apply (inv_count s1 HI1).
    + split_and!; try apply same_shape_refl. exists []. split_and!.
      * reflexivity.
      * constructor.
      * intros e _. auto.
    + intros j [[[a1 a2] stj] tr] Hj (Hs1 & Hs2 & ys & Hrun & Hall & Hfr).
      destruct (drive_step_v s1 a1 j HI1 Hs1 Hj)
        as (e & x1 & HgE & He & HgD & Hl1 & Hv1 & Hst1).
      pose proof (not_in_take_dense s1 j e HI1 Hj He) as Hfresh.
      assert (Hnew : e ∉ (fun m : Entity * T1 * T2 => m.1.1) <$>
                         matches2 s1 s2 (take (Z.to_nat j) (dense s1))).
      { intros [m [-> Hm]]%list_elem_of_fmap.
        apply matches2_entity in Hm as [Hm _]. exact (Hfresh Hm). }
      destruct (Hfr e Hnew) as [Hf1 Hf2].
      unfold mbind, run_bind. cbv beta iota zeta. query_rw HgE.
      replace (Z.to_nat (j + 1)) with (Datatypes.S (Z.to_nat j)) by lia.
      apply aget_Ok in He as [_ He]. rewrite (take_S_r _ _ _ He), matches2_snoc.
      rewrite <- Hf1, <- Hf2.
      destruct (probe_step_v s2 a2 e HI2 Hs2)
        as [[Hg2 Hn2]|(p2 & x2 & Hg2 & Hl2 & Hv2 & Hst2)];
        query_rw Hg2.
      * eexists. split; [reflexivity|]. rewrite Hv1, Hn2.
        rewrite app_nil_r.
        split_and!; try assumption. exists ys. split_and!; assumption.
      * query_rw HgD. query_rw Hl1. query_rw Hl2.
        destruct (func e x1 x2 stj) as [[y1 y2] st1] eqn:Ef.
        destruct (Hst1 y1) as (b1 & Es1 & Hsh1 & Hy1 & Ho1 & _). query_rw Es1.
        destruct (Hst2 y2) as (b2 & Es2 & Hsh2 & Hy2 & Ho2 & _). query_rw Es2.
        eexists. split; [reflexivity|]. rewrite Hv1, Hv2.
        split_and!; try assumption.
        exists (ys ++ [(y1, y2)]). split_and!.
        -- apply (run_visitor2_snoc func _ e x1 x2 st ys stj y1 y2 st1 Hrun Ef).
        -- apply Forall2_app.
           ++ apply (Forall2_impl_elem _ _ _ _ Hall). intros m y Hm [Hm1 Hm2].
              assert (m.1.1 <> e).
              { intros Heq. apply Hnew. apply list_elem_of_fmap.
                exists m. split; [symmetry; exact Heq | exact Hm]. }
              rewrite Ho1, Ho2 by assumption. auto.
           ++ repeat constructor; assumption.
        -- intros e' Hne'. rewrite fmap_app, not_elem_of_app in Hne'.
           destruct Hne' as [Hold Hcur].
           assert (e' <> e) by (intros ->; apply Hcur; simpl; left).
           rewrite Ho1, Ho2 by assumption. apply Hfr. exact Hold.
    + exists a1, a2, st', tr, ys. unfold entities. split_and!; assumption.
  - (* the second storage drives *)
    match goal with |- context [for_range 0 (count s2) ?body ?init] =>
      destruct (for_range_inv
        (fun j '(a1, a2, stj, tr) =>
           same_shape s1 a1 /\ same_shape s2 a2 /\
           exists ys,
             run_visitor2 func
               (matches2 s1 s2 (take (Z.to_nat j) (dense s2))) st = (ys, stj) /\
             Forall2 (fun m y => value a1 m.1.1 = Some y.1 /\
                                 value a2 m.1.1 = Some y.2)
               (matches2 s1 s2 (take (Z.to_nat j) (dense s2))) ys /\
             forall e,
               e ∉ (fun m => m.1.1) <$>
                     matches2 s1 s2 (take (Z.to_nat j) (dense s2)) ->
               value a1 e = value s1 e /\ value a2 e = value s2 e)
        body 0 (count s2) init)
        as ([[[a1 a2] st'] tr] & E & Hs1 & Hs2 & ys & Hrun & Hall & Hfr)
    end.
    + apply (inv_count s2 HI2).
    + split_and!; try apply same_shape_refl. exists []. split_and!.
      * reflexivity.
      * constructor.
      * intros e _. auto.
    + intros j [[[a1 a2] stj] tr] Hj (Hs1 & Hs2 & ys & Hrun & Hall & Hfr).
      destruct (drive_step_v s2 a2 j HI2 Hs2 Hj)
        as (e & x2 & HgE & He & HgD & Hl2 & Hv2 & Hst2).
      pose proof (not_in_take_dense s2 j e HI2 Hj He) as Hfresh.
      assert (Hnew : e ∉ (fun m : Entity * T1 * T2 => m.1.1) <$>
                         matches2 s1 s2 (take (Z.to_nat j) (dense s2))).
      { intros [m [-> Hm]]%list_elem_of_fmap.
        apply matches2_entity in Hm as [Hm _]. exact (Hfresh Hm). }
      destruct (Hfr e Hnew) as [Hf1 Hf2].
      unfold mbind, run_bind. cbv beta iota zeta. query_rw HgE.
      replace (Z.to_nat (j + 1)) with (Datatypes.S (Z.to_nat j)) by lia.
      apply aget_Ok in He as [_ He]. rewrite (take_S_r _ _ _ He), matches2_snoc.
      rewrite <- Hf1, <- Hf2.
      destruct (probe_step_v s1 a1 e HI1 Hs1)
        as [[Hg1 Hn1]|(p1 & x1 & Hg1 & Hl1 & Hv1 & Hst1)];
        query_rw Hg1.
      * eexists. split; [reflexivity|]. rewrite Hv2, Hn1.
        rewrite app_nil_r.
        split_and!; try assumption. exists ys. split_and!; assumption.
      * query_rw HgD. query_rw Hl1. query_rw Hl2.
        destruct (func e x1 x2 stj) as [[y1 y2] st1] eqn:Ef.
        destruct (Hst1 y1) as (b1 & Es1 & Hsh1 & Hy1 & Ho1 & _). query_rw Es1.
        destruct (Hst2 y2) as (b2 & Es2 & Hsh2 & Hy2 & Ho2 & _). query_rw Es2.
        eexists. split; [reflexivity|]. rewrite Hv1, Hv2.
        split_and!; try assumption.
        exists (ys ++ [(y1, y2)]). split_and!.
        -- apply (run_visitor2_snoc func _ e x1 x2 st ys stj y1 y2 st1 Hrun Ef).
        -- apply Forall2_app.
           ++ apply (Forall2_impl_elem _ _ _ _ Hall). intros m y Hm [Hm1 Hm2].
              assert (m.1.1 <> e).
              { intros Heq. apply Hnew. apply list_elem_of_fmap.
                exists m. split; [symmetry; exact Heq | exact Hm]. }
              rewrite Ho1, Ho2 by assumption. auto.
           ++ repeat constructor; assumption.
        -- intros e' Hne'. rewrite fmap_app, not_elem_of_app in Hne'.
           destruct Hne' as [Hold Hcur].
           assert (e' <> e) by (intros ->; apply Hcur; simpl; left).
           rewrite Ho1, Ho2 by assumption. apply Hfr. exact Hold.
    + exists a1, a2, st', tr, ys. unfold entities. split_and!; assumption.
Qed.

End QueryValues.

Section MatchFacts.
Context {T1 T2 : Type}.

Lemma matches2_cons (s1 : SparseSet T1) (s2 : SparseSet T2)
    (l : list Entity) (e : Entity) :
  matches2 s1 s2 (e :: l) =
  match value s1 e, value s2 e with
  | Some x1, Some x2 => [(e, x1, x2)]
  | _, _ => []
  end ++ matches2 s1 s2 l.
Proof. reflexivity. Qed.

(** The matches of a join are the entities of the driving storage that
    the other storage has too. *)
Lemma matches2_fst_l (s1 : SparseSet T1) (s2 : SparseSet T2) (l : list Entity) :
  Inv s1 -> Inv s2 -> (forall e, e ∈ l -> member s1 e = true) ->
  (fun m => m.1.1) <$> matches2 s1 s2 l
  = filter (fun e => member s2 e = true) l.
Proof.
  intros HI1 HI2. induction l as [|e l IH]; intros Hl; [reflexivity|].
  rewrite matches2_cons, fmap_app, IH, filter_cons
    by (intros e' He'; apply Hl; right; exact He').
  assert (H1 : is_Some (value s1 e))
    by (apply (value_member s1 e HI1), Hl; left).
  destruct H1 as [x1 ->]. pose proof (value_member s2 e HI2) as H2.
  destruct (value s2 e) as [x2|].
  - destruct (decide (member s2 e = true)) as [_|Hn]; [reflexivity|].
    exfalso. apply Hn, H2. eauto.
  - destruct (decide (member s2 e = true)) as [Hm|_]; [|reflexivity].
    apply H2 in Hm as [x Hx]. discriminate.
Qed.

Lemma matches2_fst_r (s1 : SparseSet T1) (s2 : SparseSet T2) (l : list Entity) :
  Inv s1 -> Inv s2 -> (forall e, e ∈ l -> member s2 e = true) ->
  (fun m => m.1.1) <$> matches2 s1 s2 l
  = filter (fun e => member s1 e = true) l.
Proof.
  intros HI1 HI2. induction l as [|e l IH]; intros Hl; [reflexivity|].
  rewrite matches2_cons, fmap_app, IH, filter_cons
    by (intros e' He'; apply Hl; right; exact He').
  assert (H2 : is_Some (value s2 e))
    by (apply (value_member s2 e HI2), Hl; left).
  destruct H2 as [x2 Hx2]. pose proof (value_member s1 e HI1) as H1.
  destruct (value s1 e) as [x1|].
  - rewrite Hx2. destruct (decide (member s1 e = true)) as [_|Hn]; [reflexivity|].
    exfalso. apply Hn, H1. eauto.
  - destruct (decide (member s1 e = true)) as [Hm|_]; [|reflexivity].
    apply H1 in Hm as [x Hx]. discriminate.
Qed.

End MatchFacts.

Lemma visits_Visit (l : list Entity) : visits (Visit <$> l) = l.
Proof. induction l as [|e l IH]; [reflexivity|]. cbn. f_equal. exact IH. Qed.

(** * Further facts about the registry *)

Section RemoveMore.
Context {T : Type}.
Implicit Types (s : SparseSet T) (e : Entity).

Lemma Remove_full s e :
  Inv s ->
  exists s', Remove s e = Ok s' /\ Inv s' /\ Has s' e = Ok false /\
    GetValue s' e = Ok None /\
    (forall e2, e2 <> e ->
       Has s' e2 = Has s e2 /\ GetValue s' e2 = GetValue s e2) /\
    Remove s' e = Ok s' /\
    count s' = count s - (if member s e then 1 else 0).
Proof.
  intros HI. destruct (Remove_frame s e HI) as (s' & E & HI' & Hgone & Hfr).
  assert (Hno' : forall idx, ~ slot_of s' e idx).
  { intros idx Hsl. rewrite (Has_present s' e idx HI' Hsl) in Hgone. discriminate. }
  exists s'. split_and!; try assumption.
  - apply GetValue_absent; assumption.
  - apply Remove_absent; assumption.
  - unfold member. destruct (slot_of_dec s e HI) as [[idx Hsl]|Hno].
    + destruct (Remove_present s e idx HI Hsl) as (s'' & E' & _ & Hc & _).
      rewrite E in E'. injection E' as <-.
      rewrite (Has_present s e idx HI Hsl). exact Hc.
    + rewrite (Remove_absent s e HI Hno) in E. injection E as <-.
      rewrite (Has_absent s e HI Hno). lia.
Qed.

End RemoveMore.

Section WorldMore.
Context {Transform Sprite Animation Physics Collider CollisionState Player : Type}.
Context `{Inhabited Transform} `{Inhabited Sprite} `{Inhabited Animation}
        `{Inhabited Physics} `{Inhabited Collider} `{Inhabited CollisionState}
        `{Inhabited Player}.
Abbreviation WorldM :=
  (@World Transform Sprite Animation Physics Collider CollisionState Player).
Implicit Types (w : WorldM) (k : Kind) (e : Entity).


(** Entities handed out later are the null entity or at least the
    counter. *)
Lemma create_many_later (n : nat) w (x : Entity) :
  x ∈ (create_many n w).1 -> x = NULL_ENTITY \/ (nextEntity w <= x)%N.
Proof.
  revert w. induction n as [|n IH]; intros w Hx.
  - simpl in Hx. apply elem_of_nil in Hx. destruct Hx.
  - cbn [create_many] in Hx.
    destruct (decide (MAX_ENTITIES <= Z.of_N (nextEntity w))) as [Hge|Hlt].
    + rewrite (CreateEntity_exhausted w Hge) in Hx.
      destruct (create_many n w) as [es w''] eqn:E. cbn in Hx.
      apply elem_of_cons in Hx as [->|Hx]; [left; reflexivity|].
      apply (IH w). rewrite E. exact Hx.
    + rewrite (CreateEntity_below w) in Hx by lia.
      destruct (create_many n (set_nextEntity w (nextEntity w + 1)%N))
        as [es w''] eqn:E. cbn in Hx.
      apply elem_of_cons in Hx as [->|Hx]; [right; lia|].
      destruct (IH (set_nextEntity w (nextEntity w + 1)%N)) as [?|Hle].
      * rewrite E. exact Hx.
      * left. assumption.
      * right. cbn [nextEntity set_nextEntity] in Hle. lia.
Qed.

End WorldMore.

(** * The spawn loop *)

Lemma issue_order_length : Z.of_nat (length issue_order) = MAX_ENTITIES.
Proof.
  unfold issue_order. rewrite length_fmap, length_seqZ.
  unfold MAX_ENTITIES. lia.
Qed.

Lemma issue_order_lookup (j : Z) :
  0 <= j < MAX_ENTITIES -> issue_order !! Z.to_nat j = Some (nth_issued j).
Proof.
  intros Hj. unfold issue_order. rewrite list_lookup_fmap.
  rewrite lookup_seqZ_lt by lia. simpl. f_equal. f_equal. lia.
Qed.

Lemma nth_issued_inj (i j : Z) :
  0 <= i < MAX_ENTITIES -> 0 <= j < MAX_ENTITIES ->
  nth_issued i = nth_issued j -> i = j.
Proof.
  unfold nth_issued, NULL_ENTITY. intros Hi Hj.
  destruct (decide (i < MAX_ENTITIES - 1)), (decide (j < MAX_ENTITIES - 1)); lia.
Qed.

Lemma nth_issued_bound (j : Z) : 0 <= j -> Z.of_N (nth_issued j) < MAX_ENTITIES.
Proof.
  intros Hj. unfold nth_issued, NULL_ENTITY, MAX_ENTITIES.
  destruct (decide _); simpl; lia.
Qed.

Lemma take_issue_order_snoc (j : Z) :
  0 <= j < MAX_ENTITIES ->
  take (Z.to_nat (j + 1)) issue_order
  = take (Z.to_nat j) issue_order ++ [nth_issued j].
Proof.
  intros Hj. replace (Z.to_nat (j + 1)) with (Datatypes.S (Z.to_nat j)) by lia.
  apply take_S_r. apply issue_order_lookup. exact Hj.
Qed.

Lemma take_issue_order_full (j : Z) :
  MAX_ENTITIES <= j -> take (Z.to_nat j) issue_order = issue_order.
Proof.
  intros Hj. apply take_ge. pose proof issue_order_length. lia.
Qed.

Lemma nth_issued_fresh (j : Z) :
  0 <= j < MAX_ENTITIES -> nth_issued j ∉ take (Z.to_nat j) issue_order.
Proof.
  intros Hj [i [Hi Hlt]]%elem_of_take.
  rewrite <- (Nat2Z.id i) in Hi.
  rewrite issue_order_lookup in Hi by lia. injection Hi as Hi.
  apply nth_issued_inj in Hi; lia.
Qed.

Lemma nth_issued_stale (j : Z) :
  MAX_ENTITIES <= j -> nth_issued j ∈ issue_order.
Proof.
  intros Hj. apply list_elem_of_lookup.
  exists (Z.to_nat (MAX_ENTITIES - 1)).
  rewrite issue_order_lookup by (unfold MAX_ENTITIES; lia).
  f_equal. unfold nth_issued.
  destruct (decide (MAX_ENTITIES - 1 < MAX_ENTITIES - 1)); [lia|].
  destruct (decide (j < MAX_ENTITIES - 1)); [lia|]. reflexivity.
Qed.

Section SpawnStorage.
Context {T : Type} `{Inhabited T}.
Implicit Types (s : SparseSet T) (e : Entity).

(** [Add], with what it does to the dense order. *)
Lemma Add_full s e (v : T) :
  Inv s -> Z.of_N e < MAX_ENTITIES ->
  exists s', Add s e v = Ok s' /\ Inv s' /\
    Has s' e = Ok true /\ GetValue s' e = Ok (Some v) /\
    (forall e2, e2 <> e ->
       Has s' e2 = Has s e2 /\ GetValue s' e2 = GetValue s e2) /\
    entities s' = (if member s e then entities s else entities s ++ [e]).
Proof.
  intros HI He. destruct (Add_frame s e v HI He) as (s' & E & HI' & Hh & Hg & Hfr).
  exists s'. split_and!; try assumption.
  unfold member. destruct (slot_of_dec s e HI) as [[idx Hsl]|Hno].
  - rewrite (Has_present s e idx HI Hsl).
    rewrite (Add_present s e idx v HI Hsl) in E. injection E as <-.
    reflexivity.
  - rewrite (Has_absent s e HI Hno).
    destruct (Add_absent s e v HI He Hno)
      as (s'' & E' & HI'' & Hc & Hsl & _ & _ & Hcopy).
    rewrite E in E'. injection E' as <-.
    destruct (slot_of_inv s' e _ HI' Hsl) as (_ & Hd & _).
    pose proof (inv_count s HI) as Hc0. rewrite Z2N.id in Hd by lia.
    unfold entities. rewrite Hc. apply take_snoc_agree.
    + pose proof (inv_dense_len s HI). lia.
    + exact Hd.
    + intros i Hi. apply Hcopy. exact Hi.
Qed.

(** One storage through one turn of the spawn loop. *)
Lemma spawn_step s (f : Z -> T) (j : Z) :
  0 <= j -> reachable s ->
  entities s = take (Z.to_nat j) issue_order ->
  (forall i, 0 <= i < Z.min j (MAX_ENTITIES - 1) ->
             GetValue s (Z.to_N (i + 1)) = Ok (Some (f i))) ->
  exists s', Add s (nth_issued j) (f j) = Ok s' /\ reachable s' /\
    entities s' = take (Z.to_nat (j + 1)) issue_order /\
    (forall i, 0 <= i < Z.min (j + 1) (MAX_ENTITIES - 1) ->
               GetValue s' (Z.to_N (i + 1)) = Ok (Some (f i))) /\
    (MAX_ENTITIES <= j + 1 -> GetValue s' NULL_ENTITY = Ok (Some (f j))).
Proof.
  intros Hj Hr Hent Hvals. pose proof (reachable_Inv s Hr) as HI.
  destruct (Add_full s (nth_issued j) (f j) HI (nth_issued_bound j Hj))
    as (s' & E & HI' & Hh & Hg & Hfr & Hent').
  exists s'. split_and!.
  - exact E.
  - eapply reach_Add; eassumption.
  - rewrite Hent'. destruct (decide (j < MAX_ENTITIES)) as [Hlt|Hge].
    + assert (Hm : member s (nth_issued j) = false).
      { destruct (member s (nth_issued j)) eqn:Em; [|reflexivity].
        apply (member_entities s _ HI) in Em. rewrite Hent in Em.
        exfalso. apply (nth_issued_fresh j); [lia | exact Em]. }
      rewrite Hm, Hent, take_issue_order_snoc by lia. reflexivity.
    + assert (Hm : member s (nth_issued j) = true).
      { apply (member_entities s _ HI). rewrite Hent, take_issue_order_full by lia.
        apply nth_issued_stale. lia. }
      rewrite Hm, Hent, !take_issue_order_full by lia. reflexivity.
  - intros i Hi. destruct (decide (i = j)) as [->|Hne].
    + assert (Hbox : nth_issued j = Z.to_N (j + 1)).
      { unfold nth_issued. destruct (decide _); [reflexivity | lia]. }
      rewrite <- Hbox. exact Hg.
    + assert (Hother : Z.to_N (i + 1) <> nth_issued j).
      { unfold nth_issued, NULL_ENTITY. destruct (decide _); lia. }
      destruct (Hfr _ Hother) as [_ ->]. apply Hvals. lia.
  - intros Hge. assert (Hbox : nth_issued j = NULL_ENTITY).
    { unfold nth_issued. destruct (decide _); [lia | reflexivity]. }
    rewrite <- Hbox. exact Hg.
Qed.

End SpawnStorage.

Lemma filter_all {A : Type} (P : A -> Prop) `{forall x, Decision (P x)}
    (l : list A) :
  (forall x, x ∈ l -> P x) -> filter P l = l.
Proof.
  induction l as [|x l IH]; intros Hall; [reflexivity|].
  rewrite filter_cons. destruct (decide (P x)) as [_|Hn].
  - f_equal. apply IH. intros y Hy. apply Hall. right. exact Hy.
  - exfalso. apply Hn, Hall. left.
Qed.

(** The spawn loop, run on a new world: what holds of the world when the
    loop ends. *)
Lemma spawn_boxes_loop
    {Transform Sprite Animation Physics Collider CollisionState Player : Type}
    `{Inhabited Transform} `{Inhabited Sprite} `{Inhabited Animation}
    `{Inhabited Physics} `{Inhabited Collider} `{Inhabited CollisionState}
    `{Inhabited Player}
    (n : Z) (t : Z -> Transform) (p : Z -> Physics) :
  0 <= n ->
  exists w' : @World Transform Sprite Animation Physics Collider
                     CollisionState Player,
    spawn_boxes n t p fresh_world = Ok w' /\
    reachable (transforms w') /\ reachable (physics w') /\
    (sprites w' = empty_set /\ animations w' = empty_set /\
     colliders w' = empty_set /\ collisionStates w' = empty_set /\
     players w' = empty_set) /\
    Z.of_N (nextEntity w') = Z.min (n + 1) MAX_ENTITIES /\
    entities (transforms w') = take (Z.to_nat n) issue_order /\
    entities (physics w') = take (Z.to_nat n) issue_order /\
    (forall i, 0 <= i < Z.min n (MAX_ENTITIES - 1) ->
       GetValue (transforms w') (Z.to_N (i + 1)) = Ok (Some (t i))) /\
    (forall i, 0 <= i < Z.min n (MAX_ENTITIES - 1) ->
       GetValue (physics w') (Z.to_N (i + 1)) = Ok (Some (p i))) /\
    (MAX_ENTITIES <= n ->
       GetValue (transforms w') NULL_ENTITY = Ok (Some (t (n - 1))) /\
       GetValue (physics w') NULL_ENTITY = Ok (Some (p (n - 1)))).
Proof.
  intros Hn. unfold spawn_boxes.
  match goal with |- context [for_range 0 n ?body ?init] =>
    destruct (for_range_inv
      (fun j (w : @World Transform Sprite Animation Physics Collider
                         CollisionState Player) =>
         reachable (transforms w) /\ reachable (physics w) /\
         (sprites w = empty_set /\ animations w = empty_set /\
          colliders w = empty_set /\ collisionStates w = empty_set /\
          players w = empty_set) /\
         Z.of_N (nextEntity w) = Z.min (j + 1) MAX_ENTITIES /\
         entities (transforms w) = take (Z.to_nat j) issue_order /\
         entities (physics w) = take (Z.to_nat j) issue_order /\
         (forall i, 0 <= i < Z.min j (MAX_ENTITIES - 1) ->
            GetValue (transforms w) (Z.to_N (i + 1)) = Ok (Some (t i))) /\
         (forall i, 0 <= i < Z.min j (MAX_ENTITIES - 1) ->
            GetValue (physics w) (Z.to_N (i + 1)) = Ok (Some (p i))) /\
         (MAX_ENTITIES <= j ->
            GetValue (transforms w) NULL_ENTITY = Ok (Some (t (j - 1))) /\
            GetValue (physics w) NULL_ENTITY = Ok (Some (p (j - 1)))))
      body 0 n init)
      as (w' & E & Hrt & Hrp & Hrest & Hnext & Het & Hep & Hvt & Hvp & Hnull)
  end.
  - exact Hn.
  - cbn [fresh_world transforms physics sprites animations colliders
         collisionStates players nextEntity].
    split_and!; try reflexivity; try apply reachable_empty.
    + intros i Hi. lia.
    + intros i Hi. lia.
    + unfold MAX_ENTITIES. lia.
  - intros j w Hj (Hrt & Hrp & Hrest & Hnext & Het & Hep & Hvt & Hvp & Hnull).
    assert (Hcreate : exists w1,
              CreateEntity w = (nth_issued j, w1) /\
              transforms w1 = transforms w /\ physics w1 = physics w /\
              sprites w1 = sprites w /\ animations w1 = animations w /\
              colliders w1 = colliders w /\
              collisionStates w1 = collisionStates w /\ players w1 = players w /\
              Z.of_N (nextEntity w1) = Z.min (j + 2) MAX_ENTITIES).
    { unfold nth_issued. destruct (decide (j < MAX_ENTITIES - 1)) as [Hlt|Hge].
      - eexists. split; [rewrite CreateEntity_below by lia; f_equal; lia|].
        cbn [set_nextEntity transforms physics sprites animations colliders
             collisionStates players nextEntity].
        split_and!; try reflexivity. lia.
      - exists w. split; [apply CreateEntity_exhausted; lia|].
        split_and!; try reflexivity. lia. }
    destruct Hcreate as (w1 & Ec & Ht1 & Hp1 & Hs1 & Ha1 & Hc1 & Hcs1 & Hpl1 & Hn1).
    destruct (spawn_step (transforms w) t j ltac:(lia) Hrt Het Hvt)
      as (st & Eat & Hrt' & Het' & Hvt' & Hnt').
    destruct (spawn_step (physics w) p j ltac:(lia) Hrp Hep Hvp)
      as (sp & Eap & Hrp' & Hep' & Hvp' & Hnp').
    exists (set_physics (set_transforms w1 st) sp). split.
    { rewrite Ec. cbv beta iota zeta. unfold AddTransform, AddPhysics.
      rewrite Ht1, Eat. unfold mbind, run_bind. cbv beta iota zeta.
      cbn [set_transforms physics]. rewrite Hp1, Eap. reflexivity. }
    cbn [set_physics set_transforms transforms physics sprites animations
         colliders collisionStates players nextEntity].
    rewrite Hs1, Ha1, Hc1, Hcs1, Hpl1.
    destruct Hrest as (Hs & Ha & Hc & Hcs & Hpl).
    split_and!; try assumption.
    + replace (j + 1 + 1) with (j + 2) by lia. exact Hn1.
    + intros Hge. replace (j + 1 - 1) with j by lia. split; auto.
  - destruct Hrest as (Hs & Ha & Hc & Hcs & Hpl).
    exists w'. split_and!; assumption.
Qed.

(** * The calls of the visitor *)

Section CallFacts.
Context {St C X : Type}.

Lemma joined_snoc (full : C -> option X) (comps : Entity -> C)
    (l : list Entity) (e : Entity) :
  joined full comps (l ++ [e]) =
  joined full comps l ++ match full (comps e) with
                         | Some x => [(e, x)]
                         | None => []
                         end.
Proof.
  unfold joined. rewrite flat_map_app. simpl. rewrite app_nil_r. reflexivity.
Qed.

Lemma joined_elem (full : C -> option X) (comps : Entity -> C)
    (l : list Entity) (m : Entity * X) :
  m ∈ joined full comps l -> m.1 ∈ l /\ full (comps m.1) = Some m.2.
Proof.
  unfold joined. rewrite list_elem_of_In, in_flat_map.
  intros (e & He & Hm). apply list_elem_of_In in He.
  destruct (full (comps e)) as [x|] eqn:E; [|destruct Hm].
  destruct Hm as [<-|[]]. simpl. auto.
Qed.

Lemma joined_full (full : C -> option X) (comps : Entity -> C)
    (l : list Entity) :
  Forall (fun m => full (comps m.1) = Some m.2) (joined full comps l).
Proof.
  unfold joined. induction l as [|e l IH]; simpl; [constructor|].
  destruct (full (comps e)) as [x|] eqn:E; simpl; [|exact IH].
  constructor; [exact E | exact IH].
Qed.

(** A loop over [drive] whose rounds leave alone an entity that lacks a
    component, and call the visitor on, and store its results for, an
    entity that has them all. *)
Lemma join_loop {S : Type} (R : S -> Prop) (comps : S -> Entity -> C)
    (full : C -> option X) (func : Entity -> X -> St -> X * St)
    (body : Z -> S * St * list event -> run (S * St * list event))
    (drive : list Entity) (n : Z) (a0 : S) (st : St) :
  n = Z.of_nat (length drive) -> NoDup drive -> R a0 ->
  (forall j a stj tr e,
     R a -> 0 <= j -> drive !! Z.to_nat j = Some e ->
     exists a' st1 tr',
       body j (a, stj, tr) = Ok (a', st1, tr') /\ R a' /\
       (forall e2, e2 <> e -> comps a' e2 = comps a e2) /\
       match full (comps a e) with
       | None => st1 = stj /\ comps a' e = comps a e /\
                 visits tr' = visits tr
       | Some x => st1 = (func e x stj).2 /\
                   full (comps a' e) = Some (func e x stj).1 /\
                   visits tr' = visits tr ++ [e]
       end) ->
  exists a' st' tr ys,
    for_range 0 n body (a0, st, []) = Ok (a', st', tr) /\ R a' /\
    visits tr = (joined full (comps a0) drive).*1 /\
    run_visitor1 func (joined full (comps a0) drive) st = (ys, st') /\
    Forall2 (fun m y => full (comps a' m.1) = Some y)
      (joined full (comps a0) drive) ys /\
    forall e, e ∉ (joined full (comps a0) drive).*1 ->
              comps a' e = comps a0 e.
Proof.
  intros Hn Hnd HR Hstep.
  destruct (for_range_inv
    (fun j '(a, stj, tr) =>
       R a /\
       visits tr = (joined full (comps a0) (take (Z.to_nat j) drive)).*1 /\
       exists ys,
         run_visitor1 func (joined full (comps a0) (take (Z.to_nat j) drive)) st
         = (ys, stj) /\
         Forall2 (fun m y => full (comps a m.1) = Some y)
           (joined full (comps a0) (take (Z.to_nat j) drive)) ys /\
         forall e, e ∉ (joined full (comps a0) (take (Z.to_nat j) drive)).*1 ->
                   comps a e = comps a0 e)
    body 0 n (a0, st, []))
    as ([[a' st'] tr] & E & HR' & Htr & ys & Hrun & Hall & Hfr).
  - lia.
  - split; [exact HR|]. split; [reflexivity|]. exists []. split_and!.
    + reflexivity.
    + constructor.
    + intros e _. reflexivity.
  - intros j [[a stj] tr] Hj (HRa & Htr & ys & Hrun & Hall & Hfr).
    destruct (lookup_lt_is_Some_2 drive (Z.to_nat j)) as [e He]; [lia|].
    assert (Hfresh : e ∉ take (Z.to_nat j) drive).
    { intros [i [Hi Hlt]]%elem_of_take.
      pose proof (NoDup_lookup _ _ _ _ Hnd Hi He). lia. }
    assert (Hnew : e ∉ (joined full (comps a0) (take (Z.to_nat j) drive)).*1).
    { intros [m [-> Hm]]%list_elem_of_fmap.
      apply joined_elem in Hm as [Hm _]. exact (Hfresh Hm). }
    pose proof (Hfr e Hnew) as Hsame.
    destruct (Hstep j a stj tr e HRa ltac:(lia) He)
      as (a1 & st1 & tr1 & Eb & HR1 & Hoth & Hcase).
    exists (a1, st1, tr1). split; [exact Eb|].
    replace (Z.to_nat (j + 1)) with (Datatypes.S (Z.to_nat j)) by lia.
    rewrite (take_S_r _ _ _ He), joined_snoc. rewrite <- Hsame.
    destruct (full (comps a e)) as [x|] eqn:Ef.
    + destruct Hcase as (Hst1 & Hy & Hv).
      destruct (func e x stj) as [y st2] eqn:Efn. cbn [fst snd] in Hst1, Hy.
      subst st1. split; [exact HR1|]. split.
      { rewrite Hv, Htr, fmap_app. reflexivity. }
      exists (ys ++ [y]). split_and!.
      * apply (run_visitor1_snoc func _ e x st ys stj y st2 Hrun Efn).
      * apply Forall2_app.
        -- apply (Forall2_impl_elem _ _ _ _ Hall). intros m y0 Hm Hm1.
           rewrite Hoth; [exact Hm1|].
           intros Heq. apply Hnew. apply list_elem_of_fmap.
           exists m. split; [symmetry; exact Heq | exact Hm].
        -- repeat constructor. exact Hy.
      * intros e' Hne'. rewrite fmap_app, not_elem_of_app in Hne'.
        destruct Hne' as [Hold Hcur].
        assert (e' <> e) by (intros ->; apply Hcur; simpl; left).
        rewrite Hoth by assumption. apply Hfr. exact Hold.
    + destruct Hcase as (-> & Hy & Hv). rewrite app_nil_r.
      split; [exact HR1|]. split; [rewrite Hv; exact Htr|].
      exists ys. split_and!.
      * exact Hrun.
      * apply (Forall2_impl_elem _ _ _ _ Hall). intros m y0 Hm Hm1.
        rewrite Hoth; [exact Hm1|].
        intros Heq. apply Hnew. apply list_elem_of_fmap.
        exists m. split; [symmetry; exact Heq | exact Hm].
      * intros e' Hne'. destruct (decide (e' = e)) as [->|Hd].
        -- rewrite Hy. exact Hsame.
        -- rewrite Hoth by exact Hd. apply Hfr. exact Hne'.
  - exists a', st', tr, ys.
    rewrite Hn, Nat2Z.id, firstn_all in Htr, Hrun, Hall, Hfr.
    split_and!; assumption.
Qed.

(** From the run of the loop to [visited_with]. *)
Lemma visited_with_intro (func : Entity -> X -> St -> X * St)
    (full : C -> option X) (comps comps' : Entity -> C)
    (drive visited : list Entity) (st st' : St) (ys : list X) :
  visited = (joined full comps drive).*1 ->
  run_visitor1 func (joined full comps drive) st = (ys, st') ->
  Forall2 (fun m y => full (comps' m.1) = Some y) (joined full comps drive) ys ->
  (forall e, e ∉ (joined full comps drive).*1 -> comps' e = comps e) ->
  visited_with func full comps comps' visited st st'.
Proof.
  intros -> Hrun Hall Hfr. exists (joined full comps drive), ys.
  split_and!; try assumption; [reflexivity | apply joined_full].
Qed.

End CallFacts.

Lemma visits_snoc_Probe (tr : list event) (k : nat) (e : Entity) :
  visits (tr ++ [Probe k e]) = visits tr.
Proof. rewrite visits_app. simpl. apply app_nil_r. Qed.

Lemma visits_snoc_Visit (tr : list event) (e : Entity) :
  visits (tr ++ [Visit e]) = visits tr ++ [e].
Proof. rewrite visits_app. reflexivity. Qed.

Lemma visits_snoc_Probes (tr : list event) (ks : list nat) (e : Entity) :
  visits (tr ++ map (fun k => Probe k e) ks) = visits tr.
Proof.
  rewrite visits_app. induction ks as [|k ks IH]; [apply app_nil_r | exact IH].
Qed.

Section QueryCalls.
Context {St T1 T2 T3 T4 T5 T6 : Type}.

(** The entity a round of the loop over [s] is about. *)
Lemma drive_entity {T : Type} (s a : SparseSet T) (j : Z) (e : Entity) :
  Inv s -> same_shape s a -> 0 <= j -> entities s !! Z.to_nat j = Some e ->
  exists x,
    GetEntity a j = Ok e /\ GetData a j = Ok j /\ load a j = Ok x /\
    value a e = Some x /\
    forall y, exists a', store a j y = Ok a' /\ same_shape s a' /\
      value a' e = Some y /\ (forall e2, e2 <> e -> value a' e2 = value a e2).
Proof.
  intros HI Hsh Hj He. apply entities_lookup in He as [Hr He].
  rewrite Z2Nat.id in Hr, He by lia.
  destruct (drive_step_v s a j HI Hsh Hr)
    as (e' & x & HgE & He' & HgD & Hl & Hv & Hst).
  assert (e' = e) by congruence. subst e'.
  exists x. split_and!; try assumption.
  intros y. destruct (Hst y) as (a' & E & Hsh' & Hy & Hoth & _).
  exists a'. auto.
Qed.

(** What a probe finds. *)
Lemma probe_value {T : Type} (s a : SparseSet T) (e : Entity) :
  Inv s -> same_shape s a ->
  (Get a e = Ok None /\ value a e = None) \/
  (exists p x, Get a e = Ok (Some p) /\ load a p = Ok x /\ value a e = Some x /\
     forall y, exists a', store a p y = Ok a' /\ same_shape s a' /\
       value a' e = Some y /\ (forall e2, e2 <> e -> value a' e2 = value a e2)).
Proof.
  intros HI Hsh.
  destruct (probe_step_v s a e HI Hsh)
    as [Hno|(p & x & Hg & Hl & Hv & Hst)]; [left; exact Hno|].
  right. exists p, x. split_and!; try assumption.
  intros y. destruct (Hst y) as (a' & E & Hsh' & Hy & Hoth & _).
  exists a'. auto.
Qed.

(** Closes a round of a query loop in which some probe failed. *)
Ltac query_skip :=
  eexists _, _, _; split; [reflexivity|]; cbv beta iota zeta;
  split; [split_and!; assumption|];
  split; [intros; reflexivity|];
  repeat match goal with Hv : value _ _ = _ |- _ => rewrite Hv; clear Hv end;
  cbn [all2 all3 all4 all5 all6];
  split; [reflexivity|]; split; [reflexivity|];
  rewrite visits_app; apply app_nil_r.

Lemma Query3_calls (s1 : SparseSet T1) (s2 : SparseSet T2) (s3 : SparseSet T3)
    (func : Entity -> T1 -> T2 -> T3 -> St -> T1 * T2 * T3 * St) (st : St) :
  Inv s1 -> Inv s2 -> Inv s3 ->
  exists s1' s2' s3' st' tr,
    Query3 s1 s2 s3 func st = Ok (s1', s2', s3', st', tr) /\
    visited_with (visitor3 func) all3
      (fun e => (value s1 e, value s2 e, value s3 e))
      (fun e => (value s1' e, value s2' e, value s3' e))
      (visits tr) st st'.
Proof.
  intros HI1 HI2 HI3. unfold Query3, Count.
  match goal with |- context [for_range 0 (count s1) ?body ?init] =>
    destruct (join_loop
      (fun '(a1, a2, a3) =>
         same_shape s1 a1 /\ same_shape s2 a2 /\ same_shape s3 a3)
      (fun '(a1, a2, a3) e => (value a1 e, value a2 e, value a3 e))
      all3 (visitor3 func) body (entities s1) (count s1) (s1, s2, s3) st)
      as ([[a1 a2] a3] & st' & tr & ys & E & _ & Htr & Hrun & Hall & Hfr)
  end.
  - symmetry. apply entities_length. exact HI1.
  - apply entities_NoDup. exact HI1.
  - split_and!; apply same_shape_refl.
  - intros j [[a1 a2] a3] stj tr e (Hs1 & Hs2 & Hs3) Hj He.
    destruct (drive_entity s1 a1 j e HI1 Hs1 Hj He)
      as (x1 & HgE & HgD & Hl1 & Hv1 & Hst1).
    unfold mbind, run_bind. cbv beta iota zeta. query_rw HgE.
    destruct (probe_value s2 a2 e HI2 Hs2)
      as [[Hg2 Hv2]|(p2 & x2 & Hg2 & Hl2 & Hv2 & Hst2)];
    destruct (probe_value s3 a3 e HI3 Hs3)
      as [[Hg3 Hv3]|(p3 & x3 & Hg3 & Hl3 & Hv3 & Hst3)];
    query_rw Hg2; query_rw Hg3; try query_skip.
    query_rw HgD. query_rw Hl1. query_rw Hl2. query_rw Hl3.
    rewrite Hv1, Hv2, Hv3. cbn [all3 visitor3].
    destruct (func e x1 x2 x3 stj) as [[[y1 y2] y3] st1] eqn:Ef.
    destruct (Hst1 y1) as (b1 & Es1 & Hsh1 & Hy1 & Ho1). query_rw Es1.
    destruct (Hst2 y2) as (b2 & Es2 & Hsh2 & Hy2 & Ho2). query_rw Es2.
    destruct (Hst3 y3) as (b3 & Es3 & Hsh3 & Hy3 & Ho3). query_rw Es3.
    eexists _, _, _. split; [reflexivity|]. cbv beta iota zeta.
    split; [auto|].
    split; [intros e2 Hne; rewrite Ho1, Ho2, Ho3 by exact Hne; reflexivity|].
    rewrite Hy1, Hy2, Hy3. cbn [fst snd all3]. split_and!; try reflexivity.
    rewrite visits_snoc_Visit, visits_app. f_equal. apply app_nil_r.
  - exists a1, a2, a3, st', tr. split; [exact E|].
    eapply visited_with_intro; eassumption.
Qed.

Lemma Query4_calls (s1 : SparseSet T1) (s2 : SparseSet T2) (s3 : SparseSet T3) (s4 : SparseSet T4)
    (func : Entity -> T1 -> T2 -> T3 -> T4 -> St -> T1 * T2 * T3 * T4 * St)
    (st : St) :
  Inv s1 -> Inv s2 -> Inv s3 -> Inv s4 ->
  exists s1' s2' s3' s4' st' tr,
    Query4 s1 s2 s3 s4 func st
    = Ok (s1', s2', s3', s4', st', tr) /\
    visited_with (visitor4 func) all4
      (fun e => (value s1 e, value s2 e, value s3 e, value s4 e))
      (fun e => (value s1' e, value s2' e, value s3' e, value s4' e))
      (visits tr) st st'.
Proof.
  intros HI1 HI2 HI3 HI4. unfold Query4, Count.
  match goal with |- context [for_range 0 (count s1) ?body ?init] =>
    destruct (join_loop
      (fun '(a1, a2, a3, a4) =>
         same_shape s1 a1 /\ same_shape s2 a2 /\ same_shape s3 a3 /\ same_shape s4 a4)
      (fun '(a1, a2, a3, a4) e => (value a1 e, value a2 e, value a3 e, value a4 e))
      all4 (visitor4 func) body (entities s1) (count s1) (s1, s2, s3, s4) st)
      as ([[[a1 a2] a3] a4] & st' & tr & ys & E & _ & Htr & Hrun & Hall & Hfr)
  end.
  - symmetry. apply entities_length. exact HI1.
  - apply entities_NoDup. exact HI1.
  - split_and!; apply same_shape_refl.
  - intros j [[[a1 a2] a3] a4] stj tr e (Hs1 & Hs2 & Hs3 & Hs4) Hj He.
    destruct (drive_entity s1 a1 j e HI1 Hs1 Hj He)
      as (x1 & HgE & HgD & Hl1 & Hv1 & Hst1).
    unfold mbind, run_bind. cbv beta iota zeta. query_rw HgE.
    destruct (probe_value s2 a2 e HI2 Hs2)
      as [[Hg2 Hv2]|(p2 & x2 & Hg2 & Hl2 & Hv2 & Hst2)];
    destruct (probe_value s3 a3 e HI3 Hs3)
      as [[Hg3 Hv3]|(p3 & x3 & Hg3 & Hl3 & Hv3 & Hst3)];
    destruct (probe_value s4 a4 e HI4 Hs4)
      as [[Hg4 Hv4]|(p4 & x4 & Hg4 & Hl4 & Hv4 & Hst4)];
    query_rw Hg2; query_rw Hg3; query_rw Hg4; try query_skip.
    query_rw HgD. query_rw Hl1. query_rw Hl2. query_rw Hl3. query_rw Hl4.
    rewrite Hv1, Hv2, Hv3, Hv4. cbn [all4 visitor4].
    destruct (func e x1 x2 x3 x4 stj) as [[[[y1 y2] y3] y4] st1] eqn:Ef.
    destruct (Hst1 y1) as (b1 & Es1 & Hsh1 & Hy1 & Ho1). query_rw Es1.
    destruct (Hst2 y2) as (b2 & Es2 & Hsh2 & Hy2 & Ho2). query_rw Es2.
    destruct (Hst3 y3) as (b3 & Es3 & Hsh3 & Hy3 & Ho3). query_rw Es3.
    destruct (Hst4 y4) as (b4 & Es4 & Hsh4 & Hy4 & Ho4). query_rw Es4.
    eexists _, _, _. split; [reflexivity|]. cbv beta iota zeta.
    split; [auto 10|].
    split; [intros e2 Hne; rewrite Ho1, Ho2, Ho3, Ho4 by exact Hne; reflexivity|].
    rewrite Hy1, Hy2, Hy3, Hy4. cbn [fst snd all4]. split_and!; try reflexivity.
    rewrite visits_snoc_Visit, visits_app. f_equal. apply app_nil_r.
  - exists a1, a2, a3, a4, st', tr. split; [exact E|].
    eapply visited_with_intro; eassumption.
Qed.

Lemma Query5_calls (s1 : SparseSet T1) (s2 : SparseSet T2) (s3 : SparseSet T3) (s4 : SparseSet T4) (s5 : SparseSet T5)
    (func : Entity -> T1 -> T2 -> T3 -> T4 -> T5 -> St -> T1 * T2 * T3 * T4 * T5 * St)
    (st : St) :
  Inv s1 -> Inv s2 -> Inv s3 -> Inv s4 -> Inv s5 ->
  exists s1' s2' s3' s4' s5' st' tr,
    Query5 s1 s2 s3 s4 s5 func st
    = Ok (s1', s2', s3', s4', s5', st', tr) /\
    visited_with (visitor5 func) all5
      (fun e => (value s1 e, value s2 e, value s3 e, value s4 e, value s5 e))
      (fun e => (value s1' e, value s2' e, value s3' e, value s4' e, value s5' e))
      (visits tr) st st'.
Proof.
  intros HI1 HI2 HI3 HI4 HI5. unfold Query5, Count.
  match goal with |- context [for_range 0 (count s1) ?body ?init] =>
    destruct (join_loop
      (fun '(a1, a2, a3, a4, a5) =>
         same_shape s1 a1 /\ same_shape s2 a2 /\ same_shape s3 a3 /\ same_shape s4 a4 /\ same_shape s5 a5)
      (fun '(a1, a2, a3, a4, a5) e => (value a1 e, value a2 e, value a3 e, value a4 e, value a5 e))
      all5 (visitor5 func) body (entities s1) (count s1) (s1, s2, s3, s4, s5) st)
      as ([[[[a1 a2] a3] a4] a5] & st' & tr & ys & E & _ & Htr & Hrun & Hall & Hfr)
  end.
  - symmetry. apply entities_length. exact HI1.
  - apply entities_NoDup. exact HI1.
  - split_and!; apply same_shape_refl.
  - intros j [[[[a1 a2] a3] a4] a5] stj tr e (Hs1 & Hs2 & Hs3 & Hs4 & Hs5) Hj He.
    destruct (drive_entity s1 a1 j e HI1 Hs1 Hj He)
      as (x1 & HgE & HgD & Hl1 & Hv1 & Hst1).
    unfold mbind, run_bind. cbv beta iota zeta. query_rw HgE.
    destruct (probe_value s2 a2 e HI2 Hs2)
      as [[Hg2 Hv2]|(p2 & x2 & Hg2 & Hl2 & Hv2 & Hst2)];
    destruct (probe_value s3 a3 e HI3 Hs3)
      as [[Hg3 Hv3]|(p3 & x3 & Hg3 & Hl3 & Hv3 & Hst3)];
    destruct (probe_value s4 a4 e HI4 Hs4)
      as [[Hg4 Hv4]|(p4 & x4 & Hg4 & Hl4 & Hv4 & Hst4)];
    destruct (probe_value s5 a5 e HI5 Hs5)
      as [[Hg5 Hv5]|(p5 & x5 & Hg5 & Hl5 & Hv5 & Hst5)];
    query_rw Hg2; query_rw Hg3; query_rw Hg4; query_rw Hg5; try query_skip.
    query_rw HgD. query_rw Hl1. query_rw Hl2. query_rw Hl3. query_rw Hl4. query_rw Hl5.
    rewrite Hv1, Hv2, Hv3, Hv4, Hv5. cbn [all5 visitor5].
    destruct (func e x1 x2 x3 x4 x5 stj) as [[[[[y1 y2] y3] y4] y5] st1] eqn:Ef.
    destruct (Hst1 y1) as (b1 & Es1 & Hsh1 & Hy1 & Ho1). query_rw Es1.
    destruct (Hst2 y2) as (b2 & Es2 & Hsh2 & Hy2 & Ho2). query_rw Es2.
    destruct (Hst3 y3) as (b3 & Es3 & Hsh3 & Hy3 & Ho3). query_rw Es3.
    destruct (Hst4 y4) as (b4 & Es4 & Hsh4 & Hy4 & Ho4). query_rw Es4.
    destruct (Hst5 y5) as (b5 & Es5 & Hsh5 & Hy5 & Ho5). query_rw Es5.
    eexists _, _, _. split; [reflexivity|]. cbv beta iota zeta.
    split; [auto 10|].
    split; [intros e2 Hne; rewrite Ho1, Ho2, Ho3, Ho4, Ho5 by exact Hne; reflexivity|].
    rewrite Hy1, Hy2, Hy3, Hy4, Hy5. cbn [fst snd all5]. split_and!; try reflexivity.
    rewrite visits_snoc_Visit, visits_app. f_equal. apply app_nil_r.
  - exists a1, a2, a3, a4, a5, st', tr. split; [exact E|].
    eapply visited_with_intro; eassumption.
Qed.

Lemma Query6_calls (s1 : SparseSet T1) (s2 : SparseSet T2) (s3 : SparseSet T3) (s4 : SparseSet T4) (s5 : SparseSet T5) (s6 : SparseSet T6)
    (func : Entity -> T1 -> T2 -> T3 -> T4 -> T5 -> T6 -> St -> T1 * T2 * T3 * T4 * T5 * T6 * St)
    (st : St) :
  Inv s1 -> Inv s2 -> Inv s3 -> Inv s4 -> Inv s5 -> Inv s6 ->
  exists s1' s2' s3' s4' s5' s6' st' tr,
    Query6 s1 s2 s3 s4 s5 s6 func st
    = Ok (s1', s2', s3', s4', s5', s6', st', tr) /\
    visited_with (visitor6 func) all6
      (fun e => (value s1 e, value s2 e, value s3 e, value s4 e, value s5 e, value s6 e))
      (fun e => (value s1' e, value s2' e, value s3' e, value s4' e, value s5' e, value s6' e))
      (visits tr) st st'.
Proof.
  intros HI1 HI2 HI3 HI4 HI5 HI6. unfold Query6, Count.
  match goal with |- context [for_range 0 (count s1) ?body ?init] =>
    destruct (join_loop
      (fun '(a1, a2, a3, a4, a5, a6) =>
         same_shape s1 a1 /\ same_shape s2 a2 /\ same_shape s3 a3 /\ same_shape s4 a4 /\ same_shape s5 a5 /\ same_shape s6 a6)
      (fun '(a1, a2, a3, a4, a5, a6) e => (value a1 e, value a2 e, value a3 e, value a4 e, value a5 e, value a6 e))
      all6 (visitor6 func) body (entities s1) (count s1) (s1, s2, s3, s4, s5, s6) st)
      as ([[[[[a1 a2] a3] a4] a5] a6] & st' & tr & ys & E & _ & Htr & Hrun & Hall & Hfr)
  end.
  - symmetry. apply entities_length. exact HI1.
  - apply entities_NoDup. exact HI1.
  - split_and!; apply same_shape_refl.
  - intros j [[[[[a1 a2] a3] a4] a5] a6] stj tr e (Hs1 & Hs2 & Hs3 & Hs4 & Hs5 & Hs6) Hj He.
    destruct (drive_entity s1 a1 j e HI1 Hs1 Hj He)
      as (x1 & HgE & HgD & Hl1 & Hv1 & Hst1).
    unfold mbind, run_bind. cbv beta iota zeta. query_rw HgE.
    destruct (probe_value s2 a2 e HI2 Hs2)
      as [[Hg2 Hv2]|(p2 & x2 & Hg2 & Hl2 & Hv2 & Hst2)];
    destruct (probe_value s3 a3 e HI3 Hs3)
      as [[Hg3 Hv3]|(p3 & x3 & Hg3 & Hl3 & Hv3 & Hst3)];
    destruct (probe_value s4 a4 e HI4 Hs4)
      as [[Hg4 Hv4]|(p4 & x4 & Hg4 & Hl4 & Hv4 & Hst4)];
    destruct (probe_value s5 a5 e HI5 Hs5)
      as [[Hg5 Hv5]|(p5 & x5 & Hg5 & Hl5 & Hv5 & Hst5)];
    destruct (probe_value s6 a6 e HI6 Hs6)
      as [[Hg6 Hv6]|(p6 & x6 & Hg6 & Hl6 & Hv6 & Hst6)];
    query_rw Hg2; query_rw Hg3; query_rw Hg4; query_rw Hg5; query_rw Hg6; try query_skip.
    query_rw HgD. query_rw Hl1. query_rw Hl2. query_rw Hl3. query_rw Hl4. query_rw Hl5. query_rw Hl6.
    rewrite Hv1, Hv2, Hv3, Hv4, Hv5, Hv6. cbn [all6 visitor6].
    destruct (func e x1 x2 x3 x4 x5 x6 stj) as [[[[[[y1 y2] y3] y4] y5] y6] st1] eqn:Ef.
    destruct (Hst1 y1) as (b1 & Es1 & Hsh1 & Hy1 & Ho1). query_rw Es1.
    destruct (Hst2 y2) as (b2 & Es2 & Hsh2 & Hy2 & Ho2). query_rw Es2.
    destruct (Hst3 y3) as (b3 & Es3 & Hsh3 & Hy3 & Ho3). query_rw Es3.
    destruct (Hst4 y4) as (b4 & Es4 & Hsh4 & Hy4 & Ho4). query_rw Es4.
    destruct (Hst5 y5) as (b5 & Es5 & Hsh5 & Hy5 & Ho5). query_rw Es5.
    destruct (Hst6 y6) as (b6 & Es6 & Hsh6 & Hy6 & Ho6). query_rw Es6.
    eexists _, _, _. split; [reflexivity|]. cbv beta iota zeta.
    split; [auto 10|].
    split; [intros e2 Hne; rewrite Ho1, Ho2, Ho3, Ho4, Ho5, Ho6 by exact Hne; reflexivity|].
    rewrite Hy1, Hy2, Hy3, Hy4, Hy5, Hy6. cbn [fst snd all6]. split_and!; try reflexivity.
    rewrite visits_snoc_Visit, visits_app. f_equal. apply app_nil_r.
  - exists a1, a2, a3, a4, a5, a6, st', tr. split; [exact E|].
    eapply visited_with_intro; eassumption.
Qed.

Lemma Query2_calls (s1 : SparseSet T1) (s2 : SparseSet T2)
    (func : Entity -> T1 -> T2 -> St -> T1 * T2 * St) (st : St) :
  Inv s1 -> Inv s2 ->
  exists s1' s2' st' tr,
    Query2 s1 s2 func st = Ok (s1', s2', st', tr) /\
    visited_with (visitor2 func) all2
      (fun e => (value s1 e, value s2 e))
      (fun e => (value s1' e, value s2' e))
      (visits tr) st st'.
Proof.
  intros HI1 HI2. unfold Query2, Count.
  destruct (decide (count s1 <= count s2)) as [Hle|Hgt].
  - match goal with |- context [for_range 0 (count s1) ?body ?init] =>
      destruct (join_loop
        (fun '(a1, a2) => same_shape s1 a1 /\ same_shape s2 a2)
        (fun '(a1, a2) e => (value a1 e, value a2 e))
        all2 (visitor2 func) body (entities s1) (count s1) (s1, s2) st)
        as ([a1 a2] & st' & tr & ys & E & _ & Htr & Hrun & Hall & Hfr)
    end.
    + symmetry. apply entities_length. exact HI1.
    + apply entities_NoDup. exact HI1.
    + split_and!; apply same_shape_refl.
    + intros j [a1 a2] stj tr e (Hs1 & Hs2) Hj He.
      destruct (drive_entity s1 a1 j e HI1 Hs1 Hj He)
        as (x1 & HgE & HgD & Hl1 & Hv1 & Hst1).
      unfold mbind, run_bind. cbv beta iota zeta. query_rw HgE.
      destruct (probe_value s2 a2 e HI2 Hs2)
        as [[Hg2 Hv2]|(p2 & x2 & Hg2 & Hl2 & Hv2 & Hst2)];
      query_rw Hg2; try query_skip.
      query_rw HgD. query_rw Hl1. query_rw Hl2.
      rewrite Hv1, Hv2. cbn [all2 visitor2].
      destruct (func e x1 x2 stj) as [[y1 y2] st1] eqn:Ef.
      destruct (Hst1 y1) as (b1 & Es1 & Hsh1 & Hy1 & Ho1). query_rw Es1.
      destruct (Hst2 y2) as (b2 & Es2 & Hsh2 & Hy2 & Ho2). query_rw Es2.
      eexists _, _, _. split; [reflexivity|]. cbv beta iota zeta.
      split; [auto|].
      split; [intros e2 Hne; rewrite Ho1, Ho2 by exact Hne; reflexivity|].
      rewrite Hy1, Hy2. cbn [fst snd all2]. split_and!; try reflexivity.
      rewrite visits_snoc_Visit, visits_app. f_equal. apply app_nil_r.
    + exists a1, a2, st', tr. split; [exact E|].
      eapply visited_with_intro; eassumption.
  - match goal with |- context [for_range 0 (count s2) ?body ?init] =>
      destruct (join_loop
        (fun '(a1, a2) => same_shape s1 a1 /\ same_shape s2 a2)
        (fun '(a1, a2) e => (value a1 e, value a2 e))
        all2 (visitor2 func) body (entities s2) (count s2) (s1, s2) st)
        as ([a1 a2] & st' & tr & ys & E & _ & Htr & Hrun & Hall & Hfr)
    end.
    + symmetry. apply entities_length. exact HI2.
    + apply entities_NoDup. exact HI2.
    + split_and!; apply same_shape_refl.
    + intros j [a1 a2] stj tr e (Hs1 & Hs2) Hj He.
      destruct (drive_entity s2 a2 j e HI2 Hs2 Hj He)
        as (x2 & HgE & HgD & Hl2 & Hv2 & Hst2).
      unfold mbind, run_bind. cbv beta iota zeta. query_rw HgE.
      destruct (probe_value s1 a1 e HI1 Hs1)
        as [[Hg1 Hv1]|(p1 & x1 & Hg1 & Hl1 & Hv1 & Hst1)];
      query_rw Hg1; try query_skip.
      query_rw HgD. query_rw Hl1. query_rw Hl2.
      rewrite Hv1, Hv2. cbn [all2 visitor2].
      destruct (func e x1 x2 stj) as [[y1 y2] st1] eqn:Ef.
      destruct (Hst1 y1) as (b1 & Es1 & Hsh1 & Hy1 & Ho1). query_rw Es1.
      destruct (Hst2 y2) as (b2 & Es2 & Hsh2 & Hy2 & Ho2). query_rw Es2.
      eexists _, _, _. split; [reflexivity|]. cbv beta iota zeta.
      split; [auto|].
      split; [intros e2 Hne; rewrite Ho1, Ho2 by exact Hne; reflexivity|].
      rewrite Hy1, Hy2. cbn [fst snd all2]. split_and!; try reflexivity.
      rewrite visits_snoc_Visit, visits_app. f_equal. apply app_nil_r.
    + exists a1, a2, st', tr. split; [exact E|].
      eapply visited_with_intro; eassumption.
Qed.

Lemma Query1_calls (s1 : SparseSet T1) (func : Entity -> T1 -> St -> T1 * St)
    (st : St) :
  Inv s1 ->
  exists s1' st' tr,
    Query1 s1 func st = Ok (s1', st', tr) /\
    visited_with func id (value s1) (value s1') (visits tr) st st'.
Proof.
  intros HI1. unfold Query1, Count.
  match goal with |- context [for_range 0 (count s1) ?body ?init] =>
    destruct (join_loop (fun a1 => same_shape s1 a1) (fun a1 e => value a1 e)
                id func body (entities s1) (count s1) s1 st)
      as (a1 & st' & tr & ys & E & _ & Htr & Hrun & Hall & Hfr)
  end.
  - symmetry. apply entities_length. exact HI1.
  - apply entities_NoDup. exact HI1.
  - apply same_shape_refl.
  - intros j a1 stj tr e Hs1 Hj He.
    destruct (drive_entity s1 a1 j e HI1 Hs1 Hj He)
      as (x1 & HgE & HgD & Hl1 & Hv1 & Hst1).
    unfold mbind, run_bind. cbv beta iota zeta. query_rw HgE.
    query_rw HgD. query_rw Hl1. rewrite Hv1. cbn [id].
    destruct (func e x1 stj) as [y1 st1] eqn:Ef.
    destruct (Hst1 y1) as (b1 & Es1 & Hsh1 & Hy1 & Ho1). query_rw Es1.
    eexists _, _, _. split; [reflexivity|]. split; [exact Hsh1|].
    split; [exact Ho1|]. rewrite Hy1. cbn [fst snd].
    split_and!; try reflexivity. apply visits_snoc_Visit.
  - exists a1, st', tr. split; [exact E|].
    eapply visited_with_intro; eassumption.
Qed.

End QueryCalls.

(** The kinds at two different places of a duplicate-free list differ. *)
Lemma NoDup_ne (ks : list Kind) (i j : nat) (k k' : Kind) :
  NoDup ks -> ks !! i = Some k -> ks !! j = Some k' -> i <> j -> k <> k'.
Proof.
  intros Hnd Hi Hj Hne ->. apply Hne. exact (NoDup_lookup _ _ _ _ Hnd Hi Hj).
Qed.

Ltac kinds_ne Hnd i j :=
  apply (NoDup_ne _ i j _ _ Hnd eq_refl eq_refl); discriminate.

Section WorldCalls.
Context {Transform Sprite Animation Physics Collider CollisionState Player : Type}.
Context `{Inhabited Transform} `{Inhabited Sprite} `{Inhabited Animation}
        `{Inhabited Physics} `{Inhabited Collider} `{Inhabited CollisionState}
        `{Inhabited Player}.
Context {St : Type}.
Implicit Types (w : @World Transform Sprite Animation Physics Collider
                           CollisionState Player).

Lemma World_Query1_calls (k1 : Kind)
    (func : Entity -> Comp k1 -> St -> Comp k1 * St) w (st : St) :
  World_reachable w ->
  exists w' st' tr,
    World_Query1 k1 func w st = Ok (w', st', tr) /\
    visited_with func id (value (GetSparseSet k1 w))
      (value (GetSparseSet k1 w')) (visits tr) st st'.
Proof.
  intros Hw.
  destruct (Query1_calls (GetSparseSet k1 w) func st (World_Inv w k1 Hw))
    as (s1' & st' & tr & E & Hv).
  unfold World_Query1. rewrite E. unfold mbind, run_bind. cbv beta iota zeta.
  eexists _, _, _. split; [reflexivity|]. rewrite Get_Put_same. exact Hv.
Qed.

Lemma World_Query2_calls (k1 k2 : Kind)
    (func : Entity -> Comp k1 -> Comp k2 -> St -> Comp k1 * Comp k2 * St)
    w (st : St) :
  World_reachable w -> k1 <> k2 ->
  exists w' st' tr,
    World_Query2 k1 k2 func w st = Ok (w', st', tr) /\
    visited_with (visitor2 func) all2 (values2 k1 k2 w) (values2 k1 k2 w')
      (visits tr) st st'.
Proof.
  intros Hw Hne.
  destruct (Query2_calls (GetSparseSet k1 w) (GetSparseSet k2 w) func st
              (World_Inv w k1 Hw) (World_Inv w k2 Hw))
    as (s1' & s2' & st' & tr & E & Hv).
  unfold World_Query2. rewrite E. unfold mbind, run_bind. cbv beta iota zeta.
  eexists _, _, _. split; [reflexivity|]. unfold values2.
  rewrite Get_Put_same, (Get_Put_other k2 k1) by exact Hne.
  rewrite Get_Put_same. exact Hv.
Qed.

Lemma World_Query3_calls (k1 k2 k3 : Kind)
    (func : Entity -> Comp k1 -> Comp k2 -> Comp k3 -> St ->
            Comp k1 * Comp k2 * Comp k3 * St)
    w (st : St) :
  World_reachable w -> NoDup [k1; k2; k3] ->
  exists w' st' tr,
    World_Query3 k1 k2 k3 func w st = Ok (w', st', tr) /\
    visited_with (visitor3 func) all3 (values3 k1 k2 k3 w)
      (values3 k1 k2 k3 w') (visits tr) st st'.
Proof.
  intros Hw Hnd.
  assert (H12 : k1 <> k2) by kinds_ne Hnd 0%nat 1%nat.
  assert (H13 : k1 <> k3) by kinds_ne Hnd 0%nat 2%nat.
  assert (H23 : k2 <> k3) by kinds_ne Hnd 1%nat 2%nat.
  destruct (Query3_calls (GetSparseSet k1 w) (GetSparseSet k2 w)
              (GetSparseSet k3 w) func st
              (World_Inv w k1 Hw) (World_Inv w k2 Hw) (World_Inv w k3 Hw))
    as (s1' & s2' & s3' & st' & tr & E & Hv).
  unfold World_Query3. rewrite E. unfold mbind, run_bind. cbv beta iota zeta.
  eexists _, _, _. split; [reflexivity|]. unfold values3.
  rewrite !Get_Put_same.
  rewrite (Get_Put_other k3 k2), (Get_Put_other k3 k1) by assumption.
  rewrite !Get_Put_same.
  rewrite (Get_Put_other k2 k1) by assumption.
  rewrite !Get_Put_same. exact Hv.
Qed.

Lemma World_Query4_calls (k1 k2 k3 k4 : Kind)
    (func : Entity -> Comp k1 -> Comp k2 -> Comp k3 -> Comp k4 -> St ->
            Comp k1 * Comp k2 * Comp k3 * Comp k4 * St)
    w (st : St) :
  World_reachable w -> NoDup [k1; k2; k3; k4] ->
  exists w' st' tr,
    World_Query4 k1 k2 k3 k4 func w st = Ok (w', st', tr) /\
    visited_with (visitor4 func) all4 (values4 k1 k2 k3 k4 w)
      (values4 k1 k2 k3 k4 w') (visits tr) st st'.
Proof.
  intros Hw Hnd.
  assert (H12 : k1 <> k2) by kinds_ne Hnd 0%nat 1%nat.
  assert (H13 : k1 <> k3) by kinds_ne Hnd 0%nat 2%nat.
  assert (H14 : k1 <> k4) by kinds_ne Hnd 0%nat 3%nat.
  assert (H23 : k2 <> k3) by kinds_ne Hnd 1%nat 2%nat.
  assert (H24 : k2 <> k4) by kinds_ne Hnd 1%nat 3%nat.
  assert (H34 : k3 <> k4) by kinds_ne Hnd 2%nat 3%nat.
  destruct (Query4_calls (GetSparseSet k1 w) (GetSparseSet k2 w) (GetSparseSet k3 w) (GetSparseSet k4 w) func st
              (World_Inv w k1 Hw) (World_Inv w k2 Hw) (World_Inv w k3 Hw) (World_Inv w k4 Hw))
    as (s1' & s2' & s3' & s4' & st' & tr & E & Hv).
  unfold World_Query4. rewrite E. unfold mbind, run_bind. cbv beta iota zeta.
  eexists _, _, _. split; [reflexivity|]. unfold values4.
  repeat first [rewrite Get_Put_same | rewrite Get_Put_other by assumption].
  exact Hv.
Qed.

Lemma World_Query5_calls (k1 k2 k3 k4 k5 : Kind)
    (func : Entity -> Comp k1 -> Comp k2 -> Comp k3 -> Comp k4 -> Comp k5 -> St ->
            Comp k1 * Comp k2 * Comp k3 * Comp k4 * Comp k5 * St)
    w (st : St) :
  World_reachable w -> NoDup [k1; k2; k3; k4; k5] ->
  exists w' st' tr,
    World_Query5 k1 k2 k3 k4 k5 func w st = Ok (w', st', tr) /\
    visited_with (visitor5 func) all5 (values5 k1 k2 k3 k4 k5 w)
      (values5 k1 k2 k3 k4 k5 w') (visits tr) st st'.
Proof.
  intros Hw Hnd.
  assert (H12 : k1 <> k2) by kinds_ne Hnd 0%nat 1%nat.
  assert (H13 : k1 <> k3) by kinds_ne Hnd 0%nat 2%nat.
  assert (H14 : k1 <> k4) by kinds_ne Hnd 0%nat 3%nat.
  assert (H15 : k1 <> k5) by kinds_ne Hnd 0%nat 4%nat.
  assert (H23 : k2 <> k3) by kinds_ne Hnd 1%nat 2%nat.
  assert (H24 : k2 <> k4) by kinds_ne Hnd 1%nat 3%nat.
  assert (H25 : k2 <> k5) by kinds_ne Hnd 1%nat 4%nat.
  assert (H34 : k3 <> k4) by kinds_ne Hnd 2%nat 3%nat.
  assert (H35 : k3 <> k5) by kinds_ne Hnd 2%nat 4%nat.
  assert (H45 : k4 <> k5) by kinds_ne Hnd 3%nat 4%nat.
  destruct (Query5_calls (GetSparseSet k1 w) (GetSparseSet k2 w) (GetSparseSet k3 w) (GetSparseSet k4 w) (GetSparseSet k5 w) func st
              (World_Inv w k1 Hw) (World_Inv w k2 Hw) (World_Inv w k3 Hw) (World_Inv w k4 Hw) (World_Inv w k5 Hw))
    as (s1' & s2' & s3' & s4' & s5' & st' & tr & E & Hv).
  unfold World_Query5. rewrite E. unfold mbind, run_bind. cbv beta iota zeta.
  eexists _, _, _. split; [reflexivity|]. unfold values5.
  repeat first [rewrite Get_Put_same | rewrite Get_Put_other by assumption].
  exact Hv.
Qed.

Lemma World_Query6_calls (k1 k2 k3 k4 k5 k6 : Kind)
    (func : Entity -> Comp k1 -> Comp k2 -> Comp k3 -> Comp k4 -> Comp k5 -> Comp k6 -> St ->
            Comp k1 * Comp k2 * Comp k3 * Comp k4 * Comp k5 * Comp k6 * St)
    w (st : St) :
  World_reachable w -> NoDup [k1; k2; k3; k4; k5; k6] ->
  exists w' st' tr,
    World_Query6 k1 k2 k3 k4 k5 k6 func w st = Ok (w', st', tr) /\
    visited_with (visitor6 func) all6 (values6 k1 k2 k3 k4 k5 k6 w)
      (values6 k1 k2 k3 k4 k5 k6 w') (visits tr) st st'.
Proof.
  intros Hw Hnd.
  assert (H12 : k1 <> k2) by kinds_ne Hnd 0%nat 1%nat.
  assert (H13 : k1 <> k3) by kinds_ne Hnd 0%nat 2%nat.
  assert (H14 : k1 <> k4) by kinds_ne Hnd 0%nat 3%nat.
  assert (H15 : k1 <> k5) by kinds_ne Hnd 0%nat 4%nat.
  assert (H16 : k1 <> k6) by kinds_ne Hnd 0%nat 5%nat.
  assert (H23 : k2 <> k3) by kinds_ne Hnd 1%nat 2%nat.
  assert (H24 : k2 <> k4) by kinds_ne Hnd 1%nat 3%nat.
  assert (H25 : k2 <> k5) by kinds_ne Hnd 1%nat 4%nat.
  assert (H26 : k2 <> k6) by kinds_ne Hnd 1%nat 5%nat.
  assert (H34 : k3 <> k4) by kinds_ne Hnd 2%nat 3%nat.
  assert (H35 : k3 <> k5) by kinds_ne Hnd 2%nat 4%nat.
  assert (H36 : k3 <> k6) by kinds_ne Hnd 2%nat 5%nat.
  assert (H45 : k4 <> k5) by kinds_ne Hnd 3%nat 4%nat.
  assert (H46 : k4 <> k6) by kinds_ne Hnd 3%nat 5%nat.
  assert (H56 : k5 <> k6) by kinds_ne Hnd 4%nat 5%nat.
  destruct (Query6_calls (GetSparseSet k1 w) (GetSparseSet k2 w) (GetSparseSet k3 w) (GetSparseSet k4 w) (GetSparseSet k5 w) (GetSparseSet k6 w) func st
              (World_Inv w k1 Hw) (World_Inv w k2 Hw) (World_Inv w k3 Hw) (World_Inv w k4 Hw) (World_Inv w k5 Hw) (World_Inv w k6 Hw))
    as (s1' & s2' & s3' & s4' & s5' & s6' & st' & tr & E & Hv).
  unfold World_Query6. rewrite E. unfold mbind, run_bind. cbv beta iota zeta.
  eexists _, _, _. split; [reflexivity|]. unfold values6.
  repeat first [rewrite Get_Put_same | rewrite Get_Put_other by assumption].
  exact Hv.
Qed.

End WorldCalls.

(** * The specification's claims about the storage *)

Lemma reachable_after_Add {T : Type} `{Inhabited T} (s : SparseSet T)
    (e : Entity) (v : T) :
  reachable s -> reachable (after (Add s e v)).
Proof.
  intros Hr. destruct (Add_Inv s e v (reachable_Inv s Hr)) as (s' & E & _).
  rewrite E. simpl. eapply reach_Add; eassumption.
Qed.

Lemma reachable_sample : reachable sample_set.
Proof.
  unfold sample_set. do 3 apply reachable_after_Add. apply reachable_empty.
Qed.

(** The specification's swap-removal example: with 5, 3, 9 inserted in
    this order, removing 3 moves 9 into its slot. *)
Example swap_removal_example :
  entities (after (Remove sample_set 3%N)) = [5%N; 9%N] /\
  Has (after (Remove sample_set 3%N)) 3%N = Ok false /\
  GetValue (after (Remove sample_set 3%N)) 5%N = Ok (Some 50) /\
  GetValue (after (Remove sample_set 3%N)) 9%N = Ok (Some 90) /\
  Count (after (Remove sample_set 3%N)) = 2.
Proof. split_and!; vm_compute; reflexivity. Qed.

(** C2. On every storage reached from the constructor by [Add], [Remove],
    [Clear] (and writes through references): every entity [e] whose
    [sparse[e]] is not [INVALID_INDEX] has [sparse[e] < count] and
    [dense[sparse[e]] = e]; every index [i < count] has
    [sparse[dense[i]] = i]; and [count <= capacity].  Moreover [Add],
    [Remove] and [Clear] return normally from such a storage, so the
    reachable storages are exactly what the operations produce. *)
Theorem C2_storage_invariant {T : Type} `{Inhabited T} (s : SparseSet T) :
  reachable s ->
  (forall (e : Entity) (idx : N),
      aget (sparse s) (Z.of_N e) = Ok idx -> idx <> INVALID_INDEX ->
      Z.of_N idx < count s /\ aget (dense s) (Z.of_N idx) = Ok e) /\
  (forall i : Z, 0 <= i < count s ->
      exists e : Entity, aget (dense s) i = Ok e /\
                         aget (sparse s) (Z.of_N e) = Ok (Z.to_N i)) /\
  count s <= capacity s /\
  (forall e v, exists s', Add s e v = Ok s') /\
  (forall e, exists s', Remove s e = Ok s') /\
  (exists s', Clear s = Ok s').
Proof.
  intros Hr. pose proof (reachable_Inv s Hr) as HI. split_and!.
  - apply (inv_sparse s HI).
  - intros i Hi.
    destruct (aget_in_range (dense s) i) as [e He].
    { pose proof (inv_count s HI). pose proof (inv_dense_len s HI). lia. }
    exists e. split; [exact He|]. apply (inv_dense s HI); assumption.
  - apply (inv_count s HI).
  - intros e v. destruct (Add_Inv s e v HI) as (s' & E & _). eauto.
  - intros e. destruct (Remove_Inv s e HI) as (s' & E & _). eauto.
  - destruct (Clear_Ok s HI) as (s' & E & _). eauto.
Qed.

Lemma C2_storage_invariant_witness :
  (forall (e : Entity) (idx : N),
      aget (sparse sample_set) (Z.of_N e) = Ok idx -> idx <> INVALID_INDEX ->
      Z.of_N idx < count sample_set /\
      aget (dense sample_set) (Z.of_N idx) = Ok e) /\
  (forall i : Z, 0 <= i < count sample_set ->
      exists e : Entity, aget (dense sample_set) i = Ok e /\
                         aget (sparse sample_set) (Z.of_N e) = Ok (Z.to_N i)) /\
  count sample_set <= capacity sample_set /\
  (forall e v, exists s', Add sample_set e v = Ok s') /\
  (forall e, exists s', Remove sample_set e = Ok s') /\
  (exists s', Clear sample_set = Ok s').
Proof. apply (C2_storage_invariant sample_set). apply reachable_sample. Defined.




(** C8. Removal isolation: on a reachable storage [Remove(e)] returns
    normally; afterwards [Has(e)] is false, and every other entity [e2]
    that was present is still present and [Get(e2)] points at the same
    component value as before. *)
Theorem C8_removal_isolation {T : Type} `{Inhabited T} (s : SparseSet T)
    (e : Entity) :
  reachable s ->
  exists s', Remove s e = Ok s' /\
             Has s' e = Ok false /\
             forall e2, e2 <> e -> Has s e2 = Ok true ->
                        Has s' e2 = Ok true /\
                        (exists x, GetValue s e2 = Ok (Some x) /\
                                   GetValue s' e2 = Ok (Some x)).
Proof.
  intros Hr. pose proof (reachable_Inv s Hr) as HI.
  destruct (slot_of_dec s e HI) as [[idx Hsl]|Hno].
  - destruct (Remove_present s e idx HI Hsl)
      as (s' & E & HI' & _ & _ & Hgone & Hkeep & _).
    exists s'. split_and!; [exact E | apply Has_absent; assumption |].
    intros e2 Hne [idx2 Hsl2]%(Has_true_slot s e2 HI).
    destruct (Hkeep e2 idx2 Hne Hsl2) as (idx2' & Hsl2' & Hx).
    split; [eapply Has_present; eassumption|].
    destruct (GetValue_present s e2 idx2 HI Hsl2) as (x & Hx1 & Hg1).
    destruct (GetValue_present s' e2 idx2' HI' Hsl2') as (x' & Hx2 & Hg2).
    exists x. split; [exact Hg1|]. rewrite Hg2. congruence.
  - exists s. split_and!; [apply Remove_absent; assumption
                          | apply Has_absent; assumption |].
    intros e2 _ Hh. split; [exact Hh|].
    destruct (Has_true_slot s e2 HI Hh) as [idx2 Hsl2].
    destruct (GetValue_present s e2 idx2 HI Hsl2) as (x & _ & Hg). eauto.
Qed.

Lemma C8_removal_isolation_witness :
  exists s', Remove sample_set 5%N = Ok s' /\
             Has s' 5%N = Ok false /\
             forall e2, e2 <> 5%N -> Has sample_set e2 = Ok true ->
                        Has s' e2 = Ok true /\
                        (exists x, GetValue sample_set e2 = Ok (Some x) /\
                                   GetValue s' e2 = Ok (Some x)).
Proof. apply (C8_removal_isolation sample_set 5%N). apply reachable_sample. Defined.

(** C10. Overwrite frame: [Add(e, v)] for an entity [e] already present
    in a reachable storage replaces the value at [e]'s position in [data]
    and nothing else: [Count()], the capacity, the index array and the
    dense array are unchanged (so no growth happens and no entity moves),
    [Get(e)] now points at [v], and [Has] and [Get] of every other entity
    answer as before. *)
Theorem C10_overwrite_frame {T : Type} `{Inhabited T} (s : SparseSet T)
    (e : Entity) (v : T) :
  reachable s -> Has s e = Ok true ->
  exists s' p,
    Add s e v = Ok s' /\
    Get s e = Ok (Some p) /\
    data s' = <[Z.to_nat p := v]> (data s) /\
    Count s' = Count s /\ capacity s' = capacity s /\
    sparse s' = sparse s /\ dense s' = dense s /\
    Get s' e = Ok (Some p) /\ GetValue s' e = Ok (Some v) /\
    forall e2, e2 <> e ->
               Has s' e2 = Has s e2 /\ Get s' e2 = Get s e2 /\
               GetValue s' e2 = GetValue s e2.
Proof.
  intros Hr Hh. pose proof (reachable_Inv s Hr) as HI.
  destruct (Has_true_slot s e HI Hh) as [idx Hsl].
  pose proof (Add_present s e idx v HI Hsl) as E.
  destruct (slot_of_inv s e idx HI Hsl) as (Hi & Hd & _).
  pose proof (inv_count s HI) as Hc0. pose proof (inv_data_len s HI) as Hldt.
  set (s' := with_data s (<[Z.to_nat (Z.of_N idx) := v]> (data s))) in *.
  assert (Hshape : same_shape s s').
  { repeat split. simpl. apply length_insert. }
  pose proof (same_shape_Inv s s' Hshape HI) as HI'.
  assert (Hsl' : slot_of s' e idx) by exact Hsl.
  assert (Ex : aset (data s) (Z.of_N idx) v = Ok (data s'))
    by (apply aset_in_range; lia).
  exists s', (Z.of_N idx). split_and!; try reflexivity.
  - exact E.
  - apply Get_present; assumption.
  - apply Get_present; assumption.
  - destruct (GetValue_present s' e idx HI' Hsl') as (x & Hx & ->).
    rewrite (aget_aset_eq _ _ _ _ Ex) in Hx. congruence.
  - intros e2 Hne. split; [apply same_shape_Has; exact Hshape|].
    destruct (slot_of_dec s e2 HI) as [[idx2 Hsl2]|Hno2].
    + assert (Hsl2' : slot_of s' e2 idx2) by exact Hsl2.
      rewrite (Get_present s' e2 idx2 HI' Hsl2'), (Get_present s e2 idx2 HI Hsl2).
      split; [reflexivity|].
      destruct (GetValue_present s e2 idx2 HI Hsl2) as (x & Hx & ->).
      destruct (GetValue_present s' e2 idx2 HI' Hsl2') as (x' & Hx' & ->).
      destruct (slot_of_inv s e2 idx2 HI Hsl2) as (_ & Hd2 & _).
      assert (idx2 <> idx) by (intros ->; congruence).
      rewrite (aget_aset_ne _ _ _ _ _ Ex) in Hx' by lia. congruence.
    + assert (Hno2' : forall idx2, ~ slot_of s' e2 idx2) by exact Hno2.
      rewrite (Get_absent s' e2 HI' Hno2'), (Get_absent s e2 HI Hno2).
      rewrite (GetValue_absent s' e2 HI' Hno2'), (GetValue_absent s e2 HI Hno2).
      auto.
Qed.

Lemma Has_sample_3 : Has sample_set 3%N = Ok true.
Proof. vm_compute. reflexivity. Qed.

Lemma C10_overwrite_frame_witness :
  exists s' p,
    Add sample_set 3%N 31 = Ok s' /\
    Get sample_set 3%N = Ok (Some p) /\
    data s' = <[Z.to_nat p := 31]> (data sample_set) /\
    Count s' = Count sample_set /\ capacity s' = capacity sample_set /\
    sparse s' = sparse sample_set /\ dense s' = dense sample_set /\
    Get s' 3%N = Ok (Some p) /\ GetValue s' 3%N = Ok (Some 31) /\
    forall e2, e2 <> 3%N ->
               Has s' e2 = Has sample_set e2 /\ Get s' e2 = Get sample_set e2 /\
               GetValue s' e2 = GetValue sample_set e2.
Proof.
  apply (C10_overwrite_frame sample_set 3%N 31).
  - apply reachable_sample.
  - apply Has_sample_3.
Defined.

(** C7, as stated, fails for the positional accessors: they index the
    dense arrays unchecked, so on an empty storage (no buffer allocated
    yet) [GetEntity(0)] and [GetData(0)] are accesses outside the array,
    not an absent result. *)
Lemma C7_defensive_counterexample :
  Count (empty_set (T:=Z)) = 0 /\
  GetEntity (empty_set (T:=Z)) 0 = Fault /\
  GetData (empty_set (T:=Z)) 0 = Fault.
Proof. split_and!; reflexivity. Qed.

(** C7, amended. An entity at or beyond [MAX_ENTITIES] makes [Add] and
    [Remove] return with the storage unchanged, [Get] return the null
    pointer and [Has] return false, without any error.  The positional
    accessors do no bounds check of their own: [GetEntity(index)] and
    [GetData(index)] return the entry at [index] exactly when
    [0 <= index < capacity] (also for [index >= count]) and are an access
    outside the array otherwise. *)
Theorem C7_defensive {T : Type} `{Inhabited T} (s : SparseSet T)
    (e : Entity) (v : T) (index : Z) :
  reachable s -> MAX_ENTITIES <= Z.of_N e ->
  Add s e v = Ok s /\ Remove s e = Ok s /\
  Get s e = Ok None /\ GetValue s e = Ok None /\ Has s e = Ok false /\
  (0 <= index < capacity s <-> exists x, GetEntity s index = Ok x) /\
  (0 <= index < capacity s <-> GetData s index = Ok index) /\
  (~ 0 <= index < capacity s <->
   GetEntity s index = Fault /\ GetData s index = Fault).
Proof.
  intros Hr He. pose proof (reachable_Inv s Hr) as HI.
  pose proof (inv_dense_len s HI) as Hld. pose proof (inv_data_len s HI) as Hldt.
  assert (Hget : Get s e = Ok None).
  { unfold Get. rewrite (Has_beyond s e He). reflexivity. }
  assert (HE : 0 <= index < capacity s <-> exists x, GetEntity s index = Ok x).
  { unfold GetEntity. split.
    - intros Hi. apply aget_in_range. lia.
    - intros [x Hx]. apply aget_bounds in Hx. lia. }
  assert (HD : 0 <= index < capacity s <-> GetData s index = Ok index).
  { unfold GetData. split.
    - intros Hi. destruct (aget_in_range (data s) index) as [x ->]; [lia|]. reflexivity.
    - intros Hx. destruct (aget (data s) index) as [x|] eqn:E; [|discriminate].
      apply aget_bounds in E. lia. }
  split_and!.
  - apply Add_beyond. exact He.
  - apply Remove_beyond. exact He.
  - exact Hget.
  - unfold GetValue. rewrite Hget. reflexivity.
  - apply Has_beyond. exact He.
  - exact HE.
  - exact HD.
  - split.
    + intros Hn. split.
      * destruct (GetEntity s index) as [x|] eqn:E; [|reflexivity].
        exfalso. apply Hn, HE. eauto.
      * destruct (GetData s index) as [x|] eqn:E; [|reflexivity].
        exfalso. apply Hn, HD. unfold GetData in *.
        destruct (aget (data s) index); simpl in *; congruence.
    + intros [HfE _] Hi. apply HE in Hi as [x Hx]. congruence.
Qed.

Lemma C7_defensive_witness :
  Add sample_set 10000%N 7 = Ok sample_set /\
  Remove sample_set 10000%N = Ok sample_set /\
  Get sample_set 10000%N = Ok None /\
  GetValue sample_set 10000%N = Ok None /\
  Has sample_set 10000%N = Ok false /\
  (0 <= 64 < capacity sample_set <-> exists x, GetEntity sample_set 64 = Ok x) /\
  (0 <= 64 < capacity sample_set <-> GetData sample_set 64 = Ok 64) /\
  (~ 0 <= 64 < capacity sample_set <->
   GetEntity sample_set 64 = Fault /\ GetData sample_set 64 = Fault).
Proof.
  apply (C7_defensive sample_set 10000%N 7 64).
  - apply reachable_sample.
  - unfold MAX_ENTITIES. lia.
Defined.

(** * The specification's claims about the registry *)

Lemma World_reachable_world0 : World_reachable world0.
Proof. apply World_reachable_fresh. Qed.

Lemma World_reachable_world1 : World_reachable world1.
Proof.
  apply (World_reachable_Put KTransform world0).
  - apply World_reachable_world0.
  - apply reachable_after_Add. apply reachable_empty.
Qed.




(** C9. Destroy-all: on a reachable world [DestroyEntity(e)] returns
    normally; each storage of the resulting world is what [Remove(e)]
    makes of the corresponding storage (the removal is applied to every
    kind, present or not); and afterwards [HasX(e)] is false for every
    kind [X]. *)
Theorem C9_destroy_all
    {Transform Sprite Animation Physics Collider CollisionState Player : Type}
    `{Inhabited Transform} `{Inhabited Sprite} `{Inhabited Animation}
    `{Inhabited Physics} `{Inhabited Collider} `{Inhabited CollisionState}
    `{Inhabited Player}
    (w : @World Transform Sprite Animation Physics Collider CollisionState Player)
    (e : Entity) :
  World_reachable w ->
  exists w', DestroyEntity w e = Ok w' /\
             (forall k, Remove (GetSparseSet k w) e = Ok (GetSparseSet k w')) /\
             nextEntity w' = nextEntity w /\
             World_reachable w' /\
             forall k, HasX k w' e = Ok false.
Proof.
  intros Hw.
  destruct (Remove_gone _ e (reachable_Inv _ (Hw KTransform))) as (s1 & E1 & _ & G1).
  destruct (Remove_gone _ e (reachable_Inv _ (Hw KSprite))) as (s2 & E2 & _ & G2).
  destruct (Remove_gone _ e (reachable_Inv _ (Hw KAnimation))) as (s3 & E3 & _ & G3).
  destruct (Remove_gone _ e (reachable_Inv _ (Hw KPhysics))) as (s4 & E4 & _ & G4).
  destruct (Remove_gone _ e (reachable_Inv _ (Hw KCollider))) as (s5 & E5 & _ & G5).
  destruct (Remove_gone _ e (reachable_Inv _ (Hw KCollisionState))) as (s6 & E6 & _ & G6).
  destruct (Remove_gone _ e (reachable_Inv _ (Hw KPlayer))) as (s7 & E7 & _ & G7).
  cbn [GetSparseSet] in *.
  exists (mkWorld (nextEntity w) s1 s2 s3 s4 s5 s6 s7). split_and!.
  - unfold DestroyEntity.
    apply bind_Ok; exists s1; split; [exact E1|].
    apply bind_Ok; exists s2; split; [exact E2|].
    apply bind_Ok; exists s3; split; [exact E3|].
    apply bind_Ok; exists s4; split; [exact E4|].
    apply bind_Ok; exists s5; split; [exact E5|].
    apply bind_Ok; exists s6; split; [exact E6|].
    apply bind_Ok; exists s7; split; [exact E7|].
    reflexivity.
  - intros k. destruct k; cbn [GetSparseSet transforms sprites animations physics
                               colliders collisionStates players]; assumption.
  - reflexivity.
  - intros k. destruct k; cbn [GetSparseSet transforms sprites animations physics
                               colliders collisionStates players];
      (eapply reach_Remove; [apply (Hw _) | eassumption]).
  - intros k. destruct k; assumption.
Qed.

Lemma C9_destroy_all_witness :
  exists w', DestroyEntity world1 1%N = Ok w' /\
             (forall k, Remove (GetSparseSet k world1) 1%N
                        = Ok (GetSparseSet k w')) /\
             nextEntity w' = nextEntity world1 /\
             World_reachable w' /\
             forall k, HasX k w' 1%N = Ok false.
Proof. apply (C9_destroy_all world1 1%N). apply World_reachable_world1. Defined.

(** C6. The constructor starts the counter at 1.  [CreateEntity] returns
    the counter and increments it while the counter is below
    [MAX_ENTITIES]; once the counter has reached [MAX_ENTITIES] it returns
    the null entity and leaves the world unchanged.  Hence the first
    [MAX_ENTITIES - 1] calls on a new world return pairwise distinct
    non-null entities, and every call after them returns the null
    entity. *)
Theorem C6_create_entity
    {Transform Sprite Animation Physics Collider CollisionState Player : Type}
    `{Inhabited Transform} `{Inhabited Sprite} `{Inhabited Animation}
    `{Inhabited Physics} `{Inhabited Collider} `{Inhabited CollisionState}
    `{Inhabited Player} :
  let World :=
    @World Transform Sprite Animation Physics Collider CollisionState Player in
  (exists w0 : World, World_new = Ok w0 /\ nextEntity w0 = 1%N /\
     let '(es, w') := create_many (Z.to_nat (MAX_ENTITIES - 1)) w0 in
     Z.of_nat (length es) = MAX_ENTITIES - 1 /\
     NoDup es /\ Forall (fun e => e <> NULL_ENTITY) es /\
     forall n : nat,
       create_many n w' = (replicate n NULL_ENTITY, w')) /\
  (forall w : World, Z.of_N (nextEntity w) < MAX_ENTITIES ->
     CreateEntity w = (nextEntity w, set_nextEntity w (nextEntity w + 1)%N)) /\
  (forall w : World, MAX_ENTITIES <= Z.of_N (nextEntity w) ->
     CreateEntity w = (NULL_ENTITY, w)).
Proof.
  intros World. split_and!.
  - exists fresh_world. split; [apply World_new_Ok|]. split; [reflexivity|].
    rewrite create_many_below by (unfold MAX_ENTITIES; cbn [nextEntity fresh_world]; lia).
    split_and!.
    + rewrite length_fmap, length_seq. unfold MAX_ENTITIES. lia.
    + apply NoDup_fmap_2_strong; [|apply NoDup_seq].
      intros x y _ _ Hxy. lia.
    + apply Forall_fmap, Forall_forall. intros i _. simpl.
      unfold NULL_ENTITY. cbn [nextEntity fresh_world]. lia.
    + intros n. apply create_many_exhausted.
      cbn [nextEntity set_nextEntity fresh_world]. unfold MAX_ENTITIES. lia.
  - intros w. apply CreateEntity_below.
  - intros w. apply CreateEntity_exhausted.
Qed.

Lemma C6_create_entity_witness :
  CreateEntity world0 = (1%N, set_nextEntity world0 2%N) /\
  CreateEntity (set_nextEntity world0 10000%N)
  = (NULL_ENTITY, set_nextEntity world0 10000%N).
Proof.
  destruct (C6_create_entity (Transform:=Z) (Sprite:=Z) (Animation:=Z)
              (Physics:=Z) (Collider:=Z) (CollisionState:=Z) (Player:=Z))
    as (_ & Hbelow & Hfull).
  split.
  - apply (Hbelow world0). unfold MAX_ENTITIES. simpl. lia.
  - apply (Hfull (set_nextEntity world0 10000%N)). unfold MAX_ENTITIES. simpl. lia.
Defined.

(** * The specification's claims about the query engine *)

Lemma World_reachable_world2 : World_reachable world2.
Proof.
  apply (World_reachable_Put KPhysics).
  - apply (World_reachable_Put KTransform world0).
    + apply World_reachable_world0.
    + do 3 apply reachable_after_Add. apply reachable_empty.
  - do 3 apply reachable_after_Add. apply reachable_empty.
Qed.

Lemma World_reachable_world3 : World_reachable world3.
Proof.
  apply (World_reachable_Put KPlayer); [|do 2 apply reachable_after_Add;
                                         apply reachable_empty].
  apply (World_reachable_Put KCollider); [|do 2 apply reachable_after_Add;
                                           apply reachable_empty].
  apply (World_reachable_Put KAnimation); [|do 2 apply reachable_after_Add;
                                            apply reachable_empty].
  apply (World_reachable_Put KSprite); [|do 2 apply reachable_after_Add;
                                         apply reachable_empty].
  apply (World_reachable_Put KPhysics); [|do 2 apply reachable_after_Add;
                                          apply reachable_empty].
  apply (World_reachable_Put KTransform world0).
  - apply World_reachable_world0.
  - do 3 apply reachable_after_Add. apply reachable_empty.
Qed.

Lemma six_kinds_NoDup :
  NoDup [KTransform; KPhysics; KSprite; KAnimation; KCollider; KPlayer].
Proof. apply (bool_decide_unpack _). vm_compute. exact I. Qed.

(** The join of the specification's example: [{1,2,3}] with [{2,3,4}]
    visits 2 and 3, whichever kind is named first. *)
Example Query2_example :
  (exists w' st', World_Query2 KTransform KPhysics count2 world2 O
                  = Ok (w', st', [Probe 2 1%N; Probe 2 2%N; Visit 2%N;
                                  Probe 2 3%N; Visit 3%N])) /\
  (exists w' st', World_Query2 KPhysics KTransform count2 world2 O
                  = Ok (w', st', [Probe 2 2%N; Visit 2%N; Probe 2 3%N;
                                  Visit 3%N; Probe 2 4%N])).
Proof.
  split; exists world2, 2%nat; vm_compute; reflexivity.
Qed.

(** C5. A 2-arity query on a reachable world returns normally.  When
    [Count()] of the first kind is at most that of the second, the first
    kind's dense array is walked in order and the second kind is probed
    with [Get]; otherwise the second kind's dense array is walked and the
    first kind is probed.  In both cases the visitor is called exactly
    once for each entity present in both storages and for no other
    entity: the calls are made on the visited entities in the order of
    the walk, each with the two components its entity had and the state
    the call before it left; the state after the query is the one the
    last call left, every visited entity holds what its call returned,
    and every other entity holds what it held. *)
Theorem C5_query2
    {Transform Sprite Animation Physics Collider CollisionState Player : Type}
    `{Inhabited Transform} `{Inhabited Sprite} `{Inhabited Animation}
    `{Inhabited Physics} `{Inhabited Collider} `{Inhabited CollisionState}
    `{Inhabited Player} {St : Type}
    (k1 k2 : Kind)
    (func : Entity -> Comp k1 -> Comp k2 -> St -> Comp k1 * Comp k2 * St)
    (w : @World Transform Sprite Animation Physics Collider CollisionState Player)
    (st : St) :
  World_reachable w -> k1 <> k2 ->
  (Count (GetSparseSet k1 w) <= Count (GetSparseSet k2 w) ->
   driven_by k1 [2]%nat [k2] w (World_Query2 k1 k2 func w st)) /\
  (Count (GetSparseSet k1 w) > Count (GetSparseSet k2 w) ->
   driven_by k2 [1]%nat [k1] w (World_Query2 k1 k2 func w st)) /\
  exists w' st' tr,
    World_Query2 k1 k2 func w st = Ok (w', st', tr) /\
    NoDup (visits tr) /\
    (forall e, e ∈ visits tr <->
               HasX k1 w e = Ok true /\ HasX k2 w e = Ok true) /\
    visited_with (visitor2 func) all2 (values2 k1 k2 w) (values2 k1 k2 w')
      (visits tr) st st'.
Proof.
  intros Hw Hne.
  destruct (World_Query2_driven k1 k2 func w st Hw) as [Hfst Hsnd].
  split; [exact Hfst|]. split; [exact Hsnd|].
  destruct (World_Query2_calls k1 k2 func w st Hw Hne)
    as (w' & st' & tr & E & Hcalls).
  exists w', st', tr. split; [exact E|].
  destruct (decide (Count (GetSparseSet k1 w) <= Count (GetSparseSet k2 w)))
    as [Hle|Hgt].
  - destruct (Hfst Hle) as (w1 & st1 & tr1 & E1 & _ & Hnd & Hin & _).
    rewrite E in E1. injection E1 as <- <- <-.
    split_and!; [exact Hnd | | exact Hcalls].
    intros e. rewrite Hin, (has_all_HasX [k1; k2] w e Hw). split.
    + intros Hall. inversion Hall as [|? ? Hfst1 Hr]; subst.
      inversion Hr; subst. auto.
    + intros [Hfst1 Hsnd2]. repeat constructor; assumption.
  - destruct (Hsnd ltac:(lia)) as (w1 & st1 & tr1 & E1 & _ & Hnd & Hin & _).
    rewrite E in E1. injection E1 as <- <- <-.
    split_and!; [exact Hnd | | exact Hcalls].
    intros e. rewrite Hin, (has_all_HasX [k2; k1] w e Hw). split.
    + intros Hall. inversion Hall as [|? ? Hfst1 Hr]; subst.
      inversion Hr; subst. auto.
    + intros [Hfst1 Hsnd2]. repeat constructor; assumption.
Qed.

Lemma C5_query2_witness :
  ((Count (GetSparseSet KTransform world2) <= Count (GetSparseSet KPhysics world2) ->
    driven_by KTransform [2]%nat [KPhysics] world2
      (World_Query2 KTransform KPhysics bump2 world2 O)) /\
   (Count (GetSparseSet KTransform world2) > Count (GetSparseSet KPhysics world2) ->
    driven_by KPhysics [1]%nat [KTransform] world2
      (World_Query2 KTransform KPhysics bump2 world2 O)) /\
   exists w' st' tr,
     World_Query2 KTransform KPhysics bump2 world2 O = Ok (w', st', tr) /\
     NoDup (visits tr) /\
     (forall e, e ∈ visits tr <->
                HasX KTransform world2 e = Ok true /\
                HasX KPhysics world2 e = Ok true) /\
     visited_with (visitor2 bump2) all2 (values2 KTransform KPhysics world2)
       (values2 KTransform KPhysics w') (visits tr) O st') /\
  ((Count (GetSparseSet KTransform world3) <= Count (GetSparseSet KPhysics world3) ->
    driven_by KTransform [2]%nat [KPhysics] world3
      (World_Query2 KTransform KPhysics bump2 world3 O)) /\
   (Count (GetSparseSet KTransform world3) > Count (GetSparseSet KPhysics world3) ->
    driven_by KPhysics [1]%nat [KTransform] world3
      (World_Query2 KTransform KPhysics bump2 world3 O)) /\
   exists w' st' tr,
     World_Query2 KTransform KPhysics bump2 world3 O = Ok (w', st', tr) /\
     NoDup (visits tr) /\
     (forall e, e ∈ visits tr <->
                HasX KTransform world3 e = Ok true /\
                HasX KPhysics world3 e = Ok true) /\
     visited_with (visitor2 bump2) all2 (values2 KTransform KPhysics world3)
       (values2 KTransform KPhysics w') (visits tr) O st').
Proof.
  split.
  - apply (C5_query2 KTransform KPhysics bump2 world2 O).
    + apply World_reachable_world2.
    + discriminate.
  - apply (C5_query2 KTransform KPhysics bump2 world3 O).
    + apply World_reachable_world3.
    + discriminate.
Defined.

(** C4, as stated, fails on the short circuit: the probes of a query of
    arity 3 are all made before any result is tested.  Entity 1 has a
    [Transform] but no [Sprite]; the query over [Transform], [Sprite],
    [Physics] still probes the third kind for it. *)
Lemma C4_short_circuit_counterexample :
  Get (GetSparseSet KSprite world1) 1%N = Ok None /\
  exists w' st',
    World_Query3 KTransform KSprite KPhysics count3 world1 O
    = Ok (w', st', [Probe 2 1%N; Probe 3 1%N]).
Proof.
  split; [vm_compute; reflexivity|].
  exists world1, O. vm_compute. reflexivity.
Qed.

(** C4, amended. A query of arity 3 to 6 over pairwise distinct kinds on
    a reachable world returns normally; it walks the dense array of the
    first kind in order, whatever the counts of the other kinds; for
    every entity of that array it probes all the other kinds in their
    declared order (every probe is made, also after one that failed);
    and it calls the visitor exactly once for each entity that has all
    the kinds and never for an entity that lacks one of them: the calls
    are made on the visited entities in the order of the walk, each with
    the components its entity had and the state the call before it left;
    the state after the query is the one the last call left, every
    visited entity holds what its call returned, and every other entity
    holds what it held. *)
Theorem C4_query_3_to_6
    {Transform Sprite Animation Physics Collider CollisionState Player : Type}
    `{Inhabited Transform} `{Inhabited Sprite} `{Inhabited Animation}
    `{Inhabited Physics} `{Inhabited Collider} `{Inhabited CollisionState}
    `{Inhabited Player} {St : Type}
    (k1 k2 k3 k4 k5 k6 : Kind)
    (func3 : Entity -> Comp k1 -> Comp k2 -> Comp k3 -> St ->
             Comp k1 * Comp k2 * Comp k3 * St)
    (func4 : Entity -> Comp k1 -> Comp k2 -> Comp k3 -> Comp k4 -> St ->
             Comp k1 * Comp k2 * Comp k3 * Comp k4 * St)
    (func5 : Entity -> Comp k1 -> Comp k2 -> Comp k3 -> Comp k4 -> Comp k5 ->
             St -> Comp k1 * Comp k2 * Comp k3 * Comp k4 * Comp k5 * St)
    (func6 : Entity -> Comp k1 -> Comp k2 -> Comp k3 -> Comp k4 -> Comp k5 ->
             Comp k6 -> St ->
             Comp k1 * Comp k2 * Comp k3 * Comp k4 * Comp k5 * Comp k6 * St)
    (w : @World Transform Sprite Animation Physics Collider CollisionState Player)
    (st : St) :
  World_reachable w -> NoDup [k1; k2; k3; k4; k5; k6] ->
  (driven_by k1 [2; 3]%nat [k2; k3] w
     (World_Query3 k1 k2 k3
        func3 w st) /\
   exists w' st' tr,
     World_Query3 k1 k2 k3
       func3 w st = Ok (w', st', tr) /\
     visited_with (visitor3 func3) all3
       (values3 k1 k2 k3 w)
       (values3 k1 k2 k3 w')
       (visits tr) st st') /\
  (driven_by k1 [2; 3; 4]%nat [k2; k3; k4] w
     (World_Query4 k1 k2 k3 k4
        func4 w st) /\
   exists w' st' tr,
     World_Query4 k1 k2 k3 k4
       func4 w st = Ok (w', st', tr) /\
     visited_with (visitor4 func4) all4
       (values4 k1 k2 k3 k4 w)
       (values4 k1 k2 k3 k4 w')
       (visits tr) st st') /\
  (driven_by k1 [2; 3; 4; 5]%nat [k2; k3; k4; k5] w
     (World_Query5 k1 k2 k3 k4 k5
        func5 w st) /\
   exists w' st' tr,
     World_Query5 k1 k2 k3 k4 k5
       func5 w st = Ok (w', st', tr) /\
     visited_with (visitor5 func5) all5
       (values5 k1 k2 k3 k4 k5 w)
       (values5 k1 k2 k3 k4 k5 w')
       (visits tr) st st') /\
  (driven_by k1 [2; 3; 4; 5; 6]%nat [k2; k3; k4; k5; k6] w
     (World_Query6 k1 k2 k3 k4 k5 k6
        func6 w st) /\
   exists w' st' tr,
     World_Query6 k1 k2 k3 k4 k5 k6
       func6 w st = Ok (w', st', tr) /\
     visited_with (visitor6 func6) all6
       (values6 k1 k2 k3 k4 k5 k6 w)
       (values6 k1 k2 k3 k4 k5 k6 w')
       (visits tr) st st').
Proof.
  intros Hw Hnd.
  assert (Hnd5 : NoDup [k1; k2; k3; k4; k5]).
  { change [k1; k2; k3; k4; k5; k6] with ([k1; k2; k3; k4; k5] ++ [k6]) in Hnd.
    apply list.NoDup_app in Hnd. apply Hnd. }
  assert (Hnd4 : NoDup [k1; k2; k3; k4]).
  { change [k1; k2; k3; k4; k5] with ([k1; k2; k3; k4] ++ [k5]) in Hnd5.
    apply list.NoDup_app in Hnd5. apply Hnd5. }
  assert (Hnd3 : NoDup [k1; k2; k3]).
  { change [k1; k2; k3; k4] with ([k1; k2; k3] ++ [k4]) in Hnd4.
    apply list.NoDup_app in Hnd4. apply Hnd4. }
  split_and!.
  - apply World_Query3_driven. exact Hw.
  - apply World_Query3_calls; assumption.
  - apply World_Query4_driven. exact Hw.
  - apply World_Query4_calls; assumption.
  - apply World_Query5_driven. exact Hw.
  - apply World_Query5_calls; assumption.
  - apply World_Query6_driven. exact Hw.
  - apply World_Query6_calls; assumption.
Qed.

Lemma C4_query_3_to_6_witness :
  (driven_by KTransform [2; 3]%nat [KPhysics; KSprite] world3
     (World_Query3 KTransform KPhysics KSprite
        count3 world3 O) /\
   exists w' st' tr,
     World_Query3 KTransform KPhysics KSprite
       count3 world3 O = Ok (w', st', tr) /\
     visited_with (visitor3 count3) all3
       (values3 KTransform KPhysics KSprite world3)
       (values3 KTransform KPhysics KSprite w')
       (visits tr) O st') /\
  (driven_by KTransform [2; 3; 4]%nat [KPhysics; KSprite; KAnimation] world3
     (World_Query4 KTransform KPhysics KSprite KAnimation
        count4 world3 O) /\
   exists w' st' tr,
     World_Query4 KTransform KPhysics KSprite KAnimation
       count4 world3 O = Ok (w', st', tr) /\
     visited_with (visitor4 count4) all4
       (values4 KTransform KPhysics KSprite KAnimation world3)
       (values4 KTransform KPhysics KSprite KAnimation w')
       (visits tr) O st') /\
  (driven_by KTransform [2; 3; 4; 5]%nat [KPhysics; KSprite; KAnimation; KCollider] world3
     (World_Query5 KTransform KPhysics KSprite KAnimation KCollider
        count5 world3 O) /\
   exists w' st' tr,
     World_Query5 KTransform KPhysics KSprite KAnimation KCollider
       count5 world3 O = Ok (w', st', tr) /\
     visited_with (visitor5 count5) all5
       (values5 KTransform KPhysics KSprite KAnimation KCollider world3)
       (values5 KTransform KPhysics KSprite KAnimation KCollider w')
       (visits tr) O st') /\
  (driven_by KTransform [2; 3; 4; 5; 6]%nat [KPhysics; KSprite; KAnimation; KCollider; KPlayer] world3
     (World_Query6 KTransform KPhysics KSprite KAnimation KCollider KPlayer
        count6 world3 O) /\
   exists w' st' tr,
     World_Query6 KTransform KPhysics KSprite KAnimation KCollider KPlayer
       count6 world3 O = Ok (w', st', tr) /\
     visited_with (visitor6 count6) all6
       (values6 KTransform KPhysics KSprite KAnimation KCollider KPlayer world3)
       (values6 KTransform KPhysics KSprite KAnimation KCollider KPlayer w')
       (visits tr) O st').
Proof.
  apply (C4_query_3_to_6 KTransform KPhysics KSprite KAnimation KCollider
           KPlayer count3 count4 count5 count6 world3 O).
  - apply World_reachable_world3.
  - apply six_kinds_NoDup.
Defined.

(** * Further properties of the storage, read off the code *)




(** Growth policy: [Add] changes the capacity only when it appends a new
    entity to a full storage; the capacity then becomes 64 if it was 0
    and doubles otherwise.  Overwrites, dropped additions and appends
    with room left keep the capacity. *)
Theorem Add_growth_policy {T : Type} `{Inhabited T} (s s' : SparseSet T)
    (e : Entity) (v : T) :
  reachable s -> Add s e v = Ok s' ->
  (Z.of_N e < MAX_ENTITIES /\ Has s e = Ok false /\ Count s = capacity s ->
   capacity s' = (if decide (capacity s = 0) then 64 else capacity s * 2)) /\
  (~ (Z.of_N e < MAX_ENTITIES /\ Has s e = Ok false /\ Count s = capacity s) ->
   capacity s' = capacity s).
Proof.
  intros Hr E. pose proof (reachable_Inv s Hr) as HI. unfold Count.
  destruct (Add_capacity s e v s' HI E) as [[Hsame Hn]|(H1 & H2 & H3 & Hcap)].
  - split; [intros Hfull; contradiction | intros _; exact Hsame].
  - split; [intros _; exact Hcap | intros Hn; exfalso; apply Hn; auto].
Qed.

Lemma Add_growth_policy_witness :
  (Z.of_N 1 < MAX_ENTITIES /\ Has (empty_set (T:=Z)) 1%N = Ok false /\
   Count (empty_set (T:=Z)) = capacity (empty_set (T:=Z)) ->
   capacity (after (Add empty_set 1%N 10))
   = (if decide (capacity (empty_set (T:=Z)) = 0) then 64
      else capacity (empty_set (T:=Z)) * 2)) /\
  (~ (Z.of_N 1 < MAX_ENTITIES /\ Has (empty_set (T:=Z)) 1%N = Ok false /\
      Count (empty_set (T:=Z)) = capacity (empty_set (T:=Z))) ->
   capacity (after (Add empty_set 1%N 10)) = capacity (empty_set (T:=Z))).
Proof.
  apply (Add_growth_policy empty_set (after (Add empty_set 1%N 10)) 1%N 10).
  - apply reachable_empty.
  - vm_compute. reflexivity.
Defined.

(** Resource bounds: a reachable storage never holds more than
    [MAX_ENTITIES] entities, and its capacity is 0 or 64 times a power of
    two and at most 16384, so the [int] counters cannot overflow. *)
Theorem storage_bounds {T : Type} `{Inhabited T} (s : SparseSet T) :
  reachable s ->
  0 <= Count s <= MAX_ENTITIES /\
  Count s <= capacity s <= 16384 /\
  (capacity s = 0 \/ exists k : nat, capacity s = 64 * 2 ^ Z.of_nat k).
Proof.
  intros Hr. pose proof (reachable_Inv s Hr) as HI.
  assert (Hshape : capacity s = 0 \/ exists k : nat, capacity s = 64 * 2 ^ Z.of_nat k).
  { clear HI. induction Hr as [s E | s e v s' Hr IH E | s e s' Hr IH E
                              | s s' Hr IH E | s p x s' Hr IH E].
    - assert (Hs : s = empty_set)
        by (pose proof (SparseSet_new_Ok (T:=T)) as E0; congruence).
      subst s. left. reflexivity.
    - pose proof (reachable_Inv s Hr) as HI.
      destruct (Add_capacity s e v s' HI E) as [[-> _]|(_ & _ & _ & ->)];
        [exact IH|].
      right. destruct (decide (capacity s = 0)) as [_|Hne].
      + exists O. reflexivity.
      + destruct IH as [?|[k Hk]]; [contradiction|].
        exists (Datatypes.S k). rewrite Hk, Nat2Z.inj_succ, Z.pow_succ_r by lia. lia.
    - pose proof (reachable_Inv s Hr) as HI.
      destruct (slot_of_dec s e HI) as [[idx Hsl]|Hno].
      + destruct (Remove_present s e idx HI Hsl) as (s'' & E' & _ & _ & Hcap & _).
        rewrite E' in E. injection E as <-. rewrite Hcap. exact IH.
      + rewrite (Remove_absent s e HI Hno) in E. injection E as <-. exact IH.
    - pose proof (reachable_Inv s Hr) as HI.
      destruct (Clear_Ok s HI) as (s'' & E' & _ & _ & Hcap & _).
      rewrite E' in E. injection E as <-. rewrite Hcap. exact IH.
    - destruct (store_same_shape s p x s' E) as (_ & _ & _ & -> & _). exact IH. }
  pose proof (inv_count s HI) as Hc0. pose proof (Inv_count_le_MAX s HI) as HcM.
  pose proof (inv_capacity s HI) as Hcap. unfold Count.
  split_and!; try lia; [|exact Hshape].
  destruct Hshape as [->|[k Hk]]; [lia|].
  destruct (decide (k <= 8)%nat) as [Hk8|Hk9].
  - assert (2 ^ Z.of_nat k <= 2 ^ 8) by (apply Z.pow_le_mono_r; lia). lia.
  - assert (2 ^ 9 <= 2 ^ Z.of_nat k) by (apply Z.pow_le_mono_r; lia).
    unfold MAX_ENTITIES in Hcap. lia.
Qed.

Lemma storage_bounds_witness :
  0 <= Count sample_set <= MAX_ENTITIES /\
  Count sample_set <= capacity sample_set <= 16384 /\
  (capacity sample_set = 0 \/
   exists k : nat, capacity sample_set = 64 * 2 ^ Z.of_nat k).
Proof. apply (storage_bounds sample_set). apply reachable_sample. Defined.

(** Swap-removal, by position: removing a present entity, whose component
    [Get] finds at position [p], decrements [Count()], keeps the capacity,
    and moves the last dense entry (entity and component) to position
    [p]; every other position below the new count keeps its entry. *)
Theorem Remove_swaps_last {T : Type} `{Inhabited T} (s : SparseSet T)
    (e : Entity) :
  reachable s -> Has s e = Ok true ->
  exists s' p,
    Get s e = Ok (Some p) /\ Remove s e = Ok s' /\
    Count s' = Count s - 1 /\ capacity s' = capacity s /\
    forall i, 0 <= i < Count s - 1 ->
      GetEntity s' i = (if decide (i = p) then GetEntity s (Count s - 1)
                        else GetEntity s i) /\
      load s' i = (if decide (i = p) then load s (Count s - 1) else load s i).
Proof.
  intros Hr Hh. pose proof (reachable_Inv s Hr) as HI.
  destruct (Has_true_slot s e HI Hh) as [idx Hsl].
  destruct (slot_of_inv s e idx HI Hsl) as (Hi & _ & _).
  pose proof (inv_count s HI) as Hc0. pose proof (inv_dense_len s HI) as Hld.
  pose proof (inv_data_len s HI) as Hldt.
  destruct (Remove_run s e idx HI Hsl) as (le & x & Hle & Hx & E).
  eexists. exists (Z.of_N idx). unfold Count, GetEntity, load.
  split_and!; [apply Get_present; assumption | exact E | reflexivity
              | reflexivity |].
  intros i Hi'. cbn [dense data].
  assert (Ed : aset (dense s) (Z.of_N idx) le
               = Ok (<[Z.to_nat (Z.of_N idx) := le]> (dense s)))
    by (apply aset_in_range; lia).
  assert (Ex : aset (data s) (Z.of_N idx) x
               = Ok (<[Z.to_nat (Z.of_N idx) := x]> (data s)))
    by (apply aset_in_range; lia).
  destruct (decide (i = Z.of_N idx)) as [->|Hne].
  - rewrite (aget_aset_eq _ _ _ _ Ed), (aget_aset_eq _ _ _ _ Ex). auto.
  - rewrite (aget_aset_ne _ _ _ _ _ Ed), (aget_aset_ne _ _ _ _ _ Ex) by lia. auto.
Qed.

Lemma Remove_swaps_last_witness :
  exists s' p,
    Get sample_set 3%N = Ok (Some p) /\ Remove sample_set 3%N = Ok s' /\
    Count s' = Count sample_set - 1 /\ capacity s' = capacity sample_set /\
    forall i, 0 <= i < Count sample_set - 1 ->
      GetEntity s' i = (if decide (i = p)
                        then GetEntity sample_set (Count sample_set - 1)
                        else GetEntity sample_set i) /\
      load s' i = (if decide (i = p) then load sample_set (Count sample_set - 1)
                   else load sample_set i).
Proof.
  apply (Remove_swaps_last sample_set 3%N).
  - apply reachable_sample.
  - apply Has_sample_3.
Defined.

(** [Remove] removes exactly [e] and always returns normally.  When [e]
    is present, [Count()] drops by one; when it is absent or out of
    range, the storage is returned unchanged.  Afterwards [e] is absent
    and [Get(e)] is null; every other entity is present if and only if
    it was and [Get] yields the component value it yielded, so the dense
    entries are a rearrangement of the former ones without [e]; and a
    second [Remove(e)] changes nothing. *)
Theorem Remove_exact {T : Type} `{Inhabited T} (s : SparseSet T) (e : Entity) :
  reachable s ->
  exists s', Remove s e = Ok s' /\
             (forall e2, Has s' e2 = Ok true <-> e2 <> e /\ Has s e2 = Ok true) /\
             entities s' ≡ₚ filter (fun e2 => e2 <> e) (entities s) /\
             Remove s' e = Ok s' /\
             Has s' e = Ok false /\ GetValue s' e = Ok None /\
             (forall e2, e2 <> e -> GetValue s' e2 = GetValue s e2) /\
             (Has s e = Ok true -> Count s' = Count s - 1) /\
             (Has s e <> Ok true -> s' = s).
Proof.
  intros Hr. pose proof (reachable_Inv s Hr) as HI.
  destruct (Remove_full s e HI)
    as (s' & E & HI' & Hgone & Hnull & Hfr & Hagain & Hcount).
  assert (Hiff : forall e2, Has s' e2 = Ok true <-> e2 <> e /\ Has s e2 = Ok true).
  { intros e2. destruct (decide (e2 = e)) as [->|Hne].
    - rewrite Hgone. split; [discriminate | intros [Hn _]; contradiction].
    - destruct (Hfr e2 Hne) as [-> _]. tauto. }
  exists s'. split; [exact E|]. split; [exact Hiff|]. split.
  { apply NoDup_Permutation.
    - apply entities_NoDup. exact HI'.
    - apply list.NoDup_filter. apply entities_NoDup. exact HI.
    - intros e2. rewrite list_elem_of_filter.
      rewrite <- (member_entities s' e2 HI'), <- (member_entities s e2 HI).
      rewrite (member_true s' e2 HI'), (member_true s e2 HI). apply Hiff. }
  split; [exact Hagain|]. split; [exact Hgone|]. split; [exact Hnull|].
  split; [intros e2 Hne; apply (Hfr e2 Hne)|]. split.
  - intros Hp. apply (member_true s e HI) in Hp. rewrite Hp in Hcount.
    unfold Count. exact Hcount.
  - intros Hnp.
    assert (Hno : forall idx, ~ slot_of s e idx).
    { intros idx Hsl. apply Hnp. apply (Has_present s e idx HI Hsl). }
    rewrite (Remove_absent s e HI Hno) in E. injection E as <-. reflexivity.
Qed.

Lemma Remove_exact_witness :
  exists s', Remove sample_set 5%N = Ok s' /\
             (forall e2, Has s' e2 = Ok true <->
                         e2 <> 5%N /\ Has sample_set e2 = Ok true) /\
             entities s' ≡ₚ filter (fun e2 => e2 <> 5%N) (entities sample_set) /\
             Remove s' 5%N = Ok s' /\
             Has s' 5%N = Ok false /\ GetValue s' 5%N = Ok None /\
             (forall e2, e2 <> 5%N -> GetValue s' e2 = GetValue sample_set e2) /\
             (Has sample_set 5%N = Ok true ->
              Count s' = Count sample_set - 1) /\
             (Has sample_set 5%N <> Ok true -> s' = sample_set).
Proof. apply (Remove_exact sample_set 5%N). apply reachable_sample. Defined.

(** [Clear] empties the storage and keeps its buffers: it returns
    normally, [Count()] becomes 0, every index entry is invalid again (so
    [Has] is false and [Get] null for every entity), while the capacity
    and the contents of the dense arrays are left as they were. *)
Theorem Clear_empties {T : Type} `{Inhabited T} (s : SparseSet T) :
  reachable s ->
  exists s', Clear s = Ok s' /\
             Count s' = 0 /\ sparse s' = sparse (empty_set (T:=T)) /\
             capacity s' = capacity s /\ dense s' = dense s /\
             data s' = data s /\
             forall e, Has s' e = Ok false /\ Get s' e = Ok None.
Proof.
  intros Hr. pose proof (reachable_Inv s Hr) as HI.
  destruct (Clear_Ok s HI) as (s' & E & HI' & Hc & Hcap & Hno).
  destruct (Clear_buffers s s' E) as [Hd Hx].
  exists s'. unfold Count. split_and!; try assumption.
  - cbn [empty_set sparse]. symmetry. apply replicate_as_Forall. split.
    + pose proof (inv_sparse_len s' HI'). lia.
    + apply Forall_lookup. intros i idx Hi.
      destruct (decide (idx = INVALID_INDEX)) as [->|Hne]; [reflexivity|].
      exfalso. apply (Hno (N.of_nat i) idx). split; [|exact Hne].
      apply aget_Ok. split; [lia|].
      replace (Z.to_nat (Z.of_N (N.of_nat i))) with i by lia. exact Hi.
  - intros e. split; [apply Has_absent | apply Get_absent]; auto.
Qed.

Lemma Clear_empties_witness :
  exists s', Clear sample_set = Ok s' /\
             Count s' = 0 /\ sparse s' = sparse (empty_set (T:=Z)) /\
             capacity s' = capacity sample_set /\ dense s' = dense sample_set /\
             data s' = data sample_set /\
             forall e, Has s' e = Ok false /\ Get s' e = Ok None.
Proof. apply (Clear_empties sample_set). apply reachable_sample. Defined.

(** Iteration by position enumerates the present entities: [Has(e)] is
    true exactly for the entities at the positions below [Count()], no
    entity occurs at two positions, and position [i] is where [Get] of
    the entity found there points, so [GetData(i)] is that entity's
    component. *)
Theorem positions_enumerate {T : Type} `{Inhabited T} (s : SparseSet T) :
  reachable s ->
  (forall e, Has s e = Ok true <->
             exists i, 0 <= i < Count s /\ GetEntity s i = Ok e) /\
  (forall i j e, 0 <= i < Count s -> 0 <= j < Count s ->
                 GetEntity s i = Ok e -> GetEntity s j = Ok e -> i = j) /\
  (forall i, 0 <= i < Count s ->
             exists e x, GetEntity s i = Ok e /\ Get s e = Ok (Some i) /\
                         GetData s i = Ok i /\ load s i = Ok x /\
                         GetValue s e = Ok (Some x)).
Proof.
  intros Hr. pose proof (reachable_Inv s Hr) as HI.
  pose proof (inv_count s HI) as Hc0. pose proof (inv_dense_len s HI) as Hld.
  pose proof (inv_data_len s HI) as Hldt.
  unfold Count, GetEntity. split_and!.
  - intros e. rewrite <- (member_true s e HI), (member_entities s e HI).
    apply entities_elem.
  - intros i j e Hi Hj Hgi Hgj.
    pose proof (inv_dense s HI i e Hi Hgi) as Hsi.
    pose proof (inv_dense s HI j e Hj Hgj) as Hsj.
    rewrite Hsi in Hsj. injection Hsj as Hij. lia.
  - intros i Hi. destruct (aget_in_range (dense s) i) as [e He]; [lia|].
    pose proof (slot_of_dense s e i HI Hi He) as Hsl.
    destruct (GetValue_present s e _ HI Hsl) as (x & Hx & Hg).
    rewrite Z2N.id in Hx by lia.
    exists e, x. split_and!; [exact He | | | exact Hx | exact Hg].
    + rewrite (Get_present s e _ HI Hsl). rewrite Z2N.id by lia. reflexivity.
    + unfold GetData. rewrite Hx. reflexivity.
Qed.

Lemma positions_enumerate_witness :
  (forall e, Has sample_set e = Ok true <->
             exists i, 0 <= i < Count sample_set /\ GetEntity sample_set i = Ok e) /\
  (forall i j e, 0 <= i < Count sample_set -> 0 <= j < Count sample_set ->
                 GetEntity sample_set i = Ok e -> GetEntity sample_set j = Ok e ->
                 i = j) /\
  (forall i, 0 <= i < Count sample_set ->
             exists e x, GetEntity sample_set i = Ok e /\
                         Get sample_set e = Ok (Some i) /\
                         GetData sample_set i = Ok i /\
                         load sample_set i = Ok x /\
                         GetValue sample_set e = Ok (Some x)).
Proof. apply (positions_enumerate sample_set). apply reachable_sample. Defined.

(** Overwriting through [Add] is a write through the reference: when
    [Get(e)] returns a pointer [p], [Add(e, v)] does exactly what storing
    [v] at [p] does. *)
Theorem Add_present_is_store {T : Type} `{Inhabited T} (s : SparseSet T)
    (e : Entity) (p : Z) (v : T) :
  reachable s -> Get s e = Ok (Some p) ->
  Add s e v = store s p v /\ exists s', store s p v = Ok s' /\
                                         GetValue s' e = Ok (Some v).
Proof.
  intros Hr Hg. pose proof (reachable_Inv s Hr) as HI.
  destruct (slot_of_dec s e HI) as [[idx Hsl]|Hno];
    [|rewrite (Get_absent s e HI Hno) in Hg; discriminate].
  rewrite (Get_present s e idx HI Hsl) in Hg. injection Hg as <-.
  destruct (slot_of_inv s e idx HI Hsl) as (Hi & _ & _).
  pose proof (inv_count s HI) as Hc0. pose proof (inv_data_len s HI) as Hldt.
  assert (Est : store s (Z.of_N idx) v
                = Ok (with_data s (<[Z.to_nat (Z.of_N idx) := v]> (data s)))).
  { unfold store. rewrite aset_in_range by lia. reflexivity. }
  split; [rewrite Est; apply Add_present; assumption|].
  eexists. split; [exact Est|].
  assert (HI' : Inv (with_data s (<[Z.to_nat (Z.of_N idx) := v]> (data s)))).
  { apply (same_shape_Inv s); [|exact HI]. repeat split. simpl. apply length_insert. }
  destruct (GetValue_present _ e idx HI' Hsl) as (x & Hx & ->).
  cbn [with_data data] in Hx.
  erewrite aget_aset_eq in Hx by (apply aset_in_range; lia). congruence.
Qed.

Lemma Get_sample_3 : Get sample_set 3%N = Ok (Some 1).
Proof. vm_compute. reflexivity. Qed.

Lemma Add_present_is_store_witness :
  Add sample_set 3%N 33 = store sample_set 1 33 /\
  exists s', store sample_set 1 33 = Ok s' /\ GetValue s' 3%N = Ok (Some 33).
Proof.
  apply (Add_present_is_store sample_set 3%N 1 33).
  - apply reachable_sample.
  - apply Get_sample_3.
Defined.

(** * Further properties of the query engine *)

(** A 1-arity query on a reachable storage calls the visitor once for
    every stored entity, in dense order, hence [Count()] times and never
    more than [MAX_ENTITIES] times; each call receives the entity's
    component and the state the previous call left; what the calls leave
    behind are the components of the storage afterwards, and nothing else
    of the storage changes. *)
Theorem Query1_effect {St T : Type} `{Inhabited T} (s : SparseSet T)
    (func : Entity -> T -> St -> T * St) (st : St) :
  reachable s ->
  exists s' st' tr,
    Query1 s func st = Ok (s', st', tr) /\
    visits tr = entities s /\
    Z.of_nat (length (visits tr)) = Count s /\ Count s <= MAX_ENTITIES /\
    run_visitor1 func (zip (entities s) (components s)) st
    = (components s', st') /\
    entities s' = entities s /\ Count s' = Count s /\
    capacity s' = capacity s /\
    forall e, Has s' e = Has s e /\ Get s' e = Get s e.
Proof.
  intros Hr. pose proof (reachable_Inv s Hr) as HI.
  destruct (Query1_run s func st HI) as (s' & st' & E & Hsh & Hrun & _).
  pose proof (same_shape_Inv s s' Hsh HI) as HI'.
  pose proof (visits_Visit (entities s)) as Hvis.
  exists s', st', (Visit <$> entities s). unfold Count.
  split_and!; try assumption.
  - rewrite Hvis. apply entities_length. exact HI.
  - apply Inv_count_le_MAX. exact HI.
  - destruct Hsh as (_ & Hd & Hc & _). unfold entities. rewrite Hd, Hc. reflexivity.
  - apply Hsh.
  - apply Hsh.
  - intros e. split; [apply same_shape_Has; exact Hsh|].
    destruct Hsh as (Hsp & _).
    destruct (slot_of_dec s e HI) as [[idx Hsl]|Hno].
    + assert (Hsl' : slot_of s' e idx) by (unfold slot_of; rewrite Hsp; exact Hsl).
      rewrite (Get_present s e idx HI Hsl), (Get_present s' e idx HI' Hsl').
      reflexivity.
    + assert (Hno' : forall idx, ~ slot_of s' e idx).
      { intros idx Hsl. apply (Hno idx). unfold slot_of in *.
        rewrite Hsp in Hsl. exact Hsl. }
      rewrite (Get_absent s e HI Hno), (Get_absent s' e HI' Hno'). reflexivity.
Qed.

Lemma Query1_effect_witness :
  exists s' st' tr,
    Query1 sample_set (fun _ x n => (x + 1, Datatypes.S n)) O = Ok (s', st', tr) /\
    visits tr = entities sample_set /\
    Z.of_nat (length (visits tr)) = Count sample_set /\
    Count sample_set <= MAX_ENTITIES /\
    run_visitor1 (fun _ x n => (x + 1, Datatypes.S n))
      (zip (entities sample_set) (components sample_set)) O
    = (components s', st') /\
    entities s' = entities sample_set /\ Count s' = Count sample_set /\
    capacity s' = capacity sample_set /\
    forall e, Has s' e = Has sample_set e /\ Get s' e = Get sample_set e.
Proof.
  apply (Query1_effect sample_set (fun _ x n => (x + 1, Datatypes.S n)) O).
  apply reachable_sample.
Defined.

(** A 2-arity query hands every visited entity its own two components
    and keeps what the visitor writes: the visited entities are those of
    the driving storage (the one with the smaller count, the first one on
    a tie) that the other storage has too, at most as many as the smaller
    count; the calls receive the components the entities had before the
    query and the state the previous call left; afterwards [Get] of a
    visited entity points at the values its call left, and the
    components of all other entities, and which entities are present, are
    as before. *)
Theorem Query2_effect {St T1 T2 : Type} `{Inhabited T1} `{Inhabited T2}
    (s1 : SparseSet T1) (s2 : SparseSet T2)
    (func : Entity -> T1 -> T2 -> St -> T1 * T2 * St) (st : St) :
  reachable s1 -> reachable s2 ->
  exists s1' s2' st' tr ys,
    Query2 s1 s2 func st = Ok (s1', s2', st', tr) /\
    visits tr = (fun m => m.1.1) <$>
                  matches2 s1 s2 (if decide (Count s1 <= Count s2)
                                  then entities s1 else entities s2) /\
    Z.of_nat (length (visits tr)) <= Z.min (Count s1) (Count s2) /\
    run_visitor2 func
      (matches2 s1 s2 (if decide (Count s1 <= Count s2)
                       then entities s1 else entities s2)) st = (ys, st') /\
    Forall2 (fun m y => value s1' m.1.1 = Some y.1 /\ value s2' m.1.1 = Some y.2)
      (matches2 s1 s2 (if decide (Count s1 <= Count s2)
                       then entities s1 else entities s2)) ys /\
    (forall e, e ∉ visits tr ->
               value s1' e = value s1 e /\ value s2' e = value s2 e) /\
    (forall e, Has s1' e = Has s1 e /\ Has s2' e = Has s2 e).
Proof.
  intros Hr1 Hr2. pose proof (reachable_Inv s1 Hr1) as HI1.
  pose proof (reachable_Inv s2 Hr2) as HI2.
  destruct (Query2_values s1 s2 func st HI1 HI2)
    as (s1' & s2' & st' & tr & ys & E & Hs1 & Hs2 & Hrun & Hall & Hfr).
  destruct (Query2_spec s1 s2 func st HI1 HI2)
    as (t1 & t2 & st2 & tr2 & E2 & _ & _ & Htr).
  rewrite E in E2. injection E2 as <- <- <- <-.
  assert (Hvis : visits tr = (fun m => m.1.1) <$>
                  matches2 s1 s2 (if decide (Count s1 <= Count s2)
                                  then entities s1 else entities s2)).
  { rewrite Htr. destruct (decide (Count s1 <= Count s2)) as [Hle|Hgt].
    - rewrite visits_join_trace, matches2_fst_l; [reflexivity | assumption..|].
      intros e He. apply (member_entities s1 e HI1). exact He.
    - rewrite visits_join_trace, matches2_fst_r; [reflexivity | assumption..|].
      intros e He. apply (member_entities s2 e HI2). exact He. }
  exists s1', s2', st', tr, ys. split_and!; try assumption.
  - rewrite Htr. pose proof (entities_length s1 HI1) as Hl1.
    pose proof (entities_length s2 HI2) as Hl2. unfold Count in *.
    destruct (decide (count s1 <= count s2)) as [Hle|Hgt];
      rewrite visits_join_trace.
    + pose proof (length_filter (fun e => member s2 e = true) (entities s1)). lia.
    + pose proof (length_filter (fun e => member s1 e = true) (entities s2)). lia.
  - intros e He. apply Hfr. rewrite <- Hvis. exact He.
  - intros e. split; apply same_shape_Has; assumption.
Qed.

Lemma Query2_effect_witness :
  exists s1' s2' st' tr ys,
    Query2 (transforms world2) (physics world2) count2 O
    = Ok (s1', s2', st', tr) /\
    visits tr = (fun m => m.1.1) <$>
                  matches2 (transforms world2) (physics world2)
                    (if decide (Count (transforms world2) <= Count (physics world2))
                     then entities (transforms world2)
                     else entities (physics world2)) /\
    Z.of_nat (length (visits tr))
    <= Z.min (Count (transforms world2)) (Count (physics world2)) /\
    run_visitor2 count2
      (matches2 (transforms world2) (physics world2)
         (if decide (Count (transforms world2) <= Count (physics world2))
          then entities (transforms world2) else entities (physics world2))) O
    = (ys, st') /\
    Forall2 (fun m y => value s1' m.1.1 = Some y.1 /\ value s2' m.1.1 = Some y.2)
      (matches2 (transforms world2) (physics world2)
         (if decide (Count (transforms world2) <= Count (physics world2))
          then entities (transforms world2) else entities (physics world2))) ys /\
    (forall e, e ∉ visits tr ->
               value s1' e = value (transforms world2) e /\
               value s2' e = value (physics world2) e) /\
    (forall e, Has s1' e = Has (transforms world2) e /\
               Has s2' e = Has (physics world2) e).
Proof.
  apply (Query2_effect (transforms world2) (physics world2) count2 O).
  - apply (World_reachable_world2 KTransform).
  - apply (World_reachable_world2 KPhysics).
Defined.

(** * Further properties of the registry *)



(** [DestroyEntity(e)] touches no other entity: for every kind and every
    entity other than [e], [HasX] and [GetX] answer as before; [Count()]
    of a kind drops by one exactly when [e] had that kind; and
    destroying [e] a second time changes nothing. *)
Theorem DestroyEntity_frame
    {Transform Sprite Animation Physics Collider CollisionState Player : Type}
    `{Inhabited Transform} `{Inhabited Sprite} `{Inhabited Animation}
    `{Inhabited Physics} `{Inhabited Collider} `{Inhabited CollisionState}
    `{Inhabited Player}
    (w : @World Transform Sprite Animation Physics Collider CollisionState Player)
    (e : Entity) :
  World_reachable w ->
  exists w', DestroyEntity w e = Ok w' /\
    (forall k e2, e2 <> e ->
       HasX k w' e2 = HasX k w e2 /\ GetX k w' e2 = GetX k w e2) /\
    (forall k, GetX k w' e = Ok None) /\
    (forall k, Count (GetSparseSet k w')
               = Count (GetSparseSet k w)
                 - (if member (GetSparseSet k w) e then 1 else 0)) /\
    DestroyEntity w' e = Ok w'.
Proof.
  intros Hw.
  destruct (Remove_full _ e (reachable_Inv _ (Hw KTransform)))
    as (s1 & E1 & _ & _ & N1 & F1 & R1 & C1).
  destruct (Remove_full _ e (reachable_Inv _ (Hw KSprite)))
    as (s2 & E2 & _ & _ & N2 & F2 & R2 & C2).
  destruct (Remove_full _ e (reachable_Inv _ (Hw KAnimation)))
    as (s3 & E3 & _ & _ & N3 & F3 & R3 & C3).
  destruct (Remove_full _ e (reachable_Inv _ (Hw KPhysics)))
    as (s4 & E4 & _ & _ & N4 & F4 & R4 & C4).
  destruct (Remove_full _ e (reachable_Inv _ (Hw KCollider)))
    as (s5 & E5 & _ & _ & N5 & F5 & R5 & C5).
  destruct (Remove_full _ e (reachable_Inv _ (Hw KCollisionState)))
    as (s6 & E6 & _ & _ & N6 & F6 & R6 & C6).
  destruct (Remove_full _ e (reachable_Inv _ (Hw KPlayer)))
    as (s7 & E7 & _ & _ & N7 & F7 & R7 & C7).
  cbn [GetSparseSet] in *.
  exists (mkWorld (nextEntity w) s1 s2 s3 s4 s5 s6 s7). split_and!.
  - unfold DestroyEntity.
    apply bind_Ok; exists s1; split; [exact E1|].
    apply bind_Ok; exists s2; split; [exact E2|].
    apply bind_Ok; exists s3; split; [exact E3|].
    apply bind_Ok; exists s4; split; [exact E4|].
    apply bind_Ok; exists s5; split; [exact E5|].
    apply bind_Ok; exists s6; split; [exact E6|].
    apply bind_Ok; exists s7; split; [exact E7|].
    reflexivity.
  - intros k e2 Hne. rewrite !HasX_GetSparseSet, !GetX_GetSparseSet.
    destruct k; cbn [GetSparseSet transforms sprites animations physics
                     colliders collisionStates players]; auto.
  - intros k. rewrite GetX_GetSparseSet.
    destruct k; cbn [GetSparseSet transforms sprites animations physics
                     colliders collisionStates players]; assumption.
  - intros k. unfold Count.
    destruct k; cbn [GetSparseSet transforms sprites animations physics
                     colliders collisionStates players]; assumption.
  - unfold DestroyEntity.
    cbn [transforms sprites animations physics colliders collisionStates
         players nextEntity].
    apply bind_Ok; exists s1; split; [exact R1|].
    apply bind_Ok; exists s2; split; [exact R2|].
    apply bind_Ok; exists s3; split; [exact R3|].
    apply bind_Ok; exists s4; split; [exact R4|].
    apply bind_Ok; exists s5; split; [exact R5|].
    apply bind_Ok; exists s6; split; [exact R6|].
    apply bind_Ok; exists s7; split; [exact R7|].
    reflexivity.
Qed.

Lemma DestroyEntity_frame_witness :
  exists w', DestroyEntity world2 2%N = Ok w' /\
    (forall k e2, e2 <> 2%N ->
       HasX k w' e2 = HasX k world2 e2 /\ GetX k w' e2 = GetX k world2 e2) /\
    (forall k, GetX k w' 2%N = Ok None) /\
    (forall k, Count (GetSparseSet k w')
               = Count (GetSparseSet k world2)
                 - (if member (GetSparseSet k world2) 2%N then 1 else 0)) /\
    DestroyEntity w' 2%N = Ok w'.
Proof. apply (DestroyEntity_frame world2 2%N). apply World_reachable_world2. Defined.

(** Identifiers are never reissued: whatever the counter, the entity
    [CreateEntity] returns is below [MAX_ENTITIES] (so the storages accept
    it), the storages are untouched, and when the entity is not the null
    entity it is the old counter and no later call of [CreateEntity],
    however many follow, returns it again. *)
Theorem CreateEntity_never_reissues
    {Transform Sprite Animation Physics Collider CollisionState Player : Type}
    `{Inhabited Transform} `{Inhabited Sprite} `{Inhabited Animation}
    `{Inhabited Physics} `{Inhabited Collider} `{Inhabited CollisionState}
    `{Inhabited Player}
    (w : @World Transform Sprite Animation Physics Collider CollisionState Player)
    (n : nat) :
  Z.of_N (CreateEntity w).1 < MAX_ENTITIES /\
  (forall k, GetSparseSet k (CreateEntity w).2 = GetSparseSet k w) /\
  ((CreateEntity w).1 <> NULL_ENTITY ->
   (CreateEntity w).1 = nextEntity w /\
   (CreateEntity w).1 ∉ (create_many n (CreateEntity w).2).1).
Proof.
  destruct (decide (MAX_ENTITIES <= Z.of_N (nextEntity w))) as [Hge|Hlt].
  - rewrite (CreateEntity_exhausted w Hge). cbn [fst snd].
    split_and!; [unfold MAX_ENTITIES, NULL_ENTITY; simpl; lia | reflexivity |].
    intros Hn. contradiction.
  - rewrite (CreateEntity_below w) by lia. cbn [fst snd].
    split_and!; [lia | intros k; destruct k; reflexivity |].
    intros Hn. split; [reflexivity|]. intros Hin.
    apply create_many_later in Hin as [Hnull|Hle]; [contradiction|].
    cbn [nextEntity set_nextEntity] in Hle. lia.
Qed.

(** * The spawn loop of [main] *)

(** Spawning [n] boxes on a new world never faults.  Box [i] lands on
    entity [i + 1] as long as identifiers last; from box
    [MAX_ENTITIES - 1] on, [CreateEntity] returns the null entity, which
    the loop does not check, so those boxes all land on entity 0, each
    overwriting the one before.  Both storages hold the same entities in
    the same dense order.  With the bound 10000 of [main] (or any bound
    from [MAX_ENTITIES] on) each storage ends with exactly
    [MAX_ENTITIES] entities, entity 0 among them with the components of
    the last box. *)
Theorem spawn_boxes_result
    {Transform Sprite Animation Physics Collider CollisionState Player : Type}
    `{Inhabited Transform} `{Inhabited Sprite} `{Inhabited Animation}
    `{Inhabited Physics} `{Inhabited Collider} `{Inhabited CollisionState}
    `{Inhabited Player}
    (n : Z) (t : Z -> Transform) (p : Z -> Physics) :
  0 <= n ->
  exists w' : @World Transform Sprite Animation Physics Collider
                     CollisionState Player,
    spawn_boxes n t p fresh_world = Ok w' /\
    World_reachable w' /\
    Z.of_N (nextEntity w') = Z.min (n + 1) MAX_ENTITIES /\
    entities (transforms w') = take (Z.to_nat n) issue_order /\
    entities (physics w') = take (Z.to_nat n) issue_order /\
    (forall i, 0 <= i < Z.min n (MAX_ENTITIES - 1) ->
       GetTransform w' (Z.to_N (i + 1)) = Ok (Some (t i)) /\
       GetPhysics w' (Z.to_N (i + 1)) = Ok (Some (p i))) /\
    (MAX_ENTITIES <= n ->
       HasTransform w' NULL_ENTITY = Ok true /\
       HasPhysics w' NULL_ENTITY = Ok true /\
       GetTransform w' NULL_ENTITY = Ok (Some (t (n - 1))) /\
       GetPhysics w' NULL_ENTITY = Ok (Some (p (n - 1))) /\
       Count (transforms w') = MAX_ENTITIES /\
       Count (physics w') = MAX_ENTITIES).
Proof.
  intros Hn.
  destruct (spawn_boxes_loop (Sprite:=Sprite) (Animation:=Animation)
              (Collider:=Collider) (CollisionState:=CollisionState)
              (Player:=Player) n t p Hn)
    as (w' & E & Hrt & Hrp & Hrest & Hnext & Het & Hep & Hvt & Hvp & Hnull).
  destruct Hrest as (Hs & Ha & Hc & Hcs & Hpl).
  assert (Hw : World_reachable w').
  { intros k. destruct k; cbn [GetSparseSet]; try assumption;
      rewrite ?Hs, ?Ha, ?Hc, ?Hcs, ?Hpl; apply reachable_empty. }
  exists w'. unfold GetTransform, GetPhysics, HasTransform, HasPhysics, Count.
  split_and!; try assumption.
  - intros i Hi. split; [apply Hvt | apply Hvp]; exact Hi.
  - intros Hge. destruct (Hnull Hge) as [Hgt Hgp].
    pose proof (reachable_Inv _ Hrt) as HIt.
    pose proof (reachable_Inv _ Hrp) as HIp.
    assert (Hin : NULL_ENTITY ∈ take (Z.to_nat n) issue_order).
    { rewrite take_issue_order_full by lia.
      replace NULL_ENTITY with (nth_issued n); [apply nth_issued_stale; lia|].
      unfold nth_issued. destruct (decide _); [lia | reflexivity]. }
    pose proof (entities_length _ HIt) as Hlt.
    pose proof (entities_length _ HIp) as Hlp.
    rewrite Het, take_issue_order_full, issue_order_length in Hlt by lia.
    rewrite Hep, take_issue_order_full, issue_order_length in Hlp by lia.
    split_and!; try assumption; try lia.
    + apply (member_true _ _ HIt), (member_entities _ _ HIt).
      rewrite Het. exact Hin.
    + apply (member_true _ _ HIp), (member_entities _ _ HIp).
      rewrite Hep. exact Hin.
Qed.


Lemma spawn_boxes_result_witness :
  exists w' : @World Z Z Z Z Z Z Z,
    spawn_boxes 10000 (fun i => i) (fun i => 2 * i) fresh_world = Ok w' /\
    World_reachable w' /\
    Z.of_N (nextEntity w') = Z.min (10000 + 1) MAX_ENTITIES /\
    entities (transforms w') = take (Z.to_nat 10000) issue_order /\
    entities (physics w') = take (Z.to_nat 10000) issue_order /\
    (forall i, 0 <= i < Z.min 10000 (MAX_ENTITIES - 1) ->
       GetTransform w' (Z.to_N (i + 1)) = Ok (Some i) /\
       GetPhysics w' (Z.to_N (i + 1)) = Ok (Some (2 * i))) /\
    (MAX_ENTITIES <= 10000 ->
       HasTransform w' NULL_ENTITY = Ok true /\
       HasPhysics w' NULL_ENTITY = Ok true /\
       GetTransform w' NULL_ENTITY = Ok (Some (10000 - 1)) /\
       GetPhysics w' NULL_ENTITY = Ok (Some (2 * (10000 - 1))) /\
       Count (transforms w') = MAX_ENTITIES /\
       Count (physics w') = MAX_ENTITIES).
Proof.
  apply (spawn_boxes_result 10000 (fun i => i) (fun i => 2 * i)). lia.
Defined.

(** After the spawn loop the two queries of [main] visit exactly the
    spawned entities, in the order they were issued: entities
    [1 .. n] for [n] boxes below [MAX_ENTITIES], and all [MAX_ENTITIES]
    stored entities, the null entity last, from then on.  The visitor is
    called once on each of them, in that order, with the components the
    entity has and the state the call before it left, and on nothing
    else; every entity then holds what its call returned.  So the
    visitor is called [min n MAX_ENTITIES] times, never more than the
    10000 slots [main] allocates per buffer. *)
Theorem spawn_then_query
    {Transform Sprite Animation Physics Collider CollisionState Player : Type}
    `{Inhabited Transform} `{Inhabited Sprite} `{Inhabited Animation}
    `{Inhabited Physics} `{Inhabited Collider} `{Inhabited CollisionState}
    `{Inhabited Player} {St : Type}
    (n : Z) (t : Z -> Transform) (p : Z -> Physics)
    (func2 : Entity -> Transform -> Physics -> St -> Transform * Physics * St)
    (func1 : Entity -> Transform -> St -> Transform * St) (st : St) :
  0 <= n ->
  exists w : @World Transform Sprite Animation Physics Collider
                    CollisionState Player,
    spawn_boxes n t p fresh_world = Ok w /\
    (exists w2 st2 tr2,
       World_Query2 KTransform KPhysics func2 w st = Ok (w2, st2, tr2) /\
       visits tr2 = take (Z.to_nat n) issue_order /\
       visited_with (visitor2 func2) all2 (values2 KTransform KPhysics w)
         (values2 KTransform KPhysics w2) (visits tr2) st st2) /\
    (exists w1 st1 tr1,
       World_Query1 KTransform func1 w st = Ok (w1, st1, tr1) /\
       visits tr1 = take (Z.to_nat n) issue_order /\
       visited_with func1 id (value (transforms w)) (value (transforms w1))
         (visits tr1) st st1) /\
    Z.of_nat (length (take (Z.to_nat n) issue_order)) = Z.min n MAX_ENTITIES.
Proof.
  intros Hn.
  destruct (spawn_boxes_loop (Sprite:=Sprite) (Animation:=Animation)
              (Collider:=Collider) (CollisionState:=CollisionState)
              (Player:=Player) n t p Hn)
    as (w & E & Hrt & Hrp & (Hs & Ha & Hc & Hcs & Hpl) & _ & Het & Hep & _).
  assert (Hw : World_reachable w).
  { intros k. destruct k; cbn [GetSparseSet]; try assumption;
      rewrite ?Hs, ?Ha, ?Hc, ?Hcs, ?Hpl; apply reachable_empty. }
  assert (HIt : Inv (transforms w)) by (apply reachable_Inv; exact Hrt).
  assert (HIp : Inv (physics w)) by (apply reachable_Inv; exact Hrp).
  exists w. split_and!; [exact E | | |].
  - destruct (World_Query2_driven KTransform KPhysics func2 w st Hw) as [Hfst _].
    destruct Hfst as (w2 & st2 & tr2 & E2 & Htr & _).
    { change (count (transforms w) <= count (physics w)).
      pose proof (entities_length _ HIt) as L1.
      pose proof (entities_length _ HIp) as L2.
      rewrite Het in L1. rewrite Hep in L2. lia. }
    destruct (World_Query2_calls KTransform KPhysics func2 w st Hw
                ltac:(discriminate)) as (w2' & st2' & tr2' & E2' & Hcalls).
    rewrite E2 in E2'. injection E2' as <- <- <-.
    exists w2, st2, tr2. split; [exact E2|]. split; [|exact Hcalls].
    rewrite Htr, visits_join_trace.
    change (entities (GetSparseSet KTransform w))
      with (entities (transforms w)).
    rewrite Het.
    apply filter_all. intros e He. cbn [has_all forallb GetSparseSet].
    rewrite andb_true_r. apply (member_entities _ e HIp). rewrite Hep. exact He.
  - destruct (Query1_run (GetSparseSet KTransform w) func1 st HIt)
      as (s' & st' & E1 & _).
    destruct (World_Query1_calls KTransform func1 w st Hw)
      as (w1 & st1 & tr1 & E1' & Hcalls).
    exists w1, st1, tr1. split; [exact E1'|]. split; [|exact Hcalls].
    unfold World_Query1 in E1'. rewrite E1 in E1'.
    injection E1' as <- <- <-. rewrite visits_Visit. exact Het.
  - pose proof issue_order_length. rewrite length_take. lia.
Qed.

Lemma spawn_then_query_witness :
  exists w : @World Z Z Z Z Z Z Z,
    spawn_boxes 10000 (fun i => i) (fun i => 2 * i) fresh_world = Ok w /\
    (exists w2 st2 tr2,
       World_Query2 KTransform KPhysics count2 w O = Ok (w2, st2, tr2) /\
       visits tr2 = take (Z.to_nat 10000) issue_order /\
       visited_with (visitor2 count2) all2 (values2 KTransform KPhysics w)
         (values2 KTransform KPhysics w2) (visits tr2) O st2) /\
    (exists w1 st1 tr1,
       World_Query1 KTransform (fun _ x (k : nat) => (x, Datatypes.S k)) w O
       = Ok (w1, st1, tr1) /\
       visits tr1 = take (Z.to_nat 10000) issue_order /\
       visited_with (fun _ x (k : nat) => (x, Datatypes.S k)) id
         (value (transforms w)) (value (transforms w1)) (visits tr1) O st1) /\
    Z.of_nat (length (take (Z.to_nat 10000) issue_order))
    = Z.min 10000 MAX_ENTITIES.
Proof.
  apply (spawn_then_query 10000 (fun i => i) (fun i => 2 * i) count2
           (fun _ x (k : nat) => (x, Datatypes.S k)) O).
  lia.
Defined.

(** A newly constructed storage is empty: the constructor returns
    normally with every index entry invalid, so [Count()] and the
    capacity are 0, [Has] is false and [Get] null for every entity,
    [Remove] changes nothing, and there is no position at which the
    positional accessors may be used. *)
Theorem new_storage_empty {T : Type} `{Inhabited T} :
  exists s : SparseSet T,
    SparseSet_new = Ok s /\ reachable s /\
    Count s = 0 /\ capacity s = 0 /\
    (forall e, Has s e = Ok false /\ Get s e = Ok None /\ Remove s e = Ok s) /\
    (forall e idx, aget (sparse s) (Z.of_N e) = Ok idx -> idx = INVALID_INDEX) /\
    (forall i, GetEntity s i = Fault /\ GetData s i = Fault).
Proof.
  exists empty_set. pose proof (Inv_empty (T:=T)) as HI.
  assert (Hno : forall e idx, ~ slot_of (empty_set (T:=T)) e idx).
  { intros e idx [Hsp Hne]. cbn [empty_set sparse] in Hsp.
    apply aget_Ok in Hsp as [_ Hl].
    apply lookup_replicate_1 in Hl as [-> _]. contradiction. }
  split; [apply SparseSet_new_Ok|]. split; [apply reachable_empty|].
  split; [reflexivity|]. split; [reflexivity|]. split_and!.
  - intros e. split_and!.
    + apply Has_absent; [exact HI | apply Hno].
    + apply Get_absent; [exact HI | apply Hno].
    + apply Remove_absent; [exact HI | apply Hno].
  - intros e idx Hsp. cbn [empty_set sparse] in Hsp.
    apply aget_Ok in Hsp as [_ Hl].
    apply lookup_replicate_1 in Hl as [-> _]. reflexivity.
  - intros i. unfold GetEntity, GetData, aget. cbn [empty_set dense data].
    destruct (decide (0 <= i)); split; reflexivity.
Qed.

(** The visitor [x -> x + 1] on the sample storage: every component is
    incremented in place and the visitor ran three times. *)
Example Query1_example :
  exists s', Query1 sample_set (fun _ x n => (x + 1, Datatypes.S n)) O
             = Ok (s', 3%nat, [Visit 5%N; Visit 3%N; Visit 9%N]) /\
             components s' = [51; 31; 91].
Proof.
  exists (mkSparseSet (sparse sample_set) (dense sample_set)
            (<[0%nat := 51]> (<[1%nat := 31]> (<[2%nat := 91]> (data sample_set))))
            (count sample_set) (capacity sample_set)).
  split; vm_compute; reflexivity.
Qed.

(** ** Array.h: loops and the shape of reachable arrays *)

Lemma for_down_loop_inv {S : Type} (P : Z -> S -> Prop) (body : Z -> S -> run S) :
  forall (n : nat) (i : Z) (s : S),
    P i s ->
    (forall j t, i - Z.of_nat n < j <= i -> P j t ->
                 exists t', body j t = Ok t' /\ P (j - 1) t') ->
    exists s', for_down_loop n i body s = Ok s' /\ P (i - Z.of_nat n) s'.
Proof.
  induction n as [|n IH]; intros i s Hs Hstep.
  - exists s. split; [reflexivity|]. replace (i - Z.of_nat 0) with i by lia. exact Hs.
  - destruct (Hstep i s) as (t & Ht & HPt); [lia | exact Hs |].
    destruct (IH (i - 1) t HPt) as (s' & Hs' & HP').
    { intros j u Hj Hu. apply Hstep; [lia | exact Hu]. }
    exists s'. split.
    + simpl. rewrite Ht. exact Hs'.
    + replace (i - Z.of_nat (Datatypes.S n)) with (i - 1 - Z.of_nat n) by lia.
      exact HP'.
Qed.

Lemma for_down_inv {S : Type} (P : Z -> S -> Prop) (body : Z -> S -> run S)
    (hi lo : Z) (s : S) :
  lo <= hi ->
  P hi s ->
  (forall j t, lo < j <= hi -> P j t ->
               exists t', body j t = Ok t' /\ P (j - 1) t') ->
  exists s', for_down hi lo body s = Ok s' /\ P lo s'.
Proof.
  intros Hle Hs Hstep. unfold for_down.
  destruct (for_down_loop_inv P body (Z.to_nat (hi - lo)) hi s Hs) as (s' & E & HP).
  - intros j t Hj. apply Hstep. lia.
  - exists s'. split; [exact E|].
    replace lo with (hi - Z.of_nat (Z.to_nat (hi - lo))) by lia. exact HP.
Qed.

Lemma for_range_empty {S : Type} (lo hi : Z) (body : Z -> S -> run S) (s : S) :
  hi <= lo -> for_range lo hi body s = Ok s.
Proof.
  intros Hle. unfold for_range. replace (Z.to_nat (hi - lo)) with O by lia.
  reflexivity.
Qed.

Lemma for_down_empty {S : Type} (hi lo : Z) (body : Z -> S -> run S) (s : S) :
  hi <= lo -> for_down hi lo body s = Ok s.
Proof.
  intros Hle. unfold for_down. replace (Z.to_nat (hi - lo)) with O by lia.
  reflexivity.
Qed.

(** The growth loop of [Resize]. *)
Lemma grow_capacity_Ok (fuel : nat) (c p : Z) :
  0 <= c -> p - c <= Z.of_nat fuel -> p + (p - 1) `div` 2 <= INT_MAX ->
  c <= INT_MAX ->
  exists c', grow_capacity fuel c p = Ok c' /\
             p <= c' /\ c <= c' /\ c' <= INT_MAX /\
             (p <= c -> c' = c) /\
             (c < p -> c < c' /\ c' <= p + (p - 1) `div` 2).
Proof.
  revert c. induction fuel as [|fuel IH]; intros c Hc Hfuel Hbound HcM.
  - exists c. simpl. destruct (decide (c < p)); [lia|].
    split_and!; try reflexivity; lia.
  - simpl. destruct (decide (c < p)) as [Hlt|Hge].
    + rewrite Z.quot_div_nonneg by lia.
      assert (Hd : 0 <= c `div` 2 <= (p - 1) `div` 2).
      { split; [apply Z.div_pos; lia | apply Z.div_le_mono; lia]. }
      assert (HM : INT_MIN <= 0) by (unfold INT_MIN; lia).
      rewrite as_int_small by lia. cbn [mbind run_bind].
      rewrite as_int_small by lia. cbn [mbind run_bind].
      destruct (IH (c + c `div` 2 + 1)) as (c' & E & H1 & H2 & H3 & H4 & H5);
        try lia.
      exists c'. split; [exact E|]. split_and!; lia.
    + exists c. split_and!; try reflexivity; lia.
Qed.

Lemma grow_capacity_overflow (fuel : nat) (c p : Z) :
  0 <= c < p -> INT_MAX < c + c `div` 2 + 1 ->
  grow_capacity (Datatypes.S fuel) c p = Fault.
Proof.
  intros Hc Hov. simpl. destruct (decide (c < p)); [|lia].
  rewrite Z.quot_div_nonneg by lia.
  destruct (as_int (c + c `div` 2)) as [x|] eqn:E1; [|reflexivity].
  unfold as_int in E1.
  destruct (decide (INT_MIN <= c + c `div` 2 <= INT_MAX)) as [Hin|Hout];
    [|discriminate]. injection E1 as <-.
  cbn [mbind run_bind]. unfold as_int.
  destruct (decide _) as [Hin2|Hout2]; [lia | reflexivity].
Qed.

(** The loops over a block, cell by cell. *)
Lemma copy_loop_Ok {A : Type} (src b : list A) (n : Z) :
  0 <= n -> n <= Z.of_nat (length src) -> n <= Z.of_nat (length b) ->
  for_range 0 n (fun i b => x ← aget src i; aset b i x) b
  = Ok (take (Z.to_nat n) src ++ drop (Z.to_nat n) b).
Proof.
  intros Hn Hs Hb.
  destruct (for_range_inv
    (fun j b' => b' = take (Z.to_nat j) src ++ drop (Z.to_nat j) b)
    (fun i b => x ← aget src i; aset b i x) 0 n b Hn) as (b' & E & ->).
  - reflexivity.
  - intros j t Hj ->.
    destruct (aget_in_range src j) as [x Hx]; [lia|].
    rewrite Hx. cbn [mbind run_bind].
    apply aget_Ok in Hx as [_ Hx].
    eexists. split.
    + apply aset_in_range. rewrite length_app, length_take, length_drop. lia.
    + replace (Z.to_nat (j + 1)) with (Datatypes.S (Z.to_nat j)) by lia.
      rewrite (take_S_r _ _ _ Hx).
      rewrite insert_app_r_alt by (rewrite length_take; lia).
      rewrite length_take.
      replace (Z.to_nat j - Z.to_nat j `min` length src)%nat with O by lia.
      destruct (lookup_lt_is_Some_2 b (Z.to_nat j)) as [y Hy]; [lia|].
      rewrite (drop_S _ _ _ Hy). simpl. rewrite <- app_assoc. reflexivity.
  - exact E.
Qed.

Lemma fill_loop_Ok {A : Type} (b : list A) (d : A) (lo hi : Z) :
  0 <= lo <= hi -> hi <= Z.of_nat (length b) ->
  for_range lo hi (fun i b => aset b i d) b
  = Ok (take (Z.to_nat lo) b ++ replicate (Z.to_nat (hi - lo)) d
        ++ drop (Z.to_nat hi) b).
Proof.
  intros Hlo Hb.
  destruct (for_range_inv
    (fun j b' => b' = take (Z.to_nat lo) b ++ replicate (Z.to_nat (j - lo)) d
                      ++ drop (Z.to_nat j) b)
    (fun i b => aset b i d) lo hi b ltac:(lia)) as (b' & E & ->).
  - replace (Z.to_nat (lo - lo)) with O by lia. simpl.
    rewrite take_drop. reflexivity.
  - intros j t Hj ->. eexists. split.
    + apply aset_in_range.
      rewrite !length_app, length_take, length_replicate, length_drop. lia.
    + rewrite insert_app_r_alt by (rewrite length_take; lia).
      rewrite length_take.
      rewrite insert_app_r_alt by (rewrite length_replicate; lia).
      rewrite length_replicate.
      replace (Z.to_nat j - Z.to_nat lo `min` length b - Z.to_nat (j - lo))%nat
        with O by lia.
      destruct (lookup_lt_is_Some_2 b (Z.to_nat j)) as [y Hy]; [lia|].
      rewrite (drop_S _ _ _ Hy). simpl.
      replace (Z.to_nat (j + 1)) with (Datatypes.S (Z.to_nat j)) by lia.
      replace (Z.to_nat (j + 1 - lo)) with (Z.to_nat (j - lo) + 1)%nat by lia.
      rewrite replicate_add. simpl. rewrite <- !app_assoc. reflexivity.
  - exact E.
Qed.

(** The shift loop of [Insert]: the cells [lo .. hi - 1] move one up. *)
Lemma shift_up_Ok {A : Type} (arr : list A) (hi lo : Z) :
  0 <= lo <= hi -> hi < Z.of_nat (length arr) ->
  exists arr',
    for_down hi lo (fun i arr => x ← aget arr (i - 1); aset arr i x) arr
    = Ok arr' /\
    length arr' = length arr /\
    forall k : nat,
      arr' !! k = if decide (lo < Z.of_nat k <= hi) then arr !! (k - 1)%nat
                  else arr !! k.
Proof.
  intros Hlo Hhi.
  destruct (for_down_inv
    (fun j arr' => length arr' = length arr /\
       forall k : nat,
         arr' !! k = if decide (j < Z.of_nat k <= hi) then arr !! (k - 1)%nat
                     else arr !! k)
    (fun i arr => x ← aget arr (i - 1); aset arr i x) hi lo arr ltac:(lia))
    as (arr' & E & Hlen & Hk).
  - split; [reflexivity|]. intros k. destruct (decide _); [lia | reflexivity].
  - intros j t Hj [Hlen Hk].
    destruct (aget_in_range t (j - 1)) as [x Hx]; [lia|].
    rewrite Hx. cbn [mbind run_bind].
    apply aget_Ok in Hx as [_ Hx].
    eexists. split; [apply aset_in_range; lia|].
    split; [rewrite length_insert; exact Hlen|].
    intros k. destruct (decide (k = Z.to_nat j)) as [->|Hne].
    + rewrite list_lookup_insert_eq by lia.
      destruct (decide _) as [_|Hn]; [|lia].
      rewrite Hk in Hx. destruct (decide _) as [Hc|_] in Hx; [lia|].
      rewrite <- Hx. f_equal. lia.
    + rewrite list_lookup_insert_ne by lia. rewrite Hk.
      destruct (decide (j < Z.of_nat k <= hi)), (decide (j - 1 < Z.of_nat k <= hi));
        try reflexivity; lia.
  - exists arr'. auto.
Qed.

(** The shift loop of [Remove]: the cells [lo + 1 .. hi - 1] move one
    down. *)
Lemma shift_down_Ok {A : Type} (arr : list A) (lo hi : Z) :
  0 <= lo < hi -> hi <= Z.of_nat (length arr) ->
  exists arr',
    for_range (lo + 1) hi (fun i arr => x ← aget arr i; aset arr (i - 1) x) arr
    = Ok arr' /\
    length arr' = length arr /\
    forall k : nat,
      arr' !! k = if decide (lo <= Z.of_nat k < hi - 1) then arr !! (k + 1)%nat
                  else arr !! k.
Proof.
  intros Hlo Hhi.
  destruct (for_range_inv
    (fun j arr' => length arr' = length arr /\
       forall k : nat,
         arr' !! k = if decide (lo <= Z.of_nat k < j - 1) then arr !! (k + 1)%nat
                     else arr !! k)
    (fun i arr => x ← aget arr i; aset arr (i - 1) x) (lo + 1) hi arr ltac:(lia))
    as (arr' & E & Hlen & Hk).
  - split; [reflexivity|]. intros k. destruct (decide _); [lia | reflexivity].
  - intros j t Hj [Hlen Hk].
    destruct (aget_in_range t j) as [x Hx]; [lia|].
    rewrite Hx. cbn [mbind run_bind].
    apply aget_Ok in Hx as [_ Hx].
    eexists. split; [apply aset_in_range; lia|].
    split; [rewrite length_insert; exact Hlen|].
    intros k. destruct (decide (k = Z.to_nat (j - 1))) as [->|Hne].
    + rewrite list_lookup_insert_eq by lia.
      destruct (decide _) as [_|Hn]; [|lia].
      rewrite Hk in Hx. destruct (decide _) as [Hc|_] in Hx; [lia|].
      rewrite <- Hx. f_equal. lia.
    + rewrite list_lookup_insert_ne by lia. rewrite Hk.
      destruct (decide (lo <= Z.of_nat k < j - 1)),
               (decide (lo <= Z.of_nat k < j + 1 - 1));
        try reflexivity; lia.
  - exists arr'. auto.
Qed.

Lemma grow_capacity_inv (fuel : nat) (c p c' : Z) :
  0 <= c <= INT_MAX -> grow_capacity fuel c p = Ok c' ->
  p <= c' /\ c <= c' <= INT_MAX /\ (p <= c -> c' = c) /\ (c < p -> c < c').
Proof.
  revert c. induction fuel as [|fuel IH]; intros c Hc E; simpl in E;
    destruct (decide (c < p)) as [Hlt|Hge]; try discriminate;
    try (injection E as <-; split_and!; lia).
  rewrite Z.quot_div_nonneg in E by lia.
  assert (Hd : 0 <= c `div` 2) by (apply Z.div_pos; lia).
  unfold as_int in E.
  destruct (decide (INT_MIN <= c + c `div` 2 <= INT_MAX)); [|discriminate].
  cbn [mbind run_bind] in E.
  destruct (decide (INT_MIN <= c + c `div` 2 + 1 <= INT_MAX)); [|discriminate].
  cbn [mbind run_bind] in E.
  apply IH in E; lia.
Qed.


Section ArrayFacts.
Context {Datatype : Type} `{Inhabited Datatype}.
Implicit Types (a : Array Datatype) (new : heap (Datatype:=Datatype)).

Lemma Array_elements_length a :
  Array_wf a -> Z.of_nat (length (Array_elements a)) = m_size a.
Proof.
  intros [Hs Hb _]. unfold Array_elements. rewrite length_take. lia.
Qed.

Lemma Array_ctor_wf (p_size : Z) :
  p_size <= INT_MAX -> Array_wf (Array_ctor (Datatype:=Datatype) p_size).
Proof.
  intros Hp. unfold Array_ctor. destruct (decide (p_size > 0)).
  - split; cbn [m_size m_capacity m_array]; try lia.
    apply Array_new_length. lia.
  - split; cbn [m_size m_capacity m_array length]; try lia.
    unfold INT_MAX. lia.
Qed.

(** [Resize] when the block has to be replaced. *)
Lemma Array_Resize_grow new a (p_size c : Z) :
  Array_wf a -> heap_sound new -> m_capacity a < p_size ->
  grow_capacity (Z.to_nat p_size) (m_capacity a) p_size = Ok c ->
  Array_Resize new a p_size
  = match new c with
    | None => Ok a
    | Some block =>
        Ok (mkArray (Array_elements a
                     ++ replicate (Z.to_nat (p_size - m_size a)) inhabitant
                     ++ drop (Z.to_nat p_size) block) p_size c)
    end.
Proof.
  intros [Hs Hb HM] Hnew Hlt Eg.
  assert (Hc0 : 0 <= m_capacity a <= INT_MAX) by lia.
  destruct (grow_capacity_inv _ _ _ _ Hc0 Eg) as (Hpc & Hcc & _ & _).
  unfold Array_Resize.
  destruct (decide (p_size < 0)); [lia|].
  destruct (decide (p_size <= m_capacity a)); [lia|].
  rewrite Eg. cbn [mbind run_bind].
  destruct (new c) as [block|] eqn:En; [|reflexivity].
  apply Hnew in En.
  destruct (decide (p_size < m_size a)); [lia|].
  rewrite copy_loop_Ok by lia. cbn [mbind run_bind].
  rewrite fill_loop_Ok
    by (rewrite ?length_app, ?length_take, ?length_drop; lia).
  cbn [mbind run_bind]. f_equal. f_equal. unfold Array_elements.
  rewrite take_app_length' by (rewrite length_take; lia).
  f_equal. f_equal.
  rewrite drop_app_ge by (rewrite length_take; lia).
  rewrite length_take, drop_drop. f_equal. lia.
Qed.

Lemma Array_Resize_wf new a (p_size : Z) a' :
  Array_wf a -> heap_sound new ->
  Array_Resize new a p_size = Ok a' ->
  Array_wf a' /\ m_capacity a <= m_capacity a'.
Proof.
  intros Hwf Hnew E. pose proof Hwf as [Hs Hb HM].
  destruct (decide (p_size < 0)) as [Hneg|Hnn].
  { unfold Array_Resize in E. destruct (decide (p_size < 0)); [|lia].
    injection E as <-. split; [exact Hwf | lia]. }
  destruct (decide (p_size <= m_capacity a)) as [Hle|Hgt].
  { unfold Array_Resize in E. destruct (decide (p_size < 0)); [lia|].
    destruct (decide (p_size <= m_capacity a)); [|lia].
    injection E as <-. split; [|cbn [m_capacity]; lia].
    split; cbn [m_size m_capacity m_array]; lia. }
  destruct (grow_capacity (Z.to_nat p_size) (m_capacity a) p_size) as [c|] eqn:Eg.
  - assert (Hc0 : 0 <= m_capacity a <= INT_MAX) by lia.
    destruct (grow_capacity_inv _ _ _ _ Hc0 Eg) as (Hpc & Hcc & _ & _).
    rewrite (Array_Resize_grow new a p_size c Hwf Hnew ltac:(lia) Eg) in E.
    destruct (new c) as [block|] eqn:En.
    + apply Hnew in En. injection E as <-. split; [|cbn [m_capacity]; lia].
      pose proof (Array_elements_length a Hwf) as Hel.
      split; cbn [m_size m_capacity m_array]; try lia.
      rewrite !length_app, length_replicate, length_drop. lia.
    + injection E as <-. split; [exact Hwf | lia].
  - unfold Array_Resize in E. destruct (decide (p_size < 0)); [lia|].
    destruct (decide (p_size <= m_capacity a)); [lia|].
    rewrite Eg in E. discriminate.
Qed.

(** The cells after the two steps of [Insert] that follow the making of
    room: the shift and the write. *)
Lemma insert_cells (arr : list Datatype) (size i : Z) (x : Datatype) :
  0 <= i < size -> size <= Z.of_nat (length arr) ->
  exists arr0 arr',
    for_down (size - 1) i (fun i arr => x ← aget arr (i - 1); aset arr i x) arr
    = Ok arr0 /\
    aset arr0 i x = Ok arr' /\
    length arr' = length arr /\
    take (Z.to_nat size) arr'
    = take (Z.to_nat i) arr ++ x :: take (Z.to_nat (size - 1 - i))
                                         (drop (Z.to_nat i) arr) /\
    drop (Z.to_nat size) arr' = drop (Z.to_nat size) arr.
Proof.
  intros Hi Hs.
  destruct (shift_up_Ok arr (size - 1) i ltac:(lia) ltac:(lia))
    as (arr0 & E & Hlen & Hk).
  exists arr0, (<[Z.to_nat i := x]> arr0). split; [exact E|].
  split; [apply aset_in_range; lia|].
  split; [rewrite length_insert; exact Hlen|].
  split.
  - apply list_eq. intros k. rewrite lookup_take, list_lookup_insert, lookup_app,
      lookup_take, Hk.
    destruct (decide (k < Z.to_nat i)%nat) as [Hki|Hki].
    + destruct (decide (k < Z.to_nat size)%nat); [|lia].
      destruct (decide (Z.to_nat i = k /\ _)); [lia|].
      destruct (decide (i < Z.of_nat k <= size - 1)); [lia|].
      destruct (arr !! k) eqn:Ek; [reflexivity|].
      apply lookup_ge_None in Ek. lia.
    + rewrite length_take.
      replace (k - Z.to_nat i `min` length arr)%nat with (k - Z.to_nat i)%nat by lia.
      destruct (decide (k = Z.to_nat i)) as [->|Hne].
      * destruct (decide (Z.to_nat i < Z.to_nat size)%nat); [|lia].
        destruct (decide (Z.to_nat i = Z.to_nat i /\ _)); [|lia].
        replace (Z.to_nat i - Z.to_nat i)%nat with O by lia. reflexivity.
      * destruct (decide (Z.to_nat i = k /\ _)); [lia|].
        destruct (k - Z.to_nat i)%nat as [|d] eqn:Ed; [lia|].
        rewrite lookup_cons. cbv beta iota. rewrite lookup_take, lookup_drop.
        destruct (decide (k < Z.to_nat size)%nat).
        -- destruct (decide (i < Z.of_nat k <= size - 1)); [|lia].
           destruct (decide (d < Z.to_nat (size - 1 - i))%nat); [|lia].
           f_equal. lia.
        -- destruct (decide (d < Z.to_nat (size - 1 - i))%nat); [lia|].
           reflexivity.
  - apply list_eq. intros k. rewrite !lookup_drop, list_lookup_insert_ne by lia.
    rewrite Hk. destruct (decide _); [lia | reflexivity].
Qed.

(** The cells after the shift of [Remove]. *)
Lemma remove_cells (arr : list Datatype) (size i : Z) :
  0 <= i < size -> size <= Z.of_nat (length arr) ->
  exists arr',
    for_range (i + 1) size (fun i arr => x ← aget arr i; aset arr (i - 1) x) arr
    = Ok arr' /\
    length arr' = length arr /\
    take (Z.to_nat (size - 1)) arr'
    = take (Z.to_nat i) arr
      ++ take (Z.to_nat (size - 1 - i)) (drop (Z.to_nat (i + 1)) arr) /\
    drop (Z.to_nat (size - 1)) arr' = drop (Z.to_nat (size - 1)) arr.
Proof.
  intros Hi Hs.
  destruct (shift_down_Ok arr i size ltac:(lia) ltac:(lia))
    as (arr' & E & Hlen & Hk).
  exists arr'. split; [exact E|]. split; [exact Hlen|]. split.
  - apply list_eq. intros k. rewrite lookup_take, lookup_app, lookup_take, Hk.
    destruct (decide (k < Z.to_nat i)%nat) as [Hki|Hki].
    + destruct (decide (k < Z.to_nat (size - 1))%nat); [|lia].
      destruct (decide (i <= Z.of_nat k < size - 1)); [lia|].
      destruct (arr !! k) eqn:Ek; [reflexivity|].
      apply lookup_ge_None in Ek. lia.
    + rewrite length_take, lookup_take, lookup_drop.
      replace (k - Z.to_nat i `min` length arr)%nat with (k - Z.to_nat i)%nat by lia.
      destruct (decide (k < Z.to_nat (size - 1))%nat).
      * destruct (decide (i <= Z.of_nat k < size - 1)); [|lia].
        destruct (decide (k - Z.to_nat i < Z.to_nat (size - 1 - i))%nat); [|lia].
        f_equal. lia.
      * destruct (decide (k - Z.to_nat i < Z.to_nat (size - 1 - i))%nat); [lia|].
        reflexivity.
  - apply list_eq. intros k. rewrite !lookup_drop, Hk.
    destruct (decide _); [lia | reflexivity].
Qed.

Lemma insert_elements (arr1 : list Datatype) (s i : Z) (x : Datatype) :
  0 <= i <= s -> s <= Z.of_nat (length arr1) ->
  take (Z.to_nat i) arr1
  ++ x :: take (Z.to_nat (s + 1 - 1 - i)) (drop (Z.to_nat i) arr1)
  = take (Z.to_nat i) (take (Z.to_nat s) arr1)
    ++ x :: drop (Z.to_nat i) (take (Z.to_nat s) arr1).
Proof.
  intros Hi Hs. rewrite take_take.
  replace (Z.to_nat i `min` Z.to_nat s)%nat with (Z.to_nat i) by lia.
  f_equal. f_equal. rewrite take_drop_commute. f_equal. f_equal. lia.
Qed.

(** [Insert] when there is room. *)
Lemma Array_Insert_room new a (x : Datatype) (i : Z) :
  Array_wf a -> 0 <= i <= m_size a -> m_size a < m_capacity a ->
  exists a',
    Array_Insert new a x i = Ok a' /\
    m_size a' = m_size a + 1 /\ m_capacity a' = m_capacity a /\
    Array_elements a'
    = take (Z.to_nat i) (Array_elements a)
      ++ x :: drop (Z.to_nat i) (Array_elements a) /\
    drop (Z.to_nat (m_size a + 1)) (m_array a')
    = drop (Z.to_nat (m_size a + 1)) (m_array a) /\
    Array_wf a'.
Proof.
  intros [Hs Hb HM] Hi Hroom.
  destruct (insert_cells (m_array a) (m_size a + 1) i x ltac:(lia) ltac:(lia))
    as (arr0 & arr' & E0 & E1 & Hlen & Htake & Hdrop).
  exists (mkArray arr' (m_size a + 1) (m_capacity a)).
  split.
  { unfold Array_Insert.
    destruct (decide (i < 0 \/ i > m_size a)); [lia|].
    destruct (decide (m_size a >= m_capacity a)); [lia|].
    assert (HMin : INT_MIN <= 0) by (unfold INT_MIN; lia).
    rewrite as_int_small by lia. cbn [mbind run_bind m_size m_array m_capacity].
    replace (m_size a + 1 - 1) with (m_size a + 1 - 1) in E0 by lia.
    rewrite E0. cbn [mbind run_bind]. rewrite E1. reflexivity. }
  cbn [m_size m_capacity m_array]. split_and!; try reflexivity.
  - unfold Array_elements. cbn [m_size m_array]. rewrite Htake.
    apply insert_elements; lia.
  - exact Hdrop.
  - split; cbn [m_size m_capacity m_array]; lia.
Qed.



(** [Remove] of an element. *)
Lemma Array_Remove_run a (i : Z) :
  Array_wf a -> 0 <= i < m_size a ->
  exists a',
    Array_Remove a i = Ok a' /\
    m_size a' = m_size a - 1 /\ m_capacity a' = m_capacity a /\
    Array_elements a'
    = take (Z.to_nat i) (Array_elements a)
      ++ drop (Z.to_nat (i + 1)) (Array_elements a) /\
    drop (Z.to_nat (m_size a - 1)) (m_array a')
    = drop (Z.to_nat (m_size a - 1)) (m_array a) /\
    Array_wf a'.
Proof.
  intros [Hs Hb HM] Hi.
  destruct (remove_cells (m_array a) (m_size a) i ltac:(lia) ltac:(lia))
    as (arr' & E & Hlen & Htake & Hdrop).
  exists (mkArray arr' (m_size a - 1) (m_capacity a)).
  split.
  { unfold Array_Remove.
    destruct (decide (i < 0 \/ i >= m_size a)); [lia|].
    rewrite E. reflexivity. }
  cbn [m_size m_capacity m_array]. split_and!; try reflexivity.
  - unfold Array_elements. cbn [m_size m_array]. rewrite Htake, take_take.
    replace (Z.to_nat i `min` Z.to_nat (m_size a))%nat with (Z.to_nat i) by lia.
    f_equal. rewrite take_drop_commute. f_equal. f_equal. lia.
  - exact Hdrop.
  - split; cbn [m_size m_capacity m_array]; lia.
Qed.

Lemma Array_Remove_outside a (i : Z) :
  ~ 0 <= i < m_size a -> Array_Remove a i = Ok a.
Proof.
  intros Hi. unfold Array_Remove.
  destruct (decide (i < 0 \/ i >= m_size a)); [reflexivity | lia].
Qed.

Lemma Array_Insert_outside new a (x : Datatype) (i : Z) :
  ~ 0 <= i <= m_size a -> Array_Insert new a x i = Ok a.
Proof.
  intros Hi. unfold Array_Insert.
  destruct (decide (i < 0 \/ i > m_size a)); [reflexivity | lia].
Qed.

Lemma Array_Insert_wf new a (x : Datatype) (i : Z) a' :
  Array_wf a -> heap_sound new ->
  Array_Insert new a x i = Ok a' ->
  Array_wf a' /\ m_capacity a <= m_capacity a'.
Proof.
  intros Hwf Hnew E. pose proof Hwf as [Hs Hb HM].
  destruct (decide (0 <= i <= m_size a)) as [Hi|Hi];
    [|rewrite Array_Insert_outside in E by exact Hi; injection E as <-;
      split; [exact Hwf | lia]].
  destruct (decide (m_size a < m_capacity a)) as [Hroom|Hfull].
  { destruct (Array_Insert_room new a x i Hwf Hi Hroom)
      as (a1 & E1 & _ & Hc & _ & _ & Hwf1).
    rewrite E1 in E. injection E as <-. split; [exact Hwf1 | lia]. }
  unfold Array_Insert in E.
  destruct (decide (i < 0 \/ i > m_size a)); [lia|].
  destruct (decide (m_size a >= m_capacity a)); [|lia].
  destruct (as_int (m_size a + 1)) as [sz|] eqn:En; [|discriminate].
  cbn [mbind run_bind] in E.
  destruct (Array_Resize new a sz) as [a1|] eqn:Er; [|discriminate].
  cbn [mbind run_bind] in E.
  destruct (Array_Resize_wf new a sz a1 Hwf Hnew Er) as [Hwf1 Hcap1].
  pose proof Hwf1 as [Hs1 Hb1 HM1].
  assert (Hsz : m_size a1 = m_size a \/ m_size a1 = m_size a + 1).
  { unfold as_int in En. destruct (decide _); [|discriminate].
    injection En as <-. unfold Array_Resize in Er.
    destruct (decide (m_size a + 1 < 0)); [lia|].
    destruct (decide (m_size a + 1 <= m_capacity a)); [lia|].
    destruct (grow_capacity _ _ _); [|discriminate].
    cbn [mbind run_bind] in Er. destruct (new _).
    - destruct (for_range 0 _ _ _); [|discriminate].
      cbn [mbind run_bind] in Er.
      destruct (for_range _ _ _ _); [|discriminate].
      injection Er as <-. right. reflexivity.
    - injection Er as <-. left. reflexivity. }
  destruct (decide (i < m_size a1)) as [Hlt|Hge].
  - destruct (insert_cells (m_array a1) (m_size a1) i x ltac:(lia) ltac:(lia))
      as (arr0 & arr' & E0 & E1 & Hlen & _ & _).
    rewrite E0 in E. cbn [mbind run_bind] in E. rewrite E1 in E.
    injection E as <-. split; [|cbn [m_capacity]; lia].
    split; cbn [m_size m_capacity m_array]; lia.
  - rewrite for_down_empty in E by lia. cbn [mbind run_bind] in E.
    destruct (aset (m_array a1) i x) as [arr'|] eqn:E1; [|discriminate].
    injection E as <-. apply aset_length in E1.
    split; [|cbn [m_capacity]; lia].
    split; cbn [m_size m_capacity m_array]; lia.
Qed.

Lemma Array_Remove_wf a (i : Z) a' :
  Array_wf a -> Array_Remove a i = Ok a' ->
  Array_wf a' /\ m_capacity a' = m_capacity a.
Proof.
  intros Hwf E. destruct (decide (0 <= i < m_size a)) as [Hi|Hi].
  - destruct (Array_Remove_run a i Hwf Hi) as (a1 & E1 & _ & Hc & _ & _ & Hwf1).
    rewrite E1 in E. injection E as <-. auto.
  - rewrite Array_Remove_outside in E by exact Hi. injection E as <-. auto.
Qed.

Lemma Array_store_wf a (i : Z) (x : Datatype) a' :
  Array_wf a -> Array_store a i x = Ok a' ->
  Array_wf a' /\ m_capacity a' = m_capacity a.
Proof.
  intros [Hs Hb HM] E. unfold Array_store in E.
  destruct (decide _); [|discriminate].
  destruct (aset (m_array a) i x) as [arr|] eqn:Ea; [|discriminate].
  injection E as <-. apply aset_length in Ea.
  split; [|reflexivity]. split; cbn [m_size m_capacity m_array]; lia.
Qed.

Lemma Array_Clear_wf a : Array_wf a -> Array_wf (Array_Clear a).
Proof.
  intros [Hs Hb HM]. split; cbn [Array_Clear m_size m_capacity m_array]; lia.
Qed.

Lemma Array_reachable_wf new a :
  heap_sound new -> Array_reachable new a -> Array_wf a.
Proof.
  intros Hnew Hr.
  induction Hr as [p Hp | a p a' _ IH _ E | a i x a' _ IH E
                  | a x i a' _ IH _ E | a i a' _ IH E | a _ IH].
  - apply Array_ctor_wf. lia.
  - apply (Array_Resize_wf new a p a' IH Hnew E).
  - apply (Array_store_wf a i x a' IH E).
  - apply (Array_Insert_wf new a x i a' IH Hnew E).
  - apply (Array_Remove_wf a i a' IH E).
  - apply Array_Clear_wf, IH.
Qed.

End ArrayFacts.

Lemma plentiful_sound {Datatype : Type} (junk : Datatype) :
  heap_sound (plentiful junk).
Proof.
  intros n block E. unfold plentiful in E.
  destruct (decide (0 <= n)); [|discriminate].
  injection E as <-. rewrite length_replicate. lia.
Qed.

Lemma exhausted_sound {Datatype : Type} :
  heap_sound (exhausted (Datatype:=Datatype)).
Proof. intros n block E. discriminate. Qed.

(** ** Array.h: arrays built with copies *)

Lemma for_loop_keeps {S : Type} (R : S -> Prop) (body : Z -> S -> run S) :
  (forall i s s', body i s = Ok s' -> R s -> R s') ->
  forall (n : nat) (i : Z) (s s' : S),
    for_loop n i body s = Ok s' -> R s -> R s'.
Proof.
  intros Hbody. induction n as [|n IH]; intros i s s' E HR.
  - injection E as <-. exact HR.
  - simpl in E. destruct (body i s) as [t|] eqn:Eb; [|discriminate].
    cbn [mbind run_bind] in E. apply (IH _ _ _ E). apply (Hbody _ _ _ Eb HR).
Qed.

Lemma for_down_loop_keeps {S : Type} (R : S -> Prop) (body : Z -> S -> run S) :
  (forall i s s', body i s = Ok s' -> R s -> R s') ->
  forall (n : nat) (i : Z) (s s' : S),
    for_down_loop n i body s = Ok s' -> R s -> R s'.
Proof.
  intros Hbody. induction n as [|n IH]; intros i s s' E HR.
  - injection E as <-. exact HR.
  - simpl in E. destruct (body i s) as [t|] eqn:Eb; [|discriminate].
    cbn [mbind run_bind] in E. apply (IH _ _ _ E). apply (Hbody _ _ _ Eb HR).
Qed.

(** The loops of the class keep the number of cells of the block they
    write. *)
Lemma move_cell_length {A : Type} (src : list A) (f g : Z -> Z) (i : Z)
    (arr arr' : list A) (n : nat) :
  (x ← aget src (f i); aset arr (g i) x) = Ok arr' ->
  length arr = n -> length arr' = n.
Proof.
  intros E Hn. destruct (aget src (f i)) as [x|]; [|discriminate].
  cbn [mbind run_bind] in E. apply aset_length in E. lia.
Qed.

Lemma shift_cell_length {A : Type} (f g : Z -> Z) (i : Z)
    (arr arr' : list A) (n : nat) :
  (x ← aget arr (f i); aset arr (g i) x) = Ok arr' ->
  length arr = n -> length arr' = n.
Proof.
  intros E Hn. destruct (aget arr (f i)) as [x|]; [|discriminate].
  cbn [mbind run_bind] in E. apply aset_length in E. lia.
Qed.

Section ArrayBuilt.
Context {Datatype : Type} `{Inhabited Datatype}.
Implicit Types (a : Array Datatype) (new : heap (Datatype:=Datatype)).

Lemma Array_wf_shape a : Array_wf a -> Array_shape a.
Proof. intros [Hs Hb HM]. split; auto. Qed.

Lemma Array_shape_block a (arr : list Datatype) :
  Array_shape a -> length arr = length (m_array a) ->
  Z.of_nat (length arr) = m_capacity a \/ arr = [].
Proof.
  intros [_ _ [Hb|Hnull]] Hlen; [left; lia|].
  right. rewrite Hnull in Hlen. destruct arr; [reflexivity | discriminate].
Qed.

Lemma Array_Resize_shape new a (p_size : Z) a' :
  Array_shape a -> heap_sound new ->
  Array_Resize new a p_size = Ok a' ->
  Array_shape a' /\ m_capacity a <= m_capacity a' /\
  (m_size a' = m_size a \/ m_size a' = p_size).
Proof.
  intros Hsh Hnew E. pose proof Hsh as [Hs HM Hb].
  unfold Array_Resize in E.
  destruct (decide (p_size < 0)); [injection E as <-; auto with lia|].
  destruct (decide (p_size <= m_capacity a)).
  { injection E as <-. cbn [m_size m_capacity m_array].
    split_and!; [|lia | auto]. split; cbn [m_size m_capacity m_array]; auto.
    lia. }
  destruct (grow_capacity (Z.to_nat p_size) (m_capacity a) p_size)
    as [c|] eqn:Eg; [|discriminate].
  cbn [mbind run_bind] in E.
  assert (Hc0 : 0 <= m_capacity a <= INT_MAX) by lia.
  destruct (grow_capacity_inv _ _ _ _ Hc0 Eg) as (Hpc & Hcc & _ & _).
  destruct (new c) as [block|] eqn:En; [|injection E as <-; auto with lia].
  apply Hnew in En.
  destruct (for_range 0 _ _ block) as [arr1|] eqn:E1; [|discriminate].
  cbn [mbind run_bind] in E.
  destruct (for_range _ p_size _ arr1) as [arr2|] eqn:E2; [|discriminate].
  injection E as <-. cbn [m_size m_capacity m_array].
  assert (Hl1 : length arr1 = length block).
  { unfold for_range in E1.
    apply (for_loop_keeps (fun arr => length arr = length block) _
             (fun i s s' Eb => move_cell_length (m_array a) id id i s s' _ Eb)
             _ _ _ _ E1 eq_refl). }
  assert (Hl2 : length arr2 = length block).
  { unfold for_range in E2.
    apply (for_loop_keeps (fun arr => length arr = length block) _
             (fun i s s' Eb Hl => eq_trans (aset_length _ _ _ _ Eb) Hl)
             _ _ _ _ E2 Hl1). }
  split_and!; [|lia | auto].
  split; cbn [m_size m_capacity m_array]; [lia | lia | left; lia].
Qed.

Lemma Array_Insert_shape new a (x : Datatype) (i : Z) a' :
  Array_shape a -> heap_sound new ->
  Array_Insert new a x i = Ok a' ->
  Array_shape a' /\ m_capacity a <= m_capacity a'.
Proof.
  intros Hsh Hnew E. pose proof Hsh as [Hs HM Hb].
  unfold Array_Insert in E.
  destruct (decide (i < 0 \/ i > m_size a)); [injection E as <-; auto with lia|].
  assert (Hroom : exists a1,
            (if decide (m_size a >= m_capacity a)
             then n ← as_int (m_size a + 1); Array_Resize new a n
             else n ← as_int (m_size a + 1);
                  Ok (mkArray (m_array a) n (m_capacity a))) = Ok a1 /\
            Array_shape a1 /\ m_capacity a <= m_capacity a1).
  { destruct (decide (m_size a >= m_capacity a)).
    - destruct (as_int (m_size a + 1)) as [sz|]; [|discriminate].
      cbn [mbind run_bind] in E |- *.
      destruct (Array_Resize new a sz) as [a1|] eqn:Er; [|discriminate].
      exists a1. split; [reflexivity|].
      destruct (Array_Resize_shape new a sz a1 Hsh Hnew Er) as (H1 & H2 & _).
      auto.
    - assert (HMin : INT_MIN <= 0) by (unfold INT_MIN; lia).
      rewrite as_int_small by lia. cbn [mbind run_bind].
      eexists. split; [reflexivity|]. cbn [m_capacity]. split; [|lia].
      split; cbn [m_size m_capacity m_array]; auto. lia. }
  destruct Hroom as (a1 & E1 & Hsh1 & Hc1). rewrite E1 in E.
  cbn [mbind run_bind] in E.
  destruct (for_down _ i _ (m_array a1)) as [arr0|] eqn:E0; [|discriminate].
  cbn [mbind run_bind] in E.
  destruct (aset arr0 i x) as [arr|] eqn:Ea; [|discriminate].
  injection E as <-. cbn [m_capacity]. split; [|exact Hc1].
  assert (Hl0 : length arr0 = length (m_array a1)).
  { unfold for_down in E0.
    apply (for_down_loop_keeps (fun arr => length arr = length (m_array a1)) _
             (fun j s s' Eb =>
                shift_cell_length (fun j => j - 1) id j s s' _ Eb)
             _ _ _ _ E0 eq_refl). }
  apply aset_length in Ea. pose proof Hsh1 as [Hs1 HM1 _].
  split; cbn [m_size m_capacity m_array]; [lia | lia |].
  apply (Array_shape_block a1); [exact Hsh1 | lia].
Qed.

Lemma Array_Remove_shape a (i : Z) a' :
  Array_shape a -> Array_Remove a i = Ok a' ->
  Array_shape a' /\ m_capacity a' = m_capacity a.
Proof.
  intros Hsh E. pose proof Hsh as [Hs HM Hb]. unfold Array_Remove in E.
  destruct (decide (i < 0 \/ i >= m_size a)); [injection E as <-; auto|].
  destruct (for_range _ _ _ (m_array a)) as [arr|] eqn:E0; [|discriminate].
  injection E as <-. cbn [m_capacity]. split; [|reflexivity].
  assert (Hl0 : length arr = length (m_array a)).
  { unfold for_range in E0.
    apply (for_loop_keeps (fun arr => length arr = length (m_array a)) _
             (fun j s s' Eb =>
                shift_cell_length id (fun j => j - 1) j s s' _ Eb)
             _ _ _ _ E0 eq_refl). }
  split; cbn [m_size m_capacity m_array]; [lia | lia |].
  apply (Array_shape_block a); assumption.
Qed.

Lemma Array_store_shape a (i : Z) (x : Datatype) a' :
  Array_shape a -> Array_store a i x = Ok a' ->
  Array_shape a' /\ m_capacity a' = m_capacity a.
Proof.
  intros Hsh E. pose proof Hsh as [Hs HM Hb]. unfold Array_store in E.
  destruct (decide _); [|discriminate].
  destruct (aset (m_array a) i x) as [arr|] eqn:Ea; [|discriminate].
  injection E as <-. apply aset_length in Ea.
  split; [|reflexivity]. split; cbn [m_size m_capacity m_array]; [lia | lia |].
  apply (Array_shape_block a); assumption.
Qed.

Lemma Array_copy_shape (fresh : list Datatype) a a' :
  Array_shape a -> Z.of_nat (length fresh) = m_capacity a ->
  Array_copy fresh a = Ok a' -> Array_shape a'.
Proof.
  intros [Hs HM Hb] Hfresh E. unfold Array_copy in E.
  destruct (decide (m_size a > 0)).
  - destruct (for_range 0 _ _ fresh) as [arr|] eqn:E0; [|discriminate].
    injection E as <-.
    assert (Hl0 : length arr = length fresh).
    { unfold for_range in E0.
      apply (for_loop_keeps (fun arr => length arr = length fresh) _
               (fun j s s' Eb => move_cell_length (m_array a) id id j s s' _ Eb)
               _ _ _ _ E0 eq_refl). }
    split; cbn [m_size m_capacity m_array]; [lia | lia | left; lia].
  - injection E as <-. split; cbn [m_size m_capacity m_array]; auto.
Qed.

Lemma Array_built_shape new a :
  heap_sound new -> Array_built new a -> Array_shape a.
Proof.
  intros Hnew Hb.
  induction Hb as [p Hp | other fresh a _ IH Hf E | a p a' _ IH _ E
                  | a i x a' _ IH E | a x i a' _ IH _ E | a i a' _ IH E
                  | a _ IH].
  - apply Array_wf_shape, Array_ctor_wf. lia.
  - apply (Array_copy_shape fresh other a IH Hf E).
  - apply (Array_Resize_shape new a p a' IH Hnew E).
  - apply (Array_store_shape a i x a' IH E).
  - apply (Array_Insert_shape new a x i a' IH Hnew E).
  - apply (Array_Remove_shape a i a' IH E).
  - destruct IH as [Hs HM Hbl].
    split; cbn [Array_Clear m_size m_capacity m_array]; auto. lia.
Qed.

Lemma Array_reachable_built new a : Array_reachable new a -> Array_built new a.
Proof.
  induction 1 as [p Hp | a p a' _ IH Hp E | a i x a' _ IH E
                 | a x i a' _ IH Hi E | a i a' _ IH E | a _ IH].
  - apply abuilt_ctor. exact Hp.
  - eapply abuilt_Resize; eassumption.
  - eapply abuilt_store; eassumption.
  - eapply abuilt_Insert; eassumption.
  - eapply abuilt_Remove; eassumption.
  - apply abuilt_Clear. exact IH.
Qed.

(** [Resize] beyond the capacity of an array whose elements are all in
    its block. *)
Lemma Array_Resize_grow_shape new a (p_size c : Z) :
  Array_shape a -> m_size a <= Z.of_nat (length (m_array a)) ->
  heap_sound new -> m_capacity a < p_size ->
  grow_capacity (Z.to_nat p_size) (m_capacity a) p_size = Ok c ->
  Array_Resize new a p_size
  = match new c with
    | None => Ok a
    | Some block =>
        Ok (mkArray (Array_elements a
                     ++ replicate (Z.to_nat (p_size - m_size a)) inhabitant
                     ++ drop (Z.to_nat p_size) block) p_size c)
    end.
Proof.
  intros [Hs HM Hb] Hel Hnew Hlt Eg.
  assert (Hc0 : 0 <= m_capacity a <= INT_MAX) by lia.
  destruct (grow_capacity_inv _ _ _ _ Hc0 Eg) as (Hpc & Hcc & _ & _).
  unfold Array_Resize.
  destruct (decide (p_size < 0)); [lia|].
  destruct (decide (p_size <= m_capacity a)); [lia|].
  rewrite Eg. cbn [mbind run_bind].
  destruct (new c) as [block|] eqn:En; [|reflexivity].
  apply Hnew in En.
  destruct (decide (p_size < m_size a)); [lia|].
  rewrite copy_loop_Ok by lia. cbn [mbind run_bind].
  rewrite fill_loop_Ok
    by (rewrite ?length_app, ?length_take, ?length_drop; lia).
  cbn [mbind run_bind]. f_equal. f_equal. unfold Array_elements.
  rewrite take_app_length' by (rewrite length_take; lia).
  f_equal. f_equal.
  rewrite drop_app_ge by (rewrite length_take; lia).
  rewrite length_take, drop_drop. f_equal. lia.
Qed.

(** [Resize] beyond the capacity of an array that has elements but no
    block. *)
Lemma Array_Resize_null new a (p_size c : Z) :
  Array_shape a -> m_array a = [] -> 0 < m_size a ->
  m_capacity a < p_size ->
  grow_capacity (Z.to_nat p_size) (m_capacity a) p_size = Ok c ->
  Array_Resize new a p_size
  = match new c with
    | None => Ok a
    | Some _ => Fault
    end.
Proof.
  intros [Hs HM Hb] Hnull Hpos Hlt Eg. unfold Array_Resize.
  destruct (decide (p_size < 0)); [lia|].
  destruct (decide (p_size <= m_capacity a)); [lia|].
  rewrite Eg. cbn [mbind run_bind].
  destruct (new c) as [block|] eqn:En; [|reflexivity].
  destruct (decide (p_size < m_size a)); [lia|].
  unfold for_range.
  replace (Z.to_nat (m_size a - 0)) with (Datatypes.S (Z.to_nat (m_size a - 1)))
    by lia.
  cbn [for_loop]. rewrite Hnull. reflexivity.
Qed.

End ArrayBuilt.

Section ArrayBuiltCases.
Context {Datatype : Type} `{Inhabited Datatype}.
Implicit Types (a : Array Datatype).

(** An array built has its elements in its block, or has elements and
    no block. *)
Lemma Array_shape_in_block a :
  Array_shape a -> m_size a <= Z.of_nat (length (m_array a)) ->
  Array_wf a \/ (m_array a = [] /\ m_size a = 0).
Proof.
  intros [Hs HM [Hb|Hnull]] Hin.
  - left. split; assumption.
  - right. split; [exact Hnull|]. rewrite Hnull in Hin. cbn [length] in Hin.
    lia.
Qed.

Lemma Array_shape_no_block a :
  Array_shape a -> Z.of_nat (length (m_array a)) < m_size a ->
  m_array a = [] /\ 0 < m_size a.
Proof.
  intros [Hs HM [Hb|Hnull]] Hout; [lia|].
  split; [exact Hnull|]. rewrite Hnull in Hout. cbn [length] in Hout. lia.
Qed.

Lemma Array_copy_elements (fresh : list Datatype) a :
  0 < m_size a <= Z.of_nat (length (m_array a)) ->
  m_size a <= Z.of_nat (length fresh) ->
  Array_copy fresh a
  = Ok (mkArray (Array_elements a ++ drop (Z.to_nat (m_size a)) fresh)
          (m_size a) (m_capacity a)).
Proof.
  intros Hs Hf. unfold Array_copy.
  destruct (decide (m_size a > 0)); [|lia].
  rewrite copy_loop_Ok by lia. reflexivity.
Qed.

Lemma Array_copy_empty (fresh : list Datatype) a :
  m_size a = 0 -> Array_copy fresh a = Ok (mkArray [] 0 (m_capacity a)).
Proof.
  intros Hs. unfold Array_copy. destruct (decide (m_size a > 0)); [lia|].
  rewrite Hs. reflexivity.
Qed.

Lemma Array_copy_null (fresh : list Datatype) a :
  m_array a = [] -> 0 < m_size a -> Array_copy fresh a = Fault.
Proof.
  intros Hnull Hs. unfold Array_copy.
  destruct (decide (m_size a > 0)); [|lia]. unfold for_range.
  replace (Z.to_nat (m_size a - 0)) with (Datatypes.S (Z.to_nat (m_size a - 1)))
    by lia.
  cbn [for_loop]. rewrite Hnull. reflexivity.
Qed.

Lemma Array_store_null a (i : Z) (x : Datatype) :
  m_array a = [] -> Array_store a i x = Fault.
Proof.
  intros Hnull. unfold Array_store. destruct (decide _); [|reflexivity].
  rewrite Hnull. unfold aset. destruct (decide _); [|reflexivity].
  cbn [length] in *. lia.
Qed.

Lemma Array_Remove_null a (i : Z) :
  m_array a = [] -> 0 <= i < m_size a - 1 -> Array_Remove a i = Fault.
Proof.
  intros Hnull Hi. unfold Array_Remove.
  destruct (decide (i < 0 \/ i >= m_size a)); [lia|]. unfold for_range.
  replace (Z.to_nat (m_size a - (i + 1)))
    with (Datatypes.S (Z.to_nat (m_size a - (i + 1) - 1))) by lia.
  cbn [for_loop]. rewrite Hnull. unfold aget.
  destruct (decide _); reflexivity.
Qed.

End ArrayBuiltCases.

(** * The resizable array of [Array.h] *)

Lemma Array_reachable_sample (new : heap) : Array_reachable new sample_array.
Proof.
  apply (areach_Resize new (mkArray [10; 20; 30; inhabitant] 4 4) 3);
    [|unfold INT_MIN, INT_MAX; lia | reflexivity].
  apply (areach_store new (mkArray [10; 20; inhabitant; inhabitant] 4 4) 2 30);
    [|reflexivity].
  apply (areach_store new (mkArray [10; inhabitant; inhabitant; inhabitant] 4 4)
           1 20); [|reflexivity].
  apply (areach_store new (Array_ctor 4) 0 10); [|reflexivity].
  apply areach_ctor. unfold INT_MIN, INT_MAX. lia.
Qed.

Lemma Array_built_sample (new : heap) : Array_built new sample_array.
Proof. apply Array_reachable_built, Array_reachable_sample. Qed.

Lemma Array_built_sample_copy (new : heap) : Array_built new sample_copy.
Proof.
  apply (abuilt_Resize new (mkArray [] 0 4) 3);
    [|unfold INT_MIN, INT_MAX; lia | reflexivity].
  apply (abuilt_copy new (Array_Clear (Array_ctor 4)) [0; 0; 0; 0]);
    [|reflexivity | reflexivity].
  apply abuilt_Clear, abuilt_ctor. unfold INT_MIN, INT_MAX. lia.
Qed.

(** [Resize] beyond the capacity, on every array a program can build,
    copies included: the growth loop (half as much again, plus one,
    until [p_size] is reached) ends with a capacity [c] above the old
    one and between [p_size] and [p_size + (p_size - 1) / 2]; as long as
    that bound is an [int] nothing overflows.  When the heap refuses the
    request for [c] cells, the array is returned as it was.  When the
    heap answers it, an array whose elements are all in its block gets
    size [p_size], capacity [c], its old elements in their places and
    [Datatype{}] in every new place; an array that counts more elements
    than its block has cells (the copy of a cleared array, resized
    within its capacity: it has no block) is read through its null
    pointer.  An array built without copies has its elements in its
    block. *)
Theorem Array_Resize_grows {Datatype : Type} `{Inhabited Datatype}
    (new : heap) (a : Array Datatype) (p_size : Z) :
  heap_sound new -> Array_built new a ->
  m_capacity a < p_size -> p_size + (p_size - 1) `div` 2 <= INT_MAX ->
  exists c,
    p_size <= c <= p_size + (p_size - 1) `div` 2 /\ m_capacity a < c /\
    match new c with
    | None => Array_Resize new a p_size = Ok a
    | Some _ =>
        (Array_Size a <= Z.of_nat (length (m_array a)) ->
         exists a', Array_Resize new a p_size = Ok a' /\
                    Array_Size a' = p_size /\ Array_Capacity a' = c /\
                    Array_elements a'
                    = Array_elements a
                      ++ replicate (Z.to_nat (p_size - Array_Size a))
                           inhabitant) /\
        (Z.of_nat (length (m_array a)) < Array_Size a ->
         Array_Resize new a p_size = Fault)
    end /\
    (Array_reachable new a -> Array_Size a <= Z.of_nat (length (m_array a))).
Proof.
  intros Hnew Hb Hlt Hbound.
  pose proof (Array_built_shape new a Hnew Hb) as Hsh.
  pose proof Hsh as [Hs HM _].
  destruct (grow_capacity_Ok (Z.to_nat p_size) (m_capacity a) p_size)
    as (c & Eg & Hpc & _ & _ & _ & Hgrow); try lia.
  exists c. split; [lia|]. split; [lia|]. split.
  - destruct (new c) as [block|] eqn:En.
    + split.
      * intros Hin. unfold Array_Size in Hin.
        rewrite (Array_Resize_grow_shape new a p_size c Hsh Hin Hnew Hlt Eg).
        rewrite En. eexists. split; [reflexivity|].
        unfold Array_Size, Array_Capacity.
        cbn [m_size m_capacity m_array]. split_and!; try reflexivity.
        unfold Array_elements at 1. cbn [m_size m_array].
        rewrite app_assoc. apply take_app_length'.
        unfold Array_elements.
        rewrite length_app, length_replicate, length_take. lia.
      * intros Hout. unfold Array_Size in Hout.
        destruct (Array_shape_no_block a Hsh Hout) as [Hnull Hpos].
        rewrite (Array_Resize_null new a p_size c Hsh Hnull Hpos Hlt Eg).
        rewrite En. reflexivity.
    + destruct (decide (m_size a <= Z.of_nat (length (m_array a)))) as [Hin|Hout].
      * rewrite (Array_Resize_grow_shape new a p_size c Hsh Hin Hnew Hlt Eg).
        rewrite En. reflexivity.
      * destruct (Array_shape_no_block a Hsh ltac:(lia)) as [Hnull Hpos].
        rewrite (Array_Resize_null new a p_size c Hsh Hnull Hpos Hlt Eg).
        rewrite En. reflexivity.
  - intros Hr. destruct (Array_reachable_wf new a Hnew Hr) as [Hs' Hbl _].
    unfold Array_Size. lia.
Qed.

Lemma Array_Resize_grows_witness :
  (exists c,
     6 <= c <= 6 + (6 - 1) `div` 2 /\ m_capacity sample_array < c /\
     match plentiful 7 c with
     | None => Array_Resize (plentiful 7) sample_array 6 = Ok sample_array
     | Some _ =>
         (Array_Size sample_array
          <= Z.of_nat (length (m_array sample_array)) ->
          exists a', Array_Resize (plentiful 7) sample_array 6 = Ok a' /\
                     Array_Size a' = 6 /\ Array_Capacity a' = c /\
                     Array_elements a'
                     = Array_elements sample_array
                       ++ replicate (Z.to_nat (6 - Array_Size sample_array))
                            inhabitant) /\
         (Z.of_nat (length (m_array sample_array)) < Array_Size sample_array ->
          Array_Resize (plentiful 7) sample_array 6 = Fault)
     end /\
     (Array_reachable (plentiful 7) sample_array ->
      Array_Size sample_array <= Z.of_nat (length (m_array sample_array)))) /\
  (exists c,
     6 <= c <= 6 + (6 - 1) `div` 2 /\ m_capacity sample_copy < c /\
     match plentiful 7 c with
     | None => Array_Resize (plentiful 7) sample_copy 6 = Ok sample_copy
     | Some _ =>
         (Array_Size sample_copy <= Z.of_nat (length (m_array sample_copy)) ->
          exists a', Array_Resize (plentiful 7) sample_copy 6 = Ok a' /\
                     Array_Size a' = 6 /\ Array_Capacity a' = c /\
                     Array_elements a'
                     = Array_elements sample_copy
                       ++ replicate (Z.to_nat (6 - Array_Size sample_copy))
                            inhabitant) /\
         (Z.of_nat (length (m_array sample_copy)) < Array_Size sample_copy ->
          Array_Resize (plentiful 7) sample_copy 6 = Fault)
     end /\
     (Array_reachable (plentiful 7) sample_copy ->
      Array_Size sample_copy <= Z.of_nat (length (m_array sample_copy)))).
Proof.
  split.
  - apply (Array_Resize_grows (plentiful 7) sample_array 6).
    + apply plentiful_sound.
    + apply Array_built_sample.
    + vm_compute. reflexivity.
    + vm_compute. discriminate.
  - apply (Array_Resize_grows (plentiful 7) sample_copy 6).
    + apply plentiful_sound.
    + apply Array_built_sample_copy.
    + vm_compute. reflexivity.
    + vm_compute. discriminate.
Defined.

(** [Resize] within the capacity only sets the size: the block is
    neither replaced nor written.  Shrinking to [n] keeps the first [n]
    elements, and resizing back (also after [Clear]) brings the old
    elements back as they were, not [Datatype{}]. *)
Theorem Array_Resize_within_capacity {Datatype : Type} `{Inhabited Datatype}
    (new : heap) (a : Array Datatype) (n : Z) :
  heap_sound new -> Array_reachable new a -> 0 <= n <= Array_Size a ->
  exists a1,
    Array_Resize new a n = Ok a1 /\
    Array_Size a1 = n /\ Array_Capacity a1 = Array_Capacity a /\
    m_array a1 = m_array a /\
    Array_elements a1 = take (Z.to_nat n) (Array_elements a) /\
    Array_Resize new a1 (Array_Size a) = Ok a /\
    Array_elements (Array_Clear a) = [] /\
    Array_Resize new (Array_Clear a) (Array_Size a) = Ok a.
Proof.
  intros Hnew Hr Hn. unfold Array_Size, Array_Capacity in *.
  pose proof (Array_reachable_wf new a Hnew Hr) as [Hs Hb HM].
  exists (mkArray (m_array a) n (m_capacity a)).
  cbn [m_size m_capacity m_array]. split_and!; try reflexivity.
  - unfold Array_Resize. destruct (decide (n < 0)); [lia|].
    destruct (decide (n <= m_capacity a)); [reflexivity | lia].
  - unfold Array_elements. cbn [m_size m_array]. rewrite take_take.
    f_equal. lia.
  - unfold Array_Resize. cbn [m_size m_capacity m_array].
    destruct (decide (m_size a < 0)); [lia|].
    destruct (decide (m_size a <= m_capacity a)); [|lia].
    destruct a; reflexivity.
  - unfold Array_Resize, Array_Clear. cbn [m_size m_capacity m_array].
    destruct (decide (m_size a < 0)); [lia|].
    destruct (decide (m_size a <= m_capacity a)); [|lia].
    destruct a; reflexivity.
Qed.

Lemma Array_Resize_within_capacity_witness :
  exists a1,
    Array_Resize exhausted sample_array 1 = Ok a1 /\
    Array_Size a1 = 1 /\ Array_Capacity a1 = Array_Capacity sample_array /\
    m_array a1 = m_array sample_array /\
    Array_elements a1 = take (Z.to_nat 1) (Array_elements sample_array) /\
    Array_Resize exhausted a1 (Array_Size sample_array) = Ok sample_array /\
    Array_elements (Array_Clear sample_array) = [] /\
    Array_Resize exhausted (Array_Clear sample_array) (Array_Size sample_array)
    = Ok sample_array.
Proof.
  apply (Array_Resize_within_capacity exhausted sample_array 1).
  - apply exhausted_sound.
  - apply Array_reachable_sample.
  - vm_compute. split; discriminate.
Defined.











(** The growth arithmetic of [Resize] is done in [int]: on an array
    whose capacity [c] has [c + c / 2 + 1] above [INT_MAX] (from
    1431655765 cells on), every [Resize] beyond the capacity and every
    [Insert] into the full array overflows a signed integer. *)
Theorem Array_Resize_overflow {Datatype : Type} `{Inhabited Datatype}
    (new : heap) (a : Array Datatype) (p_size : Z) :
  heap_sound new -> Array_reachable new a ->
  INT_MAX < Array_Capacity a + Array_Capacity a `div` 2 + 1 ->
  Array_Capacity a < p_size ->
  Array_Resize new a p_size = Fault /\
  (Array_Size a = Array_Capacity a ->
   forall x i, 0 <= i <= Array_Size a -> Array_Insert new a x i = Fault).
Proof.
  intros Hnew Hr Hov Hlt. unfold Array_Size, Array_Capacity in *.
  pose proof (Array_reachable_wf new a Hnew Hr) as [Hs Hb HM].
  assert (Hres : forall p, m_capacity a < p -> Array_Resize new a p = Fault).
  { intros p Hp. unfold Array_Resize.
    destruct (decide (p < 0)); [lia|].
    destruct (decide (p <= m_capacity a)); [lia|].
    replace (Z.to_nat p) with (Datatypes.S (Z.to_nat (p - 1))) by lia.
    rewrite grow_capacity_overflow by lia. reflexivity. }
  split; [apply Hres; exact Hlt|].
  intros Hfull x i Hi. unfold Array_Insert.
  destruct (decide (i < 0 \/ i > m_size a)); [lia|].
  destruct (decide (m_size a >= m_capacity a)); [|lia].
  unfold as_int. destruct (decide _); [|reflexivity].
  cbn [mbind run_bind]. rewrite Hres by lia. reflexivity.
Qed.

Lemma Array_Resize_overflow_witness :
  Array_Resize (plentiful 7) (Array_ctor 1500000000) 2000000000 = Fault /\
  (Array_Size (Array_ctor (Datatype:=Z) 1500000000)
   = Array_Capacity (Array_ctor (Datatype:=Z) 1500000000) ->
   forall x i, 0 <= i <= Array_Size (Array_ctor (Datatype:=Z) 1500000000) ->
               Array_Insert (plentiful 7) (Array_ctor 1500000000) x i = Fault).
Proof.
  apply (Array_Resize_overflow (plentiful 7) (Array_ctor 1500000000) 2000000000).
  - apply plentiful_sound.
  - apply areach_ctor. unfold INT_MIN, INT_MAX. lia.
  - unfold Array_Capacity, Array_ctor. destruct (decide _); [|lia].
    cbn [m_capacity]. vm_compute. reflexivity.
  - unfold Array_Capacity, Array_ctor. destruct (decide _); [|lia].
    cbn [m_capacity]. lia.
Defined.

(** What every array a program can build satisfies, copies included:
    the size is between 0 and the capacity, the capacity is an [int],
    and the block has as many cells as the capacity says or is missing;
    built without copies, the block has them.  When the elements are all
    in the block, there are [Size()] of them and [Remove] returns for
    every index.  No operation ever gives cells back: [Resize] and
    [Insert] leave the capacity as it is or raise it, [Remove] and
    [Clear] leave it as it is, and [Clear] empties the array. *)
Theorem Array_never_shrinks {Datatype : Type} `{Inhabited Datatype}
    (new : heap) (a : Array Datatype) :
  heap_sound new -> Array_built new a ->
  0 <= Array_Size a <= Array_Capacity a /\ Array_Capacity a <= INT_MAX /\
  (Z.of_nat (length (m_array a)) = Array_Capacity a \/ m_array a = []) /\
  (Array_reachable new a ->
   Z.of_nat (length (m_array a)) = Array_Capacity a) /\
  (Array_Size a <= Z.of_nat (length (m_array a)) ->
   Z.of_nat (length (Array_elements a)) = Array_Size a /\
   forall i, exists a', Array_Remove a i = Ok a' /\
                        Array_Capacity a' = Array_Capacity a) /\
  (forall p a', Array_Resize new a p = Ok a' ->
                Array_Capacity a <= Array_Capacity a') /\
  (forall x i a', Array_Insert new a x i = Ok a' ->
                  Array_Capacity a <= Array_Capacity a') /\
  (forall i a', Array_Remove a i = Ok a' ->
                Array_Capacity a' = Array_Capacity a) /\
  Array_Capacity (Array_Clear a) = Array_Capacity a /\
  Array_Empty (Array_Clear a) = true.
Proof.
  intros Hnew Hb. unfold Array_Size, Array_Capacity.
  pose proof (Array_built_shape new a Hnew Hb) as Hsh.
  pose proof Hsh as [Hs HM Hbl].
  split; [exact Hs|]. split; [exact HM|]. split; [exact Hbl|].
  split; [intros Hr; apply (Array_reachable_wf new a Hnew Hr)|].
  split.
  { intros Hin.
    destruct (Array_shape_in_block a Hsh Hin) as [Hwf|[Hnull H0]].
    - split; [apply Array_elements_length, Hwf|].
      intros i. destruct (decide (0 <= i < m_size a)) as [Hi|Hi].
      + destruct (Array_Remove_run a i Hwf Hi) as (a' & E & _ & Hc & _).
        exists a'. auto.
      + exists a. split; [apply Array_Remove_outside; exact Hi | reflexivity].
    - split.
      + unfold Array_elements. rewrite Hnull, H0. reflexivity.
      + intros i. exists a.
        split; [apply Array_Remove_outside; lia | reflexivity]. }
  split_and!; try reflexivity.
  - intros p a' E. apply (Array_Resize_shape new a p a' Hsh Hnew E).
  - intros x i a' E. apply (Array_Insert_shape new a x i a' Hsh Hnew E).
  - intros i a' E. apply (Array_Remove_shape a i a' Hsh E).
Qed.

Lemma Array_never_shrinks_witness :
  (0 <= Array_Size sample_array <= Array_Capacity sample_array /\
   Array_Capacity sample_array <= INT_MAX /\
   (Z.of_nat (length (m_array sample_array)) = Array_Capacity sample_array \/
    m_array sample_array = []) /\
   (Array_reachable (plentiful 7) sample_array ->
    Z.of_nat (length (m_array sample_array)) = Array_Capacity sample_array) /\
   (Array_Size sample_array <= Z.of_nat (length (m_array sample_array)) ->
    Z.of_nat (length (Array_elements sample_array)) = Array_Size sample_array /\
    forall i, exists a', Array_Remove sample_array i = Ok a' /\
                         Array_Capacity a' = Array_Capacity sample_array) /\
   (forall p a', Array_Resize (plentiful 7) sample_array p = Ok a' ->
                 Array_Capacity sample_array <= Array_Capacity a') /\
   (forall x i a', Array_Insert (plentiful 7) sample_array x i = Ok a' ->
                   Array_Capacity sample_array <= Array_Capacity a') /\
   (forall i a', Array_Remove sample_array i = Ok a' ->
                 Array_Capacity a' = Array_Capacity sample_array) /\
   Array_Capacity (Array_Clear sample_array) = Array_Capacity sample_array /\
   Array_Empty (Array_Clear sample_array) = true) /\
  (0 <= Array_Size sample_copy <= Array_Capacity sample_copy /\
   Array_Capacity sample_copy <= INT_MAX /\
   (Z.of_nat (length (m_array sample_copy)) = Array_Capacity sample_copy \/
    m_array sample_copy = []) /\
   (Array_reachable (plentiful 7) sample_copy ->
    Z.of_nat (length (m_array sample_copy)) = Array_Capacity sample_copy) /\
   (Array_Size sample_copy <= Z.of_nat (length (m_array sample_copy)) ->
    Z.of_nat (length (Array_elements sample_copy)) = Array_Size sample_copy /\
    forall i, exists a', Array_Remove sample_copy i = Ok a' /\
                         Array_Capacity a' = Array_Capacity sample_copy) /\
   (forall p a', Array_Resize (plentiful 7) sample_copy p = Ok a' ->
                 Array_Capacity sample_copy <= Array_Capacity a') /\
   (forall x i a', Array_Insert (plentiful 7) sample_copy x i = Ok a' ->
                   Array_Capacity sample_copy <= Array_Capacity a') /\
   (forall i a', Array_Remove sample_copy i = Ok a' ->
                 Array_Capacity a' = Array_Capacity sample_copy) /\
   Array_Capacity (Array_Clear sample_copy) = Array_Capacity sample_copy /\
   Array_Empty (Array_Clear sample_copy) = true).
Proof.
  split.
  - apply (Array_never_shrinks (plentiful 7) sample_array).
    + apply plentiful_sound.
    + apply Array_built_sample.
  - apply (Array_never_shrinks (plentiful 7) sample_copy).
    + apply plentiful_sound.
    + apply Array_built_sample_copy.
Defined.

(** The copy constructor and the copy assignment, on every array a
    program can build; [fresh] is the block that [new] hands out for the
    capacity of the original.  An array with elements, all in its block,
    is copied to an array of the same size and capacity with the same
    elements and a block of its own with as many cells as the capacity.
    An array without elements is copied to an array without a block that
    keeps the capacity of the original.  When that capacity is not 0 the
    copy counts cells it does not have: [Resize] to any size up to the
    capacity only sets the size, after which every write through
    [operator[]], every [Remove] below the last element and every copy
    goes through the null pointer, as does [Insert] into the copy as it
    is.  Copying an array that counts more elements than its block has
    cells reads through the null pointer. *)
Theorem Array_copy_spec {Datatype : Type} `{Inhabited Datatype}
    (new : heap) (a : Array Datatype) (fresh : list Datatype) :
  heap_sound new -> Array_built new a ->
  Z.of_nat (length fresh) = Array_Capacity a ->
  (0 < Array_Size a <= Z.of_nat (length (m_array a)) ->
   exists a', Array_copy fresh a = Ok a' /\
              Array_Size a' = Array_Size a /\
              Array_Capacity a' = Array_Capacity a /\
              Array_elements a' = Array_elements a /\
              Z.of_nat (length (m_array a')) = Array_Capacity a') /\
  (Array_Size a = 0 ->
   Array_copy fresh a = Ok (mkArray [] 0 (Array_Capacity a)) /\
   (0 < Array_Capacity a ->
    forall x, Array_Insert new (mkArray [] 0 (Array_Capacity a)) x 0 = Fault) /\
   forall n, 0 < n <= Array_Capacity a ->
     Array_Resize new (mkArray [] 0 (Array_Capacity a)) n
     = Ok (mkArray [] n (Array_Capacity a)) /\
     (forall (i : Z) (x : Datatype),
        Array_store (mkArray [] n (Array_Capacity a)) i x = Fault) /\
     (forall i, 0 <= i < n - 1 ->
        Array_Remove (mkArray (Datatype:=Datatype) [] n (Array_Capacity a)) i
        = Fault) /\
     (forall fresh' : list Datatype,
        Array_copy fresh' (mkArray [] n (Array_Capacity a)) = Fault)) /\
  (Z.of_nat (length (m_array a)) < Array_Size a ->
   Array_copy fresh a = Fault).
Proof.
  intros Hnew Hb Hfresh. unfold Array_Size, Array_Capacity in *.
  pose proof (Array_built_shape new a Hnew Hb) as Hsh.
  pose proof Hsh as [Hs HM Hbl]. split_and!.
  - intros Hin. rewrite Array_copy_elements by lia.
    eexists. split; [reflexivity|]. cbn [m_size m_capacity m_array].
    split_and!; try reflexivity.
    + unfold Array_elements at 1. cbn [m_size m_array].
      apply take_app_length'. unfold Array_elements.
      rewrite length_take. lia.
    + unfold Array_elements.
      rewrite length_app, length_take, length_drop. lia.
  - intros H0. split; [apply Array_copy_empty; exact H0|]. split.
    + intros Hcap x. unfold Array_Insert. cbn [m_size m_capacity m_array].
      destruct (decide (0 < 0 \/ 0 > 0)); [lia|].
      destruct (decide (0 >= m_capacity a)); [lia|].
      rewrite as_int_small by (unfold INT_MIN, INT_MAX; lia).
      reflexivity.
    + intros n Hn. split_and!.
      * unfold Array_Resize. cbn [m_size m_capacity m_array].
        destruct (decide (n < 0)); [lia|].
        destruct (decide (n <= m_capacity a)); [reflexivity | lia].
      * intros i x. apply Array_store_null. reflexivity.
      * intros i Hi. apply Array_Remove_null; [reflexivity | exact Hi].
      * intros fresh'. apply Array_copy_null; [reflexivity|].
        cbn [m_size]. lia.
  - intros Hout. destruct (Array_shape_no_block a Hsh Hout) as [Hnull Hpos].
    apply Array_copy_null; assumption.
Qed.

Lemma Array_copy_spec_witness :
  (exists a', Array_copy [0; 0; 0; 0] sample_array = Ok a' /\
              Array_Size a' = Array_Size sample_array /\
              Array_Capacity a' = Array_Capacity sample_array /\
              Array_elements a' = Array_elements sample_array /\
              Z.of_nat (length (m_array a')) = Array_Capacity a') /\
  (Array_copy [0; 0; 0; 0] (Array_Clear sample_array)
   = Ok (mkArray [] 0 (Array_Capacity (Array_Clear sample_array))) /\
   (0 < Array_Capacity (Array_Clear sample_array) ->
    forall x,
      Array_Insert (plentiful 7)
        (mkArray [] 0 (Array_Capacity (Array_Clear sample_array))) x 0
      = Fault) /\
   forall n, 0 < n <= Array_Capacity (Array_Clear sample_array) ->
     Array_Resize (plentiful 7)
       (mkArray [] 0 (Array_Capacity (Array_Clear sample_array))) n
     = Ok (mkArray [] n (Array_Capacity (Array_Clear sample_array))) /\
     (forall (i : Z) (x : Z),
        Array_store (mkArray [] n (Array_Capacity (Array_Clear sample_array)))
          i x = Fault) /\
     (forall i, 0 <= i < n - 1 ->
        Array_Remove
          (mkArray (Datatype:=Z) [] n
             (Array_Capacity (Array_Clear sample_array))) i
        = Fault) /\
     (forall fresh' : list Z,
        Array_copy fresh'
          (mkArray [] n (Array_Capacity (Array_Clear sample_array)))
        = Fault)) /\
  Array_copy [0; 0; 0; 0] sample_copy = Fault.
Proof.
  split; [|split].
  - apply (Array_copy_spec (plentiful 7) sample_array [0; 0; 0; 0]).
    + apply plentiful_sound.
    + apply Array_built_sample.
    + reflexivity.
    + vm_compute. split; [reflexivity | discriminate].
  - apply (Array_copy_spec (plentiful 7) (Array_Clear sample_array)
             [0; 0; 0; 0]).
    + apply plentiful_sound.
    + apply abuilt_Clear, Array_built_sample.
    + reflexivity.
    + reflexivity.
  - refine (proj2 (proj2 (Array_copy_spec (plentiful 7) sample_copy
                            [0; 0; 0; 0] _ _ _)) _).
    + apply plentiful_sound.
    + apply Array_built_sample_copy.
    + reflexivity.
    + vm_compute. reflexivity.
Defined.

(** ** Array.h: facts about the two-dimensional array *)

Lemma index_inj (w x y x' y' : Z) :
  0 <= x < w -> 0 <= x' < w -> y * w + x = y' * w + x' -> x = x' /\ y = y'.
Proof.
  intros Hx Hx' E.
  assert (Hy : y = y').
  { destruct (Z.lt_trichotomy y y') as [Hlt|[Heq|Hgt]]; [|exact Heq|]; nia. }
  subst y'. split; [lia | reflexivity].
Qed.

Lemma index_bound (w h x y : Z) :
  0 <= x < w -> 0 <= y < h -> 0 <= y * w <= w * h /\ 0 <= y * w + x < w * h.
Proof. intros Hx Hy. nia. Qed.

Lemma SDL_clamp_range (x a b : Z) : a <= b -> a <= SDL_clamp x a b <= b.
Proof.
  intros Hab. unfold SDL_clamp.
  destruct (decide (x < a)); [lia|]. destruct (decide (x > b)); lia.
Qed.

Lemma SDL_clamp_id (x a b : Z) : a <= x <= b -> SDL_clamp x a b = x.
Proof.
  intros Hx. unfold SDL_clamp.
  destruct (decide (x < a)); [lia|]. destruct (decide (x > b)); lia.
Qed.

Section Array2DFacts.
Context {Datatype : Type} `{Inhabited Datatype}.
Implicit Types (a : Array2D Datatype) (new : heap (Datatype:=Datatype)).

Lemma Array2D_Get_clamped a (x y : Z) (arr : list Datatype) :
  Array2D_wf a -> m_array2D a = Some arr ->
  Array2D_Get a x y
  = Ok (SDL_clamp y 0 (m_height a - 1) * m_width a
        + SDL_clamp x 0 (m_width a - 1)).
Proof.
  intros Hwf Harr. unfold Array2D_wf in Hwf. rewrite Harr in Hwf.
  destruct Hwf as (Hw & Hh & HM & Hlen).
  assert (HMin : INT_MIN <= 0) by (unfold INT_MIN; lia).
  assert (HwM : m_width a <= INT_MAX) by nia.
  assert (HhM : m_height a <= INT_MAX) by nia.
  pose proof (SDL_clamp_range x 0 (m_width a - 1) ltac:(lia)) as Hcx.
  pose proof (SDL_clamp_range y 0 (m_height a - 1) ltac:(lia)) as Hcy.
  pose proof (index_bound (m_width a) (m_height a)
                (SDL_clamp x 0 (m_width a - 1)) (SDL_clamp y 0 (m_height a - 1))
                ltac:(lia) ltac:(lia)) as [Hrow Hidx].
  unfold Array2D_Get.
  rewrite (as_int_small (m_width a - 1)) by lia. cbn [mbind run_bind].
  rewrite (as_int_small (m_height a - 1)) by lia. cbn [mbind run_bind].
  rewrite as_int_small by lia. cbn [mbind run_bind].
  rewrite as_int_small by lia. cbn [mbind run_bind].
  rewrite Harr. cbn [cells].
  destruct (aget_in_range arr (SDL_clamp y 0 (m_height a - 1) * m_width a
                               + SDL_clamp x 0 (m_width a - 1))) as [v Hv];
    [lia|].
  rewrite Hv. reflexivity.
Qed.

Lemma Array2D_Get_null a (x y : Z) :
  m_array2D a = None -> Array2D_Get a x y = Fault.
Proof.
  intros Harr. unfold Array2D_Get. rewrite Harr. cbn [cells].
  destruct (as_int (m_width a - 1)) as [w1|]; [|reflexivity].
  cbn [mbind run_bind].
  destruct (as_int (m_height a - 1)) as [h1|]; [|reflexivity].
  cbn [mbind run_bind].
  destruct (as_int _) as [row|]; [|reflexivity]. cbn [mbind run_bind].
  destruct (as_int _) as [pos|]; [|reflexivity]. cbn [mbind run_bind].
  unfold aget. destruct (decide (0 <= pos)); reflexivity.
Qed.

Lemma Array2D_at_valid a (x y : Z) (arr : list Datatype) :
  Array2D_wf a -> m_array2D a = Some arr ->
  0 <= x < m_width a -> 0 <= y < m_height a ->
  Array2D_Get a x y = Ok (y * m_width a + x) /\
  exists v, arr !! Z.to_nat (y * m_width a + x) = Some v /\
            Array2D_at a x y = Ok v.
Proof.
  intros Hwf Harr Hx Hy.
  pose proof (Array2D_Get_clamped a x y arr Hwf Harr) as Eg.
  rewrite !SDL_clamp_id in Eg by lia. split; [exact Eg|].
  unfold Array2D_wf in Hwf. rewrite Harr in Hwf.
  destruct Hwf as (Hw & Hh & HM & Hlen).
  pose proof (index_bound (m_width a) (m_height a) x y Hx Hy) as [_ Hidx].
  destruct (aget_in_range arr (y * m_width a + x)) as [v Hv]; [lia|].
  exists v. split; [apply aget_Ok in Hv; tauto|].
  unfold Array2D_at. rewrite Eg. cbn [mbind run_bind].
  unfold Array2D_load. rewrite Harr. exact Hv.
Qed.

(** The copy loops of [Resize]. *)
Lemma Array2D_copy_Ok (old b0 : list Datatype) (w h p_width p_height : Z)
    (d : Datatype) :
  0 < w -> 0 < h -> w * h <= INT_MAX -> Z.of_nat (length old) = w * h ->
  0 < p_width -> 0 < p_height -> p_width * p_height <= INT_MAX ->
  Z.of_nat (length b0) = p_width * p_height ->
  (forall k, b0 !! k = Some d \/ b0 !! k = None) ->
  exists b,
    for_range 0 (if decide (p_height < h) then p_height else h)
      (fun y newarray =>
         for_range 0 (if decide (p_width < w) then p_width else w)
           (fun x newarray =>
              dst ← as_int (y * p_width);
              dst ← as_int (dst + x);
              src ← as_int (y * w);
              src ← as_int (src + x);
              v ← aget old src;
              aset newarray dst v) newarray) b0 = Ok b /\
    length b = length b0 /\
    forall x y, 0 <= x < p_width -> 0 <= y < p_height ->
      b !! Z.to_nat (y * p_width + x)
      = if decide (x < w /\ y < h) then old !! Z.to_nat (y * w + x)
        else Some d.
Proof.
  intros Hw Hh HM Hold Hpw Hph HpM Hb0 Hd.
  set (minx := if decide (p_width < w) then p_width else w).
  set (miny := if decide (p_height < h) then p_height else h).
  assert (Hminx : 0 < minx <= p_width /\ minx <= w /\
                  (forall x, x < minx <-> x < p_width /\ x < w)).
  { unfold minx. destruct (decide (p_width < w)); split_and!; try lia; intros; lia. }
  assert (Hminy : 0 < miny <= p_height /\ miny <= h /\
                  (forall y, y < miny <-> y < p_height /\ y < h)).
  { unfold miny. destruct (decide (p_height < h)); split_and!; try lia; intros; lia. }
  destruct Hminx as (Hmx1 & Hmx2 & Hmx3). destruct Hminy as (Hmy1 & Hmy2 & Hmy3).
  clearbody minx miny.
  assert (HMin : INT_MIN <= 0) by (unfold INT_MIN; lia).
  set (Q := fun (Y X : Z) (b : list Datatype) =>
    length b = length b0 /\
    forall x y, 0 <= x < p_width -> 0 <= y < p_height ->
      b !! Z.to_nat (y * p_width + x)
      = if decide ((y < Y /\ x < minx) \/ (y = Y /\ x < X))
        then old !! Z.to_nat (y * w + x) else Some d).
  assert (Hinit : forall x y, 0 <= x < p_width -> 0 <= y < p_height ->
                   b0 !! Z.to_nat (y * p_width + x) = Some d).
  { intros x y Hx Hy.
    pose proof (index_bound p_width p_height x y Hx Hy) as [_ Hidx].
    destruct (Hd (Z.to_nat (y * p_width + x))) as [E|E]; [exact E|].
    apply lookup_ge_None in E. lia. }
  destruct (for_range_inv (fun Y b => Q Y 0 b)
    (fun y newarray =>
       for_range 0 minx
         (fun x newarray =>
            dst ← as_int (y * p_width);
            dst ← as_int (dst + x);
            src ← as_int (y * w);
            src ← as_int (src + x);
            v ← aget old src;
            aset newarray dst v) newarray) 0 miny b0 ltac:(lia))
    as (b & E & Hlen & Hb).
  - split; [reflexivity|]. intros x y Hx Hy.
    destruct (decide _) as [[?|?]|_]; [lia | lia |]. apply Hinit; assumption.
  - intros Y b HY HQ.
    destruct (for_range_inv (fun X b => Q Y X b)
      (fun x newarray =>
         dst ← as_int (Y * p_width);
         dst ← as_int (dst + x);
         src ← as_int (Y * w);
         src ← as_int (src + x);
         v ← aget old src;
         aset newarray dst v) 0 minx b ltac:(lia) HQ)
      as (b' & E' & Hlen' & Hb').
    + intros X t HX [Hlt Ht].
      pose proof (index_bound p_width p_height X Y ltac:(lia) ltac:(lia))
        as [Hrow Hidx].
      pose proof (index_bound w h X Y ltac:(lia) ltac:(lia)) as [Hrow' Hidx'].
      rewrite (as_int_small (Y * p_width)) by lia. cbn [mbind run_bind].
      rewrite (as_int_small (Y * p_width + X)) by lia. cbn [mbind run_bind].
      rewrite (as_int_small (Y * w)) by lia. cbn [mbind run_bind].
      rewrite (as_int_small (Y * w + X)) by lia. cbn [mbind run_bind].
      destruct (aget_in_range old (Y * w + X)) as [v Hv]; [lia|].
      rewrite Hv. cbn [mbind run_bind]. apply aget_Ok in Hv as [_ Hv].
      eexists. split; [apply aset_in_range; lia|].
      split; [rewrite length_insert; exact Hlt|].
      intros x y Hx Hy.
      destruct (decide (x = X /\ y = Y)) as [[-> ->]|Hne].
      * rewrite list_lookup_insert_eq by lia.
        destruct (decide _) as [_|Hn]; [symmetry; exact Hv | lia].
      * assert (Hidx2 : Z.to_nat (Y * p_width + X) <> Z.to_nat (y * p_width + x)).
        { intros Heq.
          pose proof (index_bound p_width p_height x y Hx Hy) as [_ Hi2].
          destruct (index_inj p_width X Y x y) as [-> ->]; lia. }
        rewrite list_lookup_insert_ne by exact Hidx2.
        rewrite (Ht x y Hx Hy).
        destruct (decide ((y < Y /\ x < minx) \/ (y = Y /\ x < X))),
                 (decide ((y < Y /\ x < minx) \/ (y = Y /\ x < X + 1)));
          try reflexivity; lia.
    + exists b'. split; [exact E'|]. split; [exact Hlen'|].
      intros x y Hx Hy. rewrite (Hb' x y Hx Hy).
      destruct (decide ((y < Y /\ x < minx) \/ (y = Y /\ x < minx))),
               (decide ((y < Y + 1 /\ x < minx) \/ (y = Y + 1 /\ x < 0)));
        try reflexivity; lia.
  - exists b. split; [exact E|]. split; [exact Hlen|].
    intros x y Hx Hy. rewrite (Hb x y Hx Hy).
    assert (Hiff : ((y < miny /\ x < minx) \/ (y = miny /\ x < 0))
                   <-> (x < w /\ y < h)).
    { split.
      - intros [[H1 H2]|[_ ?]]; [|lia].
        apply Hmx3 in H2. apply Hmy3 in H1. lia.
      - intros [H3 H4]. left. split; [apply Hmy3 | apply Hmx3]; lia. }
    destruct (decide ((y < miny /\ x < minx) \/ (y = miny /\ x < 0))),
             (decide (x < w /\ y < h)); try reflexivity; tauto.
Qed.

Lemma Array2D_wf_null a :
  Array2D_wf a -> m_array2D a = None -> m_width a = 0 /\ m_height a = 0.
Proof. intros Hwf Harr. unfold Array2D_wf in Hwf. rewrite Harr in Hwf. exact Hwf. Qed.

Lemma Array2D_wf_block a (arr : list Datatype) :
  Array2D_wf a -> m_array2D a = Some arr ->
  0 < m_width a /\ 0 < m_height a /\ m_width a * m_height a <= INT_MAX /\
  Z.of_nat (length arr) = m_width a * m_height a.
Proof. intros Hwf Harr. unfold Array2D_wf in Hwf. rewrite Harr in Hwf. exact Hwf. Qed.

(** [Resize] to a positive extent that the heap grants. *)
Lemma Array2D_Resize_run new a (p_width p_height : Z) (block : list Datatype) :
  Array2D_wf a -> heap_sound new ->
  0 < p_width -> 0 < p_height -> p_width * p_height <= INT_MAX ->
  new (p_width * p_height) = Some block ->
  exists arr',
    Array2D_Resize new a p_width p_height
    = Ok (mkArray2D (Some arr') p_width p_height) /\
    Z.of_nat (length arr') = p_width * p_height /\
    forall x y, 0 <= x < p_width -> 0 <= y < p_height ->
      arr' !! Z.to_nat (y * p_width + x)
      = if decide (x < m_width a /\ y < m_height a)
        then cells (m_array2D a) !! Z.to_nat (y * m_width a + x)
        else Some inhabitant.
Proof.
  intros Hwf Hnew Hpw Hph HpM En.
  pose proof (Hnew _ _ En) as Hbl.
  assert (HMin : INT_MIN <= 0) by (unfold INT_MIN; lia).
  assert (Hn0 : 0 <= p_width * p_height) by nia.
  assert (Hstart : Array2D_Resize new a p_width p_height
    = (newarray ←
         match m_array2D a with
         | None => Ok (replicate (Z.to_nat (p_width * p_height)) inhabitant)
         | Some old =>
             for_range 0 (if decide (p_height < m_height a) then p_height
                          else m_height a)
               (fun y newarray =>
                  for_range 0 (if decide (p_width < m_width a) then p_width
                               else m_width a)
                    (fun x newarray =>
                       dst ← as_int (y * p_width);
                       dst ← as_int (dst + x);
                       src ← as_int (y * m_width a);
                       src ← as_int (src + x);
                       v ← aget old src;
                       aset newarray dst v) newarray)
               (replicate (Z.to_nat (p_width * p_height)) inhabitant)
         end;
       Ok (mkArray2D (Some newarray) p_width p_height))).
  { unfold Array2D_Resize.
    destruct (decide (p_width < 0 \/ p_height < 0)); [lia|].
    destruct (decide (p_width = 0 \/ p_height = 0)); [lia|].
    rewrite as_int_small by lia. cbn [mbind run_bind]. rewrite En.
    rewrite fill_loop_Ok by lia. cbn [mbind run_bind].
    rewrite take_0, drop_ge by lia. rewrite app_nil_r, Z.sub_0_r.
    reflexivity. }
  rewrite Hstart. clear Hstart.
  destruct (m_array2D a) as [old|] eqn:Harr.
  - destruct (Array2D_wf_block a old Hwf Harr) as (Hw & Hh & HM & Hlen).
    destruct (Array2D_copy_Ok old
                (replicate (Z.to_nat (p_width * p_height)) inhabitant)
                (m_width a) (m_height a) p_width p_height inhabitant)
      as (b & E & Hlb & Hb); try assumption.
    + rewrite length_replicate. lia.
    + intros k. destruct (decide (k < Z.to_nat (p_width * p_height))%nat).
      * left. apply lookup_replicate_2. assumption.
      * right. apply lookup_replicate_None. lia.
    + exists b. rewrite E. cbn [mbind run_bind cells]. split; [reflexivity|].
      split; [rewrite Hlb, length_replicate; lia | exact Hb].
  - destruct (Array2D_wf_null a Hwf Harr) as [Hw Hh].
    exists (replicate (Z.to_nat (p_width * p_height)) inhabitant).
    cbn [mbind run_bind]. split; [reflexivity|].
    split; [rewrite length_replicate; lia|].
    intros x y Hx Hy. destruct (decide _); [lia|].
    apply lookup_replicate_2.
    pose proof (index_bound p_width p_height x y Hx Hy). lia.
Qed.

Lemma Array2D_empty_wf : Array2D_wf (mkArray2D (Datatype:=Datatype) None 0 0).
Proof. split; reflexivity. Qed.

Lemma Array2D_Resize_wf new a (p_width p_height : Z) a' :
  Array2D_wf a -> heap_sound new ->
  Array2D_Resize new a p_width p_height = Ok a' -> Array2D_wf a'.
Proof.
  intros Hwf Hnew E.
  destruct (decide (p_width < 0 \/ p_height < 0)) as [Hneg|Hnn].
  { unfold Array2D_Resize in E.
    destruct (decide (p_width < 0 \/ p_height < 0)); [|tauto].
    injection E as <-. exact Hwf. }
  destruct (decide (p_width = 0 \/ p_height = 0)) as [Hz|Hnz].
  { unfold Array2D_Resize in E.
    destruct (decide (p_width < 0 \/ p_height < 0)); [tauto|].
    destruct (decide (p_width = 0 \/ p_height = 0)); [|tauto].
    injection E as <-. apply Array2D_empty_wf. }
  destruct (decide (p_width * p_height <= INT_MAX)) as [HpM|Hov].
  - destruct (new (p_width * p_height)) as [block|] eqn:En.
    + destruct (Array2D_Resize_run new a p_width p_height block Hwf Hnew
                  ltac:(lia) ltac:(lia) HpM En) as (arr' & E' & Hlen & _).
      rewrite E' in E. injection E as <-.
      unfold Array2D_wf. cbn [m_array2D m_width m_height]. split_and!; lia.
    + unfold Array2D_Resize in E.
      destruct (decide (p_width < 0 \/ p_height < 0)); [tauto|].
      destruct (decide (p_width = 0 \/ p_height = 0)); [tauto|].
      assert (HMin : INT_MIN <= 0) by (unfold INT_MIN; lia).
      rewrite as_int_small in E by nia. cbn [mbind run_bind] in E.
      rewrite En in E. injection E as <-. exact Hwf.
  - unfold Array2D_Resize in E.
    destruct (decide (p_width < 0 \/ p_height < 0)); [tauto|].
    destruct (decide (p_width = 0 \/ p_height = 0)); [tauto|].
    unfold as_int in E.
    destruct (decide (INT_MIN <= p_width * p_height <= INT_MAX));
      [lia | discriminate].
Qed.

Lemma Array2D_ctor_wf (p_width p_height : Z) a :
  Array2D_ctor p_width p_height = Ok a -> Array2D_wf a.
Proof.
  unfold Array2D_ctor. destruct (decide (p_width > 0 /\ p_height > 0)) as [Hp|Hp].
  - unfold as_int. destruct (decide _) as [Hn|]; [|discriminate].
    cbn [mbind run_bind]. intros [= <-]. unfold Array2D_wf.
    cbn [m_array2D m_width m_height]. split_and!; try lia.
    apply Array_new_length. nia.
  - intros [= <-]. apply Array2D_empty_wf.
Qed.

Lemma Array2D_store_run a (pos : Z) (v : Datatype) a' :
  Array2D_wf a -> Array2D_store a pos v = Ok a' ->
  exists arr, m_array2D a = Some arr /\
              0 <= pos < Z.of_nat (length arr) /\
              a' = mkArray2D (Some (<[Z.to_nat pos := v]> arr))
                     (m_width a) (m_height a) /\
              Array2D_wf a'.
Proof.
  intros Hwf E. unfold Array2D_store in E.
  destruct (m_array2D a) as [arr|] eqn:Harr; cbn [cells] in E.
  - destruct (aset arr pos v) as [arr'|] eqn:Ea; [|discriminate].
    injection E as <-. apply aset_Ok in Ea as [Hpos ->].
    exists arr. split_and!; try reflexivity; try lia.
    unfold Array2D_wf in *. rewrite Harr in Hwf.
    cbn [m_array2D m_width m_height]. rewrite length_insert. exact Hwf.
  - unfold aset in E. cbn [length] in E.
    destruct (decide _) as [Hc|]; [lia | discriminate].
Qed.

Lemma Array2D_Clear_run a (value : Datatype) :
  Array2D_wf a ->
  exists a',
    Array2D_Clear a value = Ok a' /\
    m_width a' = m_width a /\ m_height a' = m_height a /\
    m_array2D a'
    = (fun arr => replicate (length arr) value) <$> m_array2D a /\
    Array2D_wf a'.
Proof.
  intros Hwf. unfold Array2D_Clear.
  assert (HMin : INT_MIN <= 0) by (unfold INT_MIN; lia).
  destruct (m_array2D a) as [arr|] eqn:Harr.
  - destruct (Array2D_wf_block a arr Hwf Harr) as (Hw & Hh & HM & Hlen).
    rewrite as_int_small by nia. cbn [mbind run_bind cells].
    rewrite fill_loop_Ok by nia. cbn [mbind run_bind].
    rewrite take_0, drop_ge by lia. rewrite app_nil_r, app_nil_l, Z.sub_0_r.
    eexists. split; [reflexivity|]. cbn [m_width m_height m_array2D fmap option_fmap option_map].
    split_and!; try reflexivity.
    + rewrite <- Hlen, Nat2Z.id. reflexivity.
    + unfold Array2D_wf. cbn [m_width m_height m_array2D].
      rewrite length_replicate. split_and!; lia.
  - destruct (Array2D_wf_null a Hwf Harr) as [Hw Hh].
    rewrite Hw, Hh. cbn [Z.mul]. rewrite as_int_small by (unfold INT_MAX; lia).
    cbn [mbind run_bind cells]. rewrite for_range_empty by lia.
    cbn [mbind run_bind]. eexists. split; [reflexivity|].
    cbn [m_width m_height m_array2D]. split_and!; try reflexivity.
    unfold Array2D_wf. cbn [m_width m_height m_array2D]. auto.
Qed.

Lemma Array2D_reachable_wf new a :
  heap_sound new -> Array2D_reachable new a -> Array2D_wf a.
Proof.
  intros Hnew Hr.
  induction Hr as [pw ph a _ _ E | a pw ph a' _ IH _ _ E
                  | a x y pos v a' _ IH _ E | a value a' _ IH E].
  - apply (Array2D_ctor_wf pw ph a E).
  - apply (Array2D_Resize_wf new a pw ph a' IH Hnew E).
  - destruct (Array2D_store_run a pos v a' IH E) as (_ & _ & _ & _ & Hwf').
    exact Hwf'.
  - destruct (Array2D_Clear_run a value IH) as (a1 & E1 & _ & _ & _ & Hwf1).
    rewrite E1 in E. injection E as <-. exact Hwf1.
Qed.

End Array2DFacts.

(** * The two-dimensional array of [Array.h] *)

Lemma Array2D_IsValidCoord_true {Datatype : Type} (a : Array2D Datatype)
    (x y : Z) :
  Array2D_IsValidCoord a x y = true <->
  0 <= x < m_width a /\ 0 <= y < m_height a.
Proof.
  unfold Array2D_IsValidCoord. rewrite !andb_true_iff, !bool_decide_eq_true.
  lia.
Qed.

Lemma Array2D_reachable_sample (new : heap) : Array2D_reachable new sample_grid.
Proof.
  apply (areach2_store new
           (mkArray2D (Some [1; 2; 3; 4; 5; inhabitant]) 3 2) 2 1 5 6);
    [|reflexivity | reflexivity].
  apply (areach2_store new
           (mkArray2D (Some [1; 2; 3; 4; inhabitant; inhabitant]) 3 2) 1 1 4 5);
    [|reflexivity | reflexivity].
  apply (areach2_store new
           (mkArray2D (Some [1; 2; 3; inhabitant; inhabitant; inhabitant]) 3 2)
           0 1 3 4); [|reflexivity | reflexivity].
  apply (areach2_store new
           (mkArray2D (Some [1; 2; inhabitant; inhabitant; inhabitant;
                             inhabitant]) 3 2) 2 0 2 3);
    [|reflexivity | reflexivity].
  apply (areach2_store new
           (mkArray2D (Some [1; inhabitant; inhabitant; inhabitant; inhabitant;
                             inhabitant]) 3 2) 1 0 1 2);
    [|reflexivity | reflexivity].
  apply (areach2_store new
           (mkArray2D (Some (Array_new 6)) 3 2) 0 0 0 1);
    [|reflexivity | reflexivity].
  apply (areach2_ctor new 3 2); [unfold INT_MIN, INT_MAX; lia ..|reflexivity].
Qed.

(** [Get] in the release build.  On an array without a block it
    dereferences the null pointer, whatever the coordinates.  On any
    other array it never leaves the block: it returns the cell of the
    coordinates clamped to the extent, which for valid coordinates is
    cell [y * width + x]; and two different valid coordinates never
    share a cell. *)
Theorem Array2D_Get_spec {Datatype : Type} `{Inhabited Datatype}
    (new : heap) (a : Array2D Datatype) :
  heap_sound new -> Array2D_reachable new a ->
  (m_array2D a = None ->
   Array2D_Width a = 0 /\ Array2D_Height a = 0 /\
   forall x y, Array2D_Get a x y = Fault) /\
  (m_array2D a <> None ->
   (forall x y, exists pos,
      Array2D_Get a x y = Ok pos /\
      0 <= pos < Array2D_Width a * Array2D_Height a /\
      Array2D_Get a (SDL_clamp x 0 (Array2D_Width a - 1))
                    (SDL_clamp y 0 (Array2D_Height a - 1)) = Ok pos) /\
   (forall x y, Array2D_IsValidCoord a x y = true ->
                Array2D_Get a x y = Ok (y * Array2D_Width a + x)) /\
   (forall x y x' y',
      Array2D_IsValidCoord a x y = true ->
      Array2D_IsValidCoord a x' y' = true ->
      Array2D_Get a x y = Array2D_Get a x' y' -> x = x' /\ y = y')).
Proof.
  intros Hnew Hr. unfold Array2D_Width, Array2D_Height.
  pose proof (Array2D_reachable_wf new a Hnew Hr) as Hwf.
  split.
  - intros Harr. destruct (Array2D_wf_null a Hwf Harr) as [Hw Hh].
    split_and!; [exact Hw | exact Hh |].
    intros x y. apply Array2D_Get_null. exact Harr.
  - intros Hsome. destruct (m_array2D a) as [arr|] eqn:Harr; [|contradiction].
    destruct (Array2D_wf_block a arr Hwf Harr) as (Hw & Hh & HM & Hlen).
    assert (Hvalid : forall x y, Array2D_IsValidCoord a x y = true ->
                       Array2D_Get a x y = Ok (y * m_width a + x)).
    { intros x y [Hx Hy]%Array2D_IsValidCoord_true.
      apply (Array2D_at_valid a x y arr Hwf Harr Hx Hy). }
    split_and!.
    + intros x y.
      pose proof (SDL_clamp_range x 0 (m_width a - 1) ltac:(lia)) as Hcx.
      pose proof (SDL_clamp_range y 0 (m_height a - 1) ltac:(lia)) as Hcy.
      eexists. split; [apply (Array2D_Get_clamped a x y arr Hwf Harr)|].
      split.
      * apply index_bound; lia.
      * apply Hvalid, Array2D_IsValidCoord_true. lia.
    + exact Hvalid.
    + intros x y x' y' Hv Hv' E.
      rewrite (Hvalid _ _ Hv), (Hvalid _ _ Hv') in E. injection E as E.
      apply Array2D_IsValidCoord_true in Hv, Hv'.
      apply (index_inj (m_width a)); lia.
Qed.

Lemma Array2D_Get_spec_witness :
  (m_array2D sample_grid = None ->
   Array2D_Width sample_grid = 0 /\ Array2D_Height sample_grid = 0 /\
   forall x y, Array2D_Get sample_grid x y = Fault) /\
  (m_array2D sample_grid <> None ->
   (forall x y, exists pos,
      Array2D_Get sample_grid x y = Ok pos /\
      0 <= pos < Array2D_Width sample_grid * Array2D_Height sample_grid /\
      Array2D_Get sample_grid
        (SDL_clamp x 0 (Array2D_Width sample_grid - 1))
        (SDL_clamp y 0 (Array2D_Height sample_grid - 1)) = Ok pos) /\
   (forall x y, Array2D_IsValidCoord sample_grid x y = true ->
                Array2D_Get sample_grid x y
                = Ok (y * Array2D_Width sample_grid + x)) /\
   (forall x y x' y',
      Array2D_IsValidCoord sample_grid x y = true ->
      Array2D_IsValidCoord sample_grid x' y' = true ->
      Array2D_Get sample_grid x y = Array2D_Get sample_grid x' y' ->
      x = x' /\ y = y')).
Proof.
  apply (Array2D_Get_spec exhausted sample_grid).
  - apply exhausted_sound.
  - apply Array2D_reachable_sample.
Defined.

(** Writing through the reference [Get(x, y)] returns, at valid
    coordinates: the extent stays, the cell at [(x, y)] holds the new
    value and every other valid cell holds what it held. *)
Theorem Array2D_store_at {Datatype : Type} `{Inhabited Datatype}
    (new : heap) (a : Array2D Datatype) (x y : Z) (v : Datatype) :
  heap_sound new -> Array2D_reachable new a ->
  Array2D_IsValidCoord a x y = true ->
  exists pos a',
    Array2D_Get a x y = Ok pos /\ Array2D_store a pos v = Ok a' /\
    Array2D_Width a' = Array2D_Width a /\
    Array2D_Height a' = Array2D_Height a /\
    Array2D_at a' x y = Ok v /\
    forall x' y', Array2D_IsValidCoord a x' y' = true ->
                  (x', y') <> (x, y) ->
                  Array2D_at a' x' y' = Array2D_at a x' y'.
Proof.
  intros Hnew Hr [Hx Hy]%Array2D_IsValidCoord_true.
  unfold Array2D_Width, Array2D_Height.
  pose proof (Array2D_reachable_wf new a Hnew Hr) as Hwf.
  destruct (m_array2D a) as [arr|] eqn:Harr;
    [|destruct (Array2D_wf_null a Hwf Harr); lia].
  destruct (Array2D_wf_block a arr Hwf Harr) as (Hw & Hh & HM & Hlen).
  destruct (Array2D_at_valid a x y arr Hwf Harr Hx Hy) as (Eg & v0 & Hv0 & _).
  pose proof (index_bound (m_width a) (m_height a) x y Hx Hy) as [_ Hidx].
  set (a' := mkArray2D (Some (<[Z.to_nat (y * m_width a + x) := v]> arr))
               (m_width a) (m_height a)).
  assert (Hwf' : Array2D_wf a').
  { unfold Array2D_wf, a'. cbn [m_array2D m_width m_height].
    rewrite length_insert. auto. }
  exists (y * m_width a + x), a'. split; [exact Eg|]. split.
  { unfold Array2D_store. rewrite Harr. cbn [cells].
    rewrite aset_in_range by lia. reflexivity. }
  split; [reflexivity|]. split; [reflexivity|]. split.
  - destruct (Array2D_at_valid a' x y _ Hwf' eq_refl Hx Hy)
      as (_ & v1 & Hv1 & E1).
    rewrite E1. f_equal. cbn [a' m_width] in Hv1.
    rewrite list_lookup_insert_eq in Hv1 by lia. congruence.
  - intros x' y' [Hx' Hy']%Array2D_IsValidCoord_true Hne.
    destruct (Array2D_at_valid a' x' y' _ Hwf' eq_refl Hx' Hy')
      as (_ & v1 & Hv1 & E1).
    destruct (Array2D_at_valid a x' y' arr Hwf Harr Hx' Hy')
      as (_ & v2 & Hv2 & E2).
    rewrite E1, E2. f_equal. cbn [a' m_width] in Hv1.
    rewrite list_lookup_insert_ne in Hv1; [congruence|].
    intros Heq.
    pose proof (index_bound (m_width a) (m_height a) x' y' Hx' Hy') as [_ Hi'].
    destruct (index_inj (m_width a) x y x' y') as [-> ->]; try lia.
    apply Hne. reflexivity.
Qed.

Lemma Array2D_store_at_witness :
  exists pos a',
    Array2D_Get sample_grid 1 1 = Ok pos /\
    Array2D_store sample_grid pos 50 = Ok a' /\
    Array2D_Width a' = Array2D_Width sample_grid /\
    Array2D_Height a' = Array2D_Height sample_grid /\
    Array2D_at a' 1 1 = Ok 50 /\
    forall x' y', Array2D_IsValidCoord sample_grid x' y' = true ->
                  (x', y') <> (1, 1) ->
                  Array2D_at a' x' y' = Array2D_at sample_grid x' y'.
Proof.
  apply (Array2D_store_at exhausted sample_grid 1 1 50).
  - apply exhausted_sound.
  - apply Array2D_reachable_sample.
  - reflexivity.
Defined.

(** [Resize(p_width, p_height)].  A negative extent changes nothing; an
    extent with a zero releases the block.  For a positive extent whose
    product is an [int], a heap that refuses leaves the array as it was,
    and a heap that grants gives an array of the new extent in which
    every cell that lies within the old extent too holds what it held at
    the same coordinates, and every other cell holds [Datatype{}].  A
    product beyond [INT_MAX] overflows. *)
Theorem Array2D_Resize_keeps_overlap {Datatype : Type} `{Inhabited Datatype}
    (new : heap) (a : Array2D Datatype) (p_width p_height : Z) :
  heap_sound new -> Array2D_reachable new a ->
  (p_width < 0 \/ p_height < 0 ->
   Array2D_Resize new a p_width p_height = Ok a) /\
  (0 <= p_width -> 0 <= p_height -> p_width = 0 \/ p_height = 0 ->
   Array2D_Resize new a p_width p_height = Ok (mkArray2D None 0 0)) /\
  (0 < p_width -> 0 < p_height -> INT_MAX < p_width * p_height ->
   Array2D_Resize new a p_width p_height = Fault) /\
  (0 < p_width -> 0 < p_height -> p_width * p_height <= INT_MAX ->
   match new (p_width * p_height) with
   | None => Array2D_Resize new a p_width p_height = Ok a
   | Some _ =>
       exists a',
         Array2D_Resize new a p_width p_height = Ok a' /\
         Array2D_Width a' = p_width /\ Array2D_Height a' = p_height /\
         forall x y, 0 <= x < p_width -> 0 <= y < p_height ->
           Array2D_at a' x y
           = if decide (x < Array2D_Width a /\ y < Array2D_Height a)
             then Array2D_at a x y else Ok inhabitant
   end).
Proof.
  intros Hnew Hr. unfold Array2D_Width, Array2D_Height.
  pose proof (Array2D_reachable_wf new a Hnew Hr) as Hwf.
  assert (HMin : INT_MIN <= 0) by (unfold INT_MIN; lia).
  split_and!.
  - intros Hneg. unfold Array2D_Resize.
    destruct (decide (p_width < 0 \/ p_height < 0)); [reflexivity | tauto].
  - intros Hpw Hph Hz. unfold Array2D_Resize.
    destruct (decide (p_width < 0 \/ p_height < 0)); [lia|].
    destruct (decide (p_width = 0 \/ p_height = 0)); [reflexivity | tauto].
  - intros Hpw Hph Hov. unfold Array2D_Resize.
    destruct (decide (p_width < 0 \/ p_height < 0)); [lia|].
    destruct (decide (p_width = 0 \/ p_height = 0)); [lia|].
    unfold as_int.
    destruct (decide (INT_MIN <= p_width * p_height <= INT_MAX));
      [lia | reflexivity].
  - intros Hpw Hph HpM.
    destruct (new (p_width * p_height)) as [block|] eqn:En.
    + destruct (Array2D_Resize_run new a p_width p_height block Hwf Hnew
                  Hpw Hph HpM En) as (arr' & E & Hlen & Hcells).
      exists (mkArray2D (Some arr') p_width p_height).
      split; [exact E|]. split; [reflexivity|]. split; [reflexivity|].
      intros x y Hx Hy.
      assert (Hwf' : Array2D_wf (mkArray2D (Some arr') p_width p_height)).
      { unfold Array2D_wf. cbn [m_array2D m_width m_height]. auto. }
      destruct (Array2D_at_valid _ x y arr' Hwf' eq_refl Hx Hy)
        as (_ & v1 & Hv1 & E1).
      cbn [m_width] in Hv1. rewrite E1. rewrite (Hcells x y Hx Hy) in Hv1.
      destruct (decide (x < m_width a /\ y < m_height a)) as [[Hxa Hya]|Hout].
      * destruct (m_array2D a) as [arr|] eqn:Harr;
          [|destruct (Array2D_wf_null a Hwf Harr); lia].
        destruct (Array2D_at_valid a x y arr Hwf Harr ltac:(lia) ltac:(lia))
          as (_ & v2 & Hv2 & E2).
        rewrite E2. f_equal. cbn [cells] in Hv1. congruence.
      * congruence.
    + unfold Array2D_Resize.
      destruct (decide (p_width < 0 \/ p_height < 0)); [lia|].
      destruct (decide (p_width = 0 \/ p_height = 0)); [lia|].
      rewrite as_int_small by nia. cbn [mbind run_bind]. rewrite En.
      reflexivity.
Qed.

Lemma Array2D_Resize_keeps_overlap_witness :
  (2 < 0 \/ 3 < 0 ->
   Array2D_Resize (plentiful 7) sample_grid 2 3 = Ok sample_grid) /\
  (0 <= 2 -> 0 <= 3 -> 2 = 0 \/ 3 = 0 ->
   Array2D_Resize (plentiful 7) sample_grid 2 3 = Ok (mkArray2D None 0 0)) /\
  (0 < 2 -> 0 < 3 -> INT_MAX < 2 * 3 ->
   Array2D_Resize (plentiful 7) sample_grid 2 3 = Fault) /\
  (0 < 2 -> 0 < 3 -> 2 * 3 <= INT_MAX ->
   match plentiful 7 (2 * 3) with
   | None => Array2D_Resize (plentiful 7) sample_grid 2 3 = Ok sample_grid
   | Some _ =>
       exists a',
         Array2D_Resize (plentiful 7) sample_grid 2 3 = Ok a' /\
         Array2D_Width a' = 2 /\ Array2D_Height a' = 3 /\
         forall x y, 0 <= x < 2 -> 0 <= y < 3 ->
           Array2D_at a' x y
           = if decide (x < Array2D_Width sample_grid
                        /\ y < Array2D_Height sample_grid)
             then Array2D_at sample_grid x y else Ok inhabitant
   end).
Proof.
  apply (Array2D_Resize_keeps_overlap (plentiful 7) sample_grid 2 3).
  - apply plentiful_sound.
  - apply Array2D_reachable_sample.
Defined.

(** Filling.  The constructor gives, for a positive extent whose product
    is an [int], an array of that extent with [Datatype{}] in every
    cell, and for any other extent the array without a block; a product
    beyond [INT_MAX] overflows.  [Clear(value)] keeps the extent and
    leaves [value] in every cell; on the array without a block it does
    nothing. *)
Theorem Array2D_fill {Datatype : Type} `{Inhabited Datatype}
    (new : heap) (p_width p_height : Z) :
  heap_sound new ->
  (~ (p_width > 0 /\ p_height > 0) ->
   Array2D_ctor (Datatype:=Datatype) p_width p_height
   = Ok (mkArray2D None 0 0)) /\
  (p_width > 0 -> p_height > 0 -> INT_MAX < p_width * p_height ->
   Array2D_ctor (Datatype:=Datatype) p_width p_height = Fault) /\
  (p_width > 0 -> p_height > 0 -> p_width * p_height <= INT_MAX ->
   exists a : Array2D Datatype,
     Array2D_ctor p_width p_height = Ok a /\
     Array2D_Width a = p_width /\ Array2D_Height a = p_height /\
     Array2D_Size a = Ok (p_width * p_height) /\
     forall x y, Array2D_IsValidCoord a x y = true ->
                 Array2D_at a x y = Ok inhabitant) /\
  (forall (a : Array2D Datatype) (value : Datatype),
     Array2D_reachable new a ->
     exists a',
       Array2D_Clear a value = Ok a' /\
       Array2D_Width a' = Array2D_Width a /\
       Array2D_Height a' = Array2D_Height a /\
       (m_array2D a = None -> a' = a) /\
       forall x y, Array2D_IsValidCoord a x y = true ->
                   Array2D_at a' x y = Ok value).
Proof.
  intros Hnew. unfold Array2D_Width, Array2D_Height.
  assert (HMin : INT_MIN <= 0) by (unfold INT_MIN; lia).
  split_and!.
  - intros Hn. unfold Array2D_ctor.
    destruct (decide (p_width > 0 /\ p_height > 0)); [tauto | reflexivity].
  - intros Hpw Hph Hov. unfold Array2D_ctor.
    destruct (decide (p_width > 0 /\ p_height > 0)); [|lia].
    unfold as_int.
    destruct (decide (INT_MIN <= p_width * p_height <= INT_MAX));
      [lia | reflexivity].
  - intros Hpw Hph HpM.
    assert (Hn0 : 0 <= p_width * p_height) by nia.
    assert (E : Array2D_ctor (Datatype:=Datatype) p_width p_height
                = Ok (mkArray2D (Some (Array_new (p_width * p_height)))
                        p_width p_height)).
    { unfold Array2D_ctor.
      destruct (decide (p_width > 0 /\ p_height > 0)); [|lia].
      rewrite as_int_small by lia. reflexivity. }
    eexists. split; [exact E|].
    pose proof (Array2D_ctor_wf _ _ _ E) as Hwf.
    cbn [m_width m_height]. split_and!; try reflexivity.
    + unfold Array2D_Size. cbn [m_width m_height]. apply as_int_small. lia.
    + intros x y [Hx Hy]%Array2D_IsValidCoord_true. cbn [m_width m_height] in *.
      destruct (Array2D_at_valid _ x y _ Hwf eq_refl Hx Hy)
        as (_ & v & Hv & E1).
      rewrite E1. f_equal. unfold Array_new in Hv.
      apply lookup_replicate_1 in Hv as [-> _]. reflexivity.
  - intros a value Hr.
    pose proof (Array2D_reachable_wf new a Hnew Hr) as Hwf.
    destruct (Array2D_Clear_run a value Hwf)
      as (a' & E & Hw' & Hh' & Harr' & Hwf').
    exists a'. split_and!; try assumption.
    + intros Hnull. rewrite Hnull in Harr'. cbn in Harr'.
      destruct (Array2D_wf_null a Hwf Hnull) as [Hw Hh].
      destruct a' as [arr1 w1 h1], a as [arr0 w0 h0].
      cbn [m_array2D m_width m_height] in *. congruence.
    + intros x y [Hx Hy]%Array2D_IsValidCoord_true.
      destruct (m_array2D a) as [arr|] eqn:Harr;
        [|destruct (Array2D_wf_null a Hwf Harr); lia].
      cbn in Harr'. rewrite <- Hw' in Hx. rewrite <- Hh' in Hy.
      destruct (Array2D_at_valid a' x y _ Hwf' Harr' Hx Hy)
        as (_ & v & Hv & E1).
      rewrite E1. f_equal.
      apply lookup_replicate_1 in Hv as [-> _]. reflexivity.
Qed.

Lemma Array2D_fill_witness :
  (~ (3 > 0 /\ 2 > 0) ->
   Array2D_ctor (Datatype:=Z) 3 2 = Ok (mkArray2D None 0 0)) /\
  (3 > 0 -> 2 > 0 -> INT_MAX < 3 * 2 ->
   Array2D_ctor (Datatype:=Z) 3 2 = Fault) /\
  (3 > 0 -> 2 > 0 -> 3 * 2 <= INT_MAX ->
   exists a : Array2D Z,
     Array2D_ctor 3 2 = Ok a /\
     Array2D_Width a = 3 /\ Array2D_Height a = 2 /\
     Array2D_Size a = Ok (3 * 2) /\
     forall x y, Array2D_IsValidCoord a x y = true ->
                 Array2D_at a x y = Ok inhabitant) /\
  (forall (a : Array2D Z) (value : Z),
     Array2D_reachable exhausted a ->
     exists a',
       Array2D_Clear a value = Ok a' /\
       Array2D_Width a' = Array2D_Width a /\
       Array2D_Height a' = Array2D_Height a /\
       (m_array2D a = None -> a' = a) /\
       forall x y, Array2D_IsValidCoord a x y = true ->
                   Array2D_at a' x y = Ok value).
Proof.
  apply (Array2D_fill exhausted 3 2). apply exhausted_sound.
Defined.
